(** * dataprep2: the cached data pipeline of the title/author extractor

    A shallow embedding of [dataprep2.py]: the percentile functions of the
    corpus statistics, the pretrained-vector table and the combined
    embeddings, the fuzzy-match labeler, the feature engineer and the three
    artifact builders, with the properties the specification states of them.

    Conventions.
    - numpy arrays of floats are lists of rationals ([Q]); arithmetic is
      exact, so a statement about a stored value is a statement about the
      real number the float approximates.  Equality of rationals is [==].
    - Python exceptions are explicit: a function that can raise returns an
      [option] or a result type that names the exception.
    - dictionaries are [gmap]s; a dictionary whose iteration order matters
      is an association list.
    - a Python [str] is the list of its code points ([str]), so that [len]
      counts characters as Python does. *)

From Stdlib Require Import QArith Qabs Lqa List ZArith Lia Bool String Ascii.
From stdpp Require Import gmap strings list fin_maps.

Local Open Scope Q_scope.

(** ** Python helpers *)

(** A Python [str]: its code points. *)
Abbreviation str := (list N).

(** The [str] of an ASCII literal. *)
Definition ascii_str (literal : string) : str :=
  map N_of_ascii (list_ascii_of_string literal).

(** [a[i]] for a Python list or numpy array: a negative index counts from the
    end, and an index outside [-len, len) raises [IndexError] ([None]). *)
Definition py_index {A : Type} (a : list A) (i : Z) : option A :=
  if (0 <=? i)%Z then a !! Z.to_nat i
  else if (- Z.of_nat (length a) <=? i)%Z then a !! Z.to_nat (Z.of_nat (length a) + i)
  else None.

(** The exceptions the pipeline can raise. *)
Inductive exn : Type :=
| AssertionError
| IndexError
| KeyError
| ValueError
| FileNotFoundError
| FileExistsError
| OtherError (message : string)
(** not an exception: the call does not return *)
| NonTermination.

(** The outcome of a call: a value, or a raised exception. *)
Inductive res (A : Type) : Type :=
| Ok (a : A)
| Raise (e : exn).
Arguments Ok {A} a.
Arguments Raise {A} e.

(** Sequencing, written [x ← r; k]: an exception of [r] propagates. *)
#[global] Instance res_bind : MBind res := fun A B k r =>
  match r with
  | Ok a => k a
  | Raise e => Raise e
  end.

#[global] Instance res_ret : MRet res := fun A a => Ok a.

(** [assert b] *)
Definition py_assert (b : bool) : res unit := if b then Ok tt else Raise AssertionError.

(** An [option] whose [None] is the exception [e]. *)
Definition or_raise {A : Type} (e : exn) (o : option A) : res A :=
  match o with
  | Some a => Ok a
  | None => Raise e
  end.

(** A loop that collects what its body returns: the first exception stops it. *)
Fixpoint for_each {A B : Type} (f : A -> res B) (l : list A) : res (list B) :=
  match l with
  | [] => Ok []
  | x :: rest =>
      y ← f x;
      ys ← for_each f rest;
      Ok (y :: ys)
  end.

(** A loop whose body can raise. *)
Fixpoint fold_res {A S : Type} (f : S -> A -> res S) (l : list A) (st : S) : res S :=
  match l with
  | [] => Ok st
  | x :: rest =>
      st ← f st x;
      fold_res f rest st
  end.

Lemma bind_Ok {A B : Type} (r : res A) (k : A -> res B) (b : B) :
  (r ≫= k) = Ok b -> exists a, r = Ok a /\ k a = Ok b.
Proof. destruct r as [a|e]; simpl; [eauto|discriminate]. Qed.

Lemma py_assert_Ok (b : bool) (u : unit) : py_assert b = Ok u -> b = true.
Proof. destruct b; [reflexivity|discriminate]. Qed.

Lemma for_each_Forall {A B : Type} (f : A -> res B) (P : B -> Prop) (l : list A) :
  Forall (fun x => exists y, f x = Ok y /\ P y) l ->
  exists ys, for_each f l = Ok ys /\ Forall P ys.
Proof.
  induction 1 as [|x rest (y & Hy & HP) Hr (ys & Hys & HPs)]; simpl.
  - exists []. split; [reflexivity|constructor].
  - exists (y :: ys). rewrite Hy, Hys. split; [reflexivity|]. constructor; assumption.
Qed.

Definition Qlt_bool (x y : Q) : bool := negb (Qle_bool y x).

Lemma Qlt_bool_iff (x y : Q) : Qlt_bool x y = true <-> x < y.
Proof.
  unfold Qlt_bool. rewrite negb_true_iff.
  split.
  - intros H. apply Qnot_le_lt. intros Hle.
    apply Qle_bool_iff in Hle. congruence.
  - intros H. destruct (Qle_bool y x) eqn:E; [|reflexivity].
    apply Qle_bool_iff in E. exfalso. exact (Qlt_not_le _ _ H E).
Qed.

(** [sum(l)] *)
Definition Qsum (l : list Q) : Q := fold_right Qplus 0 l.

(** ** Corpus statistics: percentile functions *)

Module Percentile.

(** An entry of [cum_values]: the inserted [-np.inf] or a histogram value. *)
Inductive ext : Type :=
| NegInf
| Fin (q : Q).

Definition ext_ltb (a : ext) (v : Q) : bool :=
  match a with
  | NegInf => true
  | Fin q => Qlt_bool q v
  end.

(** [counts.cumsum()] *)
Fixpoint cumsum_from (acc : Q) (counts : list Q) : list Q :=
  match counts with
  | [] => []
  | c :: cs => (acc + c) :: cumsum_from (acc + c) cs
  end.

Definition cumsum (counts : list Q) : list Q := cumsum_from 0 counts.

(** [(np.diff(values) >= 0.0).all()] *)
Fixpoint diff_nonneg (values : list Q) : bool :=
  match values with
  | [] => true
  | x :: rest =>
      match rest with
      | [] => true
      | y :: _ => Qle_bool 0 (y - x) && diff_nonneg rest
      end
  end.

(** [a.searchsorted(v)] with the default [side='left'] on a sorted array:
    the insertion point that keeps [a] sorted, which is the number of leading
    entries strictly below [v]. *)
Fixpoint searchsorted (a : list ext) (v : Q) : nat :=
  match a with
  | [] => 0
  | x :: rest => if ext_ltb x v then S (searchsorted rest v) else 0
  end.

(** [x.clip(lo, hi)], numpy's [minimum(hi, maximum(x, lo))]. *)
Definition clip (x lo hi : Z) : Z := Z.min hi (Z.max x lo).

(** The closure [result] that [percentile_function_from_values_and_counts]
    returns, applied to one scalar of [vs]. *)
Definition result (cum_array : list Q) (cum_values : list ext) (v : Q) : option Q :=
  let indices :=
    clip (Z.of_nat (searchsorted cum_values v)) 1 (Z.of_nat (length cum_values) - 1) in
  let indices_before := (indices - 1)%Z in
  match py_index cum_array indices, py_index cum_array indices_before with
  | Some hi, Some lo => Some ((hi + lo) / 2)
  | _, _ => None
  end.

(** [percentile_function_from_values_and_counts(values, counts)]: [None] when
    the sortedness assertion fails or [cum_array[-1]] raises on empty counts. *)
Definition percentile_function_from_values_and_counts
    (values counts : list Q) : option (Q -> option Q) :=
  if diff_nonneg values then
    let cum_array := cumsum counts in
    match py_index cum_array (-1) with
    | None => None
    | Some total =>
        let cum_array := map (fun c => c / total) cum_array in
        let cum_array := 0 :: cum_array in
        let cum_values := NegInf :: map Fin values in
        Some (result cum_array cum_values)
    end
  else None.

(** The number of leading histogram values strictly below [v]. *)
Definition lead (values : list Q) (v : Q) : nat := searchsorted (map Fin values) v.

(** The mass of the first [k] bins. *)
Definition prefix (counts : list Q) (k : nat) : Q := Qsum (take k counts).

(** One bin per value, in increasing order. *)
Fixpoint strictly_increasing (values : list Q) : Prop :=
  match values with
  | [] => True
  | x :: rest => Forall (fun y => x < y) rest /\ strictly_increasing rest
  end.

(** The index the closure reads: [searchsorted] clipped to [1, n]. *)
Definition bin (values : list Q) (v : Q) : nat :=
  Nat.min (S (lead values v)) (length values).

(** [v] is the value of one of the bins. *)
Definition is_bin_value (values : list Q) (v : Q) : Prop :=
  Exists (fun x => x == v) values.

(** *** Histogram masses, as the specification words them *)

(** The mass of the bins whose value satisfies [sel]. *)
Fixpoint mass (sel : Q -> bool) (hist : list (Q * Q)) : Q :=
  match hist with
  | [] => 0
  | (x, c) :: rest => (if sel x then c else 0) + mass sel rest
  end.

(** Fraction of the mass at values [<= v]. *)
Definition inclusive_percentile (hist : list (Q * Q)) (v : Q) : Q :=
  mass (fun x => Qle_bool x v) hist / Qsum (map snd hist).

(** Fraction of the mass at values strictly [< v]. *)
Definition exclusive_percentile (hist : list (Q * Q)) (v : Q) : Q :=
  mass (fun x => Qlt_bool x v) hist / Qsum (map snd hist).

(** The percentile function of a histogram given as (value, count) pairs. *)
Definition percentile_of_histogram (hist : list (Q * Q)) : option (Q -> option Q) :=
  percentile_function_from_values_and_counts (map fst hist) (map snd hist).

(** The histogram of the comment in [result]: 2 tokens of size 5.0 and 200
    tokens of size 8.0. *)
Definition comment_histogram : list (Q * Q) := [(5, 2); (8, 200)].

(** [x] is [y] up to the tolerance [tol]. *)
Definition approx (tol x y : Q) : Prop := Qabs (x - y) <= tol.

(** Sorted, as the assertion on [values] asks. *)
Fixpoint increasing (values : list Q) : Prop :=
  match values with
  | [] => True
  | x :: rest => Forall (fun y => x <= y) rest /\ increasing rest
  end.

Lemma cumsum_from_length acc cs : length (cumsum_from acc cs) = length cs.
Proof.
  revert acc. induction cs as [|c cs IH]; intros acc; simpl; [reflexivity|].
  now rewrite IH.
Qed.

Lemma cumsum_from_lookup cs : forall acc k q,
  cumsum_from acc cs !! k = Some q -> q == acc + prefix cs (S k).
Proof.
  induction cs as [|c cs IH]; intros acc k q H; simpl in H.
  - discriminate.
  - destruct k as [|k]; simpl in H.
    + injection H as <-. unfold prefix. simpl. ring.
    + apply IH in H. rewrite H. unfold prefix. simpl. ring.
Qed.

Lemma py_index_nat {A} (a : list A) (k : nat) : py_index a (Z.of_nat k) = a !! k.
Proof.
  unfold py_index.
  destruct (Z.leb_spec 0 (Z.of_nat k)); [|lia].
  now rewrite Nat2Z.id.
Qed.

Lemma py_index_minus_one {A} (a : list A) :
  py_index a (-1) = match a with [] => None | _ => a !! (length a - 1)%nat end.
Proof.
  unfold py_index. simpl (0 <=? -1)%Z.
  destruct a as [|x a]; [reflexivity|].
  destruct (Z.leb_spec (- Z.of_nat (length (x :: a))) (-1)) as [_|H].
  - f_equal. simpl length. lia.
  - simpl length in H. lia.
Qed.

Lemma prefix_all cs k : (length cs <= k)%nat -> prefix cs k = Qsum cs.
Proof. intros H. unfold prefix. now rewrite take_ge. Qed.

Lemma total_spec counts total :
  py_index (cumsum counts) (-1) = Some total -> counts <> [] /\ total == Qsum counts.
Proof.
  rewrite py_index_minus_one. unfold cumsum.
  destruct counts as [|c cs]; [discriminate|].
  intros H. split; [discriminate|].
  rewrite cumsum_from_length in H.
  apply cumsum_from_lookup in H. rewrite H.
  rewrite prefix_all by (simpl; lia). ring.
Qed.

Lemma cum_array_lookup counts total k :
  (k <= length counts)%nat ->
  exists q, (0 :: map (fun c => c / total) (cumsum counts)) !! k = Some q
            /\ q == prefix counts k / total.
Proof.
  intros Hk. destruct k as [|k].
  - exists 0. split; [reflexivity|]. unfold prefix. simpl. unfold Qdiv. ring.
  - simpl. destruct (cumsum counts !! k) as [c|] eqn:E.
    + exists (c / total). rewrite list_lookup_fmap, E. split; [reflexivity|].
      apply cumsum_from_lookup in E. rewrite E. apply Qdiv_comp; [ring|reflexivity].
    + apply lookup_ge_None in E. unfold cumsum in E.
      rewrite cumsum_from_length in E. lia.
Qed.

Lemma searchsorted_cum_values values v :
  searchsorted (NegInf :: map Fin values) v = S (lead values v).
Proof. reflexivity. Qed.

Lemma lead_le_length values v : (lead values v <= length values)%nat.
Proof.
  unfold lead. induction values as [|x rest IH]; simpl; [lia|].
  destruct (Qlt_bool x v); simpl; lia.
Qed.

(** What the built function computes, in terms of bin masses. *)
Lemma percentile_function_char values counts f :
  length values = length counts ->
  percentile_function_from_values_and_counts values counts = Some f ->
  forall v, exists q, f v = Some q /\
    q == (prefix counts (bin values v) / Qsum counts
          + prefix counts (bin values v - 1) / Qsum counts) / 2.
Proof.
  intros Hlen Hf v.
  unfold percentile_function_from_values_and_counts in Hf.
  destruct (diff_nonneg values); [|discriminate].
  destruct (py_index (cumsum counts) (-1)) as [total|] eqn:Ht; [|discriminate].
  injection Hf as <-.
  apply total_spec in Ht. destruct Ht as [Hne Ht].
  assert (Hn : (1 <= length values)%nat).
  { rewrite Hlen. destruct counts; [congruence|simpl; lia]. }
  unfold result. rewrite searchsorted_cum_values.
  simpl length. rewrite length_map.
  pose proof (lead_le_length values v) as Hl.
  assert (Hclip : clip (Z.of_nat (S (lead values v))) 1 (Z.of_nat (S (length values)) - 1)
                  = Z.of_nat (bin values v)).
  { unfold clip, bin. lia. }
  rewrite Hclip.
  assert (Hb : (1 <= bin values v <= length values)%nat) by (unfold bin; lia).
  replace (Z.of_nat (bin values v) - 1)%Z with (Z.of_nat (bin values v - 1)) by lia.
  rewrite !py_index_nat.
  destruct (cum_array_lookup counts total (bin values v)) as (hi & Ehi & Hhi); [lia|].
  destruct (cum_array_lookup counts total (bin values v - 1)) as (lo & Elo & Hlo); [lia|].
  rewrite Ehi, Elo. eexists. split; [reflexivity|].
  rewrite Hhi, Hlo, Ht. reflexivity.
Qed.

Lemma percentile_function_defined values counts :
  diff_nonneg values = true -> counts <> [] ->
  exists f, percentile_function_from_values_and_counts values counts = Some f.
Proof.
  intros Hs Hne. unfold percentile_function_from_values_and_counts.
  rewrite Hs, py_index_minus_one.
  destruct (cumsum counts) as [|c cs] eqn:E.
  - destruct counts; [congruence|discriminate].
  - rewrite <- E. destruct (cumsum counts !! (length (cumsum counts) - 1)%nat) eqn:E2.
    + eexists. reflexivity.
    + apply lookup_ge_None in E2. rewrite E in E2. simpl in E2. lia.
Qed.

Lemma strictly_increasing_increasing values :
  strictly_increasing values -> increasing values.
Proof.
  induction values as [|x rest IH]; simpl; [trivial|].
  intros [Hx Hr]. split; [|auto].
  eapply Forall_impl; [exact Hx|]. intros y Hy. apply Qlt_le_weak, Hy.
Qed.

Lemma increasing_diff_nonneg values : increasing values -> diff_nonneg values = true.
Proof.
  induction values as [|x rest IH]; [reflexivity|].
  intros [Hx Hr]. destruct rest as [|y rest']; [reflexivity|].
  change (Qle_bool 0 (y - x) && diff_nonneg (y :: rest') = true).
  rewrite (IH Hr), andb_true_r. apply Qle_bool_iff.
  inversion Hx; subst. lra.
Qed.

Lemma diff_nonneg_increasing values : diff_nonneg values = true -> increasing values.
Proof.
  induction values as [|x rest IH]; [simpl; trivial|].
  intros H. destruct rest as [|y rest'].
  - simpl. split; [constructor|trivial].
  - change (Qle_bool 0 (y - x) && diff_nonneg (y :: rest') = true) in H.
    apply andb_true_iff in H. destruct H as [Hxy Hr].
    apply Qle_bool_iff in Hxy. specialize (IH Hr).
    split; [|exact IH]. destruct IH as [Hy _].
    constructor; [lra|].
    eapply Forall_impl; [exact Hy|]. intros z Hz. simpl in Hz. lra.
Qed.

Lemma Qsum_app l1 l2 : Qsum (l1 ++ l2) == Qsum l1 + Qsum l2.
Proof. induction l1 as [|x l1 IH]; simpl; [ring|]. rewrite IH. ring. Qed.

Lemma mass_none sel hist :
  Forall (fun y => sel y = false) (map fst hist) -> mass sel hist == 0.
Proof.
  induction hist as [|[x c] rest IH]; simpl; [reflexivity|].
  intros H. inversion H as [|? ? Hx Hr]; subst. simpl in Hx.
  rewrite Hx, (IH Hr). ring.
Qed.

Lemma prefix_cons c cs k : prefix (c :: cs) (S k) = c + prefix cs k.
Proof. reflexivity. Qed.

Lemma lead_cons x rest v :
  lead (x :: rest) v = if Qlt_bool x v then S (lead rest v) else 0%nat.
Proof. reflexivity. Qed.

(** On a sorted histogram the leading bins below [v] are all the bins below [v]. *)
Lemma mass_lt_prefix hist v :
  increasing (map fst hist) ->
  mass (fun x => Qlt_bool x v) hist == prefix (map snd hist) (lead (map fst hist) v).
Proof.
  induction hist as [|[x c] rest IH]; [reflexivity|].
  cbn [map fst snd]. intros [Hx Hr]. rewrite lead_cons. cbn [mass].
  destruct (Qlt_bool x v) eqn:E.
  - rewrite prefix_cons, (IH Hr). reflexivity.
  - rewrite mass_none; [unfold prefix; simpl; ring|].
    eapply Forall_impl; [exact Hx|]. intros y Hy. simpl in Hy.
    destruct (Qlt_bool y v) eqn:E2; [|reflexivity].
    apply Qlt_bool_iff in E2.
    assert (x < v) as Hlt by lra. apply Qlt_bool_iff in Hlt. congruence.
Qed.

Lemma mass_le_prefix hist v :
  strictly_increasing (map fst hist) ->
  is_bin_value (map fst hist) v ->
  mass (fun x => Qle_bool x v) hist == prefix (map snd hist) (S (lead (map fst hist) v)).
Proof.
  unfold is_bin_value.
  induction hist as [|[x c] rest IH]; cbn [map fst snd].
  - intros _ H. inversion H.
  - intros [Hx Hr] Hin. rewrite lead_cons. cbn [mass].
    destruct (Qlt_bool x v) eqn:E.
    + apply Qlt_bool_iff in E.
      assert (Qle_bool x v = true) as -> by (apply Qle_bool_iff; lra).
      rewrite prefix_cons, IH; [reflexivity|exact Hr|].
      inversion Hin as [? ? Hxv|? ? Hrest]; subst; [lra|exact Hrest].
    + assert (~ x < v) as Hnlt by (rewrite <- Qlt_bool_iff; congruence).
      assert (x == v) as Hxv.
      { inversion Hin as [? ? Hxv|? ? Hrest]; subst; [exact Hxv|].
        exfalso. apply Exists_exists in Hrest. destruct Hrest as (y & Hy & Hyv).
        rewrite Forall_forall in Hx. specialize (Hx y Hy). simpl in Hx. lra. }
      assert (Qle_bool x v = true) as -> by (apply Qle_bool_iff; lra).
      rewrite mass_none; [unfold prefix; simpl; ring|].
      eapply Forall_impl; [exact Hx|]. intros y Hy. simpl in Hy.
      destruct (Qle_bool y v) eqn:E2; [|reflexivity].
      apply Qle_bool_iff in E2. lra.
Qed.

Lemma lead_lt_length values v :
  Exists (fun x => v <= x) values -> (lead values v < length values)%nat.
Proof.
  induction values as [|x rest IH]; intros H; [inversion H|].
  rewrite lead_cons. simpl length.
  destruct (Qlt_bool x v) eqn:E; [|lia].
  apply Qlt_bool_iff in E.
  inversion H as [? ? Hxv|? ? Hrest]; subst; [lra|].
  specialize (IH Hrest). lia.
Qed.

Lemma lead_mono values u v : u <= v -> (lead values u <= lead values v)%nat.
Proof.
  intros Huv. induction values as [|x rest IH]; [reflexivity|].
  rewrite !lead_cons. destruct (Qlt_bool x u) eqn:E; [|lia].
  apply Qlt_bool_iff in E.
  assert (x < v) as Hlt by lra. apply Qlt_bool_iff in Hlt. rewrite Hlt. lia.
Qed.

Lemma bin_mono values u v : u <= v -> (bin values u <= bin values v)%nat.
Proof. intros H. unfold bin. pose proof (lead_mono values u v H). lia. Qed.

Lemma prefix_mono counts :
  Forall (fun c => 0 <= c) counts ->
  forall k k', (k <= k')%nat -> prefix counts k <= prefix counts k'.
Proof.
  induction 1 as [|c cs Hc Hcs IH]; intros k k' Hk.
  - unfold prefix. rewrite !take_nil. lra.
  - destruct k as [|k].
    + clear Hk. change (prefix (c :: cs) 0) with 0.
      destruct k' as [|k']; [change (prefix (c :: cs) 0) with 0; lra|].
      rewrite prefix_cons.
      assert (0 <= prefix cs k').
      { specialize (IH 0%nat k' ltac:(lia)). unfold prefix at 1 in IH.
        rewrite firstn_O in IH. exact IH. }
      lra.
    + destruct k' as [|k']; [lia|]. rewrite !prefix_cons.
      specialize (IH k k' ltac:(lia)). lra.
Qed.

Lemma prefix_nonneg counts k : Forall (fun c => 0 <= c) counts -> 0 <= prefix counts k.
Proof.
  intros H. pose proof (prefix_mono counts H 0%nat k ltac:(lia)) as Hm.
  unfold prefix at 1 in Hm. rewrite firstn_O in Hm. exact Hm.
Qed.

Lemma prefix_le_total counts k :
  Forall (fun c => 0 <= c) counts -> prefix counts k <= Qsum counts.
Proof.
  intros H. destruct (Nat.le_gt_cases k (length counts)) as [Hk|Hk].
  - rewrite <- (prefix_all counts (length counts)) by lia. now apply prefix_mono.
  - rewrite prefix_all by lia. lra.
Qed.

Lemma Qdiv_le_mono a b t : 0 < t -> a <= b -> a / t <= b / t.
Proof.
  intros Ht Hab. unfold Qdiv. apply Qmult_le_compat_r; [exact Hab|].
  apply Qinv_le_0_compat. lra.
Qed.

Lemma percentile_function_range values counts f :
  length values = length counts ->
  Forall (fun c => 0 <= c) counts -> 0 < Qsum counts ->
  percentile_function_from_values_and_counts values counts = Some f ->
  forall v, exists q, f v = Some q /\ 0 <= q <= 1.
Proof.
  intros Hlen Hc Ht Hf v.
  destruct (percentile_function_char values counts f Hlen Hf v) as (q & Hq & E).
  exists q. split; [exact Hq|]. rewrite E.
  pose proof (prefix_nonneg counts (bin values v) Hc) as H1.
  pose proof (prefix_nonneg counts (bin values v - 1) Hc) as H2.
  pose proof (prefix_le_total counts (bin values v) Hc) as H3.
  pose proof (prefix_le_total counts (bin values v - 1) Hc) as H4.
  apply (Qdiv_le_mono _ _ _ Ht) in H1, H2, H3, H4.
  assert (Qsum counts / Qsum counts == 1) as E1 by (field; lra).
  assert (0 / Qsum counts == 0) as E0 by (field; lra).
  rewrite E1 in H3, H4. rewrite E0 in H1, H2.
  set (a := prefix counts (bin values v) / Qsum counts) in *.
  set (b := prefix counts (bin values v - 1) / Qsum counts) in *.
  split.
  - apply Qle_shift_div_l; lra.
  - apply Qle_shift_div_r; lra.
Qed.

Lemma positive_total_nonempty (counts : list Q) : 0 < Qsum counts -> counts <> [].
Proof. intros H ->. simpl in H. lra. Qed.

Lemma percentile_of_histogram_defined hist :
  increasing (map fst hist) -> 0 < Qsum (map snd hist) ->
  exists f, percentile_of_histogram hist = Some f.
Proof.
  intros Hs Ht. apply percentile_function_defined.
  - now apply increasing_diff_nonneg.
  - now apply positive_total_nonempty.
Qed.

Lemma strictly_increasing_snoc vals x :
  strictly_increasing (vals ++ [x]) -> Forall (fun y => y < x) vals.
Proof.
  induction vals as [|y vals IH]; simpl; [constructor|].
  intros [Hy Hr]. constructor; [|auto].
  rewrite Forall_forall in Hy. apply Hy. set_solver.
Qed.

Lemma lead_snoc vals x :
  Forall (fun y => y < x) vals -> lead (vals ++ [x]) x = length vals.
Proof.
  induction 1 as [|y vals Hy Hr IH].
  - simpl. rewrite lead_cons.
    assert (Qlt_bool x x = false) as ->; [|reflexivity].
    destruct (Qlt_bool x x) eqn:E; [|reflexivity]. apply Qlt_bool_iff in E. lra.
  - simpl. rewrite lead_cons. apply Qlt_bool_iff in Hy. rewrite Hy, IH. reflexivity.
Qed.

(** C4 (as amended): on a histogram with one bin per value in increasing
    order and positive total count, the built percentile function is defined,
    and at every query value that is the value of a bin it returns the average
    of that value's inclusive and exclusive cumulative-frequency percentile. *)
Theorem percentile_midrank_at_bin_values (hist : list (Q * Q)) :
  strictly_increasing (map fst hist) ->
  0 < Qsum (map snd hist) ->
  exists f, percentile_of_histogram hist = Some f /\
    forall v, is_bin_value (map fst hist) v ->
      exists q, f v = Some q /\
        q == (inclusive_percentile hist v + exclusive_percentile hist v) / 2.
Proof.
  intros Hs Ht.
  pose proof (strictly_increasing_increasing _ Hs) as Hinc.
  destruct (percentile_of_histogram_defined hist Hinc Ht) as [f Hf].
  exists f. split; [exact Hf|]. intros v Hv.
  unfold percentile_of_histogram in Hf.
  assert (Hlen : length (map fst hist) = length (map snd hist))
    by now rewrite !length_map.
  destruct (percentile_function_char _ _ f Hlen Hf v) as (q & Hq & E).
  exists q. split; [exact Hq|]. rewrite E.
  assert (Hb : bin (map fst hist) v = S (lead (map fst hist) v)).
  { unfold bin. assert (lead (map fst hist) v < length (map fst hist))%nat; [|lia].
    apply lead_lt_length. unfold is_bin_value in Hv.
    eapply Exists_impl; [exact Hv|]. intros x Hx. simpl in Hx. lra. }
  rewrite Hb. replace (S (lead (map fst hist) v) - 1)%nat with (lead (map fst hist) v) by lia.
  unfold inclusive_percentile, exclusive_percentile.
  rewrite (mass_le_prefix hist v Hs Hv), (mass_lt_prefix hist v Hinc).
  reflexivity.
Qed.

(** C5 (as amended): on a histogram with one bin per value in increasing
    order, non-negative counts and positive total count, the percentile
    function is non-decreasing; at the minimum value it returns half the
    relative mass of the lowest bin, and at the maximum value one minus half
    the relative mass of the highest bin. *)
Theorem percentile_monotone_midrank_endpoints (hist : list (Q * Q)) :
  strictly_increasing (map fst hist) ->
  Forall (fun c => 0 <= c) (map snd hist) ->
  0 < Qsum (map snd hist) ->
  exists f, percentile_of_histogram hist = Some f /\
    (forall u v, u <= v -> exists p q, f u = Some p /\ f v = Some q /\ p <= q) /\
    (forall x c, head hist = Some (x, c) ->
       exists q, f x = Some q /\ q == c / (2 * Qsum (map snd hist))) /\
    (forall x c, last hist = Some (x, c) ->
       exists q, f x = Some q /\ q == 1 - c / (2 * Qsum (map snd hist))).
Proof.
  intros Hs Hc Ht.
  pose proof (strictly_increasing_increasing _ Hs) as Hinc.
  destruct (percentile_of_histogram_defined hist Hinc Ht) as [f Hf].
  exists f. split; [exact Hf|].
  unfold percentile_of_histogram in Hf.
  assert (Hlen : length (map fst hist) = length (map snd hist))
    by now rewrite !length_map.
  pose proof (percentile_function_char _ _ f Hlen Hf) as Hchar.
  set (T := Qsum (map snd hist)) in *.
  split; [|split].
  - intros u v Huv.
    destruct (Hchar u) as (p & Hp & Ep). destruct (Hchar v) as (q & Hq & Eq).
    exists p, q. split; [exact Hp|]. split; [exact Hq|]. rewrite Ep, Eq.
    pose proof (bin_mono (map fst hist) u v Huv) as Hb.
    pose proof (prefix_mono _ Hc _ _ Hb) as H1.
    pose proof (prefix_mono _ Hc (bin (map fst hist) u - 1)%nat
                  (bin (map fst hist) v - 1)%nat ltac:(lia)) as H2.
    apply (Qdiv_le_mono _ _ _ Ht) in H1, H2.
    apply Qdiv_le_mono; lra.
  - intros x c Hhd. destruct hist as [|[x' c'] rest]; [discriminate|].
    injection Hhd as -> ->.
    destruct (Hchar x) as (q & Hq & Eq). exists q. split; [exact Hq|].
    rewrite Eq. cbn [map fst snd].
    assert (Hb : bin (x :: map fst rest) x = 1%nat).
    { unfold bin. rewrite lead_cons.
      assert (Qlt_bool x x = false) as ->; [|simpl; lia].
      destruct (Qlt_bool x x) eqn:E; [|reflexivity]. apply Qlt_bool_iff in E. lra. }
    rewrite Hb. unfold prefix. simpl. field. lra.
  - intros x c Hlast.
    apply last_Some in Hlast. destruct Hlast as [h ->]. subst T.
    destruct (Hchar x) as (q & Hq & Eq). exists q. split; [exact Hq|].
    rewrite Eq. rewrite !map_app in *. cbn [map fst snd] in *.
    assert (Hb : bin (map fst h ++ [x]) x = S (length h)).
    { unfold bin. rewrite lead_snoc by now apply strictly_increasing_snoc.
      rewrite length_app, length_map. simpl length. lia. }
    rewrite Hb. replace (S (length h) - 1)%nat with (length (map snd h))
      by (rewrite length_map; lia).
    rewrite prefix_all by (rewrite length_app, length_map; simpl; lia).
    unfold prefix. rewrite take_app_length.
    assert (ET : Qsum (map snd h ++ [c]) == Qsum (map snd h) + c).
    { rewrite Qsum_app. simpl. ring. }
    rewrite ET in Ht |- *. field. lra.
Qed.

Lemma comment_histogram_strict : strictly_increasing (map fst comment_histogram).
Proof. simpl. repeat split; repeat constructor. Qed.

Lemma comment_histogram_total : 0 < Qsum (map snd comment_histogram).
Proof. reflexivity. Qed.

(** C4, witness: the theorem at the comment's histogram and the bin value 8. *)
Lemma percentile_midrank_at_bin_values_witness :
  exists f, percentile_of_histogram comment_histogram = Some f /\
    exists q, f 8 = Some q /\
      q == (inclusive_percentile comment_histogram 8
            + exclusive_percentile comment_histogram 8) / 2.
Proof.
  destruct (percentile_midrank_at_bin_values comment_histogram
              comment_histogram_strict comment_histogram_total) as (f & Hf & H).
  exists f. split; [exact Hf|]. apply H.
  unfold is_bin_value. simpl. right. left. reflexivity.
Defined.

(** C4, counterexample: at the query value 6, which lies between the two bins
    of the comment's histogram, the function returns 51/101 while the average
    of the inclusive and exclusive percentiles of 6 is 1/101. *)
Lemma percentile_between_bins_not_midrank :
  exists f q, percentile_of_histogram comment_histogram = Some f /\
    f 6 = Some q /\ q == 51 # 101 /\
    (inclusive_percentile comment_histogram 6
     + exclusive_percentile comment_histogram 6) / 2 == 1 # 101 /\
    ~ q == (inclusive_percentile comment_histogram 6
            + exclusive_percentile comment_histogram 6) / 2.
Proof.
  eexists _, _. split; [reflexivity|]. split; [reflexivity|].
  split; [vm_compute; reflexivity|]. split; [vm_compute; reflexivity|].
  intros H. vm_compute in H. discriminate H.
Qed.

(** C5, witness: the theorem at the comment's histogram, between its bins. *)
Lemma percentile_monotone_midrank_endpoints_witness :
  exists f, percentile_of_histogram comment_histogram = Some f /\
    exists p q, f 5 = Some p /\ f 8 = Some q /\ p <= q.
Proof.
  destruct (percentile_monotone_midrank_endpoints comment_histogram
              comment_histogram_strict
              ltac:(simpl; repeat constructor; discriminate)
              comment_histogram_total) as (f & Hf & Hmono & _).
  exists f. split; [exact Hf|]. apply Hmono. discriminate.
Defined.

(** C5, counterexample: at the maximum value 8 of the comment's histogram the
    function returns 51/101, which is not 1 even up to a tolerance of 1/4; and
    on a histogram of one bin the minimum and the maximum are the same value,
    where the function returns 1/2. *)
Lemma percentile_at_maximum_not_one :
  (exists f q, percentile_of_histogram comment_histogram = Some f /\
     f 8 = Some q /\ q == 51 # 101 /\ ~ approx (1 # 4) q 1) /\
  (exists f q, percentile_of_histogram [(8, 200)] = Some f /\
     f 8 = Some q /\ q == 1 # 2 /\ ~ approx (1 # 4) q 0 /\ ~ approx (1 # 4) q 1).
Proof.
  split.
  - eexists _, _. split; [reflexivity|]. split; [reflexivity|].
    split; [vm_compute; reflexivity|].
    intros H. vm_compute in H. apply H. reflexivity.
  - eexists _, _. split; [reflexivity|]. split; [reflexivity|].
    split; [vm_compute; reflexivity|].
    split; intros H; vm_compute in H; apply H; reflexivity.
Qed.

End Percentile.

(** ** Sorting and [np.unique] *)

Module Sorting.

Section InsertionSort.
Context {A : Type} (leb : A -> A -> bool).

Fixpoint insert_sorted (x : A) (l : list A) : list A :=
  match l with
  | [] => [x]
  | y :: rest => if leb x y then x :: l else y :: insert_sorted x rest
  end.

(** [a.sort()]: the result only depends on the order [leb]. *)
Definition sort (l : list A) : list A := fold_right insert_sorted [] l.

Fixpoint sorted (l : list A) : Prop :=
  match l with
  | [] => True
  | x :: rest => Forall (fun y => leb x y = true) rest /\ sorted rest
  end.

Hypothesis leb_total : forall x y, leb x y = true \/ leb y x = true.
Hypothesis leb_trans : forall x y z, leb x y = true -> leb y z = true -> leb x z = true.

Lemma insert_sorted_Forall (P : A -> Prop) x l :
  P x -> Forall P l -> Forall P (insert_sorted x l).
Proof.
  intros Hx. induction 1 as [|y rest Hy Hr IH]; simpl.
  - repeat constructor. exact Hx.
  - destruct (leb x y); repeat constructor; assumption.
Qed.

Lemma insert_sorted_sorted x l : sorted l -> sorted (insert_sorted x l).
Proof.
  induction l as [|y rest IH]; simpl.
  - intros _. split; [constructor|trivial].
  - intros [Hy Hr]. destruct (leb x y) eqn:E.
    + simpl. split; [|split; assumption].
      constructor; [exact E|].
      eapply Forall_impl; [exact Hy|]. intros z Hz. simpl in Hz. eauto.
    + simpl. split; [|auto].
      apply insert_sorted_Forall; [|exact Hy].
      destruct (leb_total x y) as [H|H]; [congruence|exact H].
Qed.

Lemma sort_sorted l : sorted (sort l).
Proof.
  induction l as [|x l IH]; simpl; [trivial|].
  now apply insert_sorted_sorted.
Qed.

Lemma insert_sorted_length x l : length (insert_sorted x l) = S (length l).
Proof.
  induction l as [|y rest IH]; simpl; [reflexivity|].
  destruct (leb x y); simpl; [reflexivity|now rewrite IH].
Qed.

Lemma sort_length l : length (sort l) = length l.
Proof.
  induction l as [|x l IH]; simpl; [reflexivity|].
  now rewrite insert_sorted_length, IH.
Qed.
End InsertionSort.

(** Run-length encoding of a sorted array: the distinct values and how often
    each occurs. *)
Fixpoint unique_counts (l : list Q) : list (Q * Q) :=
  match l with
  | [] => []
  | x :: rest =>
      match unique_counts rest with
      | [] => [(x, 1)]
      | (y, c) :: tl => if Qeq_bool x y then (y, c + 1) :: tl else (x, 1) :: (y, c) :: tl
      end
  end.

(** [np.unique(values, return_counts=True)] *)
Definition np_unique (values : list Q) : list Q * list Q :=
  let uc := unique_counts (sort Qle_bool values) in
  (map fst uc, map snd uc).

(** The order of [np.sort] on a structured array of two float fields. *)
Definition pair_leb (a b : Q * Q) : bool :=
  Qlt_bool (fst a) (fst b) || (Qeq_bool (fst a) (fst b) && Qle_bool (snd a) (snd b)).

Lemma Qle_bool_total x y : Qle_bool x y = true \/ Qle_bool y x = true.
Proof.
  destruct (Qlt_le_dec x y) as [H|H].
  - left. apply Qle_bool_iff. lra.
  - right. now apply Qle_bool_iff.
Qed.

Lemma Qle_bool_trans x y z :
  Qle_bool x y = true -> Qle_bool y z = true -> Qle_bool x z = true.
Proof. rewrite !Qle_bool_iff. lra. Qed.

Lemma pair_leb_fst a b : pair_leb a b = true -> fst a <= fst b.
Proof.
  unfold pair_leb. intros H. apply orb_true_iff in H. destruct H as [H|H].
  - apply Qlt_bool_iff in H. lra.
  - apply andb_true_iff in H. destruct H as [H _]. apply Qeq_bool_iff in H. lra.
Qed.

Lemma pair_leb_total a b : pair_leb a b = true \/ pair_leb b a = true.
Proof.
  unfold pair_leb.
  destruct (Qlt_bool (fst a) (fst b)) eqn:E1; [now left|].
  destruct (Qlt_bool (fst b) (fst a)) eqn:E2; [now right|].
  assert (~ fst a < fst b) as H1 by (rewrite <- Qlt_bool_iff; congruence).
  assert (~ fst b < fst a) as H2 by (rewrite <- Qlt_bool_iff; congruence).
  assert (fst a == fst b) as He by lra.
  assert (Qeq_bool (fst a) (fst b) = true) as -> by now apply Qeq_bool_iff.
  assert (Qeq_bool (fst b) (fst a) = true) as -> by (apply Qeq_bool_iff; lra).
  simpl. apply Qle_bool_total.
Qed.

Lemma pair_leb_trans a b c :
  pair_leb a b = true -> pair_leb b c = true -> pair_leb a c = true.
Proof.
  unfold pair_leb. intros H1 H2.
  apply orb_true_iff in H1. apply orb_true_iff in H2. apply orb_true_iff.
  rewrite !andb_true_iff, !Qlt_bool_iff, !Qeq_bool_iff, !Qle_bool_iff in *.
  destruct H1 as [H1|[H1 H1']], H2 as [H2|[H2 H2']].
  - left. lra.
  - left. lra.
  - left. lra.
  - right. split; lra.
Qed.

Lemma sorted_Qle_increasing l : sorted Qle_bool l -> Percentile.increasing l.
Proof.
  induction l as [|x rest IH]; simpl; [trivial|].
  intros [Hx Hr]. split; [|auto].
  eapply Forall_impl; [exact Hx|]. intros y Hy. now apply Qle_bool_iff.
Qed.

Lemma sorted_pairs_increasing l :
  sorted pair_leb l -> Percentile.increasing (map fst l).
Proof.
  induction l as [|x rest IH]; simpl; [trivial|].
  intros [Hx Hr]. split; [|auto].
  apply Forall_fmap. eapply Forall_impl; [exact Hx|].
  intros y Hy. now apply pair_leb_fst.
Qed.

End Sorting.

(** ** The libraries the pipeline calls

    [str.lower], [unicodedata.normalize], [mmh3.hash], numpy's generator and
    standard deviation and the [stringmatch] extension are not part of
    [dataprep2.py]; the development is parametric in them. *)

(** What [stringmatch.match(needle, haystack)] returns. *)
Record MatchResult : Type := {
  start_pos : nat;
  end_pos : nat;
  cost : nat
}.

Class Externals : Type := {
  (** [s.lower()] *)
  str_lower : str -> str;
  (** [unicodedata.normalize("NFKC", s)] *)
  unicodedata_normalize_NFKC : str -> str;
  (** [mmh3.hash(s)], a signed 32-bit integer *)
  mmh3_hash : str -> Z;
  (** [np.std(vectors)] *)
  np_std : list (list Q) -> Q;
  (** the [k]-th standard normal draw of [np.random.RandomState(seed)] *)
  standard_normal : Z -> nat -> Q;
  (** the character classes [\w], [\d] and [\s] of [re] *)
  re_word : N -> bool;
  re_digit : N -> bool;
  re_space : N -> bool;
  (** the built-in [hash] of a tuple of integers *)
  py_hash : list Z -> Z;
  (** [os.path.basename(path)] *)
  os_path_basename : str -> str;
  (** [stringmatch.match(needle, haystack)]: the cheapest fuzzy match *)
  stringmatch_match : str -> str -> MatchResult;
  (** [stringmatch.capitalization_features(token)] *)
  capitalization_features : str -> list Q;
  (** what the [uint32] dataset that [h5py] creates from an [int32] array
      holds for a negative value of the array *)
  h5_uint32_of_negative : Z -> Z
}.

(** [normalize(s)] *)
Definition normalize `{Externals} (s : str) : str :=
  let s := str_lower s in
  let s := unicodedata_normalize_NFKC s in
  s.

(** ** The records of the artifacts *)

(** A row of [token_text_features] and of [token_numeric_features]. *)
Record Token : Type := {
  tok_text : str;
  tok_font : str;
  tok_left : Q;
  tok_right : Q;
  tok_top : Q;
  tok_bottom : Q;
  tok_font_size : Q;
  tok_font_space_width : Q
}.

(** A page of [doc_metadata] with the token rows its
    [first_token_index] and [token_count] delimit. *)
Record Page : Type := {
  page_width : Q;
  page_height : Q;
  page_tokens : list Token
}.

(** A document of the unlabeled artifact. *)
Record Doc : Type := {
  doc_id : str;
  doc_sha : str;
  doc_pages : list Page
}.

(** ** Corpus statistics *)

Module TokenStatistics.

(** The statistics file as [load_stats_file_no_coordinates] returns it: the
    dictionaries [texts], [font_sizes] and [space_widths] in insertion order
    (the font dictionary is not used). *)
Record StatsFile : Type := {
  texts : list (str * nat);
  font_sizes : list (Q * Q);
  space_widths : list (Q * Q)
}.

(** [d[key] = d.get(key, 0) + n] on an insertion-ordered dictionary. *)
Fixpoint dict_add (d : list (str * nat)) (key : str) (n : nat) : list (str * nat) :=
  match d with
  | [] => [(key, n)]
  | (k, old) :: rest =>
      if bool_decide (k = key) then (k, (old + n)%nat) :: rest
      else (k, old) :: dict_add rest key n
  end.

(** [self.tokens] after [_ensure_loaded]: counts merged by normalized token,
    sorted by descending count (the sort is stable). *)
Definition tokens `{Externals} (f : StatsFile) : list (str * nat) :=
  let merged :=
    fold_left (fun d '(token, new_count) => dict_add d (normalize token) new_count)
              (texts f) [] in
  Sorting.sort (fun x y => (snd y <=? snd x)%nat) merged.

(** [get_tokens_with_minimum_frequency(min_freq)] *)
Fixpoint tokens_while (min_freq : nat) (l : list (str * nat)) : list str :=
  match l with
  | [] => []
  | (token, count) :: rest =>
      if (count <? min_freq)%nat then [] else token :: tokens_while min_freq rest
  end.

Definition get_tokens_with_minimum_frequency `{Externals}
    (f : StatsFile) (min_freq : nat) : list str :=
  tokens_while min_freq (tokens f).

(** [percentile_function_from_counts(counts)] *)
Definition percentile_function_from_counts (counts : list (Q * Q)) : option (Q -> option Q) :=
  let cum_array := Sorting.sort Sorting.pair_leb counts in
  Percentile.percentile_function_from_values_and_counts (map fst cum_array) (map snd cum_array).

(** [percentile_function_from_values(values)] *)
Definition percentile_function_from_values (values : list Q) : option (Q -> option Q) :=
  let '(values, counts) := Sorting.np_unique values in
  Percentile.percentile_function_from_values_and_counts values counts.

(** [get_font_size_percentiles] on one scalar *)
Definition get_font_size_percentiles (f : StatsFile) (font_size : Q) : option Q :=
  match percentile_function_from_counts (font_sizes f) with
  | Some p => p font_size
  | None => None
  end.

(** [get_space_width_percentiles] on one scalar *)
Definition get_space_width_percentiles (f : StatsFile) (space_width : Q) : option Q :=
  match percentile_function_from_counts (space_widths f) with
  | Some p => p space_width
  | None => None
  end.

End TokenStatistics.

(** ** The pretrained vector table *)

(** The state of a Python process that a computation could depend on without
    being passed it: numpy's global generator (its seed and how many values
    were drawn from it) and the per-process salt of the built-in [hash]. *)
Record Process : Type := {
  np_random_seed : Z;
  np_random_drawn : nat;
  python_hash_seed : Z
}.

Module GloveVectors.

(** The loaded table: [self.dimensions], [self.word2index], [self.vectors]
    and [self.vectors_stddev]. *)
Record t : Type := {
  dimensions : nat;
  word2index : gmap str nat;
  vectors : list (list Q);
  vectors_stddev : Q
}.

(** [np.stack(vectors)]: raises [ValueError] on an empty list and on arrays
    of different shapes. *)
Definition np_stack (vs : list (list Q)) : res (list (list Q)) :=
  match vs with
  | [] => Raise ValueError
  | v :: rest =>
      if forallb (fun u => (length u =? length v)%nat) rest then Ok vs
      else Raise ValueError
  end.

(** One iteration of the loop of [_ensure_vectors] over a line of the file,
    given as its word and its parsed values. *)
Definition add_line `{Externals} (st : gmap str nat * list (list Q))
    (line : str * list Q) : gmap str nat * list (list Q) :=
  let '(word2index, vectors) := st in
  let word := normalize (fst line) in
  (<[word := length vectors]> word2index, vectors ++ [snd line]).

(** [GloveVectors(filename)] followed by [_ensure_vectors()], on the lines of
    the file.  [__init__] takes the dimensions from the first line; an empty
    file leaves the attribute unset. *)
Definition load `{Externals} (lines : list (str * list Q)) : res t :=
  match lines with
  | [] => Raise (OtherError "AttributeError")
  | first :: _ =>
      let dimensions := length (snd first) in
      let '(word2index, vectors) := fold_left add_line lines (∅, []) in
      vectors ← np_stack vectors;
      Ok {| dimensions := dimensions;
            word2index := word2index;
            vectors := vectors;
            vectors_stddev := np_std vectors |}
  end.

Definition get_dimensions (g : t) : nat := dimensions g.

(** [get_vector(word)]: [Ok None] is Python's [None]. *)
Definition get_vector `{Externals} (g : t) (word : str) : res (option (list Q)) :=
  match word2index g !! normalize word with
  | None => Ok None
  | Some index =>
      vector ← or_raise IndexError (vectors g !! index);
      Ok (Some vector)
  end.

Definition get_dimensions_with_random (g : t) : nat := (get_dimensions g + 1)%nat.

(** [np.random.RandomState(seed).normal(loc, scale, size)] *)
Definition RandomState_normal `{Externals} (seed : Z) (loc scale : Q) (size : nat) : list Q :=
  map (fun k => loc + scale * standard_normal seed k) (seq 0 size).

(** [get_vector_or_random(word)] in the process [p]: the vector and the
    process state it leaves. *)
Definition get_vector_or_random `{Externals} (g : t) (word : str) (p : Process)
    : res (list Q) * Process :=
  (vector ← get_vector g word;
   match vector with
   | Some vector => Ok ((1 # 2) :: vector)
   | None =>
       let seed := (mmh3_hash (normalize word) mod (2 ^ 31 - 1))%Z in
       let vector :=
         RandomState_normal seed 0 (vectors_stddev g) (get_dimensions g + 1) in
       let vector := <[0%nat := - (1 # 2)]> vector in
       Ok vector
   end,
   p).

End GloveVectors.

(** ** The combined embeddings *)

Module CombinedEmbeddings.

(** [OOV]: the word between two warning signs (U+26A0, code point 9888). *)
Definition OOV : str := [32; 9888; 32; 79; 79; 86; 32; 9888; 32]%N.

Definition OOV_INDEX : nat := 1.

(** The object as [__init__] leaves it. *)
Record t : Type := {
  tokenstats : TokenStatistics.StatsFile;
  glove : list (str * list Q);
  min_token_freq : nat
}.

(** The loaded state: [self.token2index] and [self.matrix]. *)
Record Loaded : Type := {
  token2index : gmap str nat;
  matrix : list (list Q)
}.

(** [{token: index + 2 for index, token in enumerate(tokens)}], the
    enumeration starting at [index]. *)
Fixpoint enumerate_from (index : nat) (tokens : list str)
    (token2index : gmap str nat) : gmap str nat :=
  match tokens with
  | [] => token2index
  | token :: rest =>
      enumerate_from (S index) rest (<[token := (index + 2)%nat]> token2index)
  end.

(** [self.matrix[index] = vector] *)
Definition set_row (matrix : list (list Q)) (index : nat) (vector : list Q)
    : res (list (list Q)) :=
  if (index <? length matrix)%nat then Ok (<[index := vector]> matrix)
  else Raise IndexError.

(** The loop that fills the matrix, over the items of [token2index]. *)
Fixpoint fill_matrix `{Externals} (g : GloveVectors.t) (p : Process)
    (items : list (str * nat)) (matrix : list (list Q)) : res (list (list Q)) :=
  match items with
  | [] => Ok matrix
  | (token, index) :: rest =>
      vector ← fst (GloveVectors.get_vector_or_random g token p);
      matrix ← set_row matrix index vector;
      fill_matrix g p rest matrix
  end.

(** [_ensure_loaded()] in the process [p], from the unloaded state. *)
Definition _ensure_loaded `{Externals} (ce : t) (p : Process) : res Loaded :=
  let token2index :=
    enumerate_from 0
      (TokenStatistics.get_tokens_with_minimum_frequency (tokenstats ce) (min_token_freq ce))
      ∅ in
  let token2index := <[OOV := OOV_INDEX]> token2index in
  let indices : gset nat := map_img token2index in
  _ ← py_assert (bool_decide (size indices = size token2index));
  _ ← py_assert (bool_decide (0%nat ∉ indices));
  g ← GloveVectors.load (glove ce);
  let matrix :=
    replicate (size token2index + 1)
              (replicate (GloveVectors.get_dimensions_with_random g) 0) in
  matrix ← fill_matrix g p (map_to_list token2index) matrix;
  let column := map (fun row => nth 0 row 0) (drop 2 matrix) in
  let inv_count := Qsum column + (1 # 2) * inject_Z (Z.of_nat (length matrix) - 2) in
  let oov_count := inject_Z (Z.of_nat (length (drop 2 matrix))) - inv_count in
  _ ← py_assert (Qeq_bool (inv_count + oov_count)
                          (inject_Z (Z.of_nat (length matrix) - 2)));
  Ok {| token2index := token2index; matrix := matrix |}.

(** [index_for_token(token)] *)
Definition index_for_token `{Externals} (ce : t) (p : Process) (token : str) : res nat :=
  st ← _ensure_loaded ce p;
  let r := default OOV_INDEX (token2index st !! normalize token) in
  _ ← py_assert (negb (r =? 0)%nat);
  Ok r.

(** The frequency-bounded vocabulary. *)
Definition vocabulary `{Externals} (ce : t) : list str :=
  TokenStatistics.get_tokens_with_minimum_frequency (tokenstats ce) (min_token_freq ce).

End CombinedEmbeddings.

(** ** Properties of the vector table and of the embeddings *)

Module EmbeddingFacts.
Import GloveVectors CombinedEmbeddings.

Section WithExternals.
Context `{Externals}.

Lemma np_stack_Ok vs vs' :
  np_stack vs = Ok vs' ->
  vs' = vs /\ exists v rest, vs = v :: rest /\ Forall (fun u => length u = length v) vs.
Proof.
  unfold np_stack. destruct vs as [|v rest]; [discriminate|].
  destruct (forallb _ rest) eqn:E; [|discriminate].
  intros [= <-]. split; [reflexivity|]. exists v, rest. split; [reflexivity|].
  constructor; [reflexivity|].
  rewrite forallb_forall in E. apply Forall_forall. intros u Hu.
  apply Nat.eqb_eq, E, list_elem_of_In, Hu.
Qed.

Lemma add_line_fold lines : forall m vs,
  (forall w i, m !! w = Some i -> (i < length vs)%nat) ->
  forall m' vs', fold_left add_line lines (m, vs) = (m', vs') ->
  vs' = vs ++ map snd lines /\
  (forall w i, m' !! w = Some i -> (i < length vs')%nat).
Proof.
  induction lines as [|line lines IH]; intros m vs Hm m' vs'; simpl.
  - intros [= <- <-]. rewrite app_nil_r. auto.
  - intros Hfold. apply IH in Hfold.
    + destruct Hfold as [-> Hm']. split; [now rewrite <- app_assoc|exact Hm'].
    + intros w i. rewrite length_app. simpl.
      destruct (decide (normalize line.1 = w)) as [->|Hne].
      * rewrite lookup_insert_eq. intros [= <-]. lia.
      * rewrite lookup_insert_ne by exact Hne. intros Hw. apply Hm in Hw. lia.
Qed.

(** Every index of a loaded table names a vector of the table's width. *)
Lemma load_indexed lines g :
  load lines = Ok g ->
  forall w i, word2index g !! w = Some i ->
    exists v, vectors g !! i = Some v /\ length v = dimensions g.
Proof.
  unfold load. destruct lines as [|first rest]; [discriminate|].
  destruct (fold_left add_line (first :: rest) (∅, [])) as [m vs] eqn:Efold.
  intros Hload. apply bind_Ok in Hload. destruct Hload as (vs' & Hstack & [= <-]).
  simpl. apply np_stack_Ok in Hstack. destruct Hstack as (-> & v0 & rest0 & Evs & Hall).
  apply add_line_fold in Efold; [|intros w i; rewrite lookup_empty; discriminate].
  destruct Efold as [Evs' Hidx]. simpl in Evs'.
  intros w i Hw. apply Hidx in Hw. apply lookup_lt_is_Some_2 in Hw.
  destruct Hw as [v Hv]. exists v. split; [exact Hv|].
  rewrite Forall_forall in Hall.
  rewrite (Hall v) by (eapply list_elem_of_lookup_2; exact Hv).
  rewrite Evs in Evs'. now injection Evs' as -> _.
Qed.

Lemma RandomState_normal_length seed loc scale size :
  length (RandomState_normal seed loc scale size) = size.
Proof. unfold RandomState_normal. now rewrite length_map, length_seq. Qed.

(** What [get_vector_or_random] returns, by whether the normalized word is in
    the table. *)
Lemma get_vector_or_random_cases lines g word p :
  load lines = Ok g ->
  exists v, get_vector_or_random g word p = (Ok v, p) /\
    length v = get_dimensions_with_random g /\
    match word2index g !! normalize word with
    | Some _ => head v = Some (1 # 2)
    | None => head v = Some (- (1 # 2))
    end.
Proof.
  intros Hload. unfold get_vector_or_random, get_vector.
  destruct (word2index g !! normalize word) as [i|] eqn:E.
  - destruct (load_indexed lines g Hload _ _ E) as (v & Hv & Hlen).
    rewrite Hv. simpl. eexists. split; [reflexivity|].
    unfold get_dimensions_with_random, get_dimensions. simpl. split; [lia|reflexivity].
  - simpl. eexists. split; [reflexivity|].
    rewrite length_insert, RandomState_normal_length. split; [reflexivity|].
    unfold RandomState_normal. rewrite Nat.add_1_r. reflexivity.
Qed.

Lemma enumerate_from_notin tokens : forall index m k,
  k ∉ tokens -> enumerate_from index tokens m !! k = m !! k.
Proof.
  induction tokens as [|token rest IH]; intros index m k Hk; simpl; [reflexivity|].
  rewrite IH by set_solver. apply lookup_insert_ne. set_solver.
Qed.

(** C6: on a loaded table, two calls of [get_vector_or_random] with the same
    token, in any two processes, return the same vector and leave the process
    untouched; the vector has the pretrained dimension plus one entries; its
    first entry is +0.5 exactly when the normalized token is in the table and
    -0.5 exactly when it is not. *)
Theorem get_vector_or_random_deterministic lines g :
  load lines = Ok g ->
  forall (word : str) (p1 p2 : Process),
  exists v,
    get_vector_or_random g word p1 = (Ok v, p1) /\
    get_vector_or_random g word p2 = (Ok v, p2) /\
    length v = (get_dimensions g + 1)%nat /\
    (head v = Some (1 # 2) <-> is_Some (word2index g !! normalize word)) /\
    (head v = Some (- (1 # 2)) <-> word2index g !! normalize word = None).
Proof.
  intros Hload word p1 p2.
  destruct (get_vector_or_random_cases lines g word p1 Hload) as (v & Hv & Hlen & Hhd).
  exists v. split; [exact Hv|]. split.
  - unfold get_vector_or_random in *. injection Hv as ->. reflexivity.
  - split; [exact Hlen|].
    destruct (word2index g !! normalize word) as [i|]; rewrite Hhd.
    + split; split; try discriminate; eauto.
    + split; split; try discriminate; eauto.
      intros [x Hx]. discriminate.
Qed.

(** C7: [index_for_token] never returns 0; on loaded embeddings it returns
    an index for every token, the same one for two tokens with the same
    normalized form, and the OOV index 1 for every token whose normalized
    form is not in the frequency-bounded vocabulary. *)
Theorem index_for_token_never_zero (ce : CombinedEmbeddings.t) (p : Process) :
  (forall token, index_for_token ce p token <> Ok 0%nat) /\
  (forall st, _ensure_loaded ce p = Ok st ->
     (forall token, exists r, index_for_token ce p token = Ok r /\ r <> 0%nat) /\
     (forall t1 t2, normalize t1 = normalize t2 ->
        index_for_token ce p t1 = index_for_token ce p t2) /\
     (forall token, normalize token ∉ vocabulary ce ->
        index_for_token ce p token = Ok OOV_INDEX)).
Proof.
  split.
  - intros token Hr. unfold index_for_token in Hr.
    apply bind_Ok in Hr. destruct Hr as (st & _ & Hr).
    apply bind_Ok in Hr. destruct Hr as (u & Ha & [= Hr]).
    apply py_assert_Ok in Ha. rewrite Hr in Ha. discriminate.
  - intros st Hst.
    assert (Hm : token2index st = <[OOV := OOV_INDEX]> (enumerate_from 0 (vocabulary ce) ∅)
                 /\ forall k v, token2index st !! k = Some v -> v <> 0%nat).
    { unfold _ensure_loaded in Hst.
      apply bind_Ok in Hst. destruct Hst as (u1 & _ & Hst).
      apply bind_Ok in Hst. destruct Hst as (u2 & Ha & Hst).
      apply bind_Ok in Hst. destruct Hst as (g & _ & Hst).
      apply bind_Ok in Hst. destruct Hst as (m & _ & Hst).
      apply bind_Ok in Hst. destruct Hst as (u3 & _ & [= <-]).
      simpl. split; [reflexivity|].
      apply py_assert_Ok, bool_decide_eq_true in Ha.
      intros k v Hk ->. apply Ha. eapply elem_of_map_img_2. exact Hk. }
    destruct Hm as [Em Hnz].
    assert (Hidx : forall token,
              index_for_token ce p token
              = Ok (default OOV_INDEX (token2index st !! normalize token))
              /\ default OOV_INDEX (token2index st !! normalize token) <> 0%nat).
    { intros token. unfold index_for_token. rewrite Hst. simpl.
      assert (default OOV_INDEX (token2index st !! normalize token) <> 0%nat) as Hr.
      { destruct (token2index st !! normalize token) as [v|] eqn:E; simpl.
        - eapply Hnz. exact E.
        - discriminate. }
      split; [|exact Hr].
      apply Nat.eqb_neq in Hr. rewrite Hr. reflexivity. }
    split; [|split].
    + intros token. destruct (Hidx token) as [E Hr]. eauto.
    + intros t1 t2 Hn. rewrite (proj1 (Hidx t1)), (proj1 (Hidx t2)), Hn. reflexivity.
    + intros token Hnot. rewrite (proj1 (Hidx token)). f_equal.
      rewrite Em. destruct (decide (OOV = normalize token)) as [<-|Hne].
      * rewrite lookup_insert_eq. reflexivity.
      * rewrite lookup_insert_ne by exact Hne.
        rewrite enumerate_from_notin by exact Hnot.
        rewrite lookup_empty. reflexivity.
Qed.

End WithExternals.
End EmbeddingFacts.

(** ** The output of the layout detector *)

Module VisionOutput.

Record BoundingBox : Type := {
  bb_label : str;
  bb_left : Q;
  bb_right : Q;
  bb_top : Q;
  bb_bottom : Q;
  bb_confidence : Q
}.

(** A box of the file: [label, left, top, right, bottom, confidence]. *)
Definition JsonBox : Type := str * Q * Q * Q * Q * Q.

(** A line of [vision_output.json]. *)
Record Line : Type := {
  docSha : str;
  pages : list (list JsonBox)
}.

Definition box_of_json (b : JsonBox) : BoundingBox :=
  let '(label, left', top, right', bottom, confidence) := b in
  {| bb_label := label; bb_left := left'; bb_right := right';
     bb_top := top; bb_bottom := bottom; bb_confidence := confidence |}.

(** The loop of [__init__] over one line: a repeated sha replaces the boxes. *)
Definition add_line (boxes : gmap str (list (list BoundingBox))) (line : Line)
    : gmap str (list (list BoundingBox)) :=
  <[docSha line := map (map box_of_json) (pages line)]> boxes.

(** [VisionOutput(file_path)], on what [open(file_path)] finds: [None] is a
    missing file. *)
Definition init (file : option (list Line)) : res (gmap str (list (list BoundingBox))) :=
  match file with
  | None => Raise FileNotFoundError
  | Some lines => Ok (fold_left add_line lines ∅)
  end.

(** [boxes_for_sha_and_page(sha, page)]: the [KeyError] of a missing document
    and the [IndexError] of a missing page are caught. *)
Definition boxes_for_sha_and_page (boxes : gmap str (list (list BoundingBox)))
    (sha : str) (page : nat) : list BoundingBox :=
  match boxes !! sha with
  | None => []
  | Some pages =>
      match pages !! page with
      | None => []
      | Some bounding_boxes => bounding_boxes
      end
  end.

End VisionOutput.

(** ** The feature engineer *)

Module Featurizer.
Import VisionOutput.

(** A box as [(x1, y1, x2, y2)]. *)
Definition Box : Type := Q * Q * Q * Q.

(** Python's [max(a, b)] and [min(a, b)]. *)
Definition py_max (a b : Q) : Q := if Qlt_bool a b then b else a.
Definition py_min (a b : Q) : Q := if Qlt_bool b a then b else a.

Definition compute_intersect (a b : Box) : Q :=
  let '(a0, a1, a2, a3) := a in
  let '(b0, b1, b2, b3) := b in
  let top := py_max a1 b1 in
  let bottom := py_min a3 b3 in
  let left' := py_max a0 b0 in
  let right' := py_min a2 b2 in
  let tb := bottom - top in
  let lr := right' - left' in
  if Qlt_bool tb 0 || Qlt_bool lr 0 then 0 else tb * lr.

Definition compute_iofirst (a b : Box) : Q :=
  let '(a0, a1, a2, a3) := a in
  let a_w := a2 - a0 in
  let a_h := a3 - a1 in
  let a_area := a_w * a_h in
  if Qeq_bool a_area 0 then 0
  else compute_intersect a b / a_area.

(** The boxes of one label, as [(left, top, right, bottom)]. *)
Definition boxes_with_label (label : str) (boxes : list BoundingBox) : list Box :=
  map (fun bb => (bb_left bb, bb_top bb, bb_right bb, bb_bottom bb))
      (List.filter (fun bb => bool_decide (bb_label bb = label)) boxes).

(** [0], or the [max] over the boxes when there is one. *)
Definition best_iofirst (coordinates : Box) (boxes : list Box) : Q :=
  match map (compute_iofirst coordinates) boxes with
  | [] => 0
  | x :: rest => fold_left py_max rest x
  end.

Definition best_title_iofirst (token : Token) (boxes : list BoundingBox) : Q :=
  best_iofirst (tok_left token, tok_top token, tok_right token, tok_bottom token)
               (boxes_with_label (ascii_str "title") boxes).

Definition best_author_iofirst (token : Token) (boxes : list BoundingBox) : Q :=
  best_iofirst (tok_left token, tok_top token, tok_right token, tok_bottom token)
               (boxes_with_label (ascii_str "author") boxes).

(** Columns 15 and 16 of a token's row before the final shift: the row is
    created with the fill value 0 and set to 1 under the two conditions. *)
Definition overlap_flags (token : Token) (boxes : list BoundingBox) : Q * Q :=
  let best_title_iofirst := best_title_iofirst token boxes in
  let best_author_iofirst := best_author_iofirst token boxes in
  (if Qlt_bool (1 # 10) best_title_iofirst
      && Qle_bool best_author_iofirst best_title_iofirst then 1 else 0,
   if Qlt_bool (1 # 10) best_author_iofirst
      && Qlt_bool best_title_iofirst best_author_iofirst then 1 else 0).

(** Columns 0 to 3: the box squashed by the page's width and height. *)
Definition scaled_box (page : Page) (token : Token) : list Q :=
  (if Qle_bool (page_width page) 0 then [0; 0]
   else [tok_left token / page_width page; tok_right token / page_width page])
  ++
  (if Qle_bool (page_height page) 0 then [0; 0]
   else [tok_top token / page_height page; tok_bottom token / page_height page]).

(** The 17 columns of a token's row before the final shift. *)
Definition token_row `{Externals}
    (font_size_corpus space_width_corpus font_size_doc space_width_doc : Q -> option Q)
    (boxes : list BoundingBox) (page : Page) (token : Token) : res (list Q) :=
  let capitalization := capitalization_features (tok_text token) in
  _ ← (if (length capitalization =? 7)%nat then Ok tt else Raise ValueError);
  fs_corp ← or_raise IndexError (font_size_corpus (tok_font_size token));
  sw_corp ← or_raise IndexError (space_width_corpus (tok_font_space_width token));
  fs_doc ← or_raise IndexError (font_size_doc (tok_font_size token));
  sw_doc ← or_raise IndexError (space_width_doc (tok_font_space_width token));
  let '(v_title, v_auth) := overlap_flags token boxes in
  Ok (scaled_box page token
      ++ [fs_corp; sw_corp; fs_doc; sw_doc]
      ++ capitalization
      ++ [v_title; v_auth]).

(** The rows of one document's tokens, page after page. *)
Definition document_rows `{Externals} (token_stats : TokenStatistics.StatsFile)
    (vision_output : gmap str (list (list BoundingBox))) (doc : Doc) : res (list (list Q)) :=
  _ ← or_raise IndexError (head (doc_pages doc));
  let tokens_in_doc := concat (map page_tokens (doc_pages doc)) in
  let font_sizes_in_doc := Sorting.sort Qle_bool (map tok_font_size tokens_in_doc) in
  font_size_percentiles_in_doc ←
    or_raise IndexError (TokenStatistics.percentile_function_from_values font_sizes_in_doc);
  let space_widths_in_doc := Sorting.sort Qle_bool (map tok_font_space_width tokens_in_doc) in
  space_width_percentiles_in_doc ←
    or_raise IndexError (TokenStatistics.percentile_function_from_values space_widths_in_doc);
  rows ← for_each
    (fun '(page_number, page) =>
       font_size_corpus ← or_raise IndexError
         (TokenStatistics.percentile_function_from_counts (TokenStatistics.font_sizes token_stats));
       space_width_corpus ← or_raise IndexError
         (TokenStatistics.percentile_function_from_counts (TokenStatistics.space_widths token_stats));
       let bounding_boxes_from_vision :=
         boxes_for_sha_and_page vision_output (doc_sha doc) page_number in
       for_each
         (token_row font_size_corpus space_width_corpus
                    font_size_percentiles_in_doc space_width_percentiles_in_doc
                    bounding_boxes_from_vision page)
         (page_tokens page))
    (imap (fun page_number page => (page_number, page)) (doc_pages doc));
  Ok (concat rows).

(** The dataset [token_scaled_numeric_features]: the rows of all documents,
    every entry shifted by -0.5 at the end. *)
Definition token_scaled_numeric_features `{Externals}
    (token_stats : TokenStatistics.StatsFile)
    (vision_output : gmap str (list (list BoundingBox))) (docs : list Doc)
    : res (list (list Q)) :=
  rows ← for_each (document_rows token_stats vision_output) docs;
  Ok (map (map (fun x => x - (1 # 2))) (concat rows)).

End Featurizer.

(** ** Properties of the feature engineer *)

Module FeaturizerFacts.
Import VisionOutput Featurizer.

(** A stored value lies in [-0.5, 0.5]. *)
Definition in_stored_range (x : Q) : Prop := - (1 # 2) <= x <= 1 # 2.

(** A value lies in [0, 1]. *)
Definition in_unit_range (x : Q) : Prop := 0 <= x <= 1.

(** The token's box lies on its page, in each direction in which the page
    has a positive extent. *)
Definition within_page (page : Page) (token : Token) : Prop :=
  (page_width page <= 0 \/
   (0 <= tok_left token <= page_width page /\ 0 <= tok_right token <= page_width page)) /\
  (page_height page <= 0 \/
   (0 <= tok_top token <= page_height page /\ 0 <= tok_bottom token <= page_height page)).

(** A percentile function that is defined everywhere with values in [0, 1]. *)
Definition unit_valued (f : Q -> option Q) : Prop :=
  forall v, exists q, f v = Some q /\ in_unit_range q.

Lemma unique_counts_values (P : Q -> Prop) l :
  Forall P l -> Forall P (map fst (Sorting.unique_counts l)).
Proof.
  induction 1 as [|x rest Hx Hr IH]; simpl; [constructor|].
  destruct (Sorting.unique_counts rest) as [|[y c] tl]; simpl in *.
  - repeat constructor. exact Hx.
  - destruct (Qeq_bool x y); simpl; [exact IH|]. constructor; assumption.
Qed.

Lemma unique_counts_increasing l :
  Sorting.sorted Qle_bool l -> Percentile.increasing (map fst (Sorting.unique_counts l)).
Proof.
  induction l as [|x rest IH]; simpl; [trivial|].
  intros [Hx Hr]. specialize (IH Hr).
  assert (Hall : Forall (fun y => x <= y) (map fst (Sorting.unique_counts rest))).
  { apply unique_counts_values. eapply Forall_impl; [exact Hx|].
    intros y Hy. now apply Qle_bool_iff. }
  destruct (Sorting.unique_counts rest) as [|[y c] tl]; simpl in *.
  - split; [constructor|trivial].
  - destruct (Qeq_bool x y); simpl; [exact IH|]. split; assumption.
Qed.

Lemma unique_counts_positive l :
  Forall (fun c => 0 < c) (map snd (Sorting.unique_counts l)).
Proof.
  induction l as [|x rest IH]; simpl; [constructor|].
  destruct (Sorting.unique_counts rest) as [|[y c] tl]; simpl in *.
  - repeat constructor.
  - inversion IH as [|? ? Hc Htl]; subst.
    destruct (Qeq_bool x y); simpl.
    + constructor; [lra|exact Htl].
    + constructor; [reflexivity|]. constructor; assumption.
Qed.

Lemma unique_counts_nonempty l : l <> [] -> Sorting.unique_counts l <> [].
Proof.
  destruct l as [|x rest]; [congruence|]. intros _. simpl.
  destruct (Sorting.unique_counts rest) as [|[y c] tl]; [discriminate|].
  destruct (Qeq_bool x y); discriminate.
Qed.

Lemma Qsum_positive l : Forall (fun c => 0 < c) l -> l <> [] -> 0 < Qsum l.
Proof.
  induction 1 as [|c rest Hc Hr IH]; [congruence|]. intros _. simpl.
  destruct rest as [|c' rest']; [simpl; lra|].
  assert (0 < Qsum (c' :: rest')) by (apply IH; discriminate). lra.
Qed.

Lemma percentile_function_from_values_unit values :
  values <> [] ->
  exists f, TokenStatistics.percentile_function_from_values values = Some f /\ unit_valued f.
Proof.
  intros Hne. unfold TokenStatistics.percentile_function_from_values, Sorting.np_unique.
  set (uc := Sorting.unique_counts (Sorting.sort Qle_bool values)).
  assert (Hsorted : Sorting.sorted Qle_bool (Sorting.sort Qle_bool values)).
  { apply Sorting.sort_sorted; [apply Sorting.Qle_bool_total|apply Sorting.Qle_bool_trans]. }
  assert (Huc : uc <> []).
  { apply unique_counts_nonempty. intros E.
    apply (f_equal length) in E. rewrite Sorting.sort_length in E.
    destruct values; [congruence|discriminate]. }
  assert (Hpos : Forall (fun c => 0 < c) (map snd uc)) by apply unique_counts_positive.
  assert (Hcne : map snd uc <> []) by (destruct uc; [congruence|discriminate]).
  destruct (Percentile.percentile_function_defined (map fst uc) (map snd uc)) as [f Hf].
  { apply Percentile.increasing_diff_nonneg, unique_counts_increasing, Hsorted. }
  { exact Hcne. }
  exists f. split; [exact Hf|].
  intros v. eapply Percentile.percentile_function_range; [| | |exact Hf].
  - now rewrite !length_map.
  - eapply Forall_impl; [exact Hpos|]. intros c Hc. simpl in Hc. lra.
  - now apply Qsum_positive.
Qed.

Lemma Qsum_insert_sorted (x : Q * Q) l :
  Qsum (map snd (Sorting.insert_sorted Sorting.pair_leb x l)) == snd x + Qsum (map snd l).
Proof.
  induction l as [|y rest IH]; simpl; [reflexivity|].
  destruct (Sorting.pair_leb x y); simpl; [reflexivity|]. rewrite IH. ring.
Qed.

Lemma Qsum_sort (l : list (Q * Q)) :
  Qsum (map snd (Sorting.sort Sorting.pair_leb l)) == Qsum (map snd l).
Proof.
  induction l as [|x l IH]; simpl; [reflexivity|].
  rewrite Qsum_insert_sorted, IH. reflexivity.
Qed.

Lemma sort_Forall {A} (leb : A -> A -> bool) (P : A -> Prop) l :
  Forall P l -> Forall P (Sorting.sort leb l).
Proof.
  induction 1 as [|x l Hx Hl IH]; simpl; [constructor|].
  now apply Sorting.insert_sorted_Forall.
Qed.

(** A histogram with non-negative counts and positive total count. *)
Definition proper_histogram (hist : list (Q * Q)) : Prop :=
  Forall (fun c => 0 <= c) (map snd hist) /\ 0 < Qsum (map snd hist).

Lemma percentile_function_from_counts_unit hist :
  proper_histogram hist ->
  exists f, TokenStatistics.percentile_function_from_counts hist = Some f /\ unit_valued f.
Proof.
  intros [Hc Ht]. unfold TokenStatistics.percentile_function_from_counts.
  set (sorted := Sorting.sort Sorting.pair_leb hist).
  assert (Hs : Sorting.sorted Sorting.pair_leb sorted).
  { apply Sorting.sort_sorted; [apply Sorting.pair_leb_total|apply Sorting.pair_leb_trans]. }
  assert (Ht' : 0 < Qsum (map snd sorted)) by (unfold sorted; now rewrite Qsum_sort).
  assert (Hc' : Forall (fun c => 0 <= c) (map snd sorted)).
  { rewrite Forall_fmap in Hc |- *. apply sort_Forall. exact Hc. }
  destruct (Percentile.percentile_function_defined (map fst sorted) (map snd sorted)) as [f Hf].
  { apply Percentile.increasing_diff_nonneg, Sorting.sorted_pairs_increasing, Hs. }
  { now apply Percentile.positive_total_nonempty. }
  exists f. split; [exact Hf|].
  intros v. eapply Percentile.percentile_function_range; [| | |exact Hf]; trivial.
  now rewrite !length_map.
Qed.

Lemma div_unit a w : 0 < w -> 0 <= a <= w -> in_unit_range (a / w).
Proof.
  intros Hw [H0 H1]. split.
  - apply Qle_shift_div_l; lra.
  - apply Qle_shift_div_r; lra.
Qed.

Lemma zero_unit : in_unit_range 0.
Proof. split; discriminate. Qed.

Lemma one_unit : in_unit_range 1.
Proof. split; discriminate. Qed.

Lemma scaled_box_unit page token :
  within_page page token ->
  Forall in_unit_range (scaled_box page token) /\ length (scaled_box page token) = 4%nat.
Proof.
  intros [Hw Hh]. unfold scaled_box. split.
  - apply Forall_app. split.
    + destruct (Qle_bool (page_width page) 0) eqn:E.
      * repeat constructor; apply zero_unit.
      * assert (~ page_width page <= 0) as Hn by (rewrite <- Qle_bool_iff; congruence).
        destruct Hw as [Hw|[Hl Hr]]; [contradiction|].
        repeat constructor; apply div_unit; trivial; lra.
    + destruct (Qle_bool (page_height page) 0) eqn:E.
      * repeat constructor; apply zero_unit.
      * assert (~ page_height page <= 0) as Hn by (rewrite <- Qle_bool_iff; congruence).
        destruct Hh as [Hh|[Ht Hb]]; [contradiction|].
        repeat constructor; apply div_unit; trivial; lra.
  - rewrite length_app.
    destruct (Qle_bool (page_width page) 0), (Qle_bool (page_height page) 0); reflexivity.
Qed.

Lemma overlap_flags_values token boxes :
  (fst (overlap_flags token boxes) = 0 \/ fst (overlap_flags token boxes) = 1) /\
  (snd (overlap_flags token boxes) = 0 \/ snd (overlap_flags token boxes) = 1).
Proof.
  unfold overlap_flags. simpl. split.
  - destruct (_ && _); auto.
  - destruct (_ && _); auto.
Qed.

Lemma Forall_imap_intro {A B : Type} (P : B -> Prop) (l : list A) :
  forall f : nat -> A -> B,
  Forall (fun x => forall i, P (f i x)) l -> Forall P (imap f l).
Proof.
  induction l as [|x rest IH]; intros f Hl; simpl; [constructor|].
  inversion Hl; subst. constructor; [auto|].
  apply IH. eapply Forall_impl; [eassumption|]. intros y Hy i. apply Hy.
Qed.

Section WithExternals.
Context `{Externals}.

(** The token's box lies on its page and its capitalization features are
    seven values in [0, 1]. *)
Definition valid_token (page : Page) (token : Token) : Prop :=
  within_page page token /\
  length (capitalization_features (tok_text token)) = 7%nat /\
  Forall in_unit_range (capitalization_features (tok_text token)).

(** The document has a token, and all its tokens are valid. *)
Definition valid_document (doc : Doc) : Prop :=
  concat (map page_tokens (doc_pages doc)) <> [] /\
  Forall (fun page => Forall (valid_token page) (page_tokens page)) (doc_pages doc).

(** A row before the shift: 17 values in [0, 1]. *)
Definition unit_row (row : list Q) : Prop :=
  length row = 17%nat /\ Forall in_unit_range row.

Lemma token_row_unit fsc swc fsd swd boxes page token :
  unit_valued fsc -> unit_valued swc -> unit_valued fsd -> unit_valued swd ->
  valid_token page token ->
  exists row, token_row fsc swc fsd swd boxes page token = Ok row /\ unit_row row.
Proof.
  intros H1 H2 H3 H4 (Hpage & Hlen & Hcap). unfold token_row.
  rewrite Hlen. cbn [Nat.eqb mbind res_bind].
  destruct (H1 (tok_font_size token)) as (q1 & -> & Hq1). cbn [or_raise mbind res_bind].
  destruct (H2 (tok_font_space_width token)) as (q2 & -> & Hq2). cbn [or_raise mbind res_bind].
  destruct (H3 (tok_font_size token)) as (q3 & -> & Hq3). cbn [or_raise mbind res_bind].
  destruct (H4 (tok_font_space_width token)) as (q4 & -> & Hq4). cbn [or_raise mbind res_bind].
  destruct (overlap_flags_values token boxes) as [Ht Ha].
  destruct (overlap_flags token boxes) as [v_title v_auth]. cbn [fst snd] in Ht, Ha.
  destruct (scaled_box_unit page token Hpage) as [Hbox Hboxlen].
  eexists. split; [reflexivity|]. split.
  - rewrite !length_app, Hboxlen, Hlen. reflexivity.
  - apply Forall_app. split; [exact Hbox|].
    apply Forall_app. split; [|apply Forall_app; split; [exact Hcap|]].
    + repeat (constructor; [assumption|]). constructor.
    + constructor; [|constructor; [|constructor]].
      * destruct Ht as [-> | ->]; [apply zero_unit|apply one_unit].
      * destruct Ha as [-> | ->]; [apply zero_unit|apply one_unit].
Qed.

Lemma document_rows_unit token_stats vision_output doc :
  proper_histogram (TokenStatistics.font_sizes token_stats) ->
  proper_histogram (TokenStatistics.space_widths token_stats) ->
  valid_document doc ->
  exists rows, document_rows token_stats vision_output doc = Ok rows /\
               Forall unit_row rows.
Proof.
  intros Hfs Hsw [Hne Hvalid]. unfold document_rows.
  destruct (head (doc_pages doc)) as [page0|] eqn:Ehd.
  2: { destruct (doc_pages doc); [simpl in Hne; congruence|discriminate]. }
  cbn [or_raise mbind res_bind].
  set (tokens_in_doc := concat (map page_tokens (doc_pages doc))) in *.
  destruct (percentile_function_from_values_unit
              (Sorting.sort Qle_bool (map tok_font_size tokens_in_doc)))
    as (fsd & Efsd & Hfsd).
  { intros E. apply (f_equal length) in E.
    rewrite Sorting.sort_length, length_map in E.
    destruct tokens_in_doc; [congruence|discriminate]. }
  destruct (percentile_function_from_values_unit
              (Sorting.sort Qle_bool (map tok_font_space_width tokens_in_doc)))
    as (swd & Eswd & Hswd).
  { intros E. apply (f_equal length) in E.
    rewrite Sorting.sort_length, length_map in E.
    destruct tokens_in_doc; [congruence|discriminate]. }
  destruct (percentile_function_from_counts_unit _ Hfs) as (fsc & Efsc & Hfsc).
  destruct (percentile_function_from_counts_unit _ Hsw) as (swc & Eswc & Hswc).
  rewrite Efsd. cbn [or_raise mbind res_bind].
  rewrite Eswd. cbn [or_raise mbind res_bind].
  match goal with |- context [for_each ?f ?l] =>
    destruct (for_each_Forall f (Forall unit_row) l) as (rows & Erows & Hrows)
  end.
  { apply Forall_imap_intro.
    eapply Forall_impl; [exact Hvalid|]. intros page Hpage page_number.
    cbn beta iota. rewrite Efsc. cbn [or_raise mbind res_bind].
    rewrite Eswc. cbn [or_raise mbind res_bind].
    apply for_each_Forall.
    eapply Forall_impl; [exact Hpage|]. intros token Htoken.
    now apply token_row_unit. }
  rewrite Erows. cbn [mbind res_bind]. eexists. split; [reflexivity|].
  now apply Forall_concat.
Qed.

(** Where the range of C3 holds: when the corpus histograms have
    non-negative counts and positive totals and every document has a token,
    and every token has seven capitalization features in [0, 1] and a box
    that lies on its page, the build of [token_scaled_numeric_features]
    succeeds and every stored row has 17 values, each in [-0.5, 0.5]. *)
Theorem stored_features_in_range token_stats vision_output docs :
  proper_histogram (TokenStatistics.font_sizes token_stats) ->
  proper_histogram (TokenStatistics.space_widths token_stats) ->
  Forall valid_document docs ->
  exists rows,
    token_scaled_numeric_features token_stats vision_output docs = Ok rows /\
    Forall (fun row => length row = 17%nat /\ Forall in_stored_range row) rows.
Proof.
  intros Hfs Hsw Hdocs. unfold token_scaled_numeric_features.
  destruct (for_each_Forall (document_rows token_stats vision_output)
              (Forall unit_row) docs) as (rows & Erows & Hrows).
  { eapply Forall_impl; [exact Hdocs|]. intros doc Hdoc.
    now apply document_rows_unit. }
  rewrite Erows. simpl. eexists. split; [reflexivity|].
  apply Forall_fmap. apply Forall_concat in Hrows.
  eapply Forall_impl; [exact Hrows|]. intros row [Hlen Hrow]. simpl.
  split; [now rewrite length_map|].
  apply Forall_fmap. eapply Forall_impl; [exact Hrow|].
  intros x [H0 H1]. unfold in_stored_range. simpl. split; lra.
Qed.

End WithExternals.

(** C10: the two overlap flags of a token are never both set: the title flag
    is set exactly when the best title overlap exceeds 0.1 and is at least
    the best author overlap, the author flag exactly when the best author
    overlap exceeds 0.1 and is strictly greater than the best title overlap. *)
Theorem overlap_flags_mutually_exclusive (token : Token) (boxes : list BoundingBox) :
  (fst (overlap_flags token boxes) = 1 <->
     1 # 10 < best_title_iofirst token boxes /\
     best_author_iofirst token boxes <= best_title_iofirst token boxes) /\
  (snd (overlap_flags token boxes) = 1 <->
     1 # 10 < best_author_iofirst token boxes /\
     best_title_iofirst token boxes < best_author_iofirst token boxes) /\
  (fst (overlap_flags token boxes) = 0 \/ fst (overlap_flags token boxes) = 1) /\
  (snd (overlap_flags token boxes) = 0 \/ snd (overlap_flags token boxes) = 1) /\
  ~ (fst (overlap_flags token boxes) = 1 /\ snd (overlap_flags token boxes) = 1).
Proof.
  pose proof (overlap_flags_values token boxes) as [Hv1 Hv2].
  unfold overlap_flags in *. simpl in *.
  set (bt := best_title_iofirst token boxes) in *.
  set (ba := best_author_iofirst token boxes) in *.
  assert (Ht : Qlt_bool (1 # 10) bt && Qle_bool ba bt = true <-> 1 # 10 < bt /\ ba <= bt)
    by now rewrite andb_true_iff, Qlt_bool_iff, Qle_bool_iff.
  assert (Ha : Qlt_bool (1 # 10) ba && Qlt_bool bt ba = true <-> 1 # 10 < ba /\ bt < ba)
    by now rewrite andb_true_iff, !Qlt_bool_iff.
  assert (H11 : (1 : Q) = 1) by reflexivity.
  assert (H00 : (0 : Q) = 0) by reflexivity.
  assert (H01 : (0 : Q) = 1 -> False) by discriminate.
  assert (Htt : true = true) by reflexivity.
  assert (Hft : false = true -> False) by discriminate.
  assert (Hex : ~ ((1 # 10 < bt /\ ba <= bt) /\ (1 # 10 < ba /\ bt < ba))).
  { intros [[_ Hle] [_ Hlt]]. lra. }
  clear Hv1 Hv2.
  destruct (Qlt_bool (1 # 10) bt && Qle_bool ba bt);
    destruct (Qlt_bool (1 # 10) ba && Qlt_bool bt ba); tauto.
Qed.

(** C9 (as amended): when the vision output has no entry for a document, or
    has fewer pages for it than the page asked for, the lookup raises nothing
    and returns no boxes, and both overlap flags of every token stay 0 (the
    value stored after the final shift is -0.5). *)
Theorem missing_vision_data_zero_overlap
    (boxes : gmap str (list (list BoundingBox))) (sha : str) (page : nat) :
  (boxes !! sha = None \/
   exists pages, boxes !! sha = Some pages /\ (length pages <= page)%nat) ->
  boxes_for_sha_and_page boxes sha page = [] /\
  forall token : Token,
    overlap_flags token (boxes_for_sha_and_page boxes sha page) = (0, 0) /\
    fst (overlap_flags token (boxes_for_sha_and_page boxes sha page)) - (1 # 2) == - (1 # 2) /\
    snd (overlap_flags token (boxes_for_sha_and_page boxes sha page)) - (1 # 2) == - (1 # 2).
Proof.
  intros Hmissing.
  assert (E : boxes_for_sha_and_page boxes sha page = []).
  { unfold boxes_for_sha_and_page.
    destruct Hmissing as [-> | (pages & -> & Hlen)]; [reflexivity|].
    now rewrite (proj2 (lookup_ge_None pages page) Hlen). }
  split; [exact E|]. intros token. rewrite E.
  split; [reflexivity|]. split; reflexivity.
Qed.

End FeaturizerFacts.

(** ** The labeler *)

Module Labeler.

Definition MAX_PAGE_COUNT : nat := 3.
Definition NONE_LABEL : nat := 0.
Definition TITLE_LABEL : nat := 1.
Definition AUTHOR_LABEL : nat := 2.

Definition space : N := 32%N.
Definition full_stop : N := 46%N.

(** [sep.join(parts)] *)
Fixpoint join (sep : str) (parts : list str) : str :=
  match parts with
  | [] => []
  | [x] => x
  | x :: rest => x ++ sep ++ join sep rest
  end.

(** [string.count(" ")] *)
Definition count_spaces (string : str) : nat :=
  length (List.filter (N.eqb space) string).

(** [l[first:one_past]] for two non-negative bounds. *)
Definition slice {A : Type} (l : list A) (first one_past : nat) : list A :=
  drop first (take one_past l).

(** [np.average(l)] *)
Definition average (l : list Q) : Q := Qsum l / inject_Z (Z.of_nat (length l)).

(** *** Reading the reference metadata *)

Section Tokenize.
Context `{Externals}.

(** The runs that [_split_words_re.split] cuts a string into: [run] is the
    run of word characters being read and [digits] tells whether it is a run
    of digits; a character that is not a word character is a piece of its
    own.  [tokenize] keeps the pieces that [_not_spaces_re] matches in full:
    the non-empty ones without a whitespace character. *)
Definition flush (run : str) : list str :=
  match run with
  | [] => []
  | _ => [run]
  end.

Fixpoint tokenize_from (run : str) (digits : bool) (rest : str) : list str :=
  match rest with
  | [] => flush run
  | c :: rest =>
      if re_word c then
        if bool_decide (re_digit c = digits) then tokenize_from (run ++ [c]) digits rest
        else flush run ++ tokenize_from [c] (re_digit c) rest
      else
        flush run ++ (if re_space c then [] else [[c]]) ++ tokenize_from [] false rest
  end.

Definition tokenize (text : str) : list str := tokenize_from [] false text.

Fixpoint drop_while {A : Type} (f : A -> bool) (l : list A) : list A :=
  match l with
  | [] => []
  | x :: rest => if f x then drop_while f rest else l
  end.

(** [s.strip()] *)
Definition strip (text : str) : str :=
  rev (drop_while re_space (rev (drop_while re_space text))).

(** [trim_punctuation(s)] *)
Definition trim_punctuation (text : str) : str :=
  let text := drop_while (N.eqb full_stop) text in
  let text := rev (drop_while (N.eqb full_stop) (rev text)) in
  strip text.

(** [initials(names, space)] *)
Definition initials (names : str) (sep : str) : str :=
  join sep
    (omap (fun x => match x with [] => None | c :: _ => Some [c] end)
          (List.filter (forallb re_word) (tokenize names))).

(** The surface forms of an author, in the order of the set display; a
    Python set holds each form once. *)
Definition author_variants (author : str * str) : list str :=
  let '(given_names, surnames) := author in
  match given_names with
  | [] => [surnames]
  | first :: _ =>
      remove_dups
        [ given_names ++ [space] ++ surnames;
          initials given_names [space] ++ [space] ++ surnames;
          initials given_names [space; full_stop; space]
            ++ [space; full_stop; space] ++ surnames;
          initials given_names [] ++ [space] ++ surnames;
          surnames ++ [space; 44%N; space] ++ given_names;
          [first] ++ [space] ++ surnames;
          [first] ++ [space; full_stop; space] ++ surnames ]
  end.

End Tokenize.

(** What opening and parsing the [.nxml] file of a document gives: the inner
    text of each [article-title] node, and for each author [name] node the
    joined inner texts of its [given-names] and of its [surname] nodes. *)
Record Nxml : Type := {
  article_titles : list str;
  author_nodes : list (str * str)
}.

Inductive NxmlFile : Type :=
| NxmlNotFound
| NxmlUndecodable
| NxmlMalformed
| NxmlParsed (nxml : Nxml).

(** Why a document is left out of the labeled artifact. *)
Inductive Skip : Type :=
| CouldNotFindNxml
| CouldNotDecodeNxml
| WrongNumberOfGoldTitles
| TitleTooShort
| NoGoldAuthors
| UnexpectedAuthorCount
| NoTitleOrNoAuthors
| AuthorsNotOnOnePage
| CouldNotFindTitle
| CouldNotFindAllAuthors.

Section Gold.
Context `{Externals}.

(** The loop over [author_nodes]: an author without surnames is left out. *)
Definition gold_authors_of (author_nodes : list (str * str)) : list (str * str) :=
  omap (fun '(given, sur) =>
          let given_names := join [space] (tokenize given) in
          let surnames := join [space] (tokenize sur) in
          if (length surnames <=? 0)%nat then None else Some (given_names, surnames))
       author_nodes.

(** The gold title and authors of a document, or why it is skipped before
    any page is searched. *)
Definition gold_metadata (nxml : Nxml) : Skip + (str * list (str * str)) :=
  match article_titles nxml with
  | [title] =>
      let gold_title := join [space] (tokenize title) in
      let gold_title := trim_punctuation gold_title in
      if (length gold_title <=? 4)%nat then inl TitleTooShort
      else
        let gold_authors := gold_authors_of (author_nodes nxml) in
        if (length gold_authors =? 0)%nat then inl NoGoldAuthors
        else if negb (length gold_authors =? length (author_nodes nxml))%nat
        then inl UnexpectedAuthorCount
        else if (length gold_title =? 0)%nat || (length gold_authors =? 0)%nat
        then inl NoTitleOrNoAuthors
        else inr (gold_title, gold_authors)
  | _ => inl WrongNumberOfGoldTitles
  end.

(** Opening and parsing the file: a missing or undecodable file skips the
    document, a parse error is not caught. *)
Definition read_gold_metadata (file : NxmlFile) : res (Skip + (str * list (str * str))) :=
  match file with
  | NxmlNotFound => Ok (inl CouldNotFindNxml)
  | NxmlUndecodable => Ok (inl CouldNotDecodeNxml)
  | NxmlMalformed => Raise (OtherError "ParseError")
  | NxmlParsed nxml => Ok (gold_metadata nxml)
  end.

End Gold.

(** *** Fuzzy matching on a page *)

Record FuzzyMatch : Type := {
  page_number : nat;
  first_token_index : nat;
  one_past_last_token_index : nat;
  fm_cost : nat;
  matched_string : str;
  average_font_size : Q
}.

(** How a run of the generator [find_string_in_page] ends. *)
Inductive Stop : Type :=
| EarlyExit (offset : nat)
| EndOfPage
| AssertionFailed
| OutOfFuel.

(** What the loop over the tokens of a page builds. *)
Record PageText : Type := {
  page_text : list str;
  page_text_length : nat;
  start_pos_to_token_index : gmap nat nat
}.

Section Matching.
Context `{Externals}.

(** The loop that concatenates the page, from the token [token_index] on. *)
Fixpoint page_text_loop (token_index : nat) (tokens : list str) (pt : PageText) : PageText :=
  match tokens with
  | [] => pt
  | token :: rest =>
      let pt :=
        if (0 <? length (page_text pt))%nat
        then {| page_text := page_text pt ++ [[space]];
                page_text_length := page_text_length pt + 1;
                start_pos_to_token_index := start_pos_to_token_index pt |}
        else pt in
      let start_pos_to_token_index :=
        <[page_text_length pt := token_index]> (start_pos_to_token_index pt) in
      let normalized_token_text := normalize token in
      page_text_loop (S token_index) rest
        {| page_text := page_text pt ++ [normalized_token_text];
           page_text_length := page_text_length pt + length normalized_token_text;
           start_pos_to_token_index := start_pos_to_token_index |}
  end.

Definition empty_page_text : PageText :=
  {| page_text := []; page_text_length := 0; start_pos_to_token_index := ∅ |}.

(** [⌊(len(string) - string.count(" ")) / 5⌋] *)
Definition budget (string : str) : nat :=
  ((length string - count_spaces string) / 5)%nat.

(** The loop that snaps the start back to a token: it stops at the first
    position that starts a token other than token 0, and gives 0 otherwise. *)
Fixpoint snap_first (m : gmap nat nat) (start : nat) : nat :=
  match m !! start with
  | Some (S k) => S k
  | _ =>
      match start with
      | O => 0
      | S start' => snap_first m start'
      end
  end.

(** The loop that snaps the end forward to a token start, over the
    [remaining] positions up to the end of the page. *)
Fixpoint snap_one_past (m : gmap nat nat) (remaining : nat) (end_ : nat) : option nat :=
  match remaining with
  | O => None
  | S remaining' =>
      match m !! end_ with
      | Some k => Some k
      | None => snap_one_past m remaining' (S end_)
      end
  end.

Section Page.
Variable number : nat.
Variable page : Page.

Definition tokens : list str := map tok_text (page_tokens page).
Definition font_sizes : list Q := map tok_font_size (page_tokens page).
Definition token_count : nat := length (page_tokens page).
Definition built : PageText := page_text_loop 0 tokens empty_page_text.
Definition text : str := concat (page_text built).

(** The match the generator yields for the candidate [fuzzy_match] at
    [offset], or [None] when its assertion fails. *)
Definition to_fuzzy_match (fuzzy_match : MatchResult) (offset : nat) : option FuzzyMatch :=
  let m := start_pos_to_token_index built in
  let first_token_index := snap_first m (start_pos fuzzy_match + offset) in
  let end_ := (end_pos fuzzy_match + offset)%nat in
  let one_past_last_token_index :=
    default token_count (snap_one_past m (length text - end_) end_) in
  if (first_token_index =? one_past_last_token_index)%nat then None
  else Some {|
    page_number := number;
    first_token_index := first_token_index;
    one_past_last_token_index := one_past_last_token_index;
    fm_cost := cost fuzzy_match;
    matched_string := join [space] (slice tokens first_token_index one_past_last_token_index);
    average_font_size :=
      average (slice font_sizes first_token_index one_past_last_token_index)
  |}.

(** The loop of [find_string_in_page] from [offset], on the normalized
    [string], for at most [fuel] iterations: the matches yielded and how the
    run ends. *)
Fixpoint scan (string : str) (fuel : nat) (offset : nat) : list FuzzyMatch * Stop :=
  match fuel with
  | O => ([], OutOfFuel)
  | S fuel' =>
      if negb (offset <? length text)%nat then ([], EndOfPage)
      else
        let fuzzy_match := stringmatch_match string (drop offset text) in
        if (budget string <? cost fuzzy_match)%nat then ([], EarlyExit offset)
        else
          match to_fuzzy_match fuzzy_match offset with
          | None => ([], AssertionFailed)
          | Some yielded =>
              let '(matches, stop) := scan string fuel' (offset + end_pos fuzzy_match) in
              (yielded :: matches, stop)
          end
  end.

(** The generator run to its end, as [list(find_string_in_page(string))]
    does: a page of [n] characters needs more than [n + 1] iterations only
    when the loop never ends. *)
Definition find_string_in_page (string : str) : res (list FuzzyMatch) :=
  let string := normalize string in
  match scan string (S (length text)) 0 with
  | (matches, EarlyExit _) => Ok matches
  | (matches, EndOfPage) => Ok matches
  | (_, AssertionFailed) => Raise AssertionError
  | (_, OutOfFuel) => Raise NonTermination
  end.

(** The cost of the cheapest candidate at a scan offset. *)
Definition cost_at (string : str) (offset : nat) : nat :=
  cost (stringmatch_match string (drop offset text)).

End Page.
End Matching.

(** *** Labeling a document *)

(** An entry of the labeled artifact: the metadata, the copied pages and
    the labels of their tokens. *)
Record LabeledDoc : Type := {
  lab_doc_id : str;
  lab_doc_sha : str;
  lab_gold_title : str;
  lab_gold_authors : list (str * str);
  lab_pages : list Page;
  lab_labels : list (list nat)
}.

(** What the loop over the documents does with a document. *)
Inductive Labeling : Type :=
| Skipped (why : Skip)
| Written (entry : LabeledDoc).

(** Python's [min(first :: rest, key=...)], for a key order [ltb]: the first
    of the smallest. *)
Definition min_by {A : Type} (ltb : A -> A -> bool) (first : A) (rest : list A) : A :=
  fold_left (fun best x => if ltb x best then x else best) rest first.

(** The order of [title_match_sort_key]. *)
Definition title_match_ltb (a b : FuzzyMatch) : bool :=
  (fm_cost a <? fm_cost b)%nat
  || ((fm_cost a =? fm_cost b)%nat
      && (Qlt_bool (- average_font_size a) (- average_font_size b)
          || (Qeq_bool (- average_font_size a) (- average_font_size b)
              && (first_token_index a <? first_token_index b)%nat))).

(** The order of [cost_author_match]. *)
Definition cost_author_match_ltb (a b : FuzzyMatch) : bool :=
  (fm_cost a <? fm_cost b)%nat
  || ((fm_cost a =? fm_cost b)%nat
      && ((length (matched_string b) <? length (matched_string a))%nat
          || ((length (matched_string a) =? length (matched_string b))%nat
              && (Qlt_bool (- average_font_size a) (- average_font_size b)
                  || (Qeq_bool (- average_font_size a) (- average_font_size b)
                      && (first_token_index a <? first_token_index b)%nat))))).

(** [labels[first:one_past] = label] *)
Definition set_labels (labels : list nat) (first one_past label : nat) : list nat :=
  imap (fun i old => if (first <=? i)%nat && (i <? one_past)%nat then label else old) labels.

(** [min(page_numbers)] of a set of page numbers. *)
Definition set_min (page_numbers : gset nat) : option nat :=
  match elements page_numbers with
  | [] => None
  | x :: rest => Some (foldr Nat.min x rest)
  end.

Section Document.
Context `{Externals}.

(** The state of the loop over the pages: [title_match] and [author_matches]. *)
Definition Found : Type := option FuzzyMatch * list (list FuzzyMatch).

(** The matches of all variants of one author on a page. *)
Definition author_matches_on_page (page_number : nat) (page : Page) (author : str * str)
    : res (list FuzzyMatch) :=
  found ← for_each (find_string_in_page page_number page) (author_variants author);
  Ok (concat found).

(** One iteration of the loop over the pages. *)
Definition search_page (gold_title : str) (gold_authors : list (str * str))
    (st : Found) (numbered : nat * Page) : res Found :=
  let '(title_match, author_matches) := st in
  let '(page_number, page) := numbered in
  _ ← py_assert (page_text_length (built page) =? length (text page))%nat;
  title_matches_on_this_page ← find_string_in_page page_number page gold_title;
  let title_match :=
    match title_matches_on_this_page with
    | [] => title_match
    | first :: rest =>
        let title_match_on_this_page := min_by title_match_ltb first rest in
        match title_match with
        | None => Some title_match_on_this_page
        | Some best =>
            if (fm_cost title_match_on_this_page <? fm_cost best)%nat
            then Some title_match_on_this_page else Some best
        end
    end in
  found ← for_each (author_matches_on_page page_number page) gold_authors;
  Ok (title_match, zip_with app author_matches found).

(** The set of the pages on which all authors have a match. *)
Definition pages_of (matches : list FuzzyMatch) : gset nat :=
  list_to_set (map page_number matches).

Definition page_numbers_with_author_matches (author_matches : list (list FuzzyMatch))
    : res (gset nat) :=
  match author_matches with
  | [] => Raise IndexError
  | first :: rest => Ok (fold_left (fun pages matches => pages ∩ pages_of matches)
                                   rest (pages_of first))
  end.

(** The labels of a page of the entry. *)
Definition page_labels (title_match : FuzzyMatch) (author_matches : list FuzzyMatch)
    (number : nat) (page : Page) : list nat :=
  let labels := replicate (token_count page) NONE_LABEL in
  let labels :=
    if (page_number title_match =? number)%nat
    then set_labels labels (first_token_index title_match)
                    (one_past_last_token_index title_match) TITLE_LABEL
    else labels in
  fold_left
    (fun labels author_match =>
       if (page_number author_match =? number)%nat
       then set_labels labels (first_token_index author_match)
                       (one_past_last_token_index author_match) AUTHOR_LABEL
       else labels)
    author_matches labels.

(** The body of the loop over the documents of the unlabeled artifact, for
    the document [doc] with the reference file [file]. *)
Definition label_document (doc : Doc) (file : NxmlFile) : res Labeling :=
  gold ← read_gold_metadata file;
  match gold with
  | inl why => Ok (Skipped why)
  | inr (gold_title, gold_authors) =>
      let effective_page_count := Nat.min MAX_PAGE_COUNT (length (doc_pages doc)) in
      let pages := take effective_page_count (doc_pages doc) in
      let author_matches := map (fun _ => []) gold_authors in
      '(title_match, author_matches) ←
        fold_res (search_page gold_title gold_authors)
                 (imap (fun number page => (number, page)) pages)
                 (None, author_matches);
      page_numbers ← page_numbers_with_author_matches author_matches;
      match set_min page_numbers with
      | None => Ok (Skipped AuthorsNotOnOnePage)
      | Some page_number_with_author_matches =>
          let author_matches :=
            map (List.filter
                   (fun m => (page_number m =? page_number_with_author_matches)%nat))
                author_matches in
          author_matches ←
            for_each
              (fun matches =>
                 match matches with
                 | [] => Raise ValueError
                 | first :: rest => Ok (min_by cost_author_match_ltb first rest)
                 end)
              author_matches;
          match title_match with
          | None => Ok (Skipped CouldNotFindTitle)
          | Some title_match =>
              Ok (Written {|
                lab_doc_id := doc_id doc;
                lab_doc_sha := doc_sha doc;
                lab_gold_title := gold_title;
                lab_gold_authors := gold_authors;
                lab_pages := pages;
                lab_labels :=
                  imap (page_labels title_match author_matches) pages
              |})
          end
      end
  end.

End Document.

End Labeler.

(** ** Properties of the fuzzy-match generator *)

Module MatchingFacts.
Import Labeler.

Section WithPage.
Context `{Externals}.
Variable number : nat.
Variable page : Page.
Variable string : str.

Lemma to_fuzzy_match_cost fuzzy_match offset yielded :
  to_fuzzy_match number page fuzzy_match offset = Some yielded ->
  fm_cost yielded = cost fuzzy_match /\ page_number yielded = number.
Proof.
  unfold to_fuzzy_match. destruct (_ =? _)%nat; [discriminate|].
  intros [= <-]. split; reflexivity.
Qed.

(** One iteration of the loop, case by case. *)
Lemma scan_step fuel offset :
  scan number page string (S fuel) offset =
  if negb (offset <? length (text page))%nat then ([], EndOfPage)
  else if (budget string <? cost_at page string offset)%nat then ([], EarlyExit offset)
  else match to_fuzzy_match number page
               (stringmatch_match string (drop offset (text page))) offset with
       | None => ([], AssertionFailed)
       | Some yielded =>
           (yielded :: fst (scan number page string fuel
                              (offset + end_pos (stringmatch_match string
                                                   (drop offset (text page))))),
            snd (scan number page string fuel
                   (offset + end_pos (stringmatch_match string
                                        (drop offset (text page))))))
       end.
Proof.
  cbn [scan]. unfold cost_at.
  destruct (negb _); [reflexivity|].
  destruct (_ <? _)%nat; [reflexivity|].
  destruct (to_fuzzy_match _ _ _ _); [|reflexivity].
  destruct (scan _ _ _ _ _). reflexivity.
Qed.

Lemma scan_within_budget fuel : forall offset,
  Forall (fun m => (fm_cost m <= budget string)%nat /\ page_number m = number)
         (fst (scan number page string fuel offset)).
Proof.
  induction fuel as [|fuel IH]; intros offset; [constructor|].
  rewrite scan_step.
  destruct (negb _); [constructor|].
  destruct (budget string <? cost_at page string offset)%nat eqn:E; [constructor|].
  destruct (to_fuzzy_match _ _ _ _) as [yielded|] eqn:Ey; [|constructor].
  simpl. constructor; [|apply IH].
  apply to_fuzzy_match_cost in Ey. destruct Ey as [-> ->].
  apply Nat.ltb_ge in E. unfold cost_at in E. split; [lia|reflexivity].
Qed.

Lemma scan_early_exit fuel offset :
  (offset < length (text page))%nat ->
  (budget string < cost_at page string offset)%nat ->
  scan number page string (S fuel) offset = ([], EarlyExit offset).
Proof.
  intros Hlt Hcost. rewrite scan_step.
  apply Nat.ltb_lt in Hlt. rewrite Hlt. simpl.
  apply Nat.ltb_lt in Hcost. rewrite Hcost. reflexivity.
Qed.

(** An early exit happens at an offset of the page whose cheapest candidate
    is over the budget. *)
Lemma scan_stops_over_budget fuel : forall offset o,
  snd (scan number page string fuel offset) = EarlyExit o ->
  (offset <= o < length (text page))%nat /\ (budget string < cost_at page string o)%nat.
Proof.
  induction fuel as [|fuel IH]; intros offset o; [discriminate|].
  rewrite scan_step.
  destruct (offset <? length (text page))%nat eqn:Elen; simpl; [|discriminate].
  destruct (budget string <? cost_at page string offset)%nat eqn:E.
  - simpl. intros [= <-]. apply Nat.ltb_lt in Elen, E. lia.
  - destruct (to_fuzzy_match _ _ _ _) as [yielded|]; [|simpl; discriminate].
    simpl. intros Hstop. apply IH in Hstop. lia.
Qed.

(** A candidate that ends at position 0 is the only way to run out of fuel:
    with candidates that end after their start offset, a page of [n]
    characters is scanned in at most [n + 1] iterations. *)
Lemma scan_fuel_enough :
  (forall needle haystack, (0 < end_pos (stringmatch_match needle haystack))%nat) ->
  forall fuel offset, (length (text page) - offset < fuel)%nat ->
  snd (scan number page string fuel offset) <> OutOfFuel.
Proof.
  intros Hprogress. induction fuel as [|fuel IH]; intros offset Hfuel; [lia|].
  rewrite scan_step.
  destruct (offset <? length (text page))%nat eqn:Elen; simpl; [|congruence].
  destruct (budget string <? cost_at page string offset)%nat; [simpl; congruence|].
  destruct (to_fuzzy_match _ _ _ _) as [yielded|]; [|simpl; congruence].
  simpl. apply IH. apply Nat.ltb_lt in Elen.
  specialize (Hprogress string (drop offset (text page))). lia.
Qed.

(** When the bounded run of [find_string_in_page] is out of fuel, no amount
    of fuel ends the loop. *)
Lemma scan_out_of_fuel_diverges fuel : forall offset,
  (length (text page) - offset < fuel)%nat ->
  snd (scan number page string fuel offset) = OutOfFuel ->
  forall fuel', snd (scan number page string fuel' offset) = OutOfFuel.
Proof.
  induction fuel as [|fuel IH]; intros offset Hfuel; [lia|].
  rewrite scan_step.
  destruct (offset <? length (text page))%nat eqn:Elen; simpl; [|discriminate].
  destruct (budget string <? cost_at page string offset)%nat eqn:E; [simpl; discriminate|].
  destruct (to_fuzzy_match _ _ _ _) as [yielded|] eqn:Ey; [|simpl; discriminate].
  simpl. intros Hout.
  assert (Hnext : forall fuel',
            snd (scan number page string fuel'
                   (offset + end_pos (stringmatch_match string (drop offset (text page)))))
            = OutOfFuel).
  { destruct (end_pos (stringmatch_match string (drop offset (text page)))) as [|e] eqn:Eend.
    - rewrite Nat.add_0_r in *. intros fuel'.
      induction fuel' as [|fuel' IH']; [reflexivity|].
      rewrite scan_step, Elen. simpl. rewrite E, Ey, Eend, Nat.add_0_r. simpl. exact IH'.
    - apply IH; [|exact Hout]. apply Nat.ltb_lt in Elen. lia. }
  intros [|fuel']; [reflexivity|].
  rewrite scan_step, Elen. simpl. rewrite E, Ey. simpl. apply Hnext.
Qed.

End WithPage.

(** C1: every match that [find_string_in_page] yields costs at most
    ⌊(length of the normalized query − its space count) / 5⌋; the scan stops
    at the first offset whose cheapest candidate costs more; and when the
    cost of the cheapest candidate does not decrease as the offset advances,
    every later offset of the page is over the budget too, so the early exit
    passes over no match within the budget. *)
Theorem find_string_in_page_within_budget `{Externals}
    (number : nat) (page : Page) (query : str) :
  (forall fuel,
     Forall (fun m => (fm_cost m <= budget (normalize query))%nat)
            (fst (scan number page (normalize query) fuel 0))) /\
  (forall matches, find_string_in_page number page query = Ok matches ->
     Forall (fun m => (fm_cost m <= budget (normalize query))%nat) matches) /\
  (forall fuel offset,
     (offset < length (text page))%nat ->
     (budget (normalize query) < cost_at page (normalize query) offset)%nat ->
     scan number page (normalize query) (S fuel) offset = ([], EarlyExit offset)) /\
  ((forall o1 o2, (o1 <= o2)%nat -> (o2 < length (text page))%nat ->
      (cost_at page (normalize query) o1 <= cost_at page (normalize query) o2)%nat) ->
   forall fuel o,
     snd (scan number page (normalize query) fuel 0) = EarlyExit o ->
     forall o', (o <= o')%nat -> (o' < length (text page))%nat ->
       (budget (normalize query) < cost_at page (normalize query) o')%nat).
Proof.
  assert (Hyield : forall fuel,
            Forall (fun m => (fm_cost m <= budget (normalize query))%nat)
                   (fst (scan number page (normalize query) fuel 0))).
  { intros fuel. eapply Forall_impl; [apply scan_within_budget|].
    intros m [Hm _]. exact Hm. }
  split; [exact Hyield|]. split; [|split].
  - intros matches. unfold find_string_in_page.
    specialize (Hyield (S (length (text page)))).
    destruct (scan number page (normalize query) (S (length (text page))) 0)
      as [ms [o| | |]]; simpl in Hyield; intros Heq; try discriminate Heq;
      injection Heq as <-; exact Hyield.
  - intros fuel offset. apply scan_early_exit.
  - intros Hmono fuel o Hstop o' Hle Hlt.
    apply scan_stops_over_budget in Hstop. destruct Hstop as [_ Hover].
    specialize (Hmono o o' Hle Hlt). lia.
Qed.

End MatchingFacts.

(** ** Properties of the labeler *)

Module LabelingFacts.
Import Labeler.

(** The call returns a value. *)
Definition returns {A : Type} (r : res A) : Prop := exists a, r = Ok a.

Lemma for_each_returns {A B : Type} (f : A -> res B) (l : list A) :
  returns (for_each f l) <-> Forall (fun x => returns (f x)) l.
Proof.
  induction l as [|x rest IH]; simpl.
  - split; [constructor|]. intros _. now exists [].
  - split.
    + intros [ys Hys]. apply bind_Ok in Hys. destruct Hys as (y & Hy & Hys).
      apply bind_Ok in Hys. destruct Hys as (ys' & Hys' & _).
      constructor; [now exists y|]. apply IH. now exists ys'.
    + intros Hall. inversion Hall as [|? ? [y Hy] Hrest]; subst.
      apply IH in Hrest. destruct Hrest as [ys Hys].
      exists (y :: ys). rewrite Hy, Hys. reflexivity.
Qed.

Lemma for_each_map {A B : Type} (f : A -> res B) (g : A -> B) (l : list A) (ys : list B) :
  (forall x y, f x = Ok y -> y = g x) ->
  for_each f l = Ok ys -> ys = map g l.
Proof.
  intros Hg. revert ys. induction l as [|x rest IH]; simpl; intros ys.
  - now intros [= <-].
  - intros Hys. apply bind_Ok in Hys. destruct Hys as (y & Hy & Hys).
    apply bind_Ok in Hys. destruct Hys as (ys' & Hys' & [= <-]).
    rewrite (Hg _ _ Hy), (IH _ Hys'). reflexivity.
Qed.

Section WithGold.
Context `{Externals}.
Variable gold_title : str.
Variable gold_authors : list (str * str).

(** The title matches of a numbered page, when its scan returns. *)
Definition title_on (np : nat * Page) : list FuzzyMatch :=
  match find_string_in_page (fst np) (snd np) gold_title with
  | Ok matches => matches
  | Raise _ => []
  end.

(** The matches of an author on a numbered page, when its scans return. *)
Definition author_on (np : nat * Page) (author : str * str) : list FuzzyMatch :=
  match author_matches_on_page (fst np) (snd np) author with
  | Ok matches => matches
  | Raise _ => []
  end.

(** All scans of a numbered page return. *)
Definition page_ok (np : nat * Page) : Prop :=
  returns (find_string_in_page (fst np) (snd np) gold_title) /\
  Forall (fun author => returns (author_matches_on_page (fst np) (snd np) author))
         gold_authors.

Lemma page_text_loop_length tokens : forall token_index pt,
  page_text_length pt = length (concat (page_text pt)) ->
  page_text_length (page_text_loop token_index tokens pt)
  = length (concat (page_text (page_text_loop token_index tokens pt))).
Proof.
  induction tokens as [|token rest IH]; intros token_index pt Hpt; simpl; [exact Hpt|].
  apply IH. simpl.
  destruct (0 <? length (page_text pt))%nat; simpl;
    rewrite !concat_app, !length_app; simpl; rewrite ?length_app; simpl; lia.
Qed.

Lemma page_assertion page :
  (page_text_length (built page) =? length (text page))%nat = true.
Proof.
  apply Nat.eqb_eq. unfold built, text. apply page_text_loop_length. reflexivity.
Qed.

Lemma find_string_in_page_number number page query matches :
  find_string_in_page number page query = Ok matches ->
  Forall (fun m => page_number m = number) matches.
Proof.
  unfold find_string_in_page.
  pose proof (MatchingFacts.scan_within_budget number page (normalize query)
                (S (length (text page))) 0) as Hall.
  destruct (scan number page (normalize query) (S (length (text page))) 0)
    as [ms [o| | |]]; simpl in Hall; intros Heq; try discriminate Heq;
    injection Heq as <-; (eapply Forall_impl; [exact Hall|]); intros m [_ Hm]; exact Hm.
Qed.

Lemma for_each_concat_Forall {A B : Type} (f : A -> res (list B)) (P : B -> Prop)
    (l : list A) (found : list (list B)) :
  (forall x ys, f x = Ok ys -> Forall P ys) ->
  for_each f l = Ok found -> Forall P (concat found).
Proof.
  intros Hf. revert found. induction l as [|x rest IH]; simpl; intros found.
  - intros [= <-]. constructor.
  - intros Hys. apply bind_Ok in Hys. destruct Hys as (y & Hy & Hys).
    apply bind_Ok in Hys. destruct Hys as (ys' & Hys' & [= <-]).
    simpl. apply Forall_app. split; [eapply Hf; exact Hy|apply IH; exact Hys'].
Qed.

Lemma author_on_page_number np author m :
  m ∈ author_on np author -> page_number m = fst np.
Proof.
  unfold author_on, author_matches_on_page.
  destruct (for_each _ (author_variants author)) as [found|e] eqn:E; simpl.
  - intros Hm.
    assert (Hall : Forall (fun m => page_number m = fst np) (concat found)).
    { eapply for_each_concat_Forall; [|exact E].
      intros x ys Hx. eapply find_string_in_page_number. exact Hx. }
    rewrite Forall_forall in Hall. auto.
  - intros Hm. inversion Hm.
Qed.

(** One iteration of the loop over the pages. *)
Lemma search_page_returns tm0 ams0 np tm ams :
  search_page gold_title gold_authors (tm0, ams0) np = Ok (tm, ams) ->
  page_ok np /\
  (is_Some tm <-> is_Some tm0 \/ title_on np <> []) /\
  ams = zip_with app ams0 (map (author_on np) gold_authors).
Proof.
  destruct np as [number page]. unfold search_page, page_ok, title_on. cbn [fst snd].
  rewrite page_assertion. cbn [py_assert mbind res_bind].
  destruct (find_string_in_page number page gold_title) as [title_matches|e] eqn:Et;
    cbn [mbind res_bind]; [|discriminate].
  destruct (for_each (author_matches_on_page number page) gold_authors)
    as [found|e] eqn:Ea; cbn [mbind res_bind]; [|discriminate].
  intros [= <- <-]. split; [|split].
  - split; [now exists title_matches|].
    apply for_each_returns. now exists found.
  - destruct title_matches as [|first rest].
    + split; [auto|]. intros [Hs|Hne]; [exact Hs|congruence].
    + split; [intros _; right; discriminate|]. intros _.
      destruct tm0 as [best|]; [|eauto].
      destruct (_ <? _)%nat; eauto.
  - f_equal. eapply for_each_map; [|exact Ea].
    intros author ys Hys. unfold author_on. cbn [fst snd]. now rewrite Hys.
Qed.

Lemma search_page_ok tm0 ams0 np :
  page_ok np -> returns (search_page gold_title gold_authors (tm0, ams0) np).
Proof.
  destruct np as [number page]. unfold search_page, page_ok. cbn [fst snd].
  intros [[title_matches Et] Ha]. apply for_each_returns in Ha. destruct Ha as [found Ea].
  rewrite page_assertion. cbn [py_assert mbind res_bind].
  rewrite Et. cbn [mbind res_bind]. rewrite Ea. cbn [mbind res_bind].
  eexists. reflexivity.
Qed.

(** The loop over the pages, when it returns. *)
Lemma fold_search_returns numbered : forall tm0 ams0 tm ams,
  length ams0 = length gold_authors ->
  fold_res (search_page gold_title gold_authors) numbered (tm0, ams0) = Ok (tm, ams) ->
  Forall page_ok numbered /\
  (is_Some tm <-> is_Some tm0 \/ Exists (fun np => title_on np <> []) numbered) /\
  length ams = length gold_authors /\
  (forall j author, gold_authors !! j = Some author ->
     exists old new, ams0 !! j = Some old /\ ams !! j = Some new /\
       forall m, m ∈ new <-> m ∈ old \/ exists np, np ∈ numbered /\ m ∈ author_on np author).
Proof.
  induction numbered as [|np rest IH]; intros tm0 ams0 tm ams Hlen; cbn [fold_res].
  - intros [= <- <-]. split; [constructor|]. split; [|split; [exact Hlen|]].
    + split; [auto|]. intros [Hs|Hex]; [exact Hs|inversion Hex].
    + intros j author Hj.
      destruct (lookup_lt_is_Some_2 ams0 j) as [old Hold].
      { rewrite Hlen. eapply lookup_lt_Some. exact Hj. }
      exists old, old. split; [exact Hold|]. split; [exact Hold|].
      intros m. split; [auto|]. intros [Hm|(np & Hnp & _)]; [exact Hm|inversion Hnp].
  - intros Hfold. apply bind_Ok in Hfold. destruct Hfold as ([tm1 ams1] & Hstep & Hfold).
    apply search_page_returns in Hstep. destruct Hstep as (Hok & Htitle & Hams).
    assert (Hlen1 : length ams1 = length gold_authors).
    { rewrite Hams, length_zip_with, length_map. lia. }
    destruct (IH _ _ _ _ Hlen1 Hfold) as (Hoks & Htitles & Hlen' & Hauthors).
    split; [constructor; assumption|]. split; [|split; [exact Hlen'|]].
    + rewrite Htitles, Htitle, Exists_cons. tauto.
    + intros j author Hj.
      destruct (Hauthors j author Hj) as (old1 & new & Hold1 & Hnew & Hm).
      rewrite Hams, lookup_zip_with in Hold1.
      destruct (ams0 !! j) as [old|] eqn:Eold; [|discriminate].
      rewrite list_lookup_fmap, Hj in Hold1. simpl in Hold1. injection Hold1 as <-.
      exists old, new. split; [reflexivity|]. split; [exact Hnew|].
      intros m. rewrite Hm, elem_of_app. split.
      * intros [[Ho|Hn]|(np' & Hnp' & Hm')]; [auto| |].
        -- right. exists np. split; [left|exact Hn].
        -- right. exists np'. split; [now right|exact Hm'].
      * intros [Ho|(np' & Hnp' & Hm')]; [auto|].
        apply elem_of_cons in Hnp'. destruct Hnp' as [-> | Hin]; [auto|].
        right. exists np'. auto.
Qed.

Lemma fold_search_ok numbered : forall st,
  Forall page_ok numbered ->
  returns (fold_res (search_page gold_title gold_authors) numbered st).
Proof.
  induction numbered as [|np rest IH]; intros [tm0 ams0] Hall; cbn [fold_res].
  - eexists. reflexivity.
  - inversion Hall as [|? ? Hnp Hrest]; subst.
    destruct (search_page_ok tm0 ams0 np Hnp) as [st1 Hst1].
    rewrite Hst1. cbn [mbind res_bind]. apply IH, Hrest.
Qed.

End WithGold.

Lemma elem_of_pages_of (matches : list FuzzyMatch) (n : nat) :
  n ∈ pages_of matches <-> exists m, m ∈ matches /\ page_number m = n.
Proof.
  unfold pages_of. rewrite elem_of_list_to_set, list_elem_of_fmap.
  split; intros (m & H1 & H2); exists m; auto.
Qed.

Lemma elem_of_fold_intersection (rest : list (list FuzzyMatch)) : forall (pages : gset nat) n,
  n ∈ fold_left (fun pages matches => pages ∩ pages_of matches) rest pages <->
  n ∈ pages /\ Forall (fun matches => n ∈ pages_of matches) rest.
Proof.
  induction rest as [|matches rest IH]; intros pages n; simpl.
  - split; [intros Hn; split; [exact Hn|constructor]|tauto].
  - rewrite IH, elem_of_intersection, Forall_cons. tauto.
Qed.

Lemma page_numbers_with_author_matches_spec author_matches pages :
  page_numbers_with_author_matches author_matches = Ok pages ->
  forall n, n ∈ pages <-> Forall (fun matches => n ∈ pages_of matches) author_matches.
Proof.
  unfold page_numbers_with_author_matches.
  destruct author_matches as [|first rest]; [discriminate|].
  intros [= <-] n. rewrite elem_of_fold_intersection, Forall_cons. tauto.
Qed.

Lemma foldr_min_elem (x : nat) (rest : list nat) : foldr Nat.min x rest ∈ x :: rest.
Proof.
  induction rest as [|y rest IH]; simpl; [left|].
  destruct (Nat.min_spec y (foldr Nat.min x rest)) as [[_ ->]|[_ ->]].
  - right. left.
  - apply elem_of_cons in IH. destruct IH as [-> | IH]; [left|right; right; exact IH].
Qed.

Lemma set_min_None (pages : gset nat) : set_min pages = None <-> pages = ∅.
Proof.
  unfold set_min. destruct (elements pages) as [|x rest] eqn:E.
  - split; [intros _|reflexivity]. apply leibniz_equiv, elements_empty_inv, E.
  - split; [discriminate|]. intros ->. rewrite elements_empty in E. discriminate.
Qed.

Lemma set_min_Some (pages : gset nat) n : set_min pages = Some n -> n ∈ pages.
Proof.
  unfold set_min. destruct (elements pages) as [|x rest] eqn:E; [discriminate|].
  intros [= <-]. apply elem_of_elements. rewrite E. apply foldr_min_elem.
Qed.

Lemma for_each_concat_elem {A B : Type} (f : A -> res (list B)) (l : list A) :
  forall found m, for_each f l = Ok found ->
  (m ∈ concat found <-> exists x ys, x ∈ l /\ f x = Ok ys /\ m ∈ ys).
Proof.
  induction l as [|x rest IH]; simpl; intros found m.
  - intros [= <-]. simpl. split; [intros Hm; inversion Hm|].
    intros (x & ys & Hx & _). inversion Hx.
  - intros Hys. apply bind_Ok in Hys. destruct Hys as (y & Hy & Hys).
    apply bind_Ok in Hys. destruct Hys as (ys' & Hys' & [= <-]).
    simpl. rewrite elem_of_app, (IH _ m Hys'). split.
    + intros [Hm|(x' & ys & Hx' & Hf & Hm)].
      * exists x, y. split; [left|auto].
      * exists x', ys. split; [now right|auto].
    + intros (x' & ys & Hx' & Hf & Hm).
      apply elem_of_cons in Hx'. destruct Hx' as [-> | Hin].
      * left. rewrite Hy in Hf. now injection Hf as ->.
      * right. eauto.
Qed.

Section Characterisation.
Context `{Externals}.

(** The pages the labeler searches: the first [MAX_PAGE_COUNT] ones. *)
Definition searched_pages (doc : Doc) : list Page :=
  take (Nat.min MAX_PAGE_COUNT (length (doc_pages doc))) (doc_pages doc).

(** The pages as the loop numbers them. *)
Definition numbered_pages (doc : Doc) : list (nat * Page) :=
  imap (fun number page => (number, page)) (searched_pages doc).

(** Every scan of every searched page returns: no assertion of the
    generator fails and no scan loops forever. *)
Definition scans_return (doc : Doc) (gold_title : str) (gold_authors : list (str * str))
    : Prop :=
  forall n page, searched_pages doc !! n = Some page ->
    page_ok gold_title gold_authors (n, page).

(** A title match within the budget was found on some page. *)
Definition title_found (doc : Doc) (gold_title : str) : Prop :=
  exists n page matches m,
    searched_pages doc !! n = Some page /\
    find_string_in_page n page gold_title = Ok matches /\ m ∈ matches.

(** A surface form of the author was found on page [n]. *)
Definition author_found_on (doc : Doc) (n : nat) (author : str * str) : Prop :=
  exists page variant matches m,
    searched_pages doc !! n = Some page /\
    variant ∈ author_variants author /\
    find_string_in_page n page variant = Ok matches /\ m ∈ matches.

(** Every gold author was found, all of them on one common page. *)
Definition authors_share_page (doc : Doc) (gold_authors : list (str * str)) : Prop :=
  exists n, forall author, author ∈ gold_authors -> author_found_on doc n author.

Lemma numbered_pages_elem doc n page :
  (n, page) ∈ numbered_pages doc <-> searched_pages doc !! n = Some page.
Proof.
  unfold numbered_pages. rewrite elem_of_lookup_imap. split.
  - intros (i & y & [= -> ->] & Hy). exact Hy.
  - intros Hn. exists n, page. auto.
Qed.

Lemma author_on_elem n page author m :
  returns (author_matches_on_page n page author) ->
  (m ∈ author_on (n, page) author <->
   exists variant matches, variant ∈ author_variants author /\
     find_string_in_page n page variant = Ok matches /\ m ∈ matches).
Proof.
  unfold author_on, author_matches_on_page. cbn [fst snd].
  intros [ms Hms]. apply bind_Ok in Hms. destruct Hms as (found & Hfound & [= <-]).
  rewrite Hfound. cbn [mbind res_bind].
  apply for_each_concat_elem. exact Hfound.
Qed.

Lemma title_on_nonempty n page gold_title :
  title_on gold_title (n, page) <> [] <->
  exists matches m, find_string_in_page n page gold_title = Ok matches /\ m ∈ matches.
Proof.
  unfold title_on. cbn [fst snd].
  destruct (find_string_in_page n page gold_title) as [matches|e].
  - split.
    + intros Hne. destruct matches as [|m rest]; [congruence|].
      exists (m :: rest), m. split; [reflexivity|left].
    + intros (ms & m & [= <-] & Hm) ->. inversion Hm.
  - split; [congruence|]. intros (ms & m & Hd & _). discriminate.
Qed.

Lemma gold_metadata_authors nxml gold_title gold_authors :
  gold_metadata nxml = inr (gold_title, gold_authors) ->
  gold_authors = gold_authors_of (author_nodes nxml) /\ gold_authors <> [].
Proof.
  unfold gold_metadata.
  destruct (article_titles nxml) as [|title [|? ?]]; try discriminate.
  destruct (_ <=? 4)%nat; [discriminate|].
  destruct (length (gold_authors_of (author_nodes nxml)) =? 0)%nat eqn:E; [discriminate|].
  destruct (negb _); [discriminate|].
  destruct (_ || _); [discriminate|].
  intros [= _ <-]. split; [reflexivity|].
  intros E0. rewrite E0 in E. discriminate.
Qed.

(** What the loop over the pages leaves, when every scan returns. *)
Lemma search_all_pages doc gold_title gold_authors tm ams :
  fold_res (search_page gold_title gold_authors) (numbered_pages doc)
           (None, map (fun _ => []) gold_authors) = Ok (tm, ams) ->
  scans_return doc gold_title gold_authors /\
  (is_Some tm <-> title_found doc gold_title) /\
  length ams = length gold_authors /\
  (forall j author, gold_authors !! j = Some author ->
     exists found, ams !! j = Some found /\
       forall n, n ∈ pages_of found <-> author_found_on doc n author).
Proof.
  intros Hfold.
  apply fold_search_returns in Hfold; [|now rewrite length_map].
  destruct Hfold as (Hoks & Htitle & Hlen & Hauthors).
  assert (Hscans : scans_return doc gold_title gold_authors).
  { intros n page Hn. rewrite Forall_forall in Hoks.
    apply Hoks, numbered_pages_elem, Hn. }
  split; [exact Hscans|]. split; [|split; [exact Hlen|]].
  - rewrite Htitle. split.
    + intros [[x Hx]|Hex]; [discriminate|].
      apply Exists_exists in Hex. destruct Hex as ([n page] & Hnp & Hne).
      apply title_on_nonempty in Hne. destruct Hne as (matches & m & Hfind & Hm).
      exists n, page, matches, m. split; [now apply numbered_pages_elem|auto].
    + intros (n & page & matches & m & Hn & Hfind & Hm). right.
      apply Exists_exists. exists (n, page). split; [now apply numbered_pages_elem|].
      apply title_on_nonempty. eauto.
  - intros j author Hj.
    destruct (Hauthors j author Hj) as (old & found & Hold & Hfound & Hm).
    rewrite list_lookup_fmap, Hj in Hold. simpl in Hold. injection Hold as <-.
    exists found. split; [exact Hfound|]. intros n.
    rewrite elem_of_pages_of. split.
    + intros (m & Hmf & Hpage). apply Hm in Hmf.
      destruct Hmf as [Hnil|([n' page] & Hnp & Hon)]; [inversion Hnil|].
      pose proof (author_on_page_number _ _ _ Hon) as Hn'. cbn [fst] in Hn'.
      assert (n' = n) as -> by congruence.
      apply numbered_pages_elem in Hnp.
      apply author_on_elem in Hon.
      * destruct Hon as (variant & matches & Hv & Hfind & Hmm).
        exists page, variant, matches, m. auto.
      * destruct (Hscans n page Hnp) as [_ Hall].
        rewrite Forall_forall in Hall. apply Hall.
        eapply list_elem_of_lookup_2. exact Hj.
    + intros (page & variant & matches & m & Hn & Hv & Hfind & Hmm).
      assert (Hon : m ∈ author_on (n, page) author).
      { apply author_on_elem; [|eauto].
        destruct (Hscans n page Hn) as [_ Hall].
        rewrite Forall_forall in Hall. apply Hall.
        eapply list_elem_of_lookup_2. exact Hj. }
      exists m. split.
      * apply Hm. right. exists (n, page). split; [now apply numbered_pages_elem|exact Hon].
      * apply (author_on_page_number _ _ _ Hon).
Qed.

(** A document whose reference metadata passes the gates is written exactly
    when its scans return, its title is found and its authors share a page. *)
Lemma label_document_written doc nxml gold_title gold_authors :
  gold_metadata nxml = inr (gold_title, gold_authors) ->
  ((exists entry, label_document doc (NxmlParsed nxml) = Ok (Written entry)) <->
   scans_return doc gold_title gold_authors /\
   title_found doc gold_title /\
   authors_share_page doc gold_authors).
Proof.
  intros Eg. pose proof (gold_metadata_authors _ _ _ Eg) as [_ Hne].
  unfold label_document. cbn [read_gold_metadata mbind res_bind]. rewrite Eg.
  change (imap (fun number page => (number, page))
            (take (Nat.min MAX_PAGE_COUNT (length (doc_pages doc))) (doc_pages doc)))
    with (numbered_pages doc).
  destruct (fold_res (search_page gold_title gold_authors) (numbered_pages doc)
              (None, map (fun _ => []) gold_authors)) as [[tm ams]|e] eqn:Eloop.
  2: { cbn [mbind res_bind]. split; [intros [entry Hd]; discriminate|].
       intros (Hscans & _ & _). exfalso.
       destruct (fold_search_ok gold_title gold_authors (numbered_pages doc)
                   (None, map (fun _ => []) gold_authors)) as [st Hst].
       - apply Forall_forall. intros [n page] Hnp.
         apply Hscans, numbered_pages_elem, Hnp.
       - rewrite Hst in Eloop. discriminate. }
  cbn [mbind res_bind].
  apply search_all_pages in Eloop. destruct Eloop as (Hscans & Htitle & Hlen & Hauthors).
  destruct (page_numbers_with_author_matches ams) as [pages|e] eqn:Es.
  2: { exfalso. destruct ams as [|first rest]; [|discriminate].
       destruct gold_authors; [congruence|discriminate]. }
  cbn [mbind res_bind].
  pose proof (page_numbers_with_author_matches_spec _ _ Es) as Hpages.
  assert (Hkey : forall n, n ∈ pages <->
                   forall author, author ∈ gold_authors -> author_found_on doc n author).
  { intros n. rewrite Hpages, Forall_forall. split.
    - intros Hall author Hauthor.
      apply list_elem_of_lookup in Hauthor. destruct Hauthor as [j Hj].
      destruct (Hauthors j author Hj) as (found & Hfound & Hn).
      apply Hn, Hall. eapply list_elem_of_lookup_2. exact Hfound.
    - intros Hall matches Hmatches.
      apply list_elem_of_lookup in Hmatches. destruct Hmatches as [j Hj].
      destruct (lookup_lt_is_Some_2 gold_authors j) as [author Hauthor].
      { rewrite <- Hlen. eapply lookup_lt_Some. exact Hj. }
      destruct (Hauthors j author Hauthor) as (found & Hfound & Hn).
      assert (found = matches) as <- by congruence.
      apply Hn, Hall. eapply list_elem_of_lookup_2. exact Hauthor. }
  destruct (set_min pages) as [n|] eqn:Emin.
  2: { apply set_min_None in Emin. subst pages.
       split; [intros [entry Hd]; discriminate|].
       intros (_ & _ & (n & Hn)). apply Hkey in Hn. set_solver. }
  apply set_min_Some in Emin.
  match goal with |- context [for_each ?f ?l] =>
    assert (Hbest : returns (for_each f l))
  end.
  { apply for_each_returns, Forall_fmap, Forall_forall. intros matches Hmatches.
    apply Hpages in Emin. rewrite Forall_forall in Emin.
    specialize (Emin matches Hmatches). apply elem_of_pages_of in Emin.
    destruct Emin as (m & Hm & Hpage). simpl.
    destruct (List.filter _ matches) as [|first rest] eqn:Ef.
    - exfalso. assert (Hin : In m (List.filter (fun m => (page_number m =? n)%nat) matches)).
      { apply filter_In. split; [now apply list_elem_of_In|now apply Nat.eqb_eq]. }
      rewrite Ef in Hin. exact Hin.
    - eexists. reflexivity. }
  destruct Hbest as [best Hbest]. rewrite Hbest. cbn [mbind res_bind].
  destruct tm as [title_match|].
  - split; [intros _|intros _; eexists; reflexivity].
    split; [exact Hscans|]. split; [apply Htitle; eauto|].
    exists n. now apply Hkey.
  - split; [intros [entry Hd]; discriminate|].
    intros (_ & Ht & _). apply Htitle in Ht. destruct Ht as [x Hx]. discriminate.
Qed.

(** C2 (as amended): an entry is written for a document exactly when its
    reference metadata passes the gates (the file is read, it has one title
    of more than 4 characters, at least one gold author and as many gold
    authors as author nodes), every scan of its pages returns, a title match
    within the budget is found on some page and every gold author is found on
    one common page.  A document with no extractable gold author, and a
    document whose title is found on no page, produce no entry. *)
Theorem labeled_entry_written_iff (doc : Doc) (file : NxmlFile) :
  ((exists entry, label_document doc file = Ok (Written entry)) <->
   exists nxml gold_title gold_authors,
     file = NxmlParsed nxml /\
     gold_metadata nxml = inr (gold_title, gold_authors) /\
     scans_return doc gold_title gold_authors /\
     title_found doc gold_title /\
     authors_share_page doc gold_authors) /\
  (forall nxml, file = NxmlParsed nxml ->
     gold_authors_of (author_nodes nxml) = [] ->
     forall entry, label_document doc file <> Ok (Written entry)) /\
  (forall nxml gold_title gold_authors, file = NxmlParsed nxml ->
     gold_metadata nxml = inr (gold_title, gold_authors) ->
     ~ title_found doc gold_title ->
     forall entry, label_document doc file <> Ok (Written entry)).
Proof.
  assert (Hiff : (exists entry, label_document doc file = Ok (Written entry)) <->
                 exists nxml gold_title gold_authors,
                   file = NxmlParsed nxml /\
                   gold_metadata nxml = inr (gold_title, gold_authors) /\
                   scans_return doc gold_title gold_authors /\
                   title_found doc gold_title /\
                   authors_share_page doc gold_authors).
  { split.
    - intros [entry Hentry].
      destruct file as [| | |nxml]; try discriminate Hentry.
      destruct (gold_metadata nxml) as [why|[gold_title gold_authors]] eqn:Eg.
      + unfold label_document in Hentry. cbn [read_gold_metadata mbind res_bind] in Hentry.
        rewrite Eg in Hentry. discriminate.
      + exists nxml, gold_title, gold_authors. split; [reflexivity|]. split; [exact Eg|].
        apply (label_document_written doc nxml _ _ Eg). eauto.
    - intros (nxml & gold_title & gold_authors & -> & Eg & Hrest).
      apply (label_document_written doc nxml _ _ Eg). exact Hrest. }
  split; [exact Hiff|]. split.
  - intros nxml -> Hnone entry Hentry.
    destruct (proj1 Hiff (ex_intro _ entry Hentry))
      as (nxml' & gold_title & gold_authors & [= <-] & Eg & _).
    apply gold_metadata_authors in Eg. destruct Eg as [-> Hne]. contradiction.
  - intros nxml gold_title gold_authors -> Eg Hnot entry Hentry.
    destruct (proj1 Hiff (ex_intro _ entry Hentry))
      as (nxml' & gold_title' & gold_authors' & [= <-] & Eg' & _ & Hfound & _).
    rewrite Eg in Eg'. injection Eg' as <- <-. contradiction.
Qed.

End Characterisation.

End LabelingFacts.

(** ** The artifact builders *)

Module Builders.
Import Labeler.

(** The paths of a bucket that the builders touch. *)
Inductive Path : Type :=
| RawTokensPath (bucket : str)
| NxmlPath (bucket : str) (doc : str)
| VisionOutputPath (bucket : str)
| UnlabeledTokensPath (bucket : str)
| LabeledTokensPath (bucket : str)
| FeaturizedTokensPath (bucket : str) (key : Z)
| TempPath (final : Path) (pid : nat).

#[global] Instance Path_eq_dec : EqDecision Path.
Proof. solve_decision. Defined.

(** A document of [tokens3.json.bz2]. *)
Record JsonDoc : Type := {
  docId : str;
  json_pages : list Page
}.

(** The rows of [token_hashed_text_features] and of
    [token_scaled_numeric_features]. *)
Record Featurized : Type := {
  token_hashed_text_features : list (Z * Z);
  token_scaled_numeric_features : list (list Q)
}.

(** What a path holds. *)
Inductive File : Type :=
| RawTokens (docs : list JsonDoc)
| NxmlDocument (file : NxmlFile)
| VisionOutputJson (lines : list VisionOutput.Line)
| BeingWritten
| UnlabeledTokens (docs : list Doc)
| LabeledTokens (entries : list LabeledDoc)
| FeaturizedTokens (labeled : Path) (features : Featurized).

(** The file system. *)
Definition FS : Type := Path -> option File.

(** The path is given the content [file]. *)
Definition write (path : Path) (file : File) (fs : FS) : FS :=
  fun p => if decide (p = path) then Some file else fs p.

(** [os.remove(path)] *)
Definition remove (path : Path) (fs : FS) : FS :=
  fun p => if decide (p = path) then None else fs p.

(** [os.rename(source, target)]: one step that replaces the target. *)
Definition rename (source target : Path) (fs : FS) : FS :=
  match fs source with
  | Some file => remove source (write target file fs)
  | None => fs
  end.

(** A finalized artifact, as opposed to an input or to a file that is
    being written. *)
Definition complete (file : File) : Prop :=
  match file with
  | UnlabeledTokens _ | LabeledTokens _ | FeaturizedTokens _ _ => True
  | _ => False
  end.

(** The path holds no file or a complete artifact. *)
Definition absent_or_complete (fs : FS) (path : Path) : Prop :=
  match fs path with
  | None => True
  | Some file => complete file
  end.

Record ModelSettings : Type := {
  max_page_number : Z;
  font_hash_size : Z;
  minimum_token_frequency : Z;
  glove_vectors : str
}.

(** The skeleton the three builders share, written out in each of them:
    create the temporary file (mode [w-] raises when it exists), run the
    body of the [try], on an exception remove the temporary file and raise
    again, otherwise close, rename and open the final file. *)
Definition build (temp final : Path) (body : res File) (fs : FS) : res File * FS :=
  match fs temp with
  | Some _ => (Raise FileExistsError, fs)
  | None =>
      let fs := write temp BeingWritten fs in
      match body with
      | Raise e => (Raise e, remove temp fs)
      | Ok artifact =>
          let fs := write temp artifact fs in
          let fs := rename temp final fs in
          (or_raise FileNotFoundError (fs final), fs)
      end
  end.

Section Bodies.
Context `{Externals}.

(** The bodies of the three [try] blocks, on what they read: any
    computation that returns the datasets or raises. *)
Variable unlabeled_body : FS -> str -> res (list Doc).
Variable labeled_body : FS -> str -> list Doc -> res (list LabeledDoc).
Variable featurized_body :
  gmap str (list (list VisionOutput.BoundingBox)) -> list LabeledDoc -> res Featurized.

(** [unlabeled_tokens_file(bucket_path)] in the process [pid]. *)
Definition unlabeled_tokens_file_with (pid : nat) (bucket_path : str) (fs : FS)
    : res File * FS :=
  let unlabeled_tokens_path := UnlabeledTokensPath bucket_path in
  match fs unlabeled_tokens_path with
  | Some file => (Ok file, fs)
  | None =>
      let temp_unlabeled_tokens_path := TempPath unlabeled_tokens_path pid in
      build temp_unlabeled_tokens_path unlabeled_tokens_path
            (docs ← unlabeled_body fs bucket_path; Ok (UnlabeledTokens docs))
            fs
  end.

(** [labeled_tokens_file(bucket_path)] in the process [pid]. *)
Definition labeled_tokens_file_with (pid : nat) (bucket_path : str) (fs : FS)
    : res File * FS :=
  let labeled_tokens_path := LabeledTokensPath bucket_path in
  match fs labeled_tokens_path with
  | Some file => (Ok file, fs)
  | None =>
      match unlabeled_tokens_file_with pid bucket_path fs with
      | (Raise e, fs) => (Raise e, fs)
      | (Ok unlabeled_tokens, fs) =>
          let temp_labeled_tokens_path := TempPath labeled_tokens_path pid in
          build temp_labeled_tokens_path labeled_tokens_path
                (match unlabeled_tokens with
                 | UnlabeledTokens docs =>
                     entries ← labeled_body fs bucket_path docs;
                     Ok (LabeledTokens entries)
                 | _ => Raise KeyError
                 end)
                fs
      end
  end.

(** The key of the featurized artifact: [abs(hash(...))] of the reversed
    tuple of settings. *)
Definition featurizing_key (model_settings : ModelSettings) : Z :=
  Z.abs (py_hash [mmh3_hash (os_path_basename (glove_vectors model_settings));
                  minimum_token_frequency model_settings;
                  font_hash_size model_settings;
                  max_page_number model_settings]).

(** [featurized_tokens_file(bucket_path, ...)] in the process [pid]. *)
Definition featurized_tokens_file_with (pid : nat) (bucket_path : str)
    (model_settings : ModelSettings) (fs : FS) : res File * FS :=
  let featurized_tokens_path :=
    FeaturizedTokensPath bucket_path (featurizing_key model_settings) in
  match fs featurized_tokens_path with
  | Some file => (Ok file, fs)
  | None =>
      let vision_file :=
        match fs (VisionOutputPath bucket_path) with
        | Some (VisionOutputJson lines) => Some lines
        | _ => None
        end in
      match VisionOutput.init vision_file with
      | Raise e => (Raise e, fs)
      | Ok vision_output =>
          match labeled_tokens_file_with pid bucket_path fs with
          | (Raise e, fs) => (Raise e, fs)
          | (Ok labeled_tokens, fs) =>
              let temp_featurized_tokens_path := TempPath featurized_tokens_path pid in
              build temp_featurized_tokens_path featurized_tokens_path
                    (match labeled_tokens with
                     | LabeledTokens entries =>
                         features ← featurized_body vision_output entries;
                         Ok (FeaturizedTokens (LabeledTokensPath bucket_path) features)
                     | _ => Raise KeyError
                     end)
                    fs
          end
      end
  end.

End Bodies.

Definition MAX_DOCS_PER_BUCKET : nat := 61 * 100.

(** [s.split("/")] *)
Fixpoint split_slash (current : str) (rest : str) : list str :=
  match rest with
  | [] => [current]
  | c :: rest =>
      if (c =? 47)%N then current :: split_slash [] rest
      else split_slash (current ++ [c]) rest
  end.

(** [_sha1_re.match(x) is not None]: 40 characters among [0-9a-f]. *)
Definition is_sha1 (x : str) : bool :=
  (length x =? 40)%nat
  && forallb (fun c => ((48 <=? c) && (c <=? 57) || (97 <=? c) && (c <=? 102))%N) x.

(** The loop that looks for the first element of the id that is a sha. *)
Fixpoint from_sha (doc_id : list str) : option (list str) :=
  match doc_id with
  | [] => None
  | id_element :: rest =>
      if is_sha1 id_element then Some doc_id else from_sha rest
  end.

(** [s.replace("\0", "�")] *)
Definition sanitize_string (text : str) : str :=
  map (fun c => if (c =? 0)%N then 65533%N else c) text.

Definition sanitize_token (token : Token) : Token :=
  {| tok_text := sanitize_string (tok_text token);
     tok_font := sanitize_string (tok_font token);
     tok_left := tok_left token; tok_right := tok_right token;
     tok_top := tok_top token; tok_bottom := tok_bottom token;
     tok_font_size := tok_font_size token;
     tok_font_space_width := tok_font_space_width token |}.

(** The body of the loop of [unlabeled_tokens_file] over a document. *)
Definition unlabeled_doc (json_doc : JsonDoc) : res Doc :=
  let doc_id := split_slash [] (docId json_doc) in
  let doc_id := default doc_id (from_sha doc_id) in
  doc_sha ← or_raise IndexError (head doc_id);
  _ ← py_assert (is_sha1 doc_sha);
  let doc_id := join [47%N] doc_id in
  let effective_page_count := Nat.min MAX_PAGE_COUNT (length (json_pages json_doc)) in
  Ok {| doc_id := doc_id;
        doc_sha := doc_sha;
        doc_pages :=
          map (fun page =>
                 {| page_width := page_width page;
                    page_height := page_height page;
                    page_tokens := map sanitize_token (page_tokens page) |})
              (take effective_page_count (json_pages json_doc)) |}.

(** The body of the [try] of [unlabeled_tokens_file]: a dump that cannot be
    read gives no document; the metadata dataset holds at most
    [MAX_DOCS_PER_BUCKET] documents. *)
Definition unlabeled_body (fs : FS) (bucket_path : str) : res (list Doc) :=
  let json_docs :=
    match fs (RawTokensPath bucket_path) with
    | Some (RawTokens docs) => docs
    | _ => []
    end in
  docs ← for_each unlabeled_doc json_docs;
  if (MAX_DOCS_PER_BUCKET <? length docs)%nat then Raise ValueError else Ok docs.

Section Concrete.
Context `{Externals}.

(** The body of the [try] of [labeled_tokens_file]. *)
Definition labeled_body (fs : FS) (bucket_path : str) (docs : list Doc)
    : res (list LabeledDoc) :=
  labelings ← for_each
    (fun doc =>
       let file :=
         match fs (NxmlPath bucket_path (doc_id doc)) with
         | Some (NxmlDocument file) => file
         | _ => NxmlNotFound
         end in
       label_document doc file)
    docs;
  Ok (omap (M := list) (fun labeling =>
              match labeling with
              | Written entry => Some entry
              | Skipped _ => None
              end)
           labelings).

(** The document of an entry of the labeled artifact. *)
Definition labeled_doc (entry : LabeledDoc) : Doc :=
  {| doc_id := lab_doc_id entry;
     doc_sha := lab_doc_sha entry;
     doc_pages := lab_pages entry |}.

(** [x] as an [np.int32]: what an assignment into the [int32] array
    [text_features], and its [+= 1], keep of a value: its residue modulo
    2^32 between -2^31 and 2^31 - 1. *)
Definition int32 (x : Z) : Z := ((x + 2 ^ 31) mod 2 ^ 32 - 2 ^ 31)%Z.

(** What the [uint32] dataset holds for a value of the [int32] array that it
    is created from: the value itself when it is not negative. *)
Definition stored_uint32 (x : Z) : Z :=
  if (0 <=? x)%Z then x else h5_uint32_of_negative x.

(** The row of [token_hashed_text_features] of a token: the two vectorized
    functions give [uint32] values, the font modulo the hash size (0 when
    the size is 0); both are written into the [int32] array, which is
    incremented and stored as [uint32]. *)
Definition hashed_text_features (embeddings : CombinedEmbeddings.t) (p : Process)
    (model_settings : ModelSettings) (token : Token) : res (Z * Z) :=
  index ← CombinedEmbeddings.index_for_token embeddings p (tok_text token);
  let index := (Z.of_nat index mod 2 ^ 32)%Z in
  let font := (mmh3_hash (normalize (tok_font token)) mod 2 ^ 32)%Z in
  let font :=
    if (font_hash_size model_settings =? 0)%Z then 0%Z
    else (font mod font_hash_size model_settings)%Z in
  let text_features := (int32 index, int32 font) in
  let text_features := (int32 (fst text_features + 1), int32 (snd text_features + 1)) in
  Ok (stored_uint32 (fst text_features), stored_uint32 (snd text_features)).

(** The body of the [try] of [featurized_tokens_file]. *)
Definition featurized_body (token_stats : TokenStatistics.StatsFile)
    (embeddings : CombinedEmbeddings.t) (p : Process) (model_settings : ModelSettings)
    (vision_output : gmap str (list (list VisionOutput.BoundingBox)))
    (entries : list LabeledDoc) : res Featurized :=
  let docs := map labeled_doc entries in
  let tokens := concat (map page_tokens (concat (map doc_pages docs))) in
  text_features ← for_each (hashed_text_features embeddings p model_settings) tokens;
  scaled_numeric_features ←
    Featurizer.token_scaled_numeric_features token_stats vision_output docs;
  Ok {| token_hashed_text_features := text_features;
        token_scaled_numeric_features := scaled_numeric_features |}.

(** The three builders. *)
Definition unlabeled_tokens_file : nat -> str -> FS -> res File * FS :=
  unlabeled_tokens_file_with unlabeled_body.

Definition labeled_tokens_file : nat -> str -> FS -> res File * FS :=
  labeled_tokens_file_with unlabeled_body labeled_body.

Definition featurized_tokens_file (token_stats : TokenStatistics.StatsFile)
    (embeddings : CombinedEmbeddings.t) (p : Process)
    : nat -> str -> ModelSettings -> FS -> res File * FS :=
  fun pid bucket_path model_settings =>
    featurized_tokens_file_with unlabeled_body labeled_body
      (featurized_body token_stats embeddings p model_settings)
      pid bucket_path model_settings.

End Concrete.

End Builders.

(** ** Properties of the builders *)

Module BuilderFacts.
Import Builders.

(** For the final path of an artifact: the temporary file of the process is
    not there, and the final path holds no file or a complete artifact. *)
Definition settled (pid : nat) (fs : FS) (final : Path) : Prop :=
  fs (TempPath final pid) = None /\ absent_or_complete fs final.

(** What a builder leaves at its final path: on an exception what was there,
    on success the complete artifact it returns. *)
Definition outcome (final : Path) (fs : FS) (r : res File) (fs' : FS) : Prop :=
  match r with
  | Raise _ => fs' final = fs final
  | Ok file => fs' final = Some file /\ complete file
  end.

(** Only the final path and the temporary path of the process may change. *)
Definition frame (pid : nat) (finals : list Path) (fs fs' : FS) : Prop :=
  forall p, Forall (fun final => p <> final /\ p <> TempPath final pid) finals ->
    fs' p = fs p.

Lemma temp_path_neq (final : Path) (pid : nat) : TempPath final pid <> final.
Proof.
  induction final; try discriminate.
  intros [= Hfinal Hpid]. subst. now apply IHfinal.
Qed.

Lemma build_spec pid final body fs r fs' :
  settled pid fs final ->
  fs final = None ->
  (forall artifact, body = Ok artifact -> complete artifact) ->
  build (TempPath final pid) final body fs = (r, fs') ->
  settled pid fs' final /\ outcome final fs r fs' /\ frame pid [final] fs fs' /\
  (forall e, body = Raise e -> r = Raise e).
Proof.
  intros [Htemp _] Hfinal Hbody. unfold build. rewrite Htemp.
  pose proof (temp_path_neq final pid) as Hne.
  destruct body as [artifact|e].
  - specialize (Hbody artifact eq_refl).
    assert (Hfs : forall p,
              rename (TempPath final pid) final
                (write (TempPath final pid) artifact
                   (write (TempPath final pid) BeingWritten fs)) p
              = if decide (p = TempPath final pid) then None
                else if decide (p = final) then Some artifact else fs p).
    { intros p. unfold rename, write, remove.
      destruct (decide (TempPath final pid = TempPath final pid)); [|congruence].
      repeat case_decide; congruence. }
    intros [= <- <-].
    split; [split|split; [|split; [|discriminate]]].
    + rewrite Hfs. now rewrite decide_True.
    + unfold absent_or_complete. rewrite Hfs.
      rewrite decide_False by congruence. now rewrite decide_True.
    + rewrite Hfs. rewrite decide_False by congruence. rewrite decide_True by reflexivity.
      simpl. rewrite Hfs. rewrite decide_False by congruence.
      rewrite decide_True by reflexivity. auto.
    + intros p Hp. inversion Hp as [|? ? [Hp1 Hp2] _]; subst.
      rewrite Hfs. now rewrite !decide_False by congruence.
  - assert (Hfs : forall p,
              remove (TempPath final pid) (write (TempPath final pid) BeingWritten fs) p
              = if decide (p = TempPath final pid) then None else fs p).
    { intros p. unfold write, remove. repeat case_decide; congruence. }
    intros [= <- <-].
    split; [split|split; [|split; [|congruence]]].
    + rewrite Hfs. now rewrite decide_True.
    + unfold absent_or_complete. rewrite Hfs.
      rewrite decide_False by congruence. now rewrite Hfinal.
    + simpl. rewrite Hfs. now rewrite decide_False by congruence.
    + intros p Hp. inversion Hp as [|? ? [Hp1 Hp2] _]; subst.
      rewrite Hfs. now rewrite decide_False by congruence.
Qed.

Lemma settled_frame pid finals fs fs' final :
  frame pid finals fs fs' ->
  Forall (fun other => final <> other /\ final <> TempPath other pid
                       /\ TempPath final pid <> other /\ other <> final) finals ->
  settled pid fs final -> settled pid fs' final.
Proof.
  intros Hframe Hne [Htemp Hfinal]. unfold settled, absent_or_complete in *.
  rewrite !Hframe.
  - auto.
  - eapply Forall_impl; [exact Hne|]. intros other (H1 & H2 & H3 & H4). simpl. auto.
  - eapply Forall_impl; [exact Hne|]. intros other (H1 & H2 & H3 & H4). simpl.
    split; [exact H3|congruence].
Qed.

Lemma frame_trans pid finals1 finals2 fs fs1 fs2 :
  frame pid finals1 fs fs1 -> frame pid finals2 fs1 fs2 ->
  frame pid (finals1 ++ finals2) fs fs2.
Proof.
  intros H1 H2 p Hp. apply Forall_app in Hp. destruct Hp as [Hp1 Hp2].
  rewrite H2 by exact Hp2. now apply H1.
Qed.

Lemma frame_refl pid finals fs : frame pid finals fs fs.
Proof. intros p _. reflexivity. Qed.

Lemma frame_weaken pid finals finals' fs fs' :
  frame pid finals fs fs' -> finals ⊆ finals' -> frame pid finals' fs fs'.
Proof.
  intros Hframe Hsub p Hp. apply Hframe.
  rewrite Forall_forall in Hp |- *. intros final Hfinal. apply Hp, Hsub, Hfinal.
Qed.

Ltac distinct_paths :=
  repeat constructor; try discriminate; try congruence.

Section WithBodies.
Context `{Externals}.
Variable unlabeled_body : FS -> str -> res (list Doc).
Variable labeled_body : FS -> str -> list Doc -> res (list Labeler.LabeledDoc).
Variable featurized_body :
  gmap str (list (list VisionOutput.BoundingBox)) -> list Labeler.LabeledDoc -> res Featurized.

Lemma unlabeled_tokens_file_spec pid bucket fs r fs' :
  settled pid fs (UnlabeledTokensPath bucket) ->
  unlabeled_tokens_file_with unlabeled_body pid bucket fs = (r, fs') ->
  settled pid fs' (UnlabeledTokensPath bucket) /\
  outcome (UnlabeledTokensPath bucket) fs r fs' /\
  frame pid [UnlabeledTokensPath bucket] fs fs' /\
  (fs (UnlabeledTokensPath bucket) = None ->
   forall e, unlabeled_body fs bucket = Raise e -> r = Raise e).
Proof.
  intros Hs. unfold unlabeled_tokens_file_with.
  destruct (fs (UnlabeledTokensPath bucket)) as [file|] eqn:E.
  - intros [= <- <-]. split; [exact Hs|]. split; [|split; [apply frame_refl|discriminate]].
    simpl. split; [exact E|]. destruct Hs as [_ Hc].
    unfold absent_or_complete in Hc. now rewrite E in Hc.
  - intros Hbuild. apply build_spec in Hbuild; [|exact Hs|exact E|].
    + destruct Hbuild as (H1 & H2 & H3 & H4).
      split; [exact H1|]. split; [exact H2|]. split; [exact H3|].
      intros _ e He. apply H4. now rewrite He.
    + intros artifact Ha. apply bind_Ok in Ha. destruct Ha as (docs & _ & [= <-]). exact I.
Qed.

Lemma labeled_tokens_file_spec pid bucket fs r fs' :
  settled pid fs (UnlabeledTokensPath bucket) ->
  settled pid fs (LabeledTokensPath bucket) ->
  labeled_tokens_file_with unlabeled_body labeled_body pid bucket fs = (r, fs') ->
  settled pid fs' (UnlabeledTokensPath bucket) /\
  settled pid fs' (LabeledTokensPath bucket) /\
  outcome (LabeledTokensPath bucket) fs r fs' /\
  frame pid [UnlabeledTokensPath bucket; LabeledTokensPath bucket] fs fs' /\
  (fs (LabeledTokensPath bucket) = None ->
   forall docs fs1 e,
     unlabeled_tokens_file_with unlabeled_body pid bucket fs = (Ok (UnlabeledTokens docs), fs1) ->
     labeled_body fs1 bucket docs = Raise e -> r = Raise e).
Proof.
  intros HU HL. unfold labeled_tokens_file_with.
  destruct (fs (LabeledTokensPath bucket)) as [file|] eqn:E.
  - intros [= <- <-]. split; [exact HU|]. split; [exact HL|].
    split; [|split; [apply frame_refl|discriminate]].
    simpl. split; [exact E|]. destruct HL as [_ Hc].
    unfold absent_or_complete in Hc. now rewrite E in Hc.
  - destruct (unlabeled_tokens_file_with unlabeled_body pid bucket fs) as [r1 fs1] eqn:E1.
    destruct (unlabeled_tokens_file_spec _ _ _ _ _ HU E1) as (HU1 & _ & Hf1 & _).
    assert (HL1 : settled pid fs1 (LabeledTokensPath bucket)).
    { eapply settled_frame; [exact Hf1| |exact HL]. distinct_paths. }
    assert (EL1 : fs1 (LabeledTokensPath bucket) = None).
    { rewrite Hf1; [exact E|]. distinct_paths. }
    destruct r1 as [unlabeled|e].
    + intros Hbuild. apply build_spec in Hbuild; [|exact HL1|exact EL1|].
      * destruct Hbuild as (H1 & H2 & H3 & H4).
        split; [|split; [exact H1|split; [|split]]].
        -- eapply settled_frame; [exact H3| |exact HU1]. distinct_paths.
        -- destruct r; [exact H2|]. unfold outcome in *. congruence.
        -- apply (frame_trans pid [_] [_] _ _ _ Hf1 H3).
        -- intros _ docs fs1' e [= -> <-] He. apply H4. now rewrite He.
      * intros artifact Ha. destruct unlabeled; try discriminate.
        apply bind_Ok in Ha. destruct Ha as (entries & _ & [= <-]). exact I.
    + intros [= <- <-]. split; [exact HU1|]. split; [exact HL1|].
      split; [unfold outcome; congruence|].
      split; [|discriminate].
      eapply frame_weaken; [exact Hf1|].
      intros x Hx. apply list_elem_of_singleton in Hx. subst. left.
Qed.

Lemma featurized_tokens_file_spec pid bucket model_settings fs r fs' :
  settled pid fs (UnlabeledTokensPath bucket) ->
  settled pid fs (LabeledTokensPath bucket) ->
  settled pid fs (FeaturizedTokensPath bucket (featurizing_key model_settings)) ->
  featurized_tokens_file_with unlabeled_body labeled_body featurized_body
    pid bucket model_settings fs = (r, fs') ->
  settled pid fs' (UnlabeledTokensPath bucket) /\
  settled pid fs' (LabeledTokensPath bucket) /\
  settled pid fs' (FeaturizedTokensPath bucket (featurizing_key model_settings)) /\
  outcome (FeaturizedTokensPath bucket (featurizing_key model_settings)) fs r fs' /\
  (fs (FeaturizedTokensPath bucket (featurizing_key model_settings)) = None ->
   forall lines entries fs1 e,
     fs (VisionOutputPath bucket) = Some (VisionOutputJson lines) ->
     labeled_tokens_file_with unlabeled_body labeled_body pid bucket fs
       = (Ok (LabeledTokens entries), fs1) ->
     featurized_body (fold_left VisionOutput.add_line lines ∅) entries = Raise e ->
     r = Raise e).
Proof.
  intros HU HL HF. unfold featurized_tokens_file_with.
  set (final := FeaturizedTokensPath bucket (featurizing_key model_settings)) in *.
  destruct (fs final) as [file|] eqn:E.
  - intros [= <- <-]. split; [exact HU|]. split; [exact HL|]. split; [exact HF|].
    split; [|discriminate].
    simpl. split; [exact E|]. destruct HF as [_ Hc].
    unfold absent_or_complete in Hc. now rewrite E in Hc.
  - destruct (VisionOutput.init _) as [vision_output|e] eqn:Ev.
    2: { intros [= <- <-]. split; [exact HU|]. split; [exact HL|]. split; [exact HF|].
         split; [reflexivity|].
         intros _ lines entries fs1 e' Hlines. rewrite Hlines in Ev. discriminate. }
    destruct (labeled_tokens_file_with unlabeled_body labeled_body pid bucket fs)
      as [r1 fs1] eqn:E1.
    destruct (labeled_tokens_file_spec _ _ _ _ _ HU HL E1) as (HU1 & HL1 & _ & Hf1 & _).
    assert (HF1 : settled pid fs1 final).
    { eapply settled_frame; [exact Hf1| |exact HF]. unfold final. distinct_paths. }
    assert (EF1 : fs1 final = None).
    { rewrite Hf1; [exact E|]. unfold final. distinct_paths. }
    destruct r1 as [labeled|e].
    + intros Hbuild. apply build_spec in Hbuild; [|exact HF1|exact EF1|].
      * destruct Hbuild as (H1 & H2 & H3 & H4).
        split; [|split; [|split; [exact H1|split]]].
        -- eapply settled_frame; [exact H3| |exact HU1]. unfold final. distinct_paths.
        -- eapply settled_frame; [exact H3| |exact HL1]. unfold final. distinct_paths.
        -- destruct r; [exact H2|]. unfold outcome in *. congruence.
        -- intros _ lines entries fs1' e Hlines [= -> <-] He. apply H4.
           rewrite Hlines in Ev. simpl in Ev. injection Ev as <-. now rewrite He.
      * intros artifact Ha. destruct labeled; try discriminate.
        apply bind_Ok in Ha. destruct Ha as (features & _ & [= <-]). exact I.
    + intros [= <- <-]. split; [exact HU1|]. split; [exact HL1|]. split; [exact HF1|].
      split; [unfold outcome; congruence|]. discriminate.
Qed.

End WithBodies.

End BuilderFacts.

(** ** The builders, operation by operation *)

Module BuilderSteps.
Import Labeler Builders.

(** What the two calls that end a build do on a temporary path:
    [h5_file.close()] and [os.rename] stand after the [try], and each of them
    may raise. *)
Record System : Type := {
  close_error : Path -> option exn;
  rename_error : Path -> option exn
}.

(** A system on which neither call raises. *)
Definition reliable : System :=
  {| close_error := fun _ => None; rename_error := fun _ => None |}.

(** The state in which a run ends that passes through the states [steps]. *)
Definition end_state (fs : FS) (steps : list FS) : FS := default fs (last steps).

(** The skeleton of the three builders, with the state of the file system
    after each of its operations: [h5py.File(temp, "w-")] creates the
    temporary file, or raises when it exists; an exception of the body of the
    [try] removes it and is raised again; otherwise [close] completes the
    temporary file, [os.rename] moves it to the final path and the final file
    is opened. *)
Definition build_steps (os : System) (temp final : Path) (body : res File) (fs : FS)
    : res File * list FS :=
  match fs temp with
  | Some _ => (Raise FileExistsError, [])
  | None =>
      let created := write temp BeingWritten fs in
      match body with
      | Raise e => (Raise e, [created; remove temp created])
      | Ok artifact =>
          match close_error os temp with
          | Some e => (Raise e, [created])
          | None =>
              let closed := write temp artifact created in
              match rename_error os temp with
              | Some e => (Raise e, [created; closed])
              | None =>
                  let renamed := rename temp final closed in
                  (or_raise FileNotFoundError (renamed final), [created; closed; renamed])
              end
          end
      end
  end.

Section Bodies.
Context `{Externals}.
Variable unlabeled_body : FS -> str -> res (list Doc).
Variable labeled_body : FS -> str -> list Doc -> res (list LabeledDoc).
Variable featurized_body :
  gmap str (list (list VisionOutput.BoundingBox)) -> list LabeledDoc -> res Featurized.

(** The bodies of the three [try] blocks, on what the builder has opened. *)
Definition unlabeled_try (fs : FS) (bucket_path : str) : res File :=
  docs ← unlabeled_body fs bucket_path; Ok (UnlabeledTokens docs).

Definition labeled_try (fs : FS) (bucket_path : str) (unlabeled_tokens : File)
    : res File :=
  match unlabeled_tokens with
  | UnlabeledTokens docs =>
      entries ← labeled_body fs bucket_path docs;
      Ok (LabeledTokens entries)
  | _ => Raise KeyError
  end.

Definition featurized_try (bucket_path : str)
    (vision_output : gmap str (list (list VisionOutput.BoundingBox)))
    (labeled_tokens : File) : res File :=
  match labeled_tokens with
  | LabeledTokens entries =>
      features ← featurized_body vision_output entries;
      Ok (FeaturizedTokens (LabeledTokensPath bucket_path) features)
  | _ => Raise KeyError
  end.

(** [unlabeled_tokens_file(bucket_path)] in the process [pid]. *)
Definition unlabeled_tokens_file_steps (os : System) (pid : nat) (bucket_path : str)
    (fs : FS) : res File * list FS :=
  let unlabeled_tokens_path := UnlabeledTokensPath bucket_path in
  match fs unlabeled_tokens_path with
  | Some file => (Ok file, [])
  | None =>
      let temp_unlabeled_tokens_path := TempPath unlabeled_tokens_path pid in
      build_steps os temp_unlabeled_tokens_path unlabeled_tokens_path
                  (unlabeled_try fs bucket_path) fs
  end.

(** [labeled_tokens_file(bucket_path)] in the process [pid]. *)
Definition labeled_tokens_file_steps (os : System) (pid : nat) (bucket_path : str)
    (fs : FS) : res File * list FS :=
  let labeled_tokens_path := LabeledTokensPath bucket_path in
  match fs labeled_tokens_path with
  | Some file => (Ok file, [])
  | None =>
      match unlabeled_tokens_file_steps os pid bucket_path fs with
      | (Raise e, steps) => (Raise e, steps)
      | (Ok unlabeled_tokens, steps) =>
          let fs := end_state fs steps in
          let temp_labeled_tokens_path := TempPath labeled_tokens_path pid in
          let '(r, built) :=
            build_steps os temp_labeled_tokens_path labeled_tokens_path
                        (labeled_try fs bucket_path unlabeled_tokens) fs in
          (r, steps ++ built)
      end
  end.

(** [featurized_tokens_file(bucket_path, ...)] in the process [pid]. *)
Definition featurized_tokens_file_steps (os : System) (pid : nat) (bucket_path : str)
    (model_settings : ModelSettings) (fs : FS) : res File * list FS :=
  let featurized_tokens_path :=
    FeaturizedTokensPath bucket_path (featurizing_key model_settings) in
  match fs featurized_tokens_path with
  | Some file => (Ok file, [])
  | None =>
      let vision_file :=
        match fs (VisionOutputPath bucket_path) with
        | Some (VisionOutputJson lines) => Some lines
        | _ => None
        end in
      match VisionOutput.init vision_file with
      | Raise e => (Raise e, [])
      | Ok vision_output =>
          match labeled_tokens_file_steps os pid bucket_path fs with
          | (Raise e, steps) => (Raise e, steps)
          | (Ok labeled_tokens, steps) =>
              let fs := end_state fs steps in
              let temp_featurized_tokens_path := TempPath featurized_tokens_path pid in
              let '(r, built) :=
                build_steps os temp_featurized_tokens_path featurized_tokens_path
                            (featurized_try bucket_path vision_output labeled_tokens) fs in
              (r, steps ++ built)
          end
      end
  end.

End Bodies.

End BuilderSteps.

(** ** The states a build passes through *)

Module BuilderStepFacts.
Import Labeler Builders BuilderSteps BuilderFacts.

(** A step leaves the final path as it is, or it is the rename of the
    closed temporary file of the process, a complete artifact, to the final
    path, which holds no file. *)
Definition only_renamed (pid : nat) (final : Path) (s s' : FS) : Prop :=
  s' final = s final \/
  exists artifact,
    s final = None /\ s (TempPath final pid) = Some artifact /\ complete artifact /\
    s' = rename (TempPath final pid) final s.

(** A step of a builder with the final paths [finals]: each final path is
    left alone or renamed to, and holds no file or a complete artifact
    afterwards; and only final paths and temporary paths of the process
    change. *)
Definition careful_step (pid : nat) (finals : list Path) (s s' : FS) : Prop :=
  Forall (fun final => only_renamed pid final s s' /\ absent_or_complete s' final) finals /\
  frame pid finals s s'.

(** Every step of a run from [fs] through the states [steps]. *)
Fixpoint stepwise (step : FS -> FS -> Prop) (fs : FS) (steps : list FS) : Prop :=
  match steps with
  | [] => True
  | s :: rest => step fs s /\ stepwise step s rest
  end.

(** No state of the run shows a partial file at a final path. *)
Definition never_partial (pid : nat) (finals : list Path) (fs : FS) (steps : list FS)
    : Prop :=
  stepwise (careful_step pid finals) fs steps.

(** How the build of a final path ends, from the state [fs] in which its
    temporary file is created to the state [fs'], by what the body of the
    [try], [close] and [os.rename] do: an exception of the body is raised
    and the temporary file is gone; an exception of [close] or of
    [os.rename] is raised and the temporary file is left, being written or
    complete; in these cases the final path holds what it held; otherwise
    the artifact is returned and is what the final path holds, and the
    temporary file is gone. *)
Definition ending (os : System) (pid : nat) (final : Path) (body : res File) (fs : FS)
    (r : res File) (fs' : FS) : Prop :=
  match body with
  | Raise e => r = Raise e /\ fs' (TempPath final pid) = None /\ fs' final = fs final
  | Ok artifact =>
      match close_error os (TempPath final pid) with
      | Some e =>
          r = Raise e /\ fs' (TempPath final pid) = Some BeingWritten /\
          fs' final = fs final
      | None =>
          match rename_error os (TempPath final pid) with
          | Some e =>
              r = Raise e /\ fs' (TempPath final pid) = Some artifact /\
              fs' final = fs final
          | None =>
              r = Ok artifact /\ fs' (TempPath final pid) = None /\
              fs' final = Some artifact
          end
      end
  end.

Lemma end_state_cons fs s steps : end_state fs (s :: steps) = end_state s steps.
Proof.
  unfold end_state. destruct steps as [|s' steps]; [reflexivity|].
  change (last (s :: s' :: steps)) with (last (s' :: steps)).
  destruct (last (s' :: steps)) eqn:E; [reflexivity|].
  apply last_None in E. discriminate.
Qed.

Lemma end_state_app fs steps built :
  end_state fs (steps ++ built) = end_state (end_state fs steps) built.
Proof.
  revert fs. induction steps as [|s steps IH]; intros fs; [reflexivity|].
  cbn [app]. rewrite !end_state_cons. apply IH.
Qed.

Lemma stepwise_app step steps built : forall fs,
  stepwise step fs (steps ++ built) <->
  stepwise step fs steps /\ stepwise step (end_state fs steps) built.
Proof.
  induction steps as [|s steps IH]; intros fs; cbn [app stepwise].
  - change (end_state fs []) with fs. tauto.
  - rewrite end_state_cons, IH. tauto.
Qed.

(** What a run of careful steps keeps. *)
Lemma careful_end pid finals steps : forall fs,
  Forall (absent_or_complete fs) finals ->
  stepwise (careful_step pid finals) fs steps ->
  Forall (absent_or_complete (end_state fs steps)) finals /\
  frame pid finals fs (end_state fs steps).
Proof.
  induction steps as [|s steps IH]; intros fs Hfs; cbn [stepwise].
  - intros _. split; [exact Hfs|apply frame_refl].
  - intros [[Hfinals Hframe] Hrest]. rewrite end_state_cons.
    destruct (IH s) as [Hend Hframe']; [|exact Hrest|].
    + eapply Forall_impl; [exact Hfinals|]. intros final [_ Hc]. exact Hc.
    + split; [exact Hend|]. intros p Hp. rewrite Hframe' by exact Hp. apply Hframe, Hp.
Qed.

(** A careful step for some final paths is one for more final paths that
    it does not touch. *)
Lemma careful_step_weaken pid finals finals' s s' :
  finals ⊆ finals' ->
  Forall (fun final => Forall (fun other => final = other \/
                                 (final <> other /\ final <> TempPath other pid)) finals)
         finals' ->
  Forall (absent_or_complete s) finals' ->
  careful_step pid finals s s' -> careful_step pid finals' s s'.
Proof.
  intros Hsub Hapart Hs [Hfinals Hframe]. split.
  - rewrite Forall_forall in Hapart, Hs, Hfinals |- *. intros final Hfinal.
    destruct (decide (final ∈ finals)) as [Hin|Hout]; [apply Hfinals, Hin|].
    assert (Hsame : s' final = s final).
    { apply Hframe. rewrite Forall_forall. intros other Hother.
      specialize (Hapart final Hfinal). rewrite Forall_forall in Hapart.
      destruct (Hapart other Hother) as [->|Hne]; [contradiction|exact Hne]. }
    split; [left; exact Hsame|].
    unfold absent_or_complete. rewrite Hsame. apply Hs, Hfinal.
  - eapply frame_weaken; eassumption.
Qed.

Lemma stepwise_weaken pid finals finals' steps : forall fs,
  finals ⊆ finals' ->
  Forall (fun final => Forall (fun other => final = other \/
                                 (final <> other /\ final <> TempPath other pid)) finals)
         finals' ->
  Forall (absent_or_complete fs) finals' ->
  stepwise (careful_step pid finals) fs steps ->
  stepwise (careful_step pid finals') fs steps.
Proof.
  induction steps as [|s steps IH]; intros fs Hsub Hapart Hfs; cbn [stepwise]; [auto|].
  intros [Hstep Hrest].
  pose proof (careful_step_weaken pid finals finals' fs s Hsub Hapart Hfs Hstep) as Hstep'.
  split; [exact Hstep'|]. apply IH; [exact Hsub|exact Hapart| |exact Hrest].
  destruct Hstep' as [Hfinals _].
  eapply Forall_impl; [exact Hfinals|]. intros final [_ Hc]. exact Hc.
Qed.

Lemma build_steps_spec os pid final body fs r steps :
  fs final = None ->
  (forall artifact, body = Ok artifact -> complete artifact) ->
  build_steps os (TempPath final pid) final body fs = (r, steps) ->
  never_partial pid [final] fs steps /\
  (fs (TempPath final pid) = None ->
   ending os pid final body fs r (end_state fs steps)).
Proof.
  intros Hfinal Hbody. unfold build_steps, never_partial, ending.
  pose proof (temp_path_neq final pid) as Hne.
  set (temp := TempPath final pid) in *.
  assert (Hquiet : forall file (s : FS), s final = None ->
            careful_step pid [final] s (write temp file s)).
  { intros file s Hs. split.
    - constructor; [|constructor]. unfold only_renamed, absent_or_complete, write.
      rewrite decide_False by congruence. split; [left; reflexivity|now rewrite Hs].
    - intros p Hp. inversion Hp as [|? ? [Hp1 Hp2] _]; subst.
      unfold write. now rewrite decide_False. }
  destruct (fs temp) as [stale|] eqn:Htemp.
  { intros [= <- <-]. split; [exact I|discriminate]. }
  destruct body as [artifact|e].
  - specialize (Hbody artifact eq_refl).
    destruct (close_error os temp) as [e|].
    { intros [= <- <-]. split.
      - cbn [stepwise]. split; [apply Hquiet, Hfinal|exact I].
      - intros _. rewrite end_state_cons. change (end_state ?s []) with s. unfold write.
        repeat split; repeat case_decide; congruence. }
    assert (Hcreated : write temp BeingWritten fs final = None).
    { unfold write. now rewrite decide_False by congruence. }
    destruct (rename_error os temp) as [e|].
    { intros [= <- <-]. split.
      - cbn [stepwise]. split; [apply Hquiet, Hfinal|].
        split; [apply Hquiet, Hcreated|exact I].
      - intros _. rewrite !end_state_cons. change (end_state ?s []) with s. unfold write.
        repeat split; repeat case_decide; congruence. }
    set (closed := write temp artifact (write temp BeingWritten fs)).
    assert (Hclosed : closed final = None /\ closed temp = Some artifact).
    { unfold closed, write. split; repeat case_decide; congruence. }
    destruct Hclosed as [Hclosed1 Hclosed2].
    assert (Hrenamed : forall p,
              rename temp final closed p
              = if decide (p = temp) then None
                else if decide (p = final) then Some artifact else closed p).
    { intros p. unfold rename. rewrite Hclosed2. unfold remove, write.
      repeat case_decide; congruence. }
    intros [= <- <-]. split.
    + cbn [stepwise]. split; [apply Hquiet, Hfinal|].
      split; [apply Hquiet, Hcreated|]. split; [|exact I]. split.
      * constructor; [|constructor]. split.
        -- right. exists artifact. auto.
        -- unfold absent_or_complete. rewrite Hrenamed.
           rewrite decide_False by congruence. now rewrite decide_True.
      * intros p Hp. inversion Hp as [|? ? [Hp1 Hp2] _]; subst.
        rewrite Hrenamed. now rewrite !decide_False.
    + intros _. rewrite !end_state_cons. change (end_state ?s []) with s.
      rewrite !Hrenamed. repeat split; repeat case_decide; first [congruence|reflexivity].
  - intros [= <- <-]. split.
    + cbn [stepwise]. split; [apply Hquiet, Hfinal|]. split; [|exact I]. split.
      * constructor; [|constructor]. unfold only_renamed, absent_or_complete, remove, write.
        rewrite !decide_False by congruence. split; [left; reflexivity|now rewrite Hfinal].
      * intros p Hp. inversion Hp as [|? ? [Hp1 Hp2] _]; subst.
        unfold remove, write. now rewrite !decide_False.
    + intros _. rewrite !end_state_cons. change (end_state ?s []) with s.
      unfold remove, write. repeat split; repeat case_decide; congruence.
Qed.

(** On a system on which [close] and [os.rename] do not raise, the skeleton
    returns what [build] returns and ends in the state in which [build]
    ends. *)
Lemma build_steps_reliable temp final body fs :
  build temp final body fs
  = (fst (build_steps reliable temp final body fs),
     end_state fs (snd (build_steps reliable temp final body fs))).
Proof.
  unfold build, build_steps. cbn [reliable close_error rename_error].
  destruct (fs temp); [reflexivity|]. destruct body; reflexivity.
Qed.

Ltac apart :=
  repeat match goal with
         | |- Forall _ [] => apply List.Forall_nil
         | |- Forall _ (_ :: _) => apply List.Forall_cons
         | |- _ = _ \/ _ => first [left; reflexivity|right; split; discriminate]
         end.

Section WithBodies.
Context `{Externals}.
Variable unlabeled_body : FS -> str -> res (list Doc).
Variable labeled_body : FS -> str -> list Doc -> res (list Labeler.LabeledDoc).
Variable featurized_body :
  gmap str (list (list VisionOutput.BoundingBox)) -> list Labeler.LabeledDoc -> res Featurized.

Lemma unlabeled_steps_spec os pid bucket fs r steps :
  settled pid fs (UnlabeledTokensPath bucket) ->
  unlabeled_tokens_file_steps unlabeled_body os pid bucket fs = (r, steps) ->
  never_partial pid [UnlabeledTokensPath bucket] fs steps /\
  (fs (UnlabeledTokensPath bucket) = None ->
   ending os pid (UnlabeledTokensPath bucket) (unlabeled_try unlabeled_body fs bucket)
          fs r (end_state fs steps)).
Proof.
  intros [Htemp _]. unfold unlabeled_tokens_file_steps.
  destruct (fs (UnlabeledTokensPath bucket)) as [file|] eqn:E.
  - intros [= <- <-]. split; [exact I|discriminate].
  - intros Hbuild. apply build_steps_spec in Hbuild; [|exact E|].
    + destruct Hbuild as [Hsafe Hend]. split; [exact Hsafe|]. intros _. apply Hend, Htemp.
    + intros artifact Ha. apply bind_Ok in Ha. destruct Ha as (docs & _ & [= <-]). exact I.
Qed.

Lemma labeled_steps_spec os pid bucket fs r steps :
  settled pid fs (UnlabeledTokensPath bucket) ->
  settled pid fs (LabeledTokensPath bucket) ->
  labeled_tokens_file_steps unlabeled_body labeled_body os pid bucket fs = (r, steps) ->
  never_partial pid [UnlabeledTokensPath bucket; LabeledTokensPath bucket] fs steps /\
  (fs (LabeledTokensPath bucket) = None ->
   forall unlabeled_tokens steps1,
     unlabeled_tokens_file_steps unlabeled_body os pid bucket fs
     = (Ok unlabeled_tokens, steps1) ->
     ending os pid (LabeledTokensPath bucket)
            (labeled_try labeled_body (end_state fs steps1) bucket unlabeled_tokens)
            (end_state fs steps1) r (end_state fs steps)).
Proof.
  intros HU HL. unfold labeled_tokens_file_steps.
  destruct (fs (LabeledTokensPath bucket)) as [file|] eqn:E.
  { intros [= <- <-]. split; [exact I|discriminate]. }
  destruct (unlabeled_tokens_file_steps unlabeled_body os pid bucket fs)
    as [r1 steps1] eqn:E1.
  destruct (unlabeled_steps_spec _ _ _ _ _ _ HU E1) as [Hsafe1 _].
  assert (Hfs : Forall (absent_or_complete fs)
                  [UnlabeledTokensPath bucket; LabeledTokensPath bucket])
    by (repeat constructor; [apply HU|apply HL]).
  assert (Hsafe : never_partial pid [UnlabeledTokensPath bucket; LabeledTokensPath bucket]
                    fs steps1).
  { eapply stepwise_weaken; [| |exact Hfs|exact Hsafe1].
    - intros p Hp. apply list_elem_of_singleton in Hp. subst. left.
    - apart. }
  destruct r1 as [unlabeled_tokens|e].
  2: { intros [= <- <-]. split; [exact Hsafe|]. intros _ ? ? [=]. }
  destruct (careful_end _ _ _ _ Hfs Hsafe) as [Hfs1 _].
  destruct (careful_end pid [UnlabeledTokensPath bucket] steps1 fs) as [_ Hframe];
    [repeat constructor; apply HU|exact Hsafe1|].
  set (fs1 := end_state fs steps1) in *.
  assert (E' : fs1 (LabeledTokensPath bucket) = None).
  { rewrite Hframe; [exact E|]. distinct_paths. }
  assert (Htemp : fs1 (TempPath (LabeledTokensPath bucket) pid) = None).
  { rewrite Hframe; [apply HL|]. distinct_paths. }
  destruct (build_steps os _ _ _ fs1) as [r2 built] eqn:E2.
  apply build_steps_spec in E2; [|exact E'|].
  2: { intros artifact Ha. destruct unlabeled_tokens; try discriminate.
       apply bind_Ok in Ha. destruct Ha as (entries & _ & [= <-]). exact I. }
  destruct E2 as [Hsafe2 Hend]. intros [= <- <-]. split.
  - apply stepwise_app. split; [exact Hsafe|].
    eapply stepwise_weaken; [| |exact Hfs1|exact Hsafe2].
    + intros p Hp. apply list_elem_of_singleton in Hp. subst. right. left.
    + apart.
  - intros _ ? ? [= <- <-]. rewrite end_state_app. apply Hend, Htemp.
Qed.

Lemma featurized_steps_spec os pid bucket model_settings fs r steps :
  settled pid fs (UnlabeledTokensPath bucket) ->
  settled pid fs (LabeledTokensPath bucket) ->
  settled pid fs (FeaturizedTokensPath bucket (featurizing_key model_settings)) ->
  featurized_tokens_file_steps unlabeled_body labeled_body featurized_body
    os pid bucket model_settings fs = (r, steps) ->
  never_partial pid [UnlabeledTokensPath bucket; LabeledTokensPath bucket;
                     FeaturizedTokensPath bucket (featurizing_key model_settings)]
                fs steps /\
  (fs (FeaturizedTokensPath bucket (featurizing_key model_settings)) = None ->
   forall lines labeled_tokens steps1,
     fs (VisionOutputPath bucket) = Some (VisionOutputJson lines) ->
     labeled_tokens_file_steps unlabeled_body labeled_body os pid bucket fs
     = (Ok labeled_tokens, steps1) ->
     ending os pid (FeaturizedTokensPath bucket (featurizing_key model_settings))
            (featurized_try featurized_body bucket
               (fold_left VisionOutput.add_line lines ∅) labeled_tokens)
            (end_state fs steps1) r (end_state fs steps)).
Proof.
  intros HU HL HF. unfold featurized_tokens_file_steps.
  set (final := FeaturizedTokensPath bucket (featurizing_key model_settings)) in *.
  destruct (fs final) as [file|] eqn:E.
  { intros [= <- <-]. split; [exact I|discriminate]. }
  destruct (VisionOutput.init _) as [vision_output|e] eqn:Ev.
  2: { intros [= <- <-]. split; [exact I|].
       intros _ lines ? ? Hlines. rewrite Hlines in Ev. discriminate. }
  destruct (labeled_tokens_file_steps unlabeled_body labeled_body os pid bucket fs)
    as [r1 steps1] eqn:E1.
  destruct (labeled_steps_spec _ _ _ _ _ _ HU HL E1) as [Hsafe1 _].
  assert (Hfs1 : Forall (absent_or_complete fs)
                   [UnlabeledTokensPath bucket; LabeledTokensPath bucket])
    by (repeat constructor; [apply HU|apply HL]).
  assert (Hfs : Forall (absent_or_complete fs)
                  [UnlabeledTokensPath bucket; LabeledTokensPath bucket; final])
    by (repeat constructor; [apply HU|apply HL|apply HF]).
  assert (Hsafe : never_partial pid
                    [UnlabeledTokensPath bucket; LabeledTokensPath bucket; final]
                    fs steps1).
  { eapply stepwise_weaken; [| |exact Hfs|exact Hsafe1].
    - intros p Hp. apply elem_of_cons in Hp as [->|Hp]; [left|].
      apply list_elem_of_singleton in Hp. subst. right. left.
    - unfold final. apart. }
  destruct r1 as [labeled_tokens|e].
  2: { intros [= <- <-]. split; [exact Hsafe|]. intros _ ? ? ? _ [=]. }
  destruct (careful_end _ _ _ _ Hfs Hsafe) as [Hfs' _].
  destruct (careful_end _ _ _ _ Hfs1 Hsafe1) as [_ Hframe].
  set (fs1 := end_state fs steps1) in *.
  assert (E' : fs1 final = None).
  { rewrite Hframe; [exact E|]. unfold final. distinct_paths. }
  assert (Htemp : fs1 (TempPath final pid) = None).
  { rewrite Hframe; [apply HF|]. unfold final. distinct_paths. }
  destruct (build_steps os _ _ _ fs1) as [r2 built] eqn:E2.
  apply build_steps_spec in E2; [|exact E'|].
  2: { intros artifact Ha. destruct labeled_tokens; try discriminate.
       apply bind_Ok in Ha. destruct Ha as (features & _ & [= <-]). exact I. }
  destruct E2 as [Hsafe2 Hend]. intros [= <- <-]. split.
  - apply stepwise_app. split; [exact Hsafe|].
    eapply stepwise_weaken; [| |exact Hfs'|exact Hsafe2].
    + intros p Hp. apply list_elem_of_singleton in Hp. subst. right. right. left.
    + unfold final. apart.
  - intros _ lines ? ? Hlines [= <- <-]. rewrite end_state_app.
    rewrite Hlines in Ev. injection Ev as <-. apply Hend, Htemp.
Qed.

(** C8 (as amended): started where the temporary files of the process are
    not there and the three final paths hold no file or a complete artifact,
    each builder passes only through states in which every final path holds
    no file or a complete artifact, and each of its operations leaves a final
    path as it is unless it is the rename of the closed temporary file to
    that path; paths other than the final and the temporary ones never
    change.  When a builder builds, an exception of the body of its [try] is
    the exception it raises, with the temporary file removed; an exception
    of [close] or of [os.rename] is raised with the temporary file left
    behind; in both cases the final path holds no file, and otherwise it
    holds the artifact that is returned. *)
Theorem builders_leave_no_partial_artifact os pid bucket model_settings fs :
  settled pid fs (UnlabeledTokensPath bucket) ->
  settled pid fs (LabeledTokensPath bucket) ->
  settled pid fs (FeaturizedTokensPath bucket (featurizing_key model_settings)) ->
  (forall r steps,
     unlabeled_tokens_file_steps unlabeled_body os pid bucket fs = (r, steps) ->
     never_partial pid [UnlabeledTokensPath bucket] fs steps /\
     (fs (UnlabeledTokensPath bucket) = None ->
      ending os pid (UnlabeledTokensPath bucket) (unlabeled_try unlabeled_body fs bucket)
             fs r (end_state fs steps))) /\
  (forall r steps,
     labeled_tokens_file_steps unlabeled_body labeled_body os pid bucket fs = (r, steps) ->
     never_partial pid [UnlabeledTokensPath bucket; LabeledTokensPath bucket] fs steps /\
     (fs (LabeledTokensPath bucket) = None ->
      forall unlabeled_tokens steps1,
        unlabeled_tokens_file_steps unlabeled_body os pid bucket fs
        = (Ok unlabeled_tokens, steps1) ->
        ending os pid (LabeledTokensPath bucket)
               (labeled_try labeled_body (end_state fs steps1) bucket unlabeled_tokens)
               (end_state fs steps1) r (end_state fs steps))) /\
  (forall r steps,
     featurized_tokens_file_steps unlabeled_body labeled_body featurized_body
       os pid bucket model_settings fs = (r, steps) ->
     never_partial pid [UnlabeledTokensPath bucket; LabeledTokensPath bucket;
                        FeaturizedTokensPath bucket (featurizing_key model_settings)]
                   fs steps /\
     (fs (FeaturizedTokensPath bucket (featurizing_key model_settings)) = None ->
      forall lines labeled_tokens steps1,
        fs (VisionOutputPath bucket) = Some (VisionOutputJson lines) ->
        labeled_tokens_file_steps unlabeled_body labeled_body os pid bucket fs
        = (Ok labeled_tokens, steps1) ->
        ending os pid (FeaturizedTokensPath bucket (featurizing_key model_settings))
               (featurized_try featurized_body bucket
                  (fold_left VisionOutput.add_line lines ∅) labeled_tokens)
               (end_state fs steps1) r (end_state fs steps))).
Proof.
  intros HU HL HF. split; [|split].
  - intros r steps Hrun. apply (unlabeled_steps_spec _ _ _ _ _ _ HU Hrun).
  - intros r steps Hrun. apply (labeled_steps_spec _ _ _ _ _ _ HU HL Hrun).
  - intros r steps Hrun. apply (featurized_steps_spec _ _ _ _ _ _ _ HU HL HF Hrun).
Qed.

(** On a system on which [close] and [os.rename] do not raise, the builders
    return what the builders of [Builders] return and end in the states in
    which they end. *)
Lemma unlabeled_steps_reliable pid bucket fs :
  unlabeled_tokens_file_with unlabeled_body pid bucket fs
  = (fst (unlabeled_tokens_file_steps unlabeled_body reliable pid bucket fs),
     end_state fs (snd (unlabeled_tokens_file_steps unlabeled_body reliable pid bucket fs))).
Proof.
  unfold unlabeled_tokens_file_with, unlabeled_tokens_file_steps.
  destruct (fs (UnlabeledTokensPath bucket)); [reflexivity|].
  apply build_steps_reliable.
Qed.

Lemma labeled_steps_reliable pid bucket fs :
  labeled_tokens_file_with unlabeled_body labeled_body pid bucket fs
  = (fst (labeled_tokens_file_steps unlabeled_body labeled_body reliable pid bucket fs),
     end_state fs
       (snd (labeled_tokens_file_steps unlabeled_body labeled_body reliable pid bucket fs))).
Proof.
  unfold labeled_tokens_file_with, labeled_tokens_file_steps.
  destruct (fs (LabeledTokensPath bucket)); [reflexivity|].
  rewrite unlabeled_steps_reliable.
  destruct (unlabeled_tokens_file_steps unlabeled_body reliable pid bucket fs)
    as [[unlabeled_tokens|e] steps]; cbn [fst snd]; [|reflexivity].
  rewrite build_steps_reliable. unfold labeled_try.
  destruct (build_steps reliable _ _ _ _) as [r built]. cbn [fst snd].
  now rewrite end_state_app.
Qed.

Lemma featurized_steps_reliable pid bucket model_settings fs :
  featurized_tokens_file_with unlabeled_body labeled_body featurized_body
    pid bucket model_settings fs
  = (fst (featurized_tokens_file_steps unlabeled_body labeled_body featurized_body
            reliable pid bucket model_settings fs),
     end_state fs
       (snd (featurized_tokens_file_steps unlabeled_body labeled_body featurized_body
               reliable pid bucket model_settings fs))).
Proof.
  unfold featurized_tokens_file_with, featurized_tokens_file_steps.
  destruct (fs (FeaturizedTokensPath bucket (featurizing_key model_settings)));
    [reflexivity|].
  destruct (VisionOutput.init _); [|reflexivity].
  rewrite labeled_steps_reliable.
  destruct (labeled_tokens_file_steps unlabeled_body labeled_body reliable pid bucket fs)
    as [[labeled_tokens|e] steps]; cbn [fst snd]; [|reflexivity].
  rewrite build_steps_reliable. unfold featurized_try.
  destruct (build_steps reliable _ _ _ _) as [r built]. cbn [fst snd].
  now rewrite end_state_app.
Qed.

End WithBodies.

End BuilderStepFacts.

(** ** Further properties of the percentile functions *)

Module PercentileFacts.
Import Percentile.

(** The number of entries of [l] that satisfy [sel]. *)
Definition count_if (sel : Q -> bool) (l : list Q) : Q :=
  inject_Z (Z.of_nat (length (List.filter sel l))).

Lemma Qlt_bool_irrefl x : Qlt_bool x x = false.
Proof.
  destruct (Qlt_bool x x) eqn:E; [|reflexivity]. apply Qlt_bool_iff in E. lra.
Qed.

Lemma bin_bounds values v : values <> [] -> (1 <= bin values v <= length values)%nat.
Proof.
  intros Hne. unfold bin. pose proof (lead_le_length values v).
  destruct values; [congruence|simpl length in *; lia].
Qed.

Lemma bin_head x rest : bin (x :: rest) x = 1%nat.
Proof. unfold bin. rewrite lead_cons, Qlt_bool_irrefl. simpl. lia. Qed.

Lemma bin_last vals x :
  strictly_increasing (vals ++ [x]) -> bin (vals ++ [x]) x = S (length vals).
Proof.
  intros Hs. unfold bin. rewrite lead_snoc by now apply strictly_increasing_snoc.
  rewrite length_app. simpl length. lia.
Qed.

(** X1: on a histogram with one bin per value in increasing order and
    positive total count, a query at or below the smallest value gets the
    percentile of the smallest value, half the relative mass of the lowest
    bin, and a query at or above the largest value gets the percentile of the
    largest value, one minus half the relative mass of the highest bin: the
    clip of the searched index keeps every query inside the histogram. *)
Theorem percentile_clamps_outside_histogram (hist : list (Q * Q)) :
  strictly_increasing (map fst hist) ->
  0 < Qsum (map snd hist) ->
  exists f, percentile_of_histogram hist = Some f /\
    (forall x c v, head hist = Some (x, c) -> v <= x ->
       exists q, f v = Some q /\ q == c / (2 * Qsum (map snd hist))) /\
    (forall x c v, last hist = Some (x, c) -> x <= v ->
       exists q, f v = Some q /\ q == 1 - c / (2 * Qsum (map snd hist))).
Proof.
  intros Hs Ht.
  pose proof (strictly_increasing_increasing _ Hs) as Hinc.
  destruct (percentile_of_histogram_defined hist Hinc Ht) as [f Hf].
  exists f. split; [exact Hf|].
  unfold percentile_of_histogram in Hf.
  assert (Hlen : length (map fst hist) = length (map snd hist))
    by now rewrite !length_map.
  pose proof (percentile_function_char _ _ f Hlen Hf) as Hchar.
  split.
  - intros x c v Hhd Hv. destruct hist as [|[x' c'] rest]; [discriminate|].
    injection Hhd as -> ->.
    destruct (Hchar v) as (q & Hq & Eq). exists q. split; [exact Hq|].
    rewrite Eq. cbn [map fst snd] in *.
    assert (Hb : bin (x :: map fst rest) v = 1%nat).
    { pose proof (bin_mono (x :: map fst rest) v x Hv) as Hm.
      rewrite bin_head in Hm.
      pose proof (bin_bounds (x :: map fst rest) v ltac:(discriminate)). lia. }
    rewrite Hb. unfold prefix. simpl. field. simpl in Ht. lra.
  - intros x c v Hlast Hv.
    apply last_Some in Hlast. destruct Hlast as [h ->].
    destruct (Hchar v) as (q & Hq & Eq). exists q. split; [exact Hq|].
    rewrite Eq. rewrite !map_app in *. cbn [map fst snd] in *.
    assert (Hb : bin (map fst h ++ [x]) v = S (length h)).
    { pose proof (bin_mono (map fst h ++ [x]) x v Hv) as Hm.
      rewrite (bin_last _ _ Hs), length_map in Hm.
      pose proof (bin_bounds (map fst h ++ [x]) v) as Hbd.
      rewrite length_app, length_map in Hbd. simpl length in Hbd.
      specialize (Hbd ltac:(destruct (map fst h); discriminate)). lia. }
    rewrite Hb. replace (S (length h) - 1)%nat with (length (map snd h))
      by (rewrite length_map; lia).
    rewrite prefix_all by (rewrite length_app, length_map; simpl; lia).
    unfold prefix. rewrite take_app_length.
    assert (ET : Qsum (map snd h ++ [c]) == Qsum (map snd h) + c).
    { rewrite Qsum_app. simpl. ring. }
    rewrite ET in Ht |- *. field. lra.
Qed.

(** X1, witness: the comment's histogram at the queries 1 and 100. *)
Lemma percentile_clamps_outside_histogram_witness :
  exists f, percentile_of_histogram comment_histogram = Some f /\
    (exists q, f 1 = Some q /\ q == 2 / (2 * Qsum (map snd comment_histogram))) /\
    (exists q, f 100 = Some q /\ q == 1 - 200 / (2 * Qsum (map snd comment_histogram))).
Proof.
  destruct (percentile_clamps_outside_histogram comment_histogram
              comment_histogram_strict comment_histogram_total) as (f & Hf & Hlo & Hhi).
  exists f. split; [exact Hf|]. split.
  - apply (Hlo 5 2 1); [reflexivity|discriminate].
  - apply (Hhi 8 200 100); [reflexivity|discriminate].
Defined.

Lemma count_if_cons sel x l :
  count_if sel (x :: l) == (if sel x then 1 else 0) + count_if sel l.
Proof.
  unfold count_if. simpl. destruct (sel x); simpl length.
  - rewrite Nat2Z.inj_succ, <- Z.add_1_l, inject_Z_plus. reflexivity.
  - ring.
Qed.

Lemma count_if_insert_sorted sel (leb : Q -> Q -> bool) x l :
  count_if sel (Sorting.insert_sorted leb x l) == count_if sel (x :: l).
Proof.
  induction l as [|y rest IH]; simpl; [reflexivity|].
  destruct (leb x y); [reflexivity|].
  rewrite (count_if_cons sel y), IH, !count_if_cons. ring.
Qed.

Lemma count_if_sort sel (leb : Q -> Q -> bool) l :
  count_if sel (Sorting.sort leb l) == count_if sel l.
Proof.
  induction l as [|x l IH]; simpl; [reflexivity|].
  rewrite count_if_insert_sorted, !count_if_cons, IH. reflexivity.
Qed.

Lemma mass_unique_counts sel l :
  (forall a b, a == b -> sel a = sel b) ->
  mass sel (Sorting.unique_counts l) == count_if sel l.
Proof.
  intros Hsel. induction l as [|x rest IH]; [reflexivity|].
  rewrite count_if_cons, <- IH. simpl.
  destruct (Sorting.unique_counts rest) as [|[y c] tl]; simpl; [ring|].
  destruct (Qeq_bool x y) eqn:E; simpl; [|ring].
  apply Qeq_bool_iff in E. rewrite (Hsel x y E).
  destruct (sel y); ring.
Qed.

Lemma mass_all hist : mass (fun _ => true) hist == Qsum (map snd hist).
Proof.
  induction hist as [|[x c] rest IH]; simpl; [reflexivity|]. rewrite IH. reflexivity.
Qed.

Lemma count_if_all l : count_if (fun _ => true) l = inject_Z (Z.of_nat (length l)).
Proof.
  unfold count_if. f_equal. f_equal. f_equal.
  induction l as [|x l IH]; simpl; [reflexivity|]. now rewrite IH.
Qed.

Lemma unique_counts_strictly_increasing l :
  Sorting.sorted Qle_bool l ->
  strictly_increasing (map fst (Sorting.unique_counts l)).
Proof.
  induction l as [|x rest IH]; simpl; [trivial|].
  intros [Hx Hr]. specialize (IH Hr).
  assert (Hall : Forall (fun y => x <= y) (map fst (Sorting.unique_counts rest))).
  { apply FeaturizerFacts.unique_counts_values. eapply Forall_impl; [exact Hx|].
    intros y Hy. now apply Qle_bool_iff. }
  destruct (Sorting.unique_counts rest) as [|[y c] tl]; simpl in *.
  - split; [constructor|trivial].
  - destruct (Qeq_bool x y) eqn:E; simpl; [exact IH|].
    assert (Hne : ~ x == y) by (rewrite <- Qeq_bool_iff; congruence).
    inversion Hall as [|? ? Hxy Htl]; subst.
    assert (Hlt : x < y) by lra.
    split; [|exact IH]. constructor; [exact Hlt|].
    destruct IH as [Hy _]. eapply Forall_impl; [exact Hy|].
    intros z Hz. simpl in Hz. lra.
Qed.

Lemma Exists_insert_sorted (P : Q -> Prop) (leb : Q -> Q -> bool) x l :
  Exists P (x :: l) -> Exists P (Sorting.insert_sorted leb x l).
Proof.
  induction l as [|y rest IH]; simpl; [trivial|].
  intros Hex. destruct (leb x y); [exact Hex|].
  rewrite !Exists_cons in *. tauto.
Qed.

Lemma Exists_sort (P : Q -> Prop) (leb : Q -> Q -> bool) l :
  Exists P l -> Exists P (Sorting.sort leb l).
Proof.
  induction l as [|x l IH]; simpl; [trivial|].
  intros Hex. apply Exists_insert_sorted. rewrite !Exists_cons in *. tauto.
Qed.

Lemma unique_counts_bin_value l v :
  Exists (fun x => x == v) l -> is_bin_value (map fst (Sorting.unique_counts l)) v.
Proof.
  unfold is_bin_value. induction l as [|x rest IH]; simpl; [trivial|].
  rewrite Exists_cons. intros Hex.
  destruct (Sorting.unique_counts rest) as [|[y c] tl]; simpl in *.
  - destruct Hex as [Hx|Hr]; [now left|]. apply IH in Hr. inversion Hr.
  - destruct (Qeq_bool x y) eqn:E; simpl.
    + apply Qeq_bool_iff in E. destruct Hex as [Hx|Hr]; [|auto].
      left. lra.
    + destruct Hex as [Hx|Hr]; [now left|]. right. auto.
Qed.

(** X2: for an array of values in any order and a query that occurs in it,
    [percentile_function_from_values] is defined and returns the mid-rank of
    the query: the number of values strictly below it plus the number of
    values at most as large, over twice the number of values. *)
Theorem percentile_function_from_values_midrank (values : list Q) (v : Q) :
  Exists (fun x => x == v) values ->
  exists f q,
    TokenStatistics.percentile_function_from_values values = Some f /\
    f v = Some q /\
    q == (count_if (fun x => Qlt_bool x v) values
          + count_if (fun x => Qle_bool x v) values)
         / (2 * inject_Z (Z.of_nat (length values))).
Proof.
  intros Hv.
  set (sorted := Sorting.sort Qle_bool values).
  set (uc := Sorting.unique_counts sorted).
  assert (Hsorted : Sorting.sorted Qle_bool sorted).
  { apply Sorting.sort_sorted; [apply Sorting.Qle_bool_total|apply Sorting.Qle_bool_trans]. }
  assert (Hs : strictly_increasing (map fst uc))
    by now apply unique_counts_strictly_increasing.
  pose proof (strictly_increasing_increasing _ Hs) as Hinc.
  assert (Hbin : is_bin_value (map fst uc) v).
  { apply unique_counts_bin_value, Exists_sort, Hv. }
  assert (Htotal : Qsum (map snd uc) == inject_Z (Z.of_nat (length values))).
  { rewrite <- mass_all. unfold uc. rewrite mass_unique_counts by reflexivity.
    unfold sorted. rewrite count_if_sort, count_if_all. reflexivity. }
  assert (Hpos : 0 < Qsum (map snd uc)).
  { rewrite Htotal. destruct values as [|x rest]; [inversion Hv|].
    change 0 with (inject_Z 0). rewrite <- Zlt_Qlt. simpl length. lia. }
  destruct (percentile_of_histogram_defined uc Hinc Hpos) as [f Hf].
  unfold percentile_of_histogram in Hf.
  assert (Hlen : length (map fst uc) = length (map snd uc)) by now rewrite !length_map.
  destruct (percentile_function_char _ _ f Hlen Hf v) as (q & Hq & E).
  exists f, q. split; [exact Hf|]. split; [exact Hq|].
  rewrite E.
  assert (Hb : bin (map fst uc) v = S (lead (map fst uc) v)).
  { unfold bin. assert (lead (map fst uc) v < length (map fst uc))%nat; [|lia].
    apply lead_lt_length. unfold is_bin_value in Hbin.
    eapply Exists_impl; [exact Hbin|]. intros x Hx. simpl in Hx. lra. }
  rewrite Hb. replace (S (lead (map fst uc) v) - 1)%nat with (lead (map fst uc) v) by lia.
  rewrite <- (mass_le_prefix uc v Hs Hbin), <- (mass_lt_prefix uc v Hinc).
  unfold uc. rewrite !mass_unique_counts.
  - unfold sorted. rewrite !count_if_sort. fold sorted. fold uc.
    rewrite Htotal.
    assert (Hn : 0 < inject_Z (Z.of_nat (length values))) by (rewrite <- Htotal; exact Hpos).
    field. lra.
  - intros a b Hab. unfold Qlt_bool. f_equal.
    destruct (Qle_bool v a) eqn:E1, (Qle_bool v b) eqn:E2; try reflexivity.
    + apply Qle_bool_iff in E1. assert (v <= b) as H1 by lra.
      apply Qle_bool_iff in H1. congruence.
    + apply Qle_bool_iff in E2. assert (v <= a) as H1 by lra.
      apply Qle_bool_iff in H1. congruence.
  - intros a b Hab.
    destruct (Qle_bool a v) eqn:E1, (Qle_bool b v) eqn:E2; try reflexivity.
    + apply Qle_bool_iff in E1. assert (b <= v) as H1 by lra.
      apply Qle_bool_iff in H1. congruence.
    + apply Qle_bool_iff in E2. assert (a <= v) as H1 by lra.
      apply Qle_bool_iff in H1. congruence.
Qed.

(** X2, witness: the font sizes 8, 5, 8, 8 at the query 8. *)
Lemma percentile_function_from_values_midrank_witness :
  exists f q,
    TokenStatistics.percentile_function_from_values [8; 5; 8; 8] = Some f /\
    f 8 = Some q /\
    q == (count_if (fun x => Qlt_bool x 8) [8; 5; 8; 8]
          + count_if (fun x => Qle_bool x 8) [8; 5; 8; 8])
         / (2 * inject_Z (Z.of_nat (length [8; 5; 8; 8]))).
Proof.
  apply (percentile_function_from_values_midrank [8; 5; 8; 8] 8).
  left. reflexivity.
Defined.

End PercentileFacts.

(** ** Properties of the vocabulary *)

Module VocabularyFacts.
Import TokenStatistics.

(** The summed count of the keys equal to [key] in a list of counts. *)
Definition count_of (d : list (str * nat)) (key : str) : nat :=
  sum_list (map snd (List.filter (fun e => bool_decide (fst e = key)) d)).

Lemma count_of_cons k c d key :
  count_of ((k, c) :: d) key = ((if bool_decide (k = key) then c else 0) + count_of d key)%nat.
Proof. unfold count_of. simpl. destruct (bool_decide (k = key)); reflexivity. Qed.

Lemma count_of_dict_add d key n k :
  count_of (dict_add d key n) k = (count_of d k + if bool_decide (key = k) then n else 0)%nat.
Proof.
  induction d as [|[k' old] rest IH]; simpl.
  - rewrite count_of_cons. unfold count_of. simpl. lia.
  - destruct (bool_decide (k' = key)) eqn:E.
    + apply bool_decide_eq_true in E. subst k'.
      rewrite !count_of_cons. destruct (bool_decide (key = k)); lia.
    + rewrite !count_of_cons, IH. lia.
Qed.

Lemma dict_add_keys d key n k :
  k ∈ map fst (dict_add d key n) <-> k ∈ map fst d \/ k = key.
Proof.
  induction d as [|[k' old] rest IH]; simpl.
  - rewrite list_elem_of_singleton. split; [auto|]. intros [Hd|Hk]; [inversion Hd|exact Hk].
  - destruct (bool_decide (k' = key)) eqn:E; simpl.
    + apply bool_decide_eq_true in E. subst k'.
      rewrite !elem_of_cons. tauto.
    + rewrite !elem_of_cons, IH. tauto.
Qed.

Lemma dict_add_NoDup d key n : NoDup (map fst d) -> NoDup (map fst (dict_add d key n)).
Proof.
  induction d as [|[k' old] rest IH]; simpl; intros Hnd.
  - repeat constructor. intros Hin. inversion Hin.
  - apply NoDup_cons in Hnd. destruct Hnd as [Hk Hrest].
    destruct (bool_decide (k' = key)) eqn:E; simpl.
    + constructor; assumption.
    + apply bool_decide_eq_false in E. constructor; [|auto].
      rewrite dict_add_keys. intros [Hin|Heq]; [contradiction|congruence].
Qed.

Lemma count_of_NoDup d k c : NoDup (map fst d) -> (k, c) ∈ d -> count_of d k = c.
Proof.
  induction d as [|[k' c'] rest IH]; simpl; intros Hnd Hin; [inversion Hin|].
  apply NoDup_cons in Hnd. destruct Hnd as [Hk Hrest].
  rewrite count_of_cons. apply elem_of_cons in Hin. destruct Hin as [[= <- <-]|Hin].
  - rewrite bool_decide_eq_true_2 by reflexivity.
    assert (count_of rest k = 0%nat) as ->; [|lia].
    unfold count_of. clear IH Hrest.
    induction rest as [|[k2 c2] rest IH]; simpl; [reflexivity|].
    destruct (bool_decide (k2 = k)) eqn:E; simpl.
    + apply bool_decide_eq_true in E. subst. exfalso. apply Hk. simpl. left.
    + apply IH. intros Hin. apply Hk. simpl. now right.
  - assert (k' <> k).
    { intros ->. apply Hk. apply list_elem_of_fmap. exists (k, c). auto. }
    rewrite bool_decide_eq_false_2 by assumption. simpl. auto.
Qed.

Section WithExternals.
Context `{Externals}.

(** The counts of the statistics file with their tokens normalized. *)
Definition normalized_texts (f : StatsFile) : list (str * nat) :=
  map (fun e => (normalize (fst e), snd e)) (texts f).

(** The merged count of a normalized token. *)
Definition total_count (f : StatsFile) (token : str) : nat :=
  count_of (normalized_texts f) token.

Definition merge (d : list (str * nat)) (e : str * nat) : list (str * nat) :=
  let '(token, new_count) := e in dict_add d (normalize token) new_count.

Lemma merged_spec entries : forall d,
  NoDup (map fst d) ->
  NoDup (map fst (fold_left merge entries d)) /\
  (forall k, count_of (fold_left merge entries d) k
             = (count_of d k
                + count_of (map (fun e => (normalize (fst e), snd e)) entries) k)%nat) /\
  (forall k, k ∈ map fst (fold_left merge entries d) <->
             k ∈ map fst d \/ k ∈ map (fun e => normalize (fst e)) entries).
Proof.
  induction entries as [|[token c] rest IH]; intros d Hnd; simpl.
  - split; [exact Hnd|]. split.
    + intros k. unfold count_of at 3. simpl. lia.
    + intros k. split; [auto|]. intros [Hk|Hk]; [exact Hk|inversion Hk].
  - destruct (IH (dict_add d (normalize token) c) (dict_add_NoDup _ _ _ Hnd))
      as (Hnd' & Hcount & Hkeys).
    split; [exact Hnd'|]. split.
    + intros k. rewrite Hcount, count_of_dict_add, count_of_cons. lia.
    + intros k. rewrite Hkeys, dict_add_keys, elem_of_cons. split.
      * intros [[Hk|Hk]|Hk]; auto.
      * intros [Hk|[Hk|Hk]]; auto.
Qed.

Definition by_count_desc (x y : str * nat) : bool := (snd y <=? snd x)%nat.

Lemma insert_sorted_Permutation {A : Type} (leb : A -> A -> bool) x l :
  Sorting.insert_sorted leb x l ≡ₚ x :: l.
Proof.
  induction l as [|y rest IH]; simpl; [reflexivity|].
  destruct (leb x y); [reflexivity|]. rewrite IH. apply Permutation_swap.
Qed.

Lemma sort_Permutation {A : Type} (leb : A -> A -> bool) l : Sorting.sort leb l ≡ₚ l.
Proof.
  induction l as [|x l IH]; simpl; [reflexivity|].
  rewrite insert_sorted_Permutation, IH. reflexivity.
Qed.

Lemma tokens_while_sorted min_freq l :
  Sorting.sorted by_count_desc l ->
  forall token, token ∈ tokens_while min_freq l <->
    exists c, (token, c) ∈ l /\ (min_freq <= c)%nat.
Proof.
  induction l as [|[t c] rest IH]; simpl; intros Hs token.
  - split; [intros Hin; inversion Hin|]. intros (c & Hin & _). inversion Hin.
  - destruct Hs as [Hall Hs]. destruct (Nat.ltb_spec c min_freq) as [Hlt|Hge].
    + split; [intros Hin; inversion Hin|]. intros (c' & Hin & Hc').
      apply elem_of_cons in Hin. destruct Hin as [[= -> ->]|Hin]; [lia|].
      rewrite Forall_forall in Hall. specialize (Hall _ Hin).
      unfold by_count_desc in Hall. simpl in Hall. apply Nat.leb_le in Hall. lia.
    + rewrite elem_of_cons, (IH Hs). split.
      * intros [->|(c' & Hin & Hc')]; [exists c; split; [left|exact Hge]|].
        exists c'. split; [now right|exact Hc'].
      * intros (c' & Hin & Hc'). apply elem_of_cons in Hin.
        destruct Hin as [[= -> ->]|Hin]; [now left|]. right. eauto.
Qed.

Lemma tokens_while_NoDup min_freq l :
  NoDup (map fst l) -> NoDup (tokens_while min_freq l).
Proof.
  induction l as [|[t c] rest IH]; simpl; intros Hnd; [constructor|].
  apply NoDup_cons in Hnd. destruct Hnd as [Ht Hrest].
  destruct (c <? min_freq)%nat; [constructor|].
  constructor; [|auto]. intros Hin. apply Ht. clear -Hin.
  induction rest as [|[t' c'] rest IH]; simpl in *; [inversion Hin|].
  destruct (c' <? min_freq)%nat; [inversion Hin|].
  apply elem_of_cons in Hin. destruct Hin as [->|Hin]; [left|right; auto].
Qed.

Lemma tokens_while_counts min_freq l :
  Sorting.sorted by_count_desc l ->
  forall i j ti tj, (i <= j)%nat ->
    tokens_while min_freq l !! i = Some ti -> tokens_while min_freq l !! j = Some tj ->
    exists ci cj, (ti, ci) ∈ l /\ (tj, cj) ∈ l /\ (cj <= ci)%nat.
Proof.
  induction l as [|[t c] rest IH]; simpl; intros Hs i j ti tj Hij Hi Hj; [discriminate|].
  destruct Hs as [Hall Hs].
  destruct (c <? min_freq)%nat; [discriminate|].
  destruct i as [|i].
  - simpl in Hi. injection Hi as <-. destruct j as [|j].
    + simpl in Hj. injection Hj as <-. exists c, c. repeat split; [left|left|lia].
    + simpl in Hj. apply list_elem_of_lookup_2 in Hj.
      apply (tokens_while_sorted min_freq rest Hs) in Hj. destruct Hj as (cj & Hin & _).
      exists c, cj. split; [left|]. split; [now right|].
      rewrite Forall_forall in Hall. specialize (Hall _ Hin).
      unfold by_count_desc in Hall. simpl in Hall. now apply Nat.leb_le in Hall.
  - destruct j as [|j]; [lia|]. simpl in Hi, Hj.
    destruct (IH Hs i j ti tj ltac:(lia) Hi Hj) as (ci & cj & H1 & H2 & H3).
    exists ci, cj. split; [now right|]. split; [now right|exact H3].
Qed.

Lemma tokens_spec (f : StatsFile) :
  Sorting.sorted by_count_desc (tokens f) /\
  NoDup (map fst (tokens f)) /\
  forall token c, (token, c) ∈ tokens f <->
    token ∈ map fst (normalized_texts f) /\ c = total_count f token.
Proof.
  unfold tokens.
  change (fun (d : list (str * nat)) '(token, new_count) =>
            dict_add d (normalize token) new_count) with merge.
  change (fun x y : str * nat => (snd y <=? snd x)%nat) with by_count_desc.
  set (merged := fold_left merge (texts f) []).
  destruct (merged_spec (texts f) [] (NoDup_nil_2)) as (Hnd & Hcount & Hkeys).
  fold merged in Hnd, Hcount, Hkeys.
  pose proof (sort_Permutation by_count_desc merged) as Hperm.
  split; [|split].
  - apply Sorting.sort_sorted.
    + intros x y. unfold by_count_desc.
      destruct (Nat.le_ge_cases (snd y) (snd x)) as [Hle|Hle];
        [left|right]; now apply Nat.leb_le.
    + intros x y z. unfold by_count_desc. rewrite !Nat.leb_le. lia.
  - rewrite Hperm. exact Hnd.
  - intros token c. rewrite Hperm. split.
    + intros Hin. split.
      * assert (token ∈ map fst merged) as Hk.
        { apply list_elem_of_fmap. exists (token, c). auto. }
        apply Hkeys in Hk. destruct Hk as [Hk|Hk]; [inversion Hk|].
        unfold normalized_texts. rewrite <- list_fmap_compose. exact Hk.
      * rewrite <- (count_of_NoDup merged token c Hnd Hin), Hcount.
        unfold total_count, normalized_texts. reflexivity.
    + intros [Hk ->].
      assert (token ∈ map fst merged) as Hm.
      { apply Hkeys. right. unfold normalized_texts in Hk.
        rewrite <- list_fmap_compose in Hk. exact Hk. }
      apply list_elem_of_fmap in Hm. destruct Hm as ([k c] & -> & Hin). simpl.
      assert (total_count f k = c) as ->; [|exact Hin].
      rewrite <- (count_of_NoDup merged k c Hnd Hin), Hcount.
      unfold total_count, normalized_texts. reflexivity.
Qed.

(** X3: [get_tokens_with_minimum_frequency] lists every normalized token
    once; a token is listed exactly when it is the normalized form of a token
    of the statistics file and the counts of all tokens with that normalized
    form add up to at least the minimum frequency; and the tokens are listed
    by non-increasing merged count. *)
Theorem vocabulary_is_frequency_bounded (f : StatsFile) (min_freq : nat) :
  NoDup (get_tokens_with_minimum_frequency f min_freq) /\
  (forall token,
     token ∈ get_tokens_with_minimum_frequency f min_freq <->
     token ∈ map fst (normalized_texts f) /\ (min_freq <= total_count f token)%nat) /\
  (forall i j ti tj, (i <= j)%nat ->
     get_tokens_with_minimum_frequency f min_freq !! i = Some ti ->
     get_tokens_with_minimum_frequency f min_freq !! j = Some tj ->
     (total_count f tj <= total_count f ti)%nat).
Proof.
  destruct (tokens_spec f) as (Hs & Hnd & Hin).
  unfold get_tokens_with_minimum_frequency. split; [|split].
  - now apply tokens_while_NoDup.
  - intros token. rewrite (tokens_while_sorted min_freq _ Hs). split.
    + intros (c & Hc & Hle). apply Hin in Hc. destruct Hc as [Hk ->]. auto.
    + intros [Hk Hle]. exists (total_count f token). split; [|exact Hle].
      apply Hin. auto.
  - intros i j ti tj Hij Hi Hj.
    destruct (tokens_while_counts min_freq _ Hs i j ti tj Hij Hi Hj)
      as (ci & cj & H1 & H2 & H3).
    apply Hin in H1, H2. destruct H1 as [_ ->], H2 as [_ ->]. exact H3.
Qed.

End WithExternals.
End VocabularyFacts.

(** ** Lookups in the vector table *)

Module VectorTableFacts.
Import GloveVectors.

(** [get_vocab_size()] *)
Definition get_vocab_size (g : t) : nat := length (vectors g).

Section WithExternals.
Context `{Externals}.

(** The index of the last line of the file whose normalized word is [w]. *)
Fixpoint last_index (lines : list (str * list Q)) (w : str) : option nat :=
  match lines with
  | [] => None
  | line :: rest =>
      match last_index rest w with
      | Some i => Some (S i)
      | None => if bool_decide (normalize (fst line) = w) then Some 0%nat else None
      end
  end.

Lemma last_index_Some lines w : forall i,
  last_index lines w = Some i ->
  exists raw v, lines !! i = Some (raw, v) /\ normalize raw = w /\
    forall j raw' v', (i < j)%nat -> lines !! j = Some (raw', v') -> normalize raw' <> w.
Proof.
  induction lines as [|[raw0 v0] rest IH]; simpl; intros i; [discriminate|].
  destruct (last_index rest w) as [k|] eqn:E.
  - intros [= <-]. destruct (IH k eq_refl) as (raw & v & Hk & Hw & Hlater).
    exists raw, v. split; [exact Hk|]. split; [exact Hw|].
    intros [|j] raw' v' Hj; [lia|]. simpl. apply Hlater. lia.
  - destruct (bool_decide (normalize raw0 = w)) eqn:Eb; [|discriminate].
    intros [= <-]. apply bool_decide_eq_true in Eb.
    exists raw0, v0. split; [reflexivity|]. split; [exact Eb|].
    intros [|j] raw' v' Hj; [lia|]. simpl. intros Hl Hw.
    clear IH Hj. revert j Hl. induction rest as [|[r1 v1] rest IH]; intros j Hl;
      [discriminate|].
    simpl in E. destruct (last_index rest w) eqn:E2; [discriminate|].
    destruct (bool_decide (normalize r1 = w)) eqn:E3; [discriminate|].
    apply bool_decide_eq_false in E3.
    destruct j as [|j]; simpl in Hl; [injection Hl as <- <-; contradiction|].
    eapply IH; [reflexivity|exact Hl].
Qed.

Lemma last_index_None lines w :
  last_index lines w = None ->
  forall raw v, (raw, v) ∈ lines -> normalize raw <> w.
Proof.
  induction lines as [|[raw0 v0] rest IH]; simpl; intros Hn raw v Hin; [inversion Hin|].
  destruct (last_index rest w) eqn:E; [discriminate|].
  destruct (bool_decide (normalize raw0 = w)) eqn:Eb; [discriminate|].
  apply bool_decide_eq_false in Eb.
  apply elem_of_cons in Hin. destruct Hin as [[= -> ->]|Hin]; [exact Eb|].
  eapply IH; [reflexivity|exact Hin].
Qed.

Lemma add_line_fold_last lines : forall m vs m' vs',
  fold_left add_line lines (m, vs) = (m', vs') ->
  vs' = vs ++ map snd lines /\
  forall w, m' !! w = match last_index lines w with
                      | Some i => Some (length vs + i)%nat
                      | None => m !! w
                      end.
Proof.
  induction lines as [|line rest IH]; intros m vs m' vs'; simpl.
  - intros [= <- <-]. rewrite app_nil_r. auto.
  - intros Hfold. apply IH in Hfold. destruct Hfold as [-> Hm'].
    split; [now rewrite <- app_assoc|].
    intros w. rewrite Hm', length_app. simpl.
    destruct (last_index rest w) as [i|]; [f_equal; lia|].
    destruct (bool_decide (normalize (fst line) = w)) eqn:Eb.
    + apply bool_decide_eq_true in Eb. rewrite Eb, lookup_insert_eq. f_equal. lia.
    + apply bool_decide_eq_false in Eb. now rewrite lookup_insert_ne.
Qed.

Lemma load_spec lines g :
  load lines = Ok g ->
  vectors g = map snd lines /\
  (forall w, word2index g !! w = last_index lines w) /\
  exists first rest, lines = first :: rest /\
    dimensions g = length (snd first) /\
    Forall (fun line => length (snd line) = length (snd first)) lines.
Proof.
  unfold load. destruct lines as [|first rest]; [discriminate|].
  destruct (fold_left add_line (first :: rest) (∅, [])) as [m vs] eqn:Efold.
  intros Hload. apply bind_Ok in Hload. destruct Hload as (vs' & Hstack & [= <-]).
  cbn [vectors word2index dimensions].
  apply EmbeddingFacts.np_stack_Ok in Hstack.
  destruct Hstack as (-> & v0 & rest0 & Evs & Hall).
  apply add_line_fold_last in Efold. destruct Efold as [Evs' Hm].
  simpl app in Evs'. split; [exact Evs'|]. split.
  - intros w. rewrite Hm, lookup_empty.
    destruct (last_index (first :: rest) w); reflexivity.
  - exists first, rest. split; [reflexivity|]. split; [reflexivity|].
    rewrite Evs' in Evs. simpl in Evs. injection Evs as <- <-.
    rewrite Evs' in Hall.
    change (first.2 :: map snd rest) with (map snd (first :: rest)) in Hall.
    apply Forall_fmap in Hall. exact Hall.
Qed.

(** X4: on a loaded table, [get_vocab_size] is the number of lines of the
    file and every line has [get_dimensions] values; [get_vector] never
    raises: it returns the vector of the last line whose normalized word is
    the normalized query, and [None] exactly when no line has that
    normalized word. *)
Theorem glove_lookup_last_line_wins (lines : list (str * list Q)) (g : t) :
  load lines = Ok g ->
  get_vocab_size g = length lines /\
  Forall (fun line => length (snd line) = get_dimensions g) lines /\
  forall word,
    match get_vector g word with
    | Ok (Some vector) =>
        exists i raw, lines !! i = Some (raw, vector) /\
          normalize raw = normalize word /\
          forall j raw' v', (i < j)%nat -> lines !! j = Some (raw', v') ->
            normalize raw' <> normalize word
    | Ok None => forall raw v, (raw, v) ∈ lines -> normalize raw <> normalize word
    | Raise _ => False
    end.
Proof.
  intros Hload.
  destruct (load_spec lines g Hload) as (Hvs & Hidx & first & rest & -> & Hdim & Hall).
  split; [|split].
  - unfold get_vocab_size. now rewrite Hvs, length_map.
  - unfold get_dimensions. rewrite Hdim. exact Hall.
  - intros word. unfold get_vector. rewrite Hidx.
    destruct (last_index (first :: rest) (normalize word)) as [i|] eqn:E.
    + destruct (last_index_Some _ _ _ E) as (raw & v & Hi & Hw & Hlater).
      rewrite Hvs, list_lookup_fmap, Hi. simpl.
      exists i, raw. auto.
    + apply last_index_None. exact E.
Qed.

End WithExternals.
End VectorTableFacts.

(** ** The matrix of the combined embeddings *)

Module MatrixFacts.
Import GloveVectors CombinedEmbeddings.

(** [vocab_size()]: the rows of the matrix but the one of the mask. *)
Definition vocab_size `{Externals} (ce : CombinedEmbeddings.t) (p : Process) : res nat :=
  st ← _ensure_loaded ce p;
  Ok (length (matrix st) - 1)%nat.

(** [matrix_for_keras()] *)
Definition matrix_for_keras `{Externals} (ce : CombinedEmbeddings.t) (p : Process)
    : res (list (list Q)) :=
  st ← _ensure_loaded ce p;
  Ok (matrix st).

Section WithExternals.
Context `{Externals}.

Lemma vocabulary_NoDup (ce : CombinedEmbeddings.t) : NoDup (vocabulary ce).
Proof.
  unfold vocabulary, TokenStatistics.get_tokens_with_minimum_frequency.
  apply VocabularyFacts.tokens_while_NoDup.
  apply (VocabularyFacts.tokens_spec (tokenstats ce)).
Qed.

(** The map of the enumeration: fresh tokens get consecutive indices. *)
Lemma enumerate_from_spec tokens : forall index (m : gmap str nat),
  NoDup tokens ->
  (forall t, t ∈ tokens -> m !! t = None) ->
  (forall k v, m !! k = Some v -> (v < index + 2)%nat) ->
  (forall i t, tokens !! i = Some t ->
     enumerate_from index tokens m !! t = Some (index + i + 2)%nat) /\
  size (enumerate_from index tokens m) = (size m + length tokens)%nat /\
  size (map_img (enumerate_from index tokens m) : gset nat)
  = (size (map_img m : gset nat) + length tokens)%nat.
Proof.
  induction tokens as [|token rest IH]; intros index m Hnd Hfresh Hbound; simpl.
  - split; [intros i t Hi; discriminate|]. split; lia.
  - apply NoDup_cons in Hnd. destruct Hnd as [Hnotin Hnd].
    assert (Hnone : m !! token = None) by (apply Hfresh; left).
    destruct (IH (S index) (<[token := (index + 2)%nat]> m) Hnd) as (Hlook & Hsize & Himg).
    { intros t Ht. rewrite lookup_insert_ne by (intros ->; contradiction).
      apply Hfresh. now right. }
    { intros k v. rewrite lookup_insert_Some. intros [[_ <-]|[_ Hk]]; [lia|].
      apply Hbound in Hk. lia. }
    split; [|split].
    + intros [|i] t Hi; simpl in Hi.
      * injection Hi as <-. rewrite EmbeddingFacts.enumerate_from_notin by exact Hnotin.
        rewrite lookup_insert_eq. f_equal. lia.
      * rewrite (Hlook i t Hi). f_equal. lia.
    + rewrite Hsize, map_size_insert_None by exact Hnone. lia.
    + rewrite Himg, map_img_insert_notin_L by exact Hnone.
      rewrite size_union, size_singleton; [lia|].
      intros v Hv1 Hv2. apply elem_of_singleton in Hv1. subst v.
      apply elem_of_map_img in Hv2. destruct Hv2 as [k Hk]. apply Hbound in Hk. lia.
Qed.

Lemma enumerate_from_values tokens : forall index (m : gmap str nat) k v,
  enumerate_from index tokens m !! k = Some v ->
  m !! k = Some v \/ exists i, tokens !! i = Some k /\ v = (index + i + 2)%nat.
Proof.
  induction tokens as [|token rest IH]; intros index m k v; simpl; [auto|].
  intros Hk. apply IH in Hk. destruct Hk as [Hk|(i & Hi & ->)].
  - apply lookup_insert_Some in Hk. destruct Hk as [[<- <-]|[_ Hk]]; [|auto].
    right. exists 0%nat. split; [reflexivity|lia].
  - right. exists (S i). split; [exact Hi|lia].
Qed.

Section Fill.
Variable g : GloveVectors.t.
Variable p : Process.
Hypothesis vectors_returned : forall token,
  exists v, get_vector_or_random g token p = (Ok v, p) /\
            length v = get_dimensions_with_random g.

Lemma fill_matrix_spec items : forall matrix,
  NoDup (map snd items) ->
  (forall token index, (token, index) ∈ items -> (index < length matrix)%nat) ->
  exists matrix',
    fill_matrix g p items matrix = Ok matrix' /\
    length matrix' = length matrix /\
    (forall token index, (token, index) ∈ items ->
       exists v, get_vector_or_random g token p = (Ok v, p) /\ matrix' !! index = Some v) /\
    (forall index, index ∉ map snd items -> matrix' !! index = matrix !! index).
Proof.
  induction items as [|[token index] rest IH]; intros matrix Hnd Hlt; cbn [fill_matrix].
  - exists matrix. split; [reflexivity|]. split; [reflexivity|]. split; [|auto].
    intros token index Hin. inversion Hin.
  - cbn [map snd] in Hnd. apply NoDup_cons in Hnd. destruct Hnd as [Hnotin Hnd].
    destruct (vectors_returned token) as (v & Hv & Hlen). rewrite Hv.
    cbn [fst mbind res_bind]. unfold set_row.
    assert (Hindex : (index < length matrix)%nat) by (apply (Hlt token); left).
    apply Nat.ltb_lt in Hindex. rewrite Hindex. cbn [mbind res_bind].
    apply Nat.ltb_lt in Hindex.
    destruct (IH (<[index := v]> matrix) Hnd) as (matrix' & Hfill & Hlen' & Hset & Hkeep).
    { intros t i Hin. rewrite length_insert. apply (Hlt t). now right. }
    exists matrix'. split; [exact Hfill|]. split; [now rewrite Hlen', length_insert|].
    split.
    + intros t i Hin. apply elem_of_cons in Hin. destruct Hin as [[= -> ->]|Hin]; [|auto].
      exists v. split; [exact Hv|].
      rewrite Hkeep by exact Hnotin. now apply list_lookup_insert_eq.
    + intros i Hi. rewrite Hkeep by (intros Hin; apply Hi; now right).
      apply list_lookup_insert_ne. intros ->. apply Hi. left.
Qed.

End Fill.

(** X5: when the vector table loads and the OOV token is not in the
    vocabulary, [_ensure_loaded] returns: none of its assertions fails and no
    row index is out of range.  The OOV token has index 1 and the [i]-th
    vocabulary token index [i + 2]; the matrix has one row per vocabulary
    token plus two; row 0, the mask, is zero; the row of every indexed token
    is its vector from [get_vector_or_random]; [vocab_size] is the number of
    vocabulary tokens plus one, and every index that [index_for_token] returns
    lies between 1 and [vocab_size]. *)
Theorem ensure_loaded_builds_matrix (ce : CombinedEmbeddings.t) (p : Process)
    (g : GloveVectors.t) :
  GloveVectors.load (glove ce) = Ok g ->
  OOV ∉ vocabulary ce ->
  exists st, _ensure_loaded ce p = Ok st /\
    token2index st !! OOV = Some OOV_INDEX /\
    (forall i token, vocabulary ce !! i = Some token ->
       token2index st !! token = Some (i + 2)%nat) /\
    (forall token index, token2index st !! token = Some index ->
       (1 <= index < length (matrix st))%nat /\
       exists v, get_vector_or_random g token p = (Ok v, p) /\
                 matrix st !! index = Some v) /\
    length (matrix st) = (length (vocabulary ce) + 2)%nat /\
    matrix st !! 0%nat = Some (replicate (get_dimensions_with_random g) 0) /\
    vocab_size ce p = Ok (length (vocabulary ce) + 1)%nat /\
    forall token, exists r,
      index_for_token ce p token = Ok r /\ (1 <= r <= length (vocabulary ce) + 1)%nat.
Proof.
  intros Hload Hoov.
  pose proof (vocabulary_NoDup ce) as Hnd.
  set (vocab := vocabulary ce) in *.
  set (enumerated := enumerate_from 0 vocab ∅).
  set (t2i := <[OOV := OOV_INDEX]> enumerated).
  destruct (enumerate_from_spec vocab 0 ∅ Hnd) as (Hlook & Hsize & Himg).
  { intros t _. apply lookup_empty. }
  { intros k v. rewrite lookup_empty. discriminate. }
  fold enumerated in Hlook, Hsize, Himg.
  rewrite map_size_empty in Hsize. rewrite map_img_empty_L, size_empty in Himg.
  simpl in Hsize, Himg.
  assert (Hoov_none : enumerated !! OOV = None).
  { unfold enumerated. rewrite EmbeddingFacts.enumerate_from_notin by exact Hoov.
    apply lookup_empty. }
  assert (Hvalues : forall k v, t2i !! k = Some v ->
            (k = OOV /\ v = 1%nat) \/ exists i, vocab !! i = Some k /\ v = (i + 2)%nat).
  { intros k v. unfold t2i. rewrite lookup_insert_Some.
    intros [[<- <-]|[_ Hk]]; [left; auto|].
    apply enumerate_from_values in Hk. destruct Hk as [Hk|(i & Hi & ->)].
    - rewrite lookup_empty in Hk. discriminate.
    - right. exists i. auto. }
  assert (Hsize' : size t2i = (length vocab + 1)%nat).
  { unfold t2i. rewrite map_size_insert_None by exact Hoov_none. lia. }
  assert (Himg' : size (map_img t2i : gset nat) = size t2i).
  { rewrite Hsize'. unfold t2i. rewrite map_img_insert_notin_L by exact Hoov_none.
    rewrite size_union, size_singleton; [lia|].
    intros v Hv1 Hv2. apply elem_of_singleton in Hv1. subst v.
    apply elem_of_map_img in Hv2. destruct Hv2 as [k Hk].
    apply enumerate_from_values in Hk. destruct Hk as [Hk|(i & _ & Hi)].
    - rewrite lookup_empty in Hk. discriminate.
    - unfold OOV_INDEX in Hi. lia. }
  assert (Hzero : (0%nat ∉ (map_img t2i : gset nat))).
  { intros Hin. apply elem_of_map_img in Hin. destruct Hin as [k Hk].
    apply Hvalues in Hk. destruct Hk as [[_ Hk]|(i & _ & Hk)]; lia. }
  assert (Hvec : forall token,
            exists v, get_vector_or_random g token p = (Ok v, p) /\
                      length v = get_dimensions_with_random g).
  { intros token.
    destruct (EmbeddingFacts.get_vector_or_random_cases _ g token p Hload)
      as (v & Hv & Hlen & _). eauto. }
  set (zeros := replicate (size t2i + 1) (replicate (get_dimensions_with_random g) (0 : Q))).
  destruct (fill_matrix_spec g p Hvec (map_to_list t2i) zeros)
    as (filled & Hfill & Hlen & Hset & Hkeep).
  { apply NoDup_fmap_2_strong; [|apply NoDup_map_to_list].
    intros [k1 v1] [k2 v2] H1 H2 Heq. simpl in Heq. subst v2.
    apply elem_of_map_to_list in H1, H2. f_equal.
    apply Hvalues in H1, H2.
    destruct H1 as [[-> E1]|(i1 & H1 & E1)], H2 as [[-> E2]|(i2 & H2 & E2)];
      [reflexivity|lia|lia|].
    assert (i1 = i2) as -> by lia. congruence. }
  { intros token index Hin. apply elem_of_map_to_list in Hin.
    unfold zeros. rewrite length_replicate, Hsize'.
    apply Hvalues in Hin. destruct Hin as [[_ ->]|(i & Hi & ->)]; [lia|].
    apply lookup_lt_Some in Hi. lia. }
  assert (Hfilled : length filled = (length vocab + 2)%nat).
  { rewrite Hlen. unfold zeros. rewrite length_replicate, Hsize'. lia. }
  assert (Hrun : _ensure_loaded ce p = Ok {| token2index := t2i; matrix := filled |}).
  { unfold _ensure_loaded.
    change (TokenStatistics.get_tokens_with_minimum_frequency (tokenstats ce)
              (min_token_freq ce)) with vocab.
    fold enumerated. fold t2i.
    rewrite (bool_decide_eq_true_2 _ Himg'). cbn [py_assert mbind res_bind].
    rewrite (bool_decide_eq_true_2 _ Hzero). cbn [py_assert mbind res_bind].
    rewrite Hload. cbn [mbind res_bind].
    fold zeros. rewrite Hfill. cbn [mbind res_bind].
    match goal with |- context [py_assert ?b] => assert (b = true) as -> end.
    { apply Qeq_bool_iff. rewrite length_drop, Hfilled.
      replace (length vocab + 2 - 2)%nat with (length vocab) by lia.
      replace (Z.of_nat (length vocab + 2) - 2)%Z with (Z.of_nat (length vocab)) by lia.
      ring. }
    reflexivity. }
  eexists. split; [exact Hrun|]. cbn [token2index matrix].
  split; [apply lookup_insert_eq|]. split; [|split; [|split; [|split; [|split]]]].
  - intros i token Hi. unfold t2i. rewrite lookup_insert_ne; [apply (Hlook i token Hi)|].
    intros <-. apply Hoov. eapply list_elem_of_lookup_2. exact Hi.
  - intros token index Hk. split.
    + rewrite Hfilled. apply Hvalues in Hk.
      destruct Hk as [[_ ->]|(i & Hi & ->)]; [lia|].
      apply lookup_lt_Some in Hi. lia.
    + apply (Hset token index). now apply elem_of_map_to_list.
  - exact Hfilled.
  - rewrite Hkeep.
    + unfold zeros. apply lookup_replicate_2. lia.
    + intros Hin. apply list_elem_of_fmap in Hin. destruct Hin as ([k v] & Hv & Hin).
      simpl in Hv. subst v. apply elem_of_map_to_list in Hin.
      apply Hvalues in Hin. destruct Hin as [[_ Hk]|(i & _ & Hk)]; lia.
  - unfold vocab_size. rewrite Hrun. cbn [mbind res_bind matrix]. rewrite Hfilled.
    f_equal. lia.
  - intros token. unfold index_for_token. rewrite Hrun. cbn [mbind res_bind token2index].
    set (r := default OOV_INDEX (t2i !! normalize token)).
    assert (Hr : (1 <= r <= length vocab + 1)%nat).
    { unfold r. destruct (t2i !! normalize token) as [v|] eqn:E; simpl.
      - apply Hvalues in E. destruct E as [[_ ->]|(i & Hi & ->)]; [lia|].
        apply lookup_lt_Some in Hi. lia.
      - unfold OOV_INDEX. lia. }
    exists r. split; [|exact Hr].
    assert ((r =? 0)%nat = false) as -> by (apply Nat.eqb_neq; lia).
    reflexivity.
Qed.

End WithExternals.
End MatrixFacts.

(** ** Lookups in the output of the layout detector *)

Module VisionFacts.
Import VisionOutput Featurizer.

(** [pages_for_sha(sha)]: the [KeyError] of a missing document is not caught. *)
Definition pages_for_sha (boxes : gmap str (list (list BoundingBox))) (sha : str) : res nat :=
  match boxes !! sha with
  | None => Raise KeyError
  | Some pages => Ok (length pages)
  end.

(** The last line of the file for the document [sha]. *)
Fixpoint last_line (lines : list Line) (sha : str) : option Line :=
  match lines with
  | [] => None
  | line :: rest =>
      match last_line rest sha with
      | Some later => Some later
      | None => if bool_decide (docSha line = sha) then Some line else None
      end
  end.

(** The boxes of a page of the file with the label [label], in the file's
    order of coordinates: left, top, right, bottom. *)
Definition json_boxes_with_label (label : str) (json_page : list JsonBox) : list Box :=
  omap (M := list)
       (fun b : JsonBox =>
          let '(l, left', top, right', bottom, _) := b in
          if bool_decide (l = label) then Some (left', top, right', bottom) else None)
       json_page.

Lemma fold_add_line lines sha : forall boxes,
  fold_left add_line lines boxes !! sha
  = match last_line lines sha with
    | Some line => Some (map (map box_of_json) (pages line))
    | None => boxes !! sha
    end.
Proof.
  induction lines as [|line rest IH]; intros boxes; simpl; [reflexivity|].
  rewrite IH. destruct (last_line rest sha) as [later|]; [reflexivity|].
  unfold add_line. destruct (bool_decide (docSha line = sha)) eqn:E.
  - apply bool_decide_eq_true in E. rewrite E. apply lookup_insert_eq.
  - apply bool_decide_eq_false in E. now apply lookup_insert_ne.
Qed.

Lemma boxes_with_label_of_json label json_page :
  boxes_with_label label (map box_of_json json_page) = json_boxes_with_label label json_page.
Proof.
  unfold boxes_with_label, json_boxes_with_label, omap.
  induction json_page as [|[[[[[l left'] top] right'] bottom] confidence] rest IH];
    simpl; [reflexivity|].
  destruct (bool_decide (l = label)); simpl; now rewrite IH.
Qed.

(** X6: in the table that [VisionOutput] builds from a file whose lines all
    parse (a line that is not a JSON object with a [docSha] and pages of
    six-element boxes makes [__init__] raise, and is no [Line]), the last
    line for a document wins.  For a document that no line names,
    [boxes_for_sha_and_page] returns no box and [pages_for_sha] raises
    [KeyError]; otherwise [pages_for_sha] is the number of pages of the last
    line for the document, and the boxes of a label on a page are the boxes
    of that label on that page of that line, with their coordinates in the
    file's order (no box for a page the line does not have). *)
Theorem vision_lookup_last_line_wins (lines : list Line)
    (boxes : gmap str (list (list BoundingBox))) (sha : str) (page : nat) :
  init (Some lines) = Ok boxes ->
  match last_line lines sha with
  | None =>
      boxes_for_sha_and_page boxes sha page = [] /\
      pages_for_sha boxes sha = Raise KeyError
  | Some line =>
      line ∈ lines /\ docSha line = sha /\
      pages_for_sha boxes sha = Ok (length (pages line)) /\
      forall label,
        boxes_with_label label (boxes_for_sha_and_page boxes sha page)
        = json_boxes_with_label label (default [] (pages line !! page))
  end.
Proof.
  intros [= <-].
  unfold boxes_for_sha_and_page, pages_for_sha. rewrite fold_add_line, lookup_empty.
  destruct (last_line lines sha) as [line|] eqn:Hlast; [|auto].
  split; [|split; [|split]].
  - clear -Hlast. induction lines as [|l rest IH]; [discriminate|].
    cbn [last_line] in Hlast. destruct (last_line rest sha) as [later|].
    + injection Hlast as ->. right. apply IH. reflexivity.
    + destruct (bool_decide (docSha l = sha)); [|discriminate].
      injection Hlast as ->. left.
  - clear -Hlast. induction lines as [|l rest IH]; [discriminate|].
    cbn [last_line] in Hlast. destruct (last_line rest sha) as [later|].
    + apply IH. exact Hlast.
    + destruct (bool_decide (docSha l = sha)) eqn:E; [|discriminate].
      injection Hlast as <-. apply bool_decide_eq_true in E. exact E.
  - now rewrite length_map.
  - intros label. rewrite list_lookup_fmap.
    destruct (pages line !! page) as [json_page|]; simpl; [|reflexivity].
    apply boxes_with_label_of_json.
Qed.

(** A file of three lines: two for the document [ab], one for [cd]. *)
Definition example_lines : list Line :=
  [ {| docSha := [97; 98]%N;
       pages := [[([116]%N, 1, 2, 3, 4, 1 # 2)]; [([97]%N, 5, 6, 7, 8, 1 # 2)]] |};
    {| docSha := [99; 100]%N; pages := [[([116]%N, 0, 0, 1, 1, 1)]] |};
    {| docSha := [97; 98]%N;
       pages := [[([97]%N, 10, 20, 30, 40, 1 # 4); ([116]%N, 11, 21, 31, 41, 3 # 4);
                  ([116]%N, 12, 22, 32, 42, 1)]] |} ].

(** X6, witness: the second line for [ab] replaces the first: one page, and
    the two title boxes of that page. *)
Lemma vision_lookup_last_line_wins_witness :
  exists boxes,
    init (Some example_lines) = Ok boxes /\
    pages_for_sha boxes [97; 98]%N = Ok 1%nat /\
    boxes_with_label [116]%N (boxes_for_sha_and_page boxes [97; 98]%N 0)
    = [(11, 21, 31, 41); (12, 22, 32, 42)] /\
    boxes_with_label [116]%N (boxes_for_sha_and_page boxes [97; 98]%N 1) = [].
Proof.
  destruct (init (Some example_lines)) as [boxes|e] eqn:E; [|discriminate E].
  exists boxes. split; [reflexivity|].
  pose proof (vision_lookup_last_line_wins example_lines boxes [97; 98]%N 0 E) as H0.
  pose proof (vision_lookup_last_line_wins example_lines boxes [97; 98]%N 1 E) as H1.
  change (last_line example_lines [97; 98]%N) with (nth_error example_lines 2) in H0, H1.
  cbn [nth_error example_lines] in H0, H1.
  destruct H0 as (_ & _ & Hpages & Hboxes0). destruct H1 as (_ & _ & _ & Hboxes1).
  split; [exact Hpages|]. split; [apply Hboxes0|apply Hboxes1].
Defined.

End VisionFacts.

(** ** Properties of the overlap computation *)

Module OverlapFacts.
Import Featurizer.

Lemma Qlt_bool_false x y : y <= x -> Qlt_bool x y = false.
Proof.
  intros Hle. apply not_true_iff_false. intros E. apply Qlt_bool_iff in E. lra.
Qed.

Lemma py_max_cases a b : py_max a b = a \/ py_max a b = b.
Proof. unfold py_max. destruct (Qlt_bool a b); auto. Qed.

Lemma py_min_cases a b : (py_min a b = a /\ a <= b) \/ (py_min a b = b /\ b <= a).
Proof.
  unfold py_min. destruct (Qlt_bool b a) eqn:E.
  - apply Qlt_bool_iff in E. right. split; [reflexivity|lra].
  - assert (~ b < a) by (rewrite <- Qlt_bool_iff; congruence). left. split; [reflexivity|lra].
Qed.

Lemma py_max_cases' a b : (py_max a b = a /\ b <= a) \/ (py_max a b = b /\ a <= b).
Proof.
  unfold py_max. destruct (Qlt_bool a b) eqn:E.
  - apply Qlt_bool_iff in E. right. split; [reflexivity|lra].
  - assert (~ a < b) by (rewrite <- Qlt_bool_iff; congruence). left. split; [reflexivity|lra].
Qed.

(** The sides of the intersection are at most the sides of the first box. *)
Lemma intersect_bounds (a b : Box) :
  let '(a0, a1, a2, a3) := a in
  0 <= compute_intersect a b /\
  (compute_intersect a b == 0 \/
   (0 <= a2 - a0 /\ 0 <= a3 - a1 /\
    compute_intersect a b <= (a2 - a0) * (a3 - a1))).
Proof.
  destruct a as [[[a0 a1] a2] a3], b as [[[b0 b1] b2] b3]. unfold compute_intersect.
  set (top := py_max a1 b1). set (bottom := py_min a3 b3).
  set (left' := py_max a0 b0). set (right' := py_min a2 b2).
  destruct (Qlt_bool (bottom - top) 0 || Qlt_bool (right' - left') 0) eqn:E.
  - split; [lra|left; reflexivity].
  - apply orb_false_iff in E. destruct E as [E1 E2].
    assert (Htb : 0 <= bottom - top).
    { assert (~ bottom - top < 0) by (rewrite <- Qlt_bool_iff; congruence). lra. }
    assert (Hlr : 0 <= right' - left').
    { assert (~ right' - left' < 0) by (rewrite <- Qlt_bool_iff; congruence). lra. }
    assert (Htb' : bottom - top <= a3 - a1).
    { unfold bottom, top.
      destruct (py_min_cases a3 b3) as [[-> ?]|[-> ?]],
               (py_max_cases' a1 b1) as [[-> ?]|[-> ?]]; lra. }
    assert (Hlr' : right' - left' <= a2 - a0).
    { unfold right', left'.
      destruct (py_min_cases a2 b2) as [[-> ?]|[-> ?]],
               (py_max_cases' a0 b0) as [[-> ?]|[-> ?]]; lra. }
    split; [apply Qmult_le_0_compat; assumption|].
    right. split; [lra|]. split; [lra|].
    apply Qle_trans with ((a3 - a1) * (right' - left')).
    + apply Qmult_le_compat_r; assumption.
    + rewrite (Qmult_comm (a3 - a1) (right' - left')).
      apply Qmult_le_compat_r; lra.
Qed.

Lemma compute_iofirst_unit (a b : Box) : 0 <= compute_iofirst a b <= 1.
Proof.
  pose proof (intersect_bounds a b) as Hb.
  destruct a as [[[a0 a1] a2] a3]. unfold compute_iofirst.
  destruct (Qeq_bool ((a2 - a0) * (a3 - a1)) 0) eqn:E; [lra|].
  assert (Hne : ~ (a2 - a0) * (a3 - a1) == 0) by (rewrite <- Qeq_bool_iff; congruence).
  destruct Hb as [H0 [Hz|(Hw & Hh & Hle)]].
  - rewrite Hz. unfold Qdiv. rewrite Qmult_0_l. lra.
  - assert (Hpos : 0 < (a2 - a0) * (a3 - a1)).
    { assert (0 <= (a2 - a0) * (a3 - a1)) by (apply Qmult_le_0_compat; assumption). lra. }
    split.
    + apply Qle_shift_div_l; lra.
    + apply Qle_shift_div_r; lra.
Qed.

Lemma best_iofirst_unit coordinates boxes : 0 <= best_iofirst coordinates boxes <= 1.
Proof.
  unfold best_iofirst.
  destruct boxes as [|b rest]; simpl; [lra|].
  pose proof (compute_iofirst_unit coordinates b) as Hb.
  revert Hb. generalize (compute_iofirst coordinates b). 
  induction rest as [|b' rest IH]; intros x Hx; simpl; [exact Hx|].
  apply IH. pose proof (compute_iofirst_unit coordinates b') as Hb'.
  destruct (py_max_cases x (compute_iofirst coordinates b')) as [-> | ->]; assumption.
Qed.

(** The first box has positive sides and lies inside the second. *)
Definition inside (a b : Box) : Prop :=
  let '(a0, a1, a2, a3) := a in
  let '(b0, b1, b2, b3) := b in
  a0 < a2 /\ a1 < a3 /\ b0 <= a0 /\ a2 <= b2 /\ b1 <= a1 /\ a3 <= b3.

Lemma compute_iofirst_inside a b : inside a b -> compute_iofirst a b == 1.
Proof.
  destruct a as [[[a0 a1] a2] a3], b as [[[b0 b1] b2] b3].
  intros (Hw & Hh & H0 & H2 & H1 & H3). unfold compute_iofirst, compute_intersect.
  assert (Hpos : 0 < (a2 - a0) * (a3 - a1)) by (apply Qmult_lt_0_compat; lra).
  assert (Hne : Qeq_bool ((a2 - a0) * (a3 - a1)) 0 = false).
  { destruct (Qeq_bool _ 0) eqn:E; [|reflexivity]. apply Qeq_bool_iff in E. lra. }
  rewrite Hne.
  assert (Etop : py_max a1 b1 == a1).
  { destruct (py_max_cases' a1 b1) as [[-> ?]|[-> ?]]; lra. }
  assert (Ebottom : py_min a3 b3 == a3).
  { destruct (py_min_cases a3 b3) as [[-> ?]|[-> ?]]; lra. }
  assert (Eleft : py_max a0 b0 == a0).
  { destruct (py_max_cases' a0 b0) as [[-> ?]|[-> ?]]; lra. }
  assert (Eright : py_min a2 b2 == a2).
  { destruct (py_min_cases a2 b2) as [[-> ?]|[-> ?]]; lra. }
  assert (E1 : Qlt_bool (py_min a3 b3 - py_max a1 b1) 0 = false)
    by (apply Qlt_bool_false; lra).
  assert (E2 : Qlt_bool (py_min a2 b2 - py_max a0 b0) 0 = false)
    by (apply Qlt_bool_false; lra).
  rewrite E1, E2. simpl. rewrite Etop, Ebottom, Eleft, Eright. field. lra.
Qed.

(** X7: [compute_iofirst] returns a value in [0, 1] for any two boxes, also
    for a first box with reversed or empty sides, and 1 when the first box
    has positive sides and lies inside the second; hence the best title and
    author overlaps of a token lie in [0, 1]. *)
Theorem overlap_is_a_fraction (token : Token) (boxes : list VisionOutput.BoundingBox) :
  (forall a b, 0 <= compute_iofirst a b <= 1) /\
  (forall a b, inside a b -> compute_iofirst a b == 1) /\
  0 <= best_title_iofirst token boxes <= 1 /\
  0 <= best_author_iofirst token boxes <= 1.
Proof.
  split; [apply compute_iofirst_unit|]. split; [apply compute_iofirst_inside|].
  split; apply best_iofirst_unit.
Qed.

End OverlapFacts.

(** ** Properties of the tokenizer and of the reference metadata *)

Module GoldFacts.
Import Labeler.

Section WithExternals.
Context `{Externals}.

(** The characters [tokenize] keeps: all but the whitespace that is not a
    word character. *)
Definition kept (c : N) : bool := re_word c || negb (re_space c).

Lemma concat_flush run : concat (flush run) = run.
Proof. destruct run; simpl; [reflexivity|now rewrite app_nil_r]. Qed.

Lemma flush_nonempty run : Forall (fun token => token <> []) (flush run).
Proof. destruct run; simpl; repeat constructor. discriminate. Qed.

Lemma tokenize_from_concat rest : forall run digits,
  concat (tokenize_from run digits rest) = run ++ List.filter kept rest.
Proof.
  induction rest as [|c rest IH]; intros run digits; simpl.
  - now rewrite concat_flush, app_nil_r.
  - unfold kept at 1. destruct (re_word c) eqn:Ew; simpl.
    + destruct (bool_decide (re_digit c = digits)).
      * rewrite IH, <- app_assoc. reflexivity.
      * rewrite concat_app, concat_flush, IH. reflexivity.
    + rewrite concat_app, concat_flush. destruct (re_space c); simpl.
      * rewrite IH. reflexivity.
      * rewrite IH. reflexivity.
Qed.

Lemma tokenize_from_nonempty rest : forall run digits,
  Forall (fun token => token <> []) (tokenize_from run digits rest).
Proof.
  induction rest as [|c rest IH]; intros run digits; simpl.
  - apply flush_nonempty.
  - destruct (re_word c).
    + destruct (bool_decide (re_digit c = digits)); [apply IH|].
      apply Forall_app. split; [apply flush_nonempty|apply IH].
    + apply Forall_app. split; [apply flush_nonempty|].
      apply Forall_app. split; [|apply IH].
      destruct (re_space c); repeat constructor. discriminate.
Qed.

Lemma tokenize_from_kept rest : forall run digits,
  Forall (fun c => kept c = true) run ->
  Forall (Forall (fun c => kept c = true)) (tokenize_from run digits rest).
Proof.
  assert (Hflush : forall run, Forall (fun c => kept c = true) run ->
            Forall (Forall (fun c => kept c = true)) (flush run)).
  { intros [|c run] Hrun; simpl; [constructor|]. constructor; [exact Hrun|constructor]. }
  induction rest as [|c rest IH]; intros run digits Hrun; simpl.
  - now apply Hflush.
  - destruct (re_word c) eqn:Ew.
    + assert (Hc : kept c = true) by (unfold kept; now rewrite Ew).
      destruct (bool_decide (re_digit c = digits)).
      * apply IH. apply Forall_app. split; [exact Hrun|]. repeat constructor. exact Hc.
      * apply Forall_app. split; [now apply Hflush|].
        apply IH. repeat constructor. exact Hc.
    + apply Forall_app. split; [now apply Hflush|].
      apply Forall_app. split; [|apply IH; constructor].
      destruct (re_space c) eqn:Es; repeat constructor.
      unfold kept. now rewrite Ew, Es.
Qed.

(** X8: [tokenize] only drops whitespace: the tokens concatenated are the
    text without its whitespace characters that are not word characters, no
    token is empty and no token holds such a character. *)
Theorem tokenize_keeps_all_but_whitespace (text : str) :
  concat (tokenize text) = List.filter kept text /\
  Forall (fun token => token <> [] /\ Forall (fun c => kept c = true) token) (tokenize text).
Proof.
  split.
  - unfold tokenize. now rewrite tokenize_from_concat.
  - apply Forall_and. split.
    + apply tokenize_from_nonempty.
    + apply tokenize_from_kept. constructor.
Qed.

Lemma length_omap_le {A B : Type} (f : A -> option B) (l : list A) :
  (length (omap (M := list) f l) <= length l)%nat.
Proof.
  unfold omap. induction l as [|x l IH]; simpl; [lia|]. destruct (f x); simpl; lia.
Qed.

(** The text of an author node as the labeler reads it. *)
Definition gold_author (node : str * str) : str * str :=
  (join [space] (tokenize (fst node)), join [space] (tokenize (snd node))).

Lemma gold_authors_of_all nodes :
  length (gold_authors_of nodes) = length nodes ->
  gold_authors_of nodes = map gold_author nodes /\
  Forall (fun author => snd author <> []) (gold_authors_of nodes).
Proof.
  unfold gold_authors_of.
  induction nodes as [|[given sur] nodes IH]; [intros _; split; [reflexivity|constructor]|].
  match goal with |- context [omap ?f _] => pose proof (length_omap_le f nodes) as Hle end.
  unfold omap in *. simpl.
  destruct (length (join [space] (tokenize sur)) <=? 0)%nat eqn:E; simpl.
  - intros Hlen. lia.
  - intros Hlen. destruct IH as [IH1 IH2]; [lia|].
    split.
    + rewrite IH1. reflexivity.
    + constructor; [|exact IH2]. simpl. intros E0. rewrite E0 in E. discriminate.
Qed.

(** X9: the branch of the labeler that reports "no title or no authors" is
    never taken; and when the reference metadata passes the gates, there is
    one title node whose trimmed token text is the gold title, of more than
    4 characters, and the gold authors are the tokenized names of all author
    nodes, at least one, each with a non-empty surname. *)
Theorem gold_metadata_gates (nxml : Nxml) :
  gold_metadata nxml <> inl NoTitleOrNoAuthors /\
  forall gold_title gold_authors,
    gold_metadata nxml = inr (gold_title, gold_authors) ->
    (exists title, article_titles nxml = [title] /\
       gold_title = trim_punctuation (join [space] (tokenize title))) /\
    (4 < length gold_title)%nat /\
    gold_authors <> [] /\
    gold_authors = map gold_author (author_nodes nxml) /\
    Forall (fun author => snd author <> []) gold_authors.
Proof.
  unfold gold_metadata.
  destruct (article_titles nxml) as [|title [|? ?]]; try (split; [discriminate|intros; discriminate]).
  destruct (length (trim_punctuation (join [space] (tokenize title))) <=? 4)%nat eqn:Et;
    [split; [discriminate|intros; discriminate]|].
  destruct (length (gold_authors_of (author_nodes nxml)) =? 0)%nat eqn:Ea;
    [split; [discriminate|intros; discriminate]|].
  destruct (length (gold_authors_of (author_nodes nxml)) =? length (author_nodes nxml))%nat eqn:En;
    simpl negb; cbv iota; [|split; [discriminate|intros; discriminate]].
  apply Nat.leb_gt in Et. apply Nat.eqb_neq in Ea. apply Nat.eqb_eq in En.
  assert (Hdead : (length (trim_punctuation (join [space] (tokenize title))) =? 0)%nat = false)
    by (apply Nat.eqb_neq; lia).
  rewrite Hdead. cbn [orb]. split; [discriminate|].
  intros gold_title gold_authors [= <- <-].
  destruct (gold_authors_of_all _ En) as [Hmap Hsur].
  split; [eauto|]. split; [exact Et|]. split; [|split; [exact Hmap|exact Hsur]].
  intros E0. rewrite E0 in Ea. simpl in Ea. congruence.
Qed.

End WithExternals.
End GoldFacts.

(** ** The text of a page and the token ranges of the matches *)

Module PageTextFacts.
Import Labeler.

(** The offset in the page text at which token [k] starts, for the
    normalized token texts of the page. *)
Fixpoint token_start (normalized : list str) (k : nat) : nat :=
  match k, normalized with
  | S k', t :: rest => length t + 1 + token_start rest k'
  | _, _ => 0
  end.

Section WithExternals.
Context `{Externals}.

(** What the loop appends for the remaining tokens: a space before each
    token but the first of the page. *)
Fixpoint appended (nonempty : bool) (tokens : list str) : str :=
  match tokens with
  | [] => []
  | token :: rest =>
      (if nonempty then [space] else []) ++ normalize token ++ appended true rest
  end.

Lemma appended_join tokens : appended false tokens = join [space] (map normalize tokens).
Proof.
  destruct tokens as [|t rest]; [reflexivity|]. simpl.
  revert t. induction rest as [|u rest IH]; intros t; simpl.
  - now rewrite app_nil_r.
  - f_equal. f_equal. apply IH.
Qed.

Lemma page_text_loop_text tokens : forall token_index pt,
  concat (page_text (page_text_loop token_index tokens pt))
  = concat (page_text pt) ++ appended (0 <? length (page_text pt))%nat tokens.
Proof.
  induction tokens as [|token rest IH]; intros token_index pt; simpl.
  - now rewrite app_nil_r.
  - rewrite IH. simpl.
    destruct (0 <? length (page_text pt))%nat eqn:E; simpl.
    + rewrite !length_app. simpl.
      replace (0 <? length (page_text pt) + 1 + 1)%nat with true
        by (symmetry; apply Nat.ltb_lt; lia).
      rewrite !concat_app. simpl. rewrite !app_nil_r, <- !app_assoc. reflexivity.
    + rewrite !length_app. simpl.
      replace (0 <? length (page_text pt) + 1)%nat with true
        by (symmetry; apply Nat.ltb_lt; lia).
      rewrite !concat_app. simpl. rewrite !app_nil_r, <- !app_assoc. reflexivity.
Qed.

(** Where the next token starts. *)
Definition next_start (pt : PageText) : nat :=
  if (0 <? length (page_text pt))%nat then page_text_length pt + 1 else page_text_length pt.

Lemma page_text_loop_starts tokens : forall token_index pt,
  (forall p k, start_pos_to_token_index pt !! p = Some k -> (p < next_start pt)%nat) ->
  forall p k,
    start_pos_to_token_index (page_text_loop token_index tokens pt) !! p = Some k <->
    start_pos_to_token_index pt !! p = Some k \/
    exists j, (j < length tokens)%nat /\ k = (token_index + j)%nat /\
              p = (next_start pt + token_start (map normalize tokens) j)%nat.
Proof.
  induction tokens as [|token rest IH]; intros token_index pt Hold p k.
  - simpl. split; [auto|]. intros [Hp|(j & Hj & _)]; [exact Hp|lia].
  - cbn [page_text_loop].
    set (pt1 := if (0 <? length (page_text pt))%nat
                then {| page_text := page_text pt ++ [[space]];
                        page_text_length := page_text_length pt + 1;
                        start_pos_to_token_index := start_pos_to_token_index pt |}
                else pt).
    assert (Hlen1 : page_text_length pt1 = next_start pt).
    { unfold pt1, next_start. destruct (0 <? length (page_text pt))%nat; reflexivity. }
    assert (Hmap1 : start_pos_to_token_index pt1 = start_pos_to_token_index pt).
    { unfold pt1. destruct (0 <? length (page_text pt))%nat; reflexivity. }
    rewrite IH.
    + cbn [start_pos_to_token_index page_text page_text_length].
      unfold next_start at 1. cbn [page_text page_text_length].
      replace (0 <? length (page_text pt1 ++ [normalize token]))%nat with true
        by (symmetry; apply Nat.ltb_lt; rewrite length_app; simpl; lia).
      rewrite Hlen1, Hmap1. rewrite lookup_insert_Some. split.
      * intros [[[<- <-]|[Hne Hp]]|(j & Hj & -> & ->)].
        -- right. exists 0%nat. simpl. split; [lia|]. split; lia.
        -- left. exact Hp.
        -- right. exists (S j). simpl. split; [lia|]. split; lia.
      * intros [Hp|(j & Hj & -> & ->)].
        -- left. right. split; [|exact Hp]. apply Hold in Hp. lia.
        -- destruct j as [|j].
           ++ left. left. simpl. split; lia.
           ++ right. exists j. simpl in *. split; [lia|]. split; lia.
    + intros p' k'. cbn [start_pos_to_token_index page_text page_text_length].
      unfold next_start at 1. cbn [page_text page_text_length].
      replace (0 <? length (page_text pt1 ++ [normalize token]))%nat with true
        by (symmetry; apply Nat.ltb_lt; rewrite length_app; simpl; lia).
      rewrite Hlen1, Hmap1, lookup_insert_Some.
      intros [[<- _]|[_ Hp]]; [lia|]. apply Hold in Hp. lia.
Qed.

Lemma token_start_mono normalized : forall j k,
  (j < k)%nat -> (k < length normalized)%nat ->
  (token_start normalized j < token_start normalized k)%nat.
Proof.
  induction normalized as [|t rest IH]; intros j k Hjk Hk; simpl in Hk; [lia|].
  destruct k as [|k]; [lia|]. destruct j as [|j]; simpl; [lia|].
  specialize (IH j k ltac:(lia) ltac:(lia)). lia.
Qed.

(** X10: the text of a page is its normalized tokens joined by single
    spaces; the length the loop keeps is the length of that text, so the
    assertion on it holds; and the position map sends exactly the start
    offset of each token to its index. *)
Theorem page_text_is_joined_tokens (page : Page) :
  text page = join [space] (map normalize (tokens page)) /\
  page_text_length (built page) = length (text page) /\
  forall p k,
    start_pos_to_token_index (built page) !! p = Some k <->
    (k < token_count page)%nat /\ p = token_start (map normalize (tokens page)) k.
Proof.
  split; [|split].
  - unfold text, built. rewrite page_text_loop_text. simpl. apply appended_join.
  - apply Nat.eqb_eq, LabelingFacts.page_assertion.
  - intros p k. unfold built. rewrite page_text_loop_starts.
    + simpl. rewrite lookup_empty. unfold token_count, tokens. rewrite length_map.
      split.
      * intros [Hd|(j & Hj & -> & ->)]; [discriminate|]. simpl. auto.
      * intros [Hk ->]. right. exists k. simpl. auto.
    + intros p' k'. simpl. rewrite lookup_empty. discriminate.
Qed.

Lemma snap_first_spec (m : gmap nat nat) start :
  snap_first m start = 0%nat \/
  exists p, (p <= start)%nat /\ m !! p = Some (snap_first m start).
Proof.
  induction start as [|start IH]; simpl.
  - destruct (m !! 0%nat) as [[|k]|] eqn:E; auto. right. exists 0%nat. auto.
  - destruct (m !! S start) as [[|k]|] eqn:E.
    + destruct IH as [IH|(p & Hp & Hm)]; [auto|]. right. exists p. split; [lia|exact Hm].
    + right. exists (S start). auto.
    + destruct IH as [IH|(p & Hp & Hm)]; [auto|]. right. exists p. split; [lia|exact Hm].
Qed.

Lemma snap_one_past_spec (m : gmap nat nat) remaining : forall end_ k,
  snap_one_past m remaining end_ = Some k ->
  exists p, (end_ <= p)%nat /\ m !! p = Some k.
Proof.
  induction remaining as [|remaining IH]; intros end_ k; simpl; [discriminate|].
  destruct (m !! end_) as [k'|] eqn:E.
  - intros [= <-]. exists end_. auto.
  - intros Hs. apply IH in Hs. destruct Hs as (p & Hp & Hm). exists p. split; [lia|exact Hm].
Qed.

Section WithPage.
Variable number : nat.
Variable page : Page.

Lemma to_fuzzy_match_range fuzzy_match offset yielded :
  (start_pos fuzzy_match <= end_pos fuzzy_match)%nat ->
  to_fuzzy_match number page fuzzy_match offset = Some yielded ->
  (first_token_index yielded < one_past_last_token_index yielded <= token_count page)%nat /\
  matched_string yielded
  = join [space] (slice (tokens page) (first_token_index yielded)
                        (one_past_last_token_index yielded)).
Proof.
  intros Hse. unfold to_fuzzy_match.
  set (m := start_pos_to_token_index (built page)).
  set (first := snap_first m (start_pos fuzzy_match + offset)).
  set (one_past := default (token_count page)
                     (snap_one_past m (length (text page) - (end_pos fuzzy_match + offset))
                                    (end_pos fuzzy_match + offset))).
  destruct (first =? one_past)%nat eqn:Ene; [discriminate|].
  intros [= <-]. cbn [first_token_index one_past_last_token_index matched_string].
  split; [|reflexivity].
  apply Nat.eqb_neq in Ene.
  pose proof (page_text_is_joined_tokens page) as (_ & _ & Hm). fold m in Hm.
  assert (Hfirst : first = 0%nat \/
            exists p, (p <= start_pos fuzzy_match + offset)%nat /\ m !! p = Some first)
    by apply snap_first_spec.
  assert (Hpast : one_past = token_count page \/
            exists p, (end_pos fuzzy_match + offset <= p)%nat /\ m !! p = Some one_past).
  { unfold one_past.
    destruct (snap_one_past m _ _) as [k|] eqn:E; [|left; reflexivity].
    right. simpl. eapply snap_one_past_spec. exact E. }
  destruct Hfirst as [Hf|(p & Hp & Hf)], Hpast as [Ho|(p' & Hp' & Ho)].
  - lia.
  - apply Hm in Ho. lia.
  - apply Hm in Hf. lia.
  - apply Hm in Hf, Ho. destruct Hf as [Hf ->], Ho as [Ho ->].
    split; [|lia].
    destruct (Nat.lt_ge_cases first one_past) as [Hlt|Hge]; [exact Hlt|].
    assert (one_past < first)%nat as Hgt by lia.
    pose proof (token_start_mono (map normalize (tokens page)) one_past first Hgt) as Hmono.
    unfold token_count in Hf. unfold tokens in Hmono at 1.
    rewrite !length_map in Hmono. specialize (Hmono Hf). lia.
Qed.

Lemma scan_ranges string fuel : 
  (forall needle haystack,
     (start_pos (stringmatch_match needle haystack)
      <= end_pos (stringmatch_match needle haystack))%nat) ->
  forall offset,
  Forall (fun m =>
            (first_token_index m < one_past_last_token_index m <= token_count page)%nat /\
            matched_string m
            = join [space] (slice (tokens page) (first_token_index m)
                                  (one_past_last_token_index m)))
         (fst (scan number page string fuel offset)).
Proof.
  intros Hse. induction fuel as [|fuel IH]; intros offset; [constructor|].
  rewrite MatchingFacts.scan_step.
  destruct (negb _); [constructor|].
  destruct (budget string <? cost_at page string offset)%nat; [constructor|].
  destruct (to_fuzzy_match _ _ _ _) as [yielded|] eqn:Ey; [|constructor].
  simpl. constructor; [|apply IH].
  eapply to_fuzzy_match_range; [apply Hse|exact Ey].
Qed.

End WithPage.

(** X11: when the fuzzy matcher reports matches that do not end before
    they start, every match that [find_string_in_page] yields is on the page
    searched and covers a non-empty range of its tokens, first index below
    one-past-last index and at most the token count, and its matched string
    is the tokens of that range joined by spaces. *)
Theorem yielded_matches_cover_tokens (number : nat) (page : Page) (query : str) :
  (forall needle haystack,
     (start_pos (stringmatch_match needle haystack)
      <= end_pos (stringmatch_match needle haystack))%nat) ->
  forall matches, find_string_in_page number page query = Ok matches ->
  Forall (fun m =>
            page_number m = number /\
            (first_token_index m < one_past_last_token_index m <= token_count page)%nat /\
            matched_string m
            = join [space] (slice (tokens page) (first_token_index m)
                                  (one_past_last_token_index m)))
         matches.
Proof.
  intros Hse matches Hfind.
  pose proof (LabelingFacts.find_string_in_page_number _ _ _ _ Hfind) as Hnum.
  assert (Hrange : Forall (fun m =>
            (first_token_index m < one_past_last_token_index m <= token_count page)%nat /\
            matched_string m
            = join [space] (slice (tokens page) (first_token_index m)
                                  (one_past_last_token_index m))) matches).
  { unfold find_string_in_page in Hfind.
    pose proof (scan_ranges number page (normalize query) (S (length (text page))) Hse 0) as Hall.
    destruct (scan number page (normalize query) (S (length (text page))) 0)
      as [ms [o| | |]]; simpl in Hall; try discriminate Hfind;
      injection Hfind as <-; exact Hall. }
  rewrite Forall_forall in *. intros m Hm. split; [auto|]. apply Hrange, Hm.
Qed.

End WithExternals.
End PageTextFacts.

(** ** Properties of the labels *)

Module LabelFacts.
Import Labeler.

(** The match is on page [number] and its token range holds token [i]. *)
Definition covers (number : nat) (m : FuzzyMatch) (i : nat) : bool :=
  (page_number m =? number)%nat
  && (first_token_index m <=? i)%nat && (i <? one_past_last_token_index m)%nat.

(** The label of token [i] of page [number]: an author match wins over the
    title match. *)
Definition label_of (title_match : FuzzyMatch) (author_matches : list FuzzyMatch)
    (number i : nat) : nat :=
  if existsb (fun m => covers number m i) author_matches then AUTHOR_LABEL
  else if covers number title_match i then TITLE_LABEL
  else NONE_LABEL.

Lemma set_labels_lookup labels first one_past label i :
  set_labels labels first one_past label !! i
  = (fun old => if (first <=? i)%nat && (i <? one_past)%nat then label else old)
    <$> labels !! i.
Proof. unfold set_labels. apply list_lookup_imap. Qed.

Lemma author_labels_lookup number i author_matches : forall labels,
  fold_left
    (fun labels author_match =>
       if (page_number author_match =? number)%nat
       then set_labels labels (first_token_index author_match)
                       (one_past_last_token_index author_match) AUTHOR_LABEL
       else labels)
    author_matches labels !! i
  = (fun old => if existsb (fun m => covers number m i) author_matches
                then AUTHOR_LABEL else old) <$> labels !! i.
Proof.
  induction author_matches as [|a rest IH]; intros labels; simpl.
  - destruct (labels !! i); reflexivity.
  - rewrite IH. unfold covers at 2.
    destruct (page_number a =? number)%nat; simpl.
    + rewrite set_labels_lookup. destruct (labels !! i) as [old|]; simpl; [|reflexivity].
      destruct ((first_token_index a <=? i)%nat && (i <? one_past_last_token_index a)%nat);
        simpl; [|reflexivity].
      destruct (existsb _ rest); reflexivity.
    + destruct (labels !! i); reflexivity.
Qed.

Lemma page_labels_lookup (title_match : FuzzyMatch)
    (author_matches : list FuzzyMatch) (number : nat) (page : Page) (i : nat) :
  page_labels title_match author_matches number page !! i
  = if (i <? token_count page)%nat
    then Some (label_of title_match author_matches number i)
    else None.
Proof.
  unfold page_labels. rewrite author_labels_lookup.
  unfold label_of.
  assert (Htitle :
    (if (page_number title_match =? number)%nat
     then set_labels (replicate (token_count page) NONE_LABEL)
            (first_token_index title_match) (one_past_last_token_index title_match)
            TITLE_LABEL
     else replicate (token_count page) NONE_LABEL) !! i
    = if (i <? token_count page)%nat
      then Some (if covers number title_match i then TITLE_LABEL else NONE_LABEL)
      else None).
  { unfold covers.
    destruct (page_number title_match =? number)%nat; simpl.
    - rewrite set_labels_lookup.
      destruct (Nat.ltb_spec i (token_count page)) as [Hlt|Hge].
      + rewrite lookup_replicate_2 by exact Hlt. reflexivity.
      + rewrite lookup_ge_None_2 by (rewrite length_replicate; lia). reflexivity.
    - destruct (Nat.ltb_spec i (token_count page)) as [Hlt|Hge].
      + rewrite lookup_replicate_2 by exact Hlt. reflexivity.
      + rewrite lookup_ge_None_2 by (rewrite length_replicate; lia). reflexivity. }
  rewrite Htitle. destruct (i <? token_count page)%nat; [|reflexivity].
  simpl. destruct (existsb _ author_matches); reflexivity.
Qed.

Lemma page_labels_length (title_match : FuzzyMatch)
    (author_matches : list FuzzyMatch) (number : nat) (page : Page) :
  length (page_labels title_match author_matches number page) = token_count page.
Proof.
  pose proof (page_labels_lookup title_match author_matches number page (token_count page))
    as Hat.
  rewrite Nat.ltb_irrefl in Hat. apply lookup_ge_None in Hat.
  destruct (token_count page) as [|n] eqn:En; [lia|].
  pose proof (page_labels_lookup title_match author_matches number page n) as Hn.
  rewrite En, (proj2 (Nat.ltb_lt n (S n))) in Hn by lia.
  apply lookup_lt_Some in Hn. lia.
Qed.

(** X12: the labels of a page are one per token; a token in the range of an
    author match of the page is labeled author, also when the title match
    covers it; any other token in the range of the title match of the page is
    labeled title; and every other token keeps the label 0. *)
Theorem page_labels_author_over_title (title_match : FuzzyMatch)
    (author_matches : list FuzzyMatch) (number : nat) (page : Page) :
  length (page_labels title_match author_matches number page) = token_count page /\
  forall i,
    page_labels title_match author_matches number page !! i
    = if (i <? token_count page)%nat
      then Some (label_of title_match author_matches number i)
      else None.
Proof.
  split; [apply page_labels_length|apply page_labels_lookup].
Qed.

Lemma for_each_Forall2 {A B : Type} (f : A -> res B) (l : list A) : forall ys,
  for_each f l = Ok ys -> Forall2 (fun x y => f x = Ok y) l ys.
Proof.
  induction l as [|x rest IH]; simpl; intros ys.
  - intros [= <-]. constructor.
  - intros Hys. apply bind_Ok in Hys. destruct Hys as (y & Hy & Hys).
    apply bind_Ok in Hys. destruct Hys as (ys' & Hys' & [= <-]).
    constructor; [exact Hy|apply IH, Hys'].
Qed.

Lemma min_by_elem {A : Type} (ltb : A -> A -> bool) (rest : list A) : forall first,
  min_by ltb first rest ∈ first :: rest.
Proof.
  unfold min_by. induction rest as [|x rest IH]; intros first; simpl; [left|].
  specialize (IH (if ltb x first then x else first)).
  apply elem_of_cons in IH. destruct IH as [-> | IH].
  - destruct (ltb x first); [right; left|left].
  - right. right. exact IH.
Qed.

Lemma take_min_length {A : Type} (n : nat) (l : list A) :
  take (Nat.min n (length l)) l = take n l.
Proof.
  destruct (Nat.le_gt_cases n (length l)) as [Hle|Hgt].
  - now rewrite Nat.min_l.
  - rewrite Nat.min_r by lia. now rewrite !take_ge by lia.
Qed.

(** The best match of every author is on the page the matches were
    filtered by. *)
Lemma best_matches_on_page (n : nat) (author_matches : list (list FuzzyMatch)) :
  forall best,
  for_each
    (fun matches =>
       match matches with
       | [] => Raise ValueError
       | first :: rest => Ok (min_by cost_author_match_ltb first rest)
       end)
    (map (List.filter (fun m => (page_number m =? n)%nat)) author_matches) = Ok best ->
  Forall (fun m => page_number m = n) best.
Proof.
  induction author_matches as [|matches rest IH]; simpl; intros best.
  - intros [= <-]. constructor.
  - intros Hys. apply bind_Ok in Hys. destruct Hys as (y & Hy & Hys).
    apply bind_Ok in Hys. destruct Hys as (ys' & Hys' & [= <-]).
    constructor; [|apply IH, Hys'].
    destruct (List.filter _ matches) as [|first others] eqn:Ef; [discriminate|].
    injection Hy as <-.
    pose proof (min_by_elem cost_author_match_ltb others first) as Hin.
    rewrite <- Ef in Hin. apply list_elem_of_In, filter_In in Hin.
    destruct Hin as [_ Hin]. now apply Nat.eqb_eq in Hin.
Qed.

Section WithExternals.
Context `{Externals}.

(** The parts of a written entry: the title match and the best match of
    every author that its labels are drawn from. *)
Lemma label_document_written_parts (doc : Doc) (file : NxmlFile) (entry : LabeledDoc) :
  label_document doc file = Ok (Written entry) ->
  lab_doc_id entry = doc_id doc /\
  lab_doc_sha entry = doc_sha doc /\
  lab_pages entry = take MAX_PAGE_COUNT (doc_pages doc) /\
  exists title_match best n,
    lab_labels entry = imap (page_labels title_match best) (lab_pages entry) /\
    Forall (fun m => page_number m = n) best.
Proof.
  unfold label_document.
  change (take (Nat.min MAX_PAGE_COUNT (length (doc_pages doc))) (doc_pages doc))
    with (LabelingFacts.searched_pages doc).
  intros Hrun.
  apply bind_Ok in Hrun. destruct Hrun as (gold & _ & Hrun).
  destruct gold as [why|[gold_title gold_authors]]; [discriminate|].
  apply bind_Ok in Hrun. destruct Hrun as ([title_match author_matches] & _ & Hrun).
  apply bind_Ok in Hrun. destruct Hrun as (page_numbers & _ & Hrun).
  destruct (set_min page_numbers) as [n|]; [|discriminate].
  apply bind_Ok in Hrun. destruct Hrun as (best & Hbest & Hrun).
  destruct title_match as [title_match|]; [|discriminate].
  injection Hrun as <-. cbn [lab_doc_id lab_doc_sha lab_pages lab_labels].
  replace (take MAX_PAGE_COUNT (doc_pages doc)) with (LabelingFacts.searched_pages doc)
    by apply take_min_length.
  split; [reflexivity|]. split; [reflexivity|]. split; [reflexivity|].
  exists title_match, best, n. split; [reflexivity|].
  eapply best_matches_on_page. exact Hbest.
Qed.

(** X13: the entry written for a document has the document's id and sha
    and its first [MAX_PAGE_COUNT] pages; it has one list of labels per page,
    with one label per token of the page; every label is 0, 1 or 2; the title
    label 1 occurs on one page only, and the author label 2 occurs on one
    page only. *)
Theorem written_entry_shape (doc : Doc) (file : NxmlFile) (entry : LabeledDoc) :
  label_document doc file = Ok (Written entry) ->
  lab_doc_id entry = doc_id doc /\
  lab_doc_sha entry = doc_sha doc /\
  lab_pages entry = take MAX_PAGE_COUNT (doc_pages doc) /\
  length (lab_labels entry) = length (lab_pages entry) /\
  (forall k page labels,
     lab_pages entry !! k = Some page -> lab_labels entry !! k = Some labels ->
     length labels = token_count page) /\
  exists title_page author_page,
    forall k labels i label,
      lab_labels entry !! k = Some labels -> labels !! i = Some label ->
      label = NONE_LABEL \/
      (label = TITLE_LABEL /\ k = title_page) \/
      (label = AUTHOR_LABEL /\ k = author_page).
Proof.
  intros Hrun.
  destruct (label_document_written_parts doc file entry Hrun)
    as (Hid & Hsha & Hpages & title_match & best & n & Hlabels & Hn).
  split; [exact Hid|]. split; [exact Hsha|]. split; [exact Hpages|].
  rewrite Hlabels. split; [apply length_imap|]. split.
  - intros k page labels Hpage Hk.
    rewrite list_lookup_imap, Hpage in Hk. injection Hk as <-.
    apply page_labels_length.
  - exists (page_number title_match), n.
    intros k labels i label Hk Hlabel.
    rewrite list_lookup_imap in Hk.
    destruct (lab_pages entry !! k) as [page|]; [|discriminate].
    injection Hk as <-.
    rewrite page_labels_lookup in Hlabel.
    destruct (i <? token_count page)%nat; [|discriminate].
    injection Hlabel as <-. unfold label_of.
    destruct (existsb _ best) eqn:Ea.
    + right. right. split; [reflexivity|].
      apply existsb_exists in Ea. destruct Ea as (m & Hm & Hc).
      rewrite Forall_forall in Hn. apply list_elem_of_In, Hn in Hm.
      unfold covers in Hc. apply andb_true_iff in Hc. destruct Hc as [Hc _].
      apply andb_true_iff in Hc. destruct Hc as [Hc _].
      apply Nat.eqb_eq in Hc. congruence.
    + destruct (covers k title_match i) eqn:Ek; [|now left].
      right. left. split; [reflexivity|].
      unfold covers in Ek. apply andb_true_iff in Ek. destruct Ek as [Ek _].
      apply andb_true_iff in Ek. destruct Ek as [Ek _].
      now apply Nat.eqb_eq in Ek.
Qed.

End WithExternals.
End LabelFacts.

(** ** Which matches are kept *)

Module MatchChoiceFacts.
Import Labeler LabelingFacts.

Lemma title_match_ltb_spec a b :
  title_match_ltb a b = true <->
  (fm_cost a < fm_cost b)%nat \/
  (fm_cost a = fm_cost b /\
   (average_font_size b < average_font_size a \/
    (average_font_size a == average_font_size b /\
     (first_token_index a < first_token_index b)%nat))).
Proof.
  unfold title_match_ltb.
  rewrite orb_true_iff, andb_true_iff, orb_true_iff, andb_true_iff.
  rewrite !Nat.ltb_lt, Nat.eqb_eq, Qlt_bool_iff, Qeq_bool_iff.
  split.
  - intros [Hc|[Hc [Hf|[Hf Hi]]]]; [auto| |].
    + right. split; [exact Hc|]. left. lra.
    + right. split; [exact Hc|]. right. split; [lra|exact Hi].
  - intros [Hc|[Hc [Hf|[Hf Hi]]]]; [auto| |].
    + right. split; [exact Hc|]. left. lra.
    + right. split; [exact Hc|]. right. split; [lra|exact Hi].
Qed.

Lemma title_match_ltb_irrefl a : title_match_ltb a a = false.
Proof.
  destruct (title_match_ltb a a) eqn:E; [|reflexivity].
  apply title_match_ltb_spec in E. destruct E as [E|[_ [E|[_ E]]]]; [lia|lra|lia].
Qed.

Lemma title_match_ltb_trans a b c :
  title_match_ltb a b = true -> title_match_ltb b c = true -> title_match_ltb a c = true.
Proof.
  rewrite !title_match_ltb_spec.
  intros [H1|[H1 [F1|[F1 I1]]]] [H2|[H2 [F2|[F2 I2]]]];
    try (left; lia); right; (split; [lia|]).
  - left. lra.
  - left. lra.
  - left. lra.
  - right. split; [lra|lia].
Qed.

Lemma title_match_ltb_cost a b : title_match_ltb a b = false -> (fm_cost b <= fm_cost a)%nat.
Proof.
  intros Hf. destruct (Nat.le_gt_cases (fm_cost b) (fm_cost a)) as [Hle|Hgt]; [exact Hle|].
  assert (title_match_ltb a b = true) as Ht by (apply title_match_ltb_spec; left; lia).
  congruence.
Qed.

Lemma min_by_fold {A : Type} (ltb : A -> A -> bool) :
  (forall a, ltb a a = false) ->
  (forall a b c, ltb a b = true -> ltb b c = true -> ltb a c = true) ->
  forall (rest seen : list A) (best : A),
    (forall y, y ∈ seen -> ltb y best = false) -> ltb best best = false ->
    forall y, y ∈ seen ++ rest ->
      ltb y (fold_left (fun best x => if ltb x best then x else best) rest best) = false.
Proof.
  intros Hirr Htrans. induction rest as [|x rest IH]; intros seen best Hseen Hbest y Hy; simpl.
  - rewrite app_nil_r in Hy. auto.
  - apply (IH (seen ++ [x])).
    + intros z Hz. apply elem_of_app in Hz. destruct Hz as [Hz|Hz].
      * destruct (ltb x best) eqn:E; [|auto].
        destruct (ltb z x) eqn:E2; [|reflexivity].
        rewrite <- (Hseen z Hz). symmetry. eapply Htrans; eassumption.
      * apply list_elem_of_singleton in Hz. subst z.
        destruct (ltb x best) eqn:E; [apply Hirr|exact E].
    + destruct (ltb x best); apply Hirr.
    + rewrite <- app_assoc. exact Hy.
Qed.

Lemma min_by_minimal {A : Type} (ltb : A -> A -> bool) :
  (forall a, ltb a a = false) ->
  (forall a b c, ltb a b = true -> ltb b c = true -> ltb a c = true) ->
  forall first rest y, y ∈ first :: rest -> ltb y (min_by ltb first rest) = false.
Proof.
  intros Hirr Htrans first rest y Hy. unfold min_by.
  apply (min_by_fold ltb Hirr Htrans rest [first] first).
  - intros z Hz. apply list_elem_of_singleton in Hz. subst. apply Hirr.
  - apply Hirr.
  - exact Hy.
Qed.

Section WithGold.
Context `{Externals}.
Variable gold_title : str.
Variable gold_authors : list (str * str).

(** [t] is a title match of the page that no title match of the page
    precedes in the order of [title_match_sort_key]. *)
Definition chosen_on (np : nat * Page) (t : FuzzyMatch) : Prop :=
  t ∈ title_on gold_title np /\
  forall m, m ∈ title_on gold_title np -> title_match_ltb m t = false.

Lemma search_page_title tm0 ams0 np tm1 ams1 :
  search_page gold_title gold_authors (tm0, ams0) np = Ok (tm1, ams1) ->
  (title_on gold_title np = [] /\ tm1 = tm0) \/
  exists t, chosen_on np t /\
    ((tm0 = None /\ tm1 = Some t) \/
     exists b, tm0 = Some b /\
       (((fm_cost t < fm_cost b)%nat /\ tm1 = Some t) \/
        ((fm_cost b <= fm_cost t)%nat /\ tm1 = Some b))).
Proof.
  destruct np as [number page]. unfold search_page, chosen_on, title_on. cbn [fst snd].
  rewrite page_assertion. cbn [py_assert mbind res_bind].
  destruct (find_string_in_page number page gold_title) as [title_matches|e] eqn:Et;
    cbn [mbind res_bind]; [|discriminate].
  destruct (for_each (author_matches_on_page number page) gold_authors)
    as [found|e] eqn:Ea; cbn [mbind res_bind]; [|discriminate].
  intros [= <- <-].
  destruct title_matches as [|first rest]; [left; auto|].
  right. exists (min_by title_match_ltb first rest). split.
  - split; [apply LabelFacts.min_by_elem|].
    intros m Hm. apply min_by_minimal; [apply title_match_ltb_irrefl| |exact Hm].
    apply title_match_ltb_trans.
  - destruct tm0 as [b|]; [|left; auto].
    right. exists b. split; [reflexivity|].
    destruct (Nat.ltb_spec (fm_cost (min_by title_match_ltb first rest)) (fm_cost b));
      [left|right]; auto.
Qed.

Lemma fold_search_title numbered : forall tm0 ams0 tm ams,
  fold_res (search_page gold_title gold_authors) numbered (tm0, ams0) = Ok (tm, ams) ->
  match tm with
  | None => tm0 = None
  | Some t =>
      (tm0 = Some t /\
       forall np m, np ∈ numbered -> m ∈ title_on gold_title np ->
         (fm_cost t <= fm_cost m)%nat) \/
      exists l1 np l2,
        numbered = l1 ++ np :: l2 /\ chosen_on np t /\
        (forall b, tm0 = Some b -> (fm_cost t < fm_cost b)%nat) /\
        (forall np' m, np' ∈ l1 -> m ∈ title_on gold_title np' ->
           (fm_cost t < fm_cost m)%nat) /\
        (forall np' m, np' ∈ l2 -> m ∈ title_on gold_title np' ->
           (fm_cost t <= fm_cost m)%nat)
  end.
Proof.
  induction numbered as [|np rest IH]; intros tm0 ams0 tm ams; cbn [fold_res].
  - intros [= <- <-]. destruct tm0 as [t|]; [|reflexivity].
    left. split; [reflexivity|]. intros np m Hnp. inversion Hnp.
  - intros Hfold. apply bind_Ok in Hfold. destruct Hfold as ([tm1 ams1] & Hstep & Hfold).
    apply search_page_title in Hstep. apply IH in Hfold. clear IH.
    assert (Hpage : forall t, chosen_on np t ->
              forall m, m ∈ title_on gold_title np -> (fm_cost t <= fm_cost m)%nat).
    { intros t [_ Hmin] m Hm. apply title_match_ltb_cost, Hmin, Hm. }
    destruct tm as [t|].
    + destruct Hfold as [[-> Hrest]|(l1 & np2 & l2 & -> & Hch & Hb & Hl1 & Hl2)].
      * destruct Hstep as [[Hnil ->]|(tp & Hch & [[-> [= ->]]|(b & -> & [[Hlt [= ->]]|[Hle [= ->]]])])].
        -- left. split; [reflexivity|]. intros np' m Hnp' Hm.
           apply elem_of_cons in Hnp'. destruct Hnp' as [-> | Hin]; [|eauto].
           rewrite Hnil in Hm. inversion Hm.
        -- right. exists [], np, rest. split; [reflexivity|]. split; [exact Hch|].
           split; [discriminate|]. split; [|exact Hrest].
           intros np' m Hnp'. inversion Hnp'.
        -- right. exists [], np, rest. split; [reflexivity|]. split; [exact Hch|].
           split; [intros b' [= <-]; exact Hlt|]. split; [|exact Hrest].
           intros np' m Hnp'. inversion Hnp'.
        -- left. split; [reflexivity|]. intros np' m Hnp' Hm.
           apply elem_of_cons in Hnp'. destruct Hnp' as [-> | Hin]; [|eauto].
           specialize (Hpage tp Hch m Hm). lia.
      * right. exists (np :: l1), np2, l2. split; [reflexivity|]. split; [exact Hch|].
        destruct Hstep as [[Hnil ->]|(tp & Hchp & [[-> ->]|(b & -> & [[Hlt ->]|[Hle ->]])])].
        -- split; [exact Hb|]. split; [|exact Hl2].
           intros np' m Hnp' Hm.
           apply elem_of_cons in Hnp'. destruct Hnp' as [-> | Hin]; [|eauto].
           rewrite Hnil in Hm. inversion Hm.
        -- split; [discriminate|]. split; [|exact Hl2].
           intros np' m Hnp' Hm.
           apply elem_of_cons in Hnp'. destruct Hnp' as [-> | Hin]; [|eauto].
           specialize (Hb tp eq_refl). specialize (Hpage tp Hchp m Hm). lia.
        -- specialize (Hb tp eq_refl).
           split; [intros b' [= <-]; lia|]. split; [|exact Hl2].
           intros np' m Hnp' Hm.
           apply elem_of_cons in Hnp'. destruct Hnp' as [-> | Hin]; [|eauto].
           specialize (Hpage tp Hchp m Hm). lia.
        -- specialize (Hb b eq_refl).
           split; [intros b' [= <-]; lia|]. split; [|exact Hl2].
           intros np' m Hnp' Hm.
           apply elem_of_cons in Hnp'. destruct Hnp' as [-> | Hin]; [|eauto].
           specialize (Hpage tp Hchp m Hm). lia.
    + subst tm1.
      destruct Hstep as [[_ <-]|(tp & _ & [[_ Hd]|(b & _ & [[_ Hd]|[_ Hd]])])];
        [reflexivity|discriminate..].
Qed.

End WithGold.

(** X14: when the loop over the pages keeps a title match, it is a match
    of the title on its own page that no match of that page precedes in the
    order of cost, larger font and earlier token; no title match on any
    searched page costs less, and every title match on an earlier page costs
    strictly more: among equally cheap matches the earliest page wins. *)
Theorem title_match_is_cheapest_earliest `{Externals} (doc : Doc) (gold_title : str)
    (gold_authors : list (str * str)) (t : FuzzyMatch) (ams : list (list FuzzyMatch)) :
  fold_res (search_page gold_title gold_authors) (numbered_pages doc)
           (None, map (fun _ => []) gold_authors) = Ok (Some t, ams) ->
  exists page,
    searched_pages doc !! page_number t = Some page /\
    t ∈ title_on gold_title (page_number t, page) /\
    (forall m, m ∈ title_on gold_title (page_number t, page) ->
       title_match_ltb m t = false) /\
    forall n page' m,
      searched_pages doc !! n = Some page' -> m ∈ title_on gold_title (n, page') ->
      (fm_cost t <= fm_cost m)%nat /\
      ((n < page_number t)%nat -> (fm_cost t < fm_cost m)%nat).
Proof.
  intros Hfold. apply fold_search_title in Hfold.
  destruct Hfold as [[Hd _]|(l1 & [n0 page0] & l2 & Hsplit & [Hin Hmin] & _ & Hl1 & Hl2)];
    [discriminate|].
  assert (Hnum : forall i np, numbered_pages doc !! i = Some np ->
                   fst np = i /\ searched_pages doc !! i = Some (snd np)).
  { intros i np Hi. unfold numbered_pages in Hi. rewrite list_lookup_imap in Hi.
    destruct (searched_pages doc !! i) as [p|]; [|discriminate].
    injection Hi as <-. auto. }
  assert (Hn0 : n0 = length l1 /\ searched_pages doc !! length l1 = Some page0).
  { destruct (Hnum (length l1) (n0, page0)) as [E1 E2].
    - rewrite Hsplit. now rewrite list_lookup_middle.
    - simpl in *. auto. }
  destruct Hn0 as [-> Hpage0].
  assert (Ht : page_number t = length l1).
  { unfold title_on in Hin. cbn [fst snd] in Hin.
    destruct (find_string_in_page (length l1) page0 gold_title) as [matches|e] eqn:E;
      [|inversion Hin].
    pose proof (find_string_in_page_number _ _ _ _ E) as Hall.
    rewrite Forall_forall in Hall. auto. }
  rewrite Ht. exists page0. split; [exact Hpage0|]. split; [exact Hin|].
  split; [exact Hmin|].
  intros n page' m Hn Hm.
  assert (Hnp : numbered_pages doc !! n = Some (n, page')).
  { unfold numbered_pages. rewrite list_lookup_imap, Hn. reflexivity. }
  rewrite Hsplit in Hnp.
  destruct (Nat.lt_trichotomy n (length l1)) as [Hlt|[->|Hgt]].
  - rewrite lookup_app_l in Hnp by exact Hlt.
    apply list_elem_of_lookup_2 in Hnp. specialize (Hl1 _ _ Hnp Hm). lia.
  - rewrite Hpage0 in Hn. injection Hn as <-.
    split; [|lia]. apply title_match_ltb_cost, Hmin, Hm.
  - rewrite lookup_app_r in Hnp by lia.
    destruct (n - length l1)%nat as [|k] eqn:Ek; [lia|]. simpl in Hnp.
    apply list_elem_of_lookup_2 in Hnp. specialize (Hl2 _ _ Hnp Hm). lia.
Qed.

Lemma cost_author_match_ltb_spec a b :
  cost_author_match_ltb a b = true <->
  (fm_cost a < fm_cost b)%nat \/
  (fm_cost a = fm_cost b /\
   ((length (matched_string b) < length (matched_string a))%nat \/
    (length (matched_string a) = length (matched_string b) /\
     (average_font_size b < average_font_size a \/
      (average_font_size a == average_font_size b /\
       (first_token_index a < first_token_index b)%nat))))).
Proof.
  unfold cost_author_match_ltb.
  rewrite orb_true_iff, andb_true_iff, orb_true_iff, andb_true_iff, orb_true_iff,
    andb_true_iff.
  rewrite !Nat.ltb_lt, !Nat.eqb_eq, Qlt_bool_iff, Qeq_bool_iff.
  split.
  - intros [Hc|[Hc [Hl|[Hl [Hf|[Hf Hi]]]]]]; [auto|auto| |].
    + right. split; [exact Hc|]. right. split; [exact Hl|]. left. lra.
    + right. split; [exact Hc|]. right. split; [exact Hl|]. right. split; [lra|exact Hi].
  - intros [Hc|[Hc [Hl|[Hl [Hf|[Hf Hi]]]]]]; [auto|auto| |].
    + right. split; [exact Hc|]. right. split; [exact Hl|]. left. lra.
    + right. split; [exact Hc|]. right. split; [exact Hl|]. right. split; [lra|exact Hi].
Qed.

Lemma cost_author_match_ltb_irrefl a : cost_author_match_ltb a a = false.
Proof.
  destruct (cost_author_match_ltb a a) eqn:E; [|reflexivity].
  apply cost_author_match_ltb_spec in E.
  destruct E as [E|[_ [E|[_ [E|[_ E]]]]]]; [lia|lia|lra|lia].
Qed.

Lemma cost_author_match_ltb_trans a b c :
  cost_author_match_ltb a b = true -> cost_author_match_ltb b c = true ->
  cost_author_match_ltb a c = true.
Proof.
  rewrite !cost_author_match_ltb_spec.
  intros [H1|[H1 [L1|[L1 [F1|[F1 I1]]]]]] [H2|[H2 [L2|[L2 [F2|[F2 I2]]]]]];
    try (left; lia); right; (split; [lia|]);
    try (left; lia); right; (split; [lia|]).
  - left. lra.
  - left. lra.
  - left. lra.
  - right. split; [lra|lia].
Qed.

Lemma foldr_min_le (x : nat) (rest : list nat) :
  forall y, y ∈ x :: rest -> (foldr Nat.min x rest <= y)%nat.
Proof.
  induction rest as [|z rest IH]; simpl; intros y Hy.
  - apply list_elem_of_singleton in Hy. lia.
  - apply elem_of_cons in Hy. destruct Hy as [-> | Hy].
    + specialize (IH x ltac:(left)). lia.
    + apply elem_of_cons in Hy. destruct Hy as [-> | Hy]; [lia|].
      specialize (IH y ltac:(right; exact Hy)). lia.
Qed.

Lemma set_min_le (pages : gset nat) n :
  set_min pages = Some n -> forall n', n' ∈ pages -> (n <= n')%nat.
Proof.
  unfold set_min. destruct (elements pages) as [|x rest] eqn:E; [discriminate|].
  intros [= <-] n' Hn'. apply foldr_min_le.
  rewrite <- E. now apply elem_of_elements.
Qed.

(** X15: the author labels go to the lowest-numbered page on which every
    author has a match; the match kept for an author is one of its matches on
    that page, and none of the author's matches on that page precedes it in
    the order of cost, longer matched string, larger font and earlier
    token. *)
Theorem author_matches_on_lowest_common_page
    (author_matches : list (list FuzzyMatch)) (pages : gset nat) (n : nat)
    (best : list FuzzyMatch) :
  page_numbers_with_author_matches author_matches = Ok pages ->
  set_min pages = Some n ->
  for_each
    (fun matches =>
       match matches with
       | [] => Raise ValueError
       | first :: rest => Ok (min_by cost_author_match_ltb first rest)
       end)
    (map (List.filter (fun m => (page_number m =? n)%nat)) author_matches) = Ok best ->
  Forall (fun matches => n ∈ pages_of matches) author_matches /\
  (forall n', Forall (fun matches => n' ∈ pages_of matches) author_matches -> (n <= n')%nat) /\
  Forall2 (fun matches b =>
             b ∈ matches /\ page_number b = n /\
             forall m, m ∈ matches -> page_number m = n ->
               cost_author_match_ltb m b = false)
          author_matches best.
Proof.
  intros Hpages Hmin Hbest.
  pose proof (page_numbers_with_author_matches_spec _ _ Hpages) as Hspec.
  split; [apply Hspec, set_min_Some, Hmin|]. split.
  - intros n' Hn'. apply (set_min_le _ _ Hmin), Hspec, Hn'.
  - clear Hpages Hspec Hmin pages. revert best Hbest.
    induction author_matches as [|matches rest IH]; simpl; intros best.
    + intros [= <-]. constructor.
    + intros Hys. apply bind_Ok in Hys. destruct Hys as (y & Hy & Hys).
      apply bind_Ok in Hys. destruct Hys as (ys' & Hys' & [= <-]).
      constructor; [|apply IH, Hys'].
      destruct (List.filter _ matches) as [|first others] eqn:Ef; [discriminate|].
      injection Hy as <-.
      pose proof (LabelFacts.min_by_elem cost_author_match_ltb others first) as Hin.
      rewrite <- Ef in Hin. apply list_elem_of_In, filter_In in Hin.
      destruct Hin as [Hin Hn]. apply Nat.eqb_eq in Hn.
      split; [now apply list_elem_of_In|]. split; [exact Hn|].
      intros m Hm Hmn.
      apply min_by_minimal;
        [apply cost_author_match_ltb_irrefl|apply cost_author_match_ltb_trans|].
      rewrite <- Ef. apply list_elem_of_In, filter_In.
      split; [now apply list_elem_of_In|now apply Nat.eqb_eq].
Qed.

(** A match of an author: its page, first token, cost, matched string and
    font size. *)
Definition author_match (page first cost : nat) (matched : string) (font_size : Q)
    : FuzzyMatch :=
  {| page_number := page; first_token_index := first;
     one_past_last_token_index := first + 2; fm_cost := cost;
     matched_string := ascii_str matched; average_font_size := font_size |}.

(** The matches of two authors on three pages: the first author is found on
    the pages 0, 1 and 2, with three matches on page 1; the second author on
    the pages 1 and 2 only, at no cost on page 2 and twice at the cost 1 on
    page 1. *)
Definition example_author_matches : list (list FuzzyMatch) :=
  [ [ author_match 0 2 0 "john smith" 8;
      author_match 1 0 1 "jon smith" 8;
      author_match 1 5 0 "j smith" 8;
      author_match 1 9 0 "john smith" 8;
      author_match 2 3 0 "john smith" 8 ];
    [ author_match 1 12 1 "ann le" 10;
      author_match 2 7 0 "ann lee" 10;
      author_match 1 20 1 "ann le" 12 ] ].

(** X15, witness: the labels go to page 1, the lowest page with both
    authors, although the first author is on page 0 and the second costs
    less on page 2; on page 1 the first author keeps the longer of its two
    matches at no cost, the second the one in the larger font. *)
Lemma author_matches_on_lowest_common_page_witness :
  exists pages,
    page_numbers_with_author_matches example_author_matches = Ok pages /\
    set_min pages = Some 1%nat /\
    Forall (fun matches => 1%nat ∈ pages_of matches) example_author_matches /\
    (forall n', Forall (fun matches => n' ∈ pages_of matches) example_author_matches ->
                (1 <= n')%nat) /\
    Forall2 (fun matches b =>
               b ∈ matches /\ page_number b = 1%nat /\
               forall m, m ∈ matches -> page_number m = 1%nat ->
                 cost_author_match_ltb m b = false)
            example_author_matches
            [author_match 1 9 0 "john smith" 8; author_match 1 20 1 "ann le" 12].
Proof.
  destruct (page_numbers_with_author_matches example_author_matches) as [pages|e] eqn:E;
    [|discriminate E].
  assert (Hmin : set_min pages = Some 1%nat)
    by (injection E as <-; vm_compute; reflexivity).
  exists pages. split; [reflexivity|]. split; [exact Hmin|].
  apply (author_matches_on_lowest_common_page example_author_matches pages 1
           [author_match 1 9 0 "john smith" 8; author_match 1 20 1 "ann le" 12]
           E Hmin).
  vm_compute. reflexivity.
Defined.

End MatchChoiceFacts.

(** ** Properties of the unlabeled artifact and of the hashed features *)

Module UnlabeledFacts.
Import Labeler Builders.

Lemma split_slash_nonempty rest : forall current, split_slash current rest <> [].
Proof.
  induction rest as [|c rest IH]; intros current; simpl; [discriminate|].
  destruct (c =? 47)%N; [discriminate|apply IH].
Qed.

(** Joining the pieces of a split path with slashes gives the path back. *)
Lemma join_split_slash rest : forall current,
  join [47%N] (split_slash current rest) = current ++ rest.
Proof.
  induction rest as [|c rest IH]; intros current; simpl.
  - now rewrite app_nil_r.
  - destruct (N.eqb_spec c 47) as [->|Hne].
    + pose proof (split_slash_nonempty rest []) as Hne.
      specialize (IH []). destruct (split_slash [] rest) as [|x xs]; [congruence|].
      simpl in *. now rewrite IH.
    + rewrite IH, <- app_assoc. reflexivity.
Qed.

Lemma join_app (pre suf : list str) :
  pre <> [] -> suf <> [] ->
  join [47%N] (pre ++ suf) = join [47%N] pre ++ [47%N] ++ join [47%N] suf.
Proof.
  intros Hpre Hsuf. induction pre as [|x pre IH]; [congruence|].
  destruct pre as [|y pre].
  - simpl. destruct suf; [congruence|reflexivity].
  - specialize (IH ltac:(discriminate)).
    change (join [47%N] ((x :: y :: pre) ++ suf))
      with (x ++ [47%N] ++ join [47%N] ((y :: pre) ++ suf)).
    rewrite IH. change (join [47%N] (x :: y :: pre)) with (x ++ [47%N] ++ join [47%N] (y :: pre)).
    now rewrite <- !app_assoc.
Qed.

Lemma from_sha_Some doc_id suffix :
  from_sha doc_id = Some suffix ->
  exists before sha rest,
    doc_id = before ++ suffix /\ suffix = sha :: rest /\ is_sha1 sha = true /\
    Forall (fun element => is_sha1 element = false) before.
Proof.
  induction doc_id as [|element others IH]; simpl; [discriminate|].
  destruct (is_sha1 element) eqn:E.
  - intros [= <-]. exists [], element, others. repeat split; [exact E|constructor].
  - intros Hs. destruct (IH Hs) as (before & sha & rest & -> & -> & Hsha & Hbefore).
    exists (element :: before), sha, rest. repeat split; [exact Hsha|].
    constructor; assumption.
Qed.

Lemma from_sha_None doc_id :
  from_sha doc_id = None -> Forall (fun element => is_sha1 element = false) doc_id.
Proof.
  induction doc_id as [|element others IH]; simpl; [constructor|].
  destruct (is_sha1 element) eqn:E; [discriminate|]. intros Hn. constructor; auto.
Qed.

Lemma sanitize_string_no_nul text : 0%N ∉ sanitize_string text.
Proof.
  unfold sanitize_string. intros Hin. apply list_elem_of_fmap in Hin.
  destruct Hin as (c & Hc & _). destruct (N.eqb_spec c 0); [discriminate|congruence].
Qed.

(** X16: the loop of [unlabeled_tokens_file] over a document raises
    exactly when no element of the slash-separated [docId] matches the sha
    pattern, and then with [AssertionError].  Otherwise the document's sha is
    such an element, its id starts with the sha and is the end of the
    [docId]; it keeps the first [MAX_PAGE_COUNT] pages, and no token text or
    font name of it holds a NUL character. *)
Theorem unlabeled_doc_starts_at_sha (json_doc : JsonDoc) :
  match unlabeled_doc json_doc with
  | Ok doc =>
      is_sha1 (doc_sha doc) = true /\
      (exists rest, doc_id doc = doc_sha doc ++ rest) /\
      (exists before, docId json_doc = before ++ doc_id doc) /\
      length (doc_pages doc) = Nat.min MAX_PAGE_COUNT (length (json_pages json_doc)) /\
      Forall (fun page =>
                Forall (fun token => (0%N ∉ tok_text token) /\ (0%N ∉ tok_font token))
                       (page_tokens page))
             (doc_pages doc)
  | Raise e =>
      e = AssertionError /\
      Forall (fun element => is_sha1 element = false) (split_slash [] (docId json_doc))
  end.
Proof.
  unfold unlabeled_doc.
  pose proof (join_split_slash (docId json_doc) []) as Hjoin. simpl in Hjoin.
  pose proof (split_slash_nonempty (docId json_doc) []) as Hne.
  set (elements := split_slash [] (docId json_doc)) in *.
  destruct (from_sha elements) as [suffix|] eqn:Es; simpl default.
  - destruct (from_sha_Some _ _ Es) as (before & sha & rest & Hel & -> & Hsha & Hbefore).
    cbn [head or_raise mbind res_bind]. rewrite Hsha. cbn [py_assert mbind res_bind].
    cbn [doc_sha doc_id doc_pages].
    split; [exact Hsha|]. split; [|split; [|split]].
    + destruct rest as [|r rest]; simpl; [exists []; now rewrite app_nil_r|eauto].
    + rewrite <- Hjoin, Hel. destruct before as [|b before].
      * exists []. reflexivity.
      * rewrite join_app by discriminate. eexists. now rewrite app_assoc.
    + rewrite length_map, length_take. lia.
    + apply Forall_fmap, Forall_forall. intros page _. simpl.
      apply Forall_fmap, Forall_forall. intros token _. simpl.
      split; apply sanitize_string_no_nul.
  - pose proof (from_sha_None _ Es) as Hnone.
    destruct elements as [|first others]; [congruence|].
    cbn [head or_raise mbind res_bind].
    inversion Hnone as [|? ? Hfirst _]; subst. rewrite Hfirst.
    cbn [py_assert mbind res_bind]. split; [reflexivity|exact Hnone].
Qed.

(** X17: [sanitize_string] returns a text of the same length without NUL
    characters: every NUL is replaced by U+FFFD, every other character stays
    in place, and a text without NUL is returned as it is. *)
Theorem sanitize_string_replaces_nul (text : str) :
  (0%N ∉ sanitize_string text) /\
  length (sanitize_string text) = length text /\
  (forall i c, text !! i = Some c -> c <> 0%N -> sanitize_string text !! i = Some c) /\
  (forall i, text !! i = Some 0%N -> sanitize_string text !! i = Some 65533%N) /\
  (0%N ∉ text -> sanitize_string text = text).
Proof.
  split; [apply sanitize_string_no_nul|]. unfold sanitize_string.
  split; [apply length_map|]. split; [|split].
  - intros i c Hi Hc. rewrite list_lookup_fmap, Hi. simpl.
    destruct (N.eqb_spec c 0); [contradiction|reflexivity].
  - intros i Hi. rewrite list_lookup_fmap, Hi. reflexivity.
  - intros Hnone. induction text as [|c text IH]; simpl; [reflexivity|].
    destruct (N.eqb_spec c 0) as [->|Hne]; [exfalso; apply Hnone; left|].
    f_equal. apply IH. intros Hin. apply Hnone. now right.
Qed.

Section WithExternals.
Context `{Externals}.

Lemma int32_small (x : Z) : (- 2 ^ 31 <= x < 2 ^ 31)%Z -> int32 x = x.
Proof.
  intros Hx. unfold int32. rewrite Z.mod_small by lia. lia.
Qed.

(** X18: a stored row of [token_hashed_text_features] never holds the mask
    value 0 as long as nothing leaves the range of [int32].  For a token
    whose index plus one is below 2^31 and a font hash size from 0 to
    2^31 - 1, the row is computed; its token feature is the index of the
    token plus one, at least 2, and its font feature lies between 1 and the
    font hash size (and is 1 when that size is 0 or 1). *)
Theorem hashed_text_features_avoid_mask (embeddings : CombinedEmbeddings.t) (p : Process)
    (model_settings : ModelSettings) (token : Token) (index : nat) :
  CombinedEmbeddings.index_for_token embeddings p (tok_text token) = Ok index ->
  (Z.of_nat index + 1 < 2 ^ 31)%Z ->
  (0 <= font_hash_size model_settings < 2 ^ 31)%Z ->
  exists t f,
    hashed_text_features embeddings p model_settings token = Ok (t, f) /\
    t = (Z.of_nat index + 1)%Z /\ (2 <= t < 2 ^ 31)%Z /\
    (1 <= f <= Z.max 1 (font_hash_size model_settings))%Z /\
    (f - 1
     = if (font_hash_size model_settings =? 0)%Z then 0
       else (mmh3_hash (normalize (tok_font token)) mod 2 ^ 32)
            mod font_hash_size model_settings)%Z.
Proof.
  intros Hindex Hsmall Hsize.
  assert (Hnz : index <> 0%nat).
  { unfold CombinedEmbeddings.index_for_token in Hindex.
    apply bind_Ok in Hindex. destruct Hindex as (st & _ & Hindex).
    apply bind_Ok in Hindex. destruct Hindex as (u & Ha & [= Hr]).
    apply py_assert_Ok in Ha. rewrite Hr in Ha.
    intros ->. discriminate. }
  unfold hashed_text_features. rewrite Hindex. cbn [mbind res_bind fst snd].
  set (font := if (font_hash_size model_settings =? 0)%Z then 0%Z
               else ((mmh3_hash (normalize (tok_font token)) mod 2 ^ 32)
                     mod font_hash_size model_settings)%Z).
  assert (Hfont : (0 <= font < Z.max 1 (font_hash_size model_settings))%Z).
  { unfold font. destruct (Z.eqb_spec (font_hash_size model_settings) 0) as [E|E]; [lia|].
    pose proof (Z.mod_pos_bound (mmh3_hash (normalize (tok_font token)) mod 2 ^ 32)
                  (font_hash_size model_settings)). lia. }
  eexists _, _. split; [reflexivity|].
  rewrite (Z.mod_small (Z.of_nat index)) by lia.
  rewrite (int32_small (Z.of_nat index)) by lia.
  rewrite (int32_small (Z.of_nat index + 1)) by lia.
  rewrite (int32_small font) by lia.
  rewrite (int32_small (font + 1)) by lia.
  unfold stored_uint32.
  destruct (Z.leb_spec 0 (Z.of_nat index + 1)); [|lia].
  destruct (Z.leb_spec 0 (font + 1)); [|lia].
  split; [reflexivity|]. split; [lia|]. split; [lia|]. lia.
Qed.

(** Beyond that range the mask value occurs: with a font hash size of 2^32
    or more, a font whose hash is -1 is stored as 0. *)
Lemma font_hash_beyond_int32_is_masked (embeddings : CombinedEmbeddings.t) (p : Process)
    (model_settings : ModelSettings) (token : Token) (t f : Z) :
  (2 ^ 32 <= font_hash_size model_settings)%Z ->
  mmh3_hash (normalize (tok_font token)) = (-1)%Z ->
  hashed_text_features embeddings p model_settings token = Ok (t, f) ->
  f = 0%Z.
Proof.
  intros Hsize Hhash Hrun. unfold hashed_text_features in Hrun.
  apply bind_Ok in Hrun. destruct Hrun as (index & _ & [= _ <-]).
  rewrite Hhash. cbn [fst snd].
  destruct (Z.eqb_spec (font_hash_size model_settings) 0) as [E|_]; [lia|].
  change (-1 mod 2 ^ 32)%Z with (2 ^ 32 - 1)%Z.
  rewrite (Z.mod_small (2 ^ 32 - 1)) by lia.
  reflexivity.
Qed.

End WithExternals.
End UnlabeledFacts.

(** ** The builders as a pipeline *)

Module PipelineFacts.
Import Labeler Builders BuilderFacts.

(** Neither the artifact nor the temporary file of the process is there. *)
Definition missing (pid : nat) (fs : FS) (final : Path) : Prop :=
  fs final = None /\ fs (TempPath final pid) = None.

(** The file system after a successful build. *)
Definition built (pid : nat) (final : Path) (artifact : File) (fs : FS) : FS :=
  fun p => if decide (p = TempPath final pid) then None
           else if decide (p = final) then Some artifact else fs p.

Lemma build_Ok pid final artifact fs :
  fs (TempPath final pid) = None ->
  exists fs', build (TempPath final pid) final (Ok artifact) fs = (Ok artifact, fs') /\
              forall p, fs' p = built pid final artifact fs p.
Proof.
  intros Htemp. unfold build. rewrite Htemp.
  pose proof (temp_path_neq final pid) as Hne.
  assert (Hfs : forall p,
            rename (TempPath final pid) final
              (write (TempPath final pid) artifact
                 (write (TempPath final pid) BeingWritten fs)) p
            = built pid final artifact fs p).
  { intros p. unfold rename, write, remove, built.
    destruct (decide (TempPath final pid = TempPath final pid)); [|congruence].
    repeat case_decide; congruence. }
  eexists. split; [|exact Hfs].
  f_equal. rewrite Hfs. unfold built.
  rewrite decide_False by congruence. now rewrite decide_True.
Qed.

Section WithExternals.
Context `{Externals}.

Lemma for_each_ext {A B : Type} (f g : A -> res B) (l : list A) :
  (forall x, x ∈ l -> f x = g x) -> for_each f l = for_each g l.
Proof.
  induction l as [|x rest IH]; intros Hfg; simpl; [reflexivity|].
  rewrite (Hfg x) by left. rewrite IH; [reflexivity|].
  intros y Hy. apply Hfg. now right.
Qed.

(** The labeler reads the reference files only. *)
Lemma labeled_body_reads_nxml (fs fs' : FS) bucket docs :
  (forall doc, fs' (NxmlPath bucket doc) = fs (NxmlPath bucket doc)) ->
  labeled_body fs' bucket docs = labeled_body fs bucket docs.
Proof.
  intros Hsame. unfold labeled_body.
  rewrite (for_each_ext _ (fun doc =>
             let file := match fs (NxmlPath bucket (doc_id doc)) with
                         | Some (NxmlDocument file) => file
                         | _ => NxmlNotFound
                         end in
             label_document doc file)); [reflexivity|].
  intros doc _. simpl. now rewrite Hsame.
Qed.

(** X19: on a bucket that holds none of the three artifacts and none of
    the temporary files of the process, when the three bodies return,
    [featurized_tokens_file] returns the featurized artifact, linked to the
    labeled one, and leaves the three artifacts at their final paths with the
    datasets the bodies returned; no temporary file is left, the inputs are
    untouched, and a later call by any process returns the same artifact
    from the cache without changing the file system. *)
Theorem warm_bucket_builds_all_artifacts
    (token_stats : TokenStatistics.StatsFile) (embeddings : CombinedEmbeddings.t)
    (p : Process) (pid : nat) (bucket : str) (model_settings : ModelSettings) (fs : FS)
    (docs : list Doc) (entries : list LabeledDoc) (lines : list VisionOutput.Line)
    (features : Featurized) :
  missing pid fs (UnlabeledTokensPath bucket) ->
  missing pid fs (LabeledTokensPath bucket) ->
  missing pid fs (FeaturizedTokensPath bucket (featurizing_key model_settings)) ->
  fs (VisionOutputPath bucket) = Some (VisionOutputJson lines) ->
  unlabeled_body fs bucket = Ok docs ->
  labeled_body fs bucket docs = Ok entries ->
  featurized_body token_stats embeddings p model_settings
    (fold_left VisionOutput.add_line lines ∅) entries = Ok features ->
  exists fs',
    featurized_tokens_file token_stats embeddings p pid bucket model_settings fs
    = (Ok (FeaturizedTokens (LabeledTokensPath bucket) features), fs') /\
    fs' (UnlabeledTokensPath bucket) = Some (UnlabeledTokens docs) /\
    fs' (LabeledTokensPath bucket) = Some (LabeledTokens entries) /\
    fs' (FeaturizedTokensPath bucket (featurizing_key model_settings))
    = Some (FeaturizedTokens (LabeledTokensPath bucket) features) /\
    (forall final, fs' (TempPath final pid) = fs (TempPath final pid) \/
                   fs' (TempPath final pid) = None) /\
    (forall path, fs' (RawTokensPath path) = fs (RawTokensPath path)) /\
    (forall path doc, fs' (NxmlPath path doc) = fs (NxmlPath path doc)) /\
    (forall path, fs' (VisionOutputPath path) = fs (VisionOutputPath path)) /\
    forall pid',
      featurized_tokens_file token_stats embeddings p pid' bucket model_settings fs'
      = (Ok (FeaturizedTokens (LabeledTokensPath bucket) features), fs').
Proof.
  intros [HU HUt] [HL HLt] [HF HFt] Hvision Hdocs Hentries Hfeatures.
  remember (UnlabeledTokensPath bucket) as U eqn:EU.
  remember (LabeledTokensPath bucket) as L eqn:EL.
  remember (FeaturizedTokensPath bucket (featurizing_key model_settings)) as F eqn:EF.
  destruct (build_Ok pid U (UnlabeledTokens docs) fs HUt) as (fs1 & Hb1 & Hfs1).
  assert (HLt1 : fs1 (TempPath L pid) = None).
  { rewrite Hfs1. unfold built. repeat case_decide; congruence. }
  destruct (build_Ok pid L (LabeledTokens entries) fs1 HLt1) as (fs2 & Hb2 & Hfs2).
  assert (HFt2 : fs2 (TempPath F pid) = None).
  { rewrite Hfs2. unfold built. rewrite Hfs1. unfold built.
    repeat case_decide; congruence. }
  destruct (build_Ok pid F (FeaturizedTokens L features) fs2 HFt2) as (fs3 & Hb3 & Hfs3).
  assert (Hrun_u : unlabeled_tokens_file pid bucket fs = (Ok (UnlabeledTokens docs), fs1)).
  { unfold unlabeled_tokens_file, unlabeled_tokens_file_with. rewrite <- EU, HU, Hdocs.
    exact Hb1. }
  assert (Hrun_l : labeled_tokens_file pid bucket fs = (Ok (LabeledTokens entries), fs2)).
  { unfold labeled_tokens_file, labeled_tokens_file_with. rewrite <- EL, HL.
    fold (unlabeled_tokens_file pid bucket fs). rewrite Hrun_u.
    rewrite (labeled_body_reads_nxml fs fs1), Hentries; [exact Hb2|].
    intros doc. rewrite Hfs1. unfold built. repeat case_decide; congruence. }
  assert (Hall : forall q, fs3 q
            = if decide (q = TempPath F pid) then None
              else if decide (q = F) then Some (FeaturizedTokens L features)
              else if decide (q = TempPath L pid) then None
              else if decide (q = L) then Some (LabeledTokens entries)
              else if decide (q = TempPath U pid) then None
              else if decide (q = U) then Some (UnlabeledTokens docs)
              else fs q).
  { intros q. rewrite Hfs3. unfold built at 1. rewrite Hfs2. unfold built at 1.
    rewrite Hfs1. unfold built. reflexivity. }
  assert (Hrun_f : featurized_tokens_file token_stats embeddings p pid bucket model_settings fs
                   = (Ok (FeaturizedTokens L features), fs3)).
  { unfold featurized_tokens_file, featurized_tokens_file_with. rewrite <- EF, HF, Hvision.
    cbn [VisionOutput.init].
    fold (labeled_tokens_file pid bucket fs). rewrite Hrun_l.
    rewrite <- EL, Hfeatures. exact Hb3. }
  exists fs3. split; [exact Hrun_f|].
  split; [|split; [|split; [|split; [|split; [|split; [|split]]]]]].
  - rewrite Hall. repeat case_decide; congruence.
  - rewrite Hall. repeat case_decide; congruence.
  - rewrite Hall. repeat case_decide; congruence.
  - intros final. rewrite Hall.
    repeat case_decide; try (right; reflexivity); try (left; reflexivity); exfalso; congruence.
  - intros path. rewrite Hall. repeat case_decide; congruence.
  - intros path doc. rewrite Hall. repeat case_decide; congruence.
  - intros path. rewrite Hall. repeat case_decide; congruence.
  - intros pid'. unfold featurized_tokens_file, featurized_tokens_file_with. rewrite <- EF.
    assert (fs3 F = Some (FeaturizedTokens L features)) as ->; [|reflexivity].
    rewrite Hall. repeat case_decide; congruence.
Qed.

Lemma omap_sublist {A B : Type} (f : A -> option B) (g : B -> A) (l : list A) :
  (forall x y, f x = Some y -> g y = x) ->
  map g (omap (M := list) f l) `sublist_of` l.
Proof.
  intros Hfg. unfold omap. induction l as [|x l IH]; simpl; [constructor|].
  destruct (f x) as [y|] eqn:E; simpl.
  - rewrite (Hfg x y E). now constructor.
  - now constructor.
Qed.

(** X20: the labeled artifact holds entries for a subsequence of the
    documents of the unlabeled artifact, in their order: each entry was
    written for its document and has its id, its sha and its first
    [MAX_PAGE_COUNT] pages. *)
Theorem labeled_entries_follow_documents (fs : FS) (bucket : str) (docs : list Doc)
    (entries : list LabeledDoc) :
  labeled_body fs bucket docs = Ok entries ->
  exists kept,
    kept `sublist_of` docs /\
    Forall2 (fun doc entry =>
               lab_doc_id entry = doc_id doc /\
               lab_doc_sha entry = doc_sha doc /\
               lab_pages entry = take MAX_PAGE_COUNT (doc_pages doc) /\
               exists file, label_document doc file = Ok (Written entry))
            kept entries.
Proof.
  unfold labeled_body. intros Hrun.
  apply bind_Ok in Hrun. destruct Hrun as (labelings & Hlab & [= <-]).
  apply LabelFacts.for_each_Forall2 in Hlab.
  induction Hlab as [|doc labeling docs labelings Hdoc _ IH].
  - exists []. split; constructor.
  - destruct IH as (kept & Hsub & Hall).
    unfold omap in *. simpl. destruct labeling as [why|entry].
    + exists kept. split; [now constructor|exact Hall].
    + exists (doc :: kept). split; [now constructor|].
      constructor; [|exact Hall].
      destruct (LabelFacts.label_document_written_parts _ _ _ Hdoc) as (H1 & H2 & H3 & _).
      split; [exact H1|]. split; [exact H2|]. split; [exact H3|]. eauto.
Qed.

End WithExternals.
End PipelineFacts.

(** ** The flat layout of the unlabeled and of the labeled artifact *)

Module TokenArrays.
Import Labeler Builders.

(** A row of [token_text_features]: token, font name. *)
Definition TextRow : Type := str * str.

(** A row of [token_numeric_features]: left, right, top, bottom, font size,
    font space width. *)
Definition NumericRow : Type := Q * Q * Q * Q * Q * Q.

(** A page of an entry of [doc_metadata]. *)
Record PageMeta : Type := {
  dimensions : Q * Q;
  first_token_index : nat;
  token_count : nat
}.

(** An entry of [doc_metadata]. *)
Record DocMeta : Type := {
  meta_doc_id : str;
  meta_doc_sha : str;
  meta_pages : list PageMeta
}.

(** The three datasets of the file. *)
Record Datasets : Type := {
  doc_metadata : list DocMeta;
  token_text_features : list TextRow;
  token_numeric_features : list NumericRow
}.

(** The file as it is created: three empty datasets. *)
Definition created : Datasets :=
  {| doc_metadata := []; token_text_features := []; token_numeric_features := [] |}.

(** [dataset.resize(n, axis=0)]: rows are cut, or added with the fill value. *)
Definition resize {A : Type} (fill : A) (n : nat) (rows : list A) : list A :=
  take n rows ++ replicate (n - length rows) fill.

(** [dataset[first:first+len(values)] = values] on a dataset that holds the
    range. *)
Definition assign {A : Type} (first : nat) (values rows : list A) : list A :=
  take first rows ++ values ++ drop (first + length values) rows.

Definition text_row (json_token : Token) : TextRow :=
  (sanitize_string (tok_text json_token), sanitize_string (tok_font json_token)).

Definition numeric_row (json_token : Token) : NumericRow :=
  (tok_left json_token, tok_right json_token, tok_top json_token, tok_bottom json_token,
   tok_font_size json_token, tok_font_space_width json_token).

(** The body of the loop over the pages of a document. *)
Definition write_page (st : list TextRow * list NumericRow) (json_page : Page)
    : (list TextRow * list NumericRow) * PageMeta :=
  let '(h5_token_text_features, h5_token_numeric_features) := st in
  let json_tokens := page_tokens json_page in
  let first_token_index := length h5_token_text_features in
  let h5_token_text_features :=
    resize ([], []) (first_token_index + length json_tokens) h5_token_text_features in
  let h5_token_text_features :=
    assign first_token_index (map text_row json_tokens) h5_token_text_features in
  let h5_token_numeric_features :=
    resize (0, 0, 0, 0, 0, 0) (first_token_index + length json_tokens)
           h5_token_numeric_features in
  let h5_token_numeric_features :=
    assign first_token_index (map numeric_row json_tokens) h5_token_numeric_features in
  ((h5_token_text_features, h5_token_numeric_features),
   {| dimensions := (page_width json_page, page_height json_page);
      first_token_index := first_token_index;
      token_count := length json_tokens |}).

Fixpoint write_pages (st : list TextRow * list NumericRow) (json_pages : list Page)
    : (list TextRow * list NumericRow) * list PageMeta :=
  match json_pages with
  | [] => (st, [])
  | json_page :: rest =>
      let '(st, page_in_h5) := write_page st json_page in
      let '(st, pages_in_h5) := write_pages st rest in
      (st, page_in_h5 :: pages_in_h5)
  end.

(** The body of the loop over the documents of the dump; the metadata
    dataset cannot grow beyond [MAX_DOCS_PER_BUCKET] entries. *)
Definition write_doc (file : Datasets) (json_doc : JsonDoc) : res Datasets :=
  let doc_id := split_slash [] (docId json_doc) in
  let doc_id := default doc_id (from_sha doc_id) in
  doc_sha ← or_raise IndexError (head doc_id);
  _ ← py_assert (is_sha1 doc_sha);
  let doc_id := join [47%N] doc_id in
  let effective_page_count := Nat.min MAX_PAGE_COUNT (length (json_pages json_doc)) in
  let '((text, numeric), pages_in_h5) :=
    write_pages (token_text_features file, token_numeric_features file)
                (take effective_page_count (json_pages json_doc)) in
  let doc_index := length (doc_metadata file) in
  if (MAX_DOCS_PER_BUCKET <? doc_index + 1)%nat then Raise ValueError
  else
    Ok {| doc_metadata :=
            doc_metadata file
            ++ [{| meta_doc_id := doc_id; meta_doc_sha := doc_sha;
                   meta_pages := pages_in_h5 |}];
          token_text_features := text;
          token_numeric_features := numeric |}.

(** The datasets [unlabeled_tokens_file] fills from the dump of a bucket; a
    dump that cannot be read gives no document. *)
Definition unlabeled_datasets (fs : FS) (bucket_path : str) : res Datasets :=
  let json_docs :=
    match fs (RawTokensPath bucket_path) with
    | Some (RawTokens docs) => docs
    | _ => []
    end in
  fold_res write_doc json_docs created.

(** The token of a text row and a numeric row. *)
Definition token_of_rows (text : TextRow) (numeric : NumericRow) : Token :=
  let '(left', right', top, bottom, font_size, font_space_width) := numeric in
  {| tok_text := fst text; tok_font := snd text;
     tok_left := left'; tok_right := right'; tok_top := top; tok_bottom := bottom;
     tok_font_size := font_size; tok_font_space_width := font_space_width |}.

(** The rows [first:one_past] of the two datasets, as tokens. *)
Definition read_tokens (file : Datasets) (first one_past : nat) : list Token :=
  zip_with token_of_rows
    (slice (token_text_features file) first one_past)
    (slice (token_numeric_features file) first one_past).

(** A page as the later stages read it: the rows
    [first_token_index:first_token_index+token_count]. *)
Definition read_page (file : Datasets) (json_page : PageMeta) : Page :=
  let first_token_index := first_token_index json_page in
  let one_past_last_token_index := (first_token_index + token_count json_page)%nat in
  {| page_width := fst (dimensions json_page);
     page_height := snd (dimensions json_page);
     page_tokens := read_tokens file first_token_index one_past_last_token_index |}.

Definition read_doc (file : Datasets) (json_metadata : DocMeta) : Doc :=
  {| doc_id := meta_doc_id json_metadata;
     doc_sha := meta_doc_sha json_metadata;
     doc_pages := map (read_page file) (meta_pages json_metadata) |}.

(** The rows of a document, as the feature stage takes them: from the first
    row of its first page, as many rows as its pages count together. *)
Definition read_doc_tokens (file : Datasets) (json_metadata : DocMeta) : res (list Token) :=
  first_page ← or_raise IndexError (head (meta_pages json_metadata));
  let doc_first_token_index := first_token_index first_page in
  let doc_token_count := sum_list (map token_count (meta_pages json_metadata)) in
  Ok (read_tokens file doc_first_token_index (doc_first_token_index + doc_token_count)).

(** *** The labeled artifact *)

(** An entry of [doc_metadata] of the labeled file: the id, the sha and the
    pages, and the reference title and authors. *)
Record LabDocMeta : Type := {
  lab_meta : DocMeta;
  meta_gold_title : str;
  meta_gold_authors : list (str * str)
}.

(** The four datasets of the labeled file. *)
Record LabeledDatasets : Type := {
  lab_doc_metadata : list LabDocMeta;
  lab_token_text_features : list TextRow;
  lab_token_numeric_features : list NumericRow;
  lab_token_labels : list nat
}.

Definition labeled_created : LabeledDatasets :=
  {| lab_doc_metadata := []; lab_token_text_features := [];
     lab_token_numeric_features := []; lab_token_labels := [] |}.

(** [dataset.resize(n, axis=0)] on a dataset created with a [maxshape]. *)
Definition resize_within {A : Type} (maxshape : nat) (fill : A) (n : nat) (rows : list A)
    : res (list A) :=
  if (maxshape <? n)%nat then Raise ValueError else Ok (resize fill n rows).

(** [dataset[first:first+count] = values] for as many values as rows
    selected.  Other shapes do not arise on rows read from a file that
    [unlabeled_tokens_file] wrote; the model stops with an error there. *)
Definition assign_rows {A : Type} (first count : nat) (values rows : list A)
    : res (list A) :=
  if (length values =? count)%nat then Ok (assign first values rows)
  else Raise (OtherError "TypeError").

(** The three token datasets of the labeled file while it is written. *)
Definition LabArrays : Type := list TextRow * list NumericRow * list nat.

(** The body of the loop that copies the pages of a document that is
    written, for a page and its labels. *)
Definition copy_page (unlabeled_tokens : Datasets) (st : LabArrays)
    (json_page : PageMeta) (labels : list nat) : res (LabArrays * PageMeta) :=
  let '(lab_token_text_features, lab_token_numeric_features, lab_token_labels) := st in
  let unlab_token_text_features := token_text_features unlabeled_tokens in
  let unlab_token_numeric_features := token_numeric_features unlabeled_tokens in
  let unlab_first_token_index := first_token_index json_page in
  let token_count := token_count json_page in
  let lab_doc_json_page :=
    {| dimensions := dimensions json_page;
       first_token_index := length lab_token_text_features;
       token_count := token_count |} in
  let lab_first_token_index := length lab_token_text_features in
  lab_token_text_features ←
    resize_within (length unlab_token_text_features) ([], [])
      (length lab_token_text_features + token_count) lab_token_text_features;
  lab_token_text_features ←
    assign_rows lab_first_token_index token_count
      (slice unlab_token_text_features unlab_first_token_index
             (unlab_first_token_index + token_count))
      lab_token_text_features;
  let lab_first_token_index := length lab_token_numeric_features in
  lab_token_numeric_features ←
    resize_within (length unlab_token_numeric_features) (0, 0, 0, 0, 0, 0)
      (length lab_token_numeric_features + token_count) lab_token_numeric_features;
  lab_token_numeric_features ←
    assign_rows lab_first_token_index token_count
      (slice unlab_token_numeric_features unlab_first_token_index
             (unlab_first_token_index + token_count))
      lab_token_numeric_features;
  _ ← py_assert (length lab_token_text_features =? length lab_token_numeric_features)%nat;
  let lab_first_token_index := length lab_token_labels in
  lab_token_labels ←
    resize_within (length unlab_token_text_features) 0%nat
      (length lab_token_labels + token_count) lab_token_labels;
  lab_token_labels ← assign_rows lab_first_token_index token_count labels lab_token_labels;
  _ ← py_assert (length lab_token_labels =? length lab_token_text_features)%nat;
  Ok ((lab_token_text_features, lab_token_numeric_features, lab_token_labels),
      lab_doc_json_page).

Fixpoint copy_pages (unlabeled_tokens : Datasets) (st : LabArrays)
    (pages : list (PageMeta * list nat)) : res (LabArrays * list PageMeta) :=
  match pages with
  | [] => Ok (st, [])
  | (json_page, labels) :: rest =>
      '(st, lab_doc_json_page) ← copy_page unlabeled_tokens st json_page labels;
      '(st, lab_doc_json_pages) ← copy_pages unlabeled_tokens st rest;
      Ok (st, lab_doc_json_page :: lab_doc_json_pages)
  end.

Section Labeled.
Context `{Externals}.

(** The body of the loop of [labeled_tokens_file] over the entries of the
    unlabeled file: [label_document] on the pages read from the file decides
    whether the document is written, and gives the labels of its pages; the
    pages of a document that is written are copied to the end of the
    datasets. *)
Definition label_entry (fs : FS) (bucket_path : str) (unlabeled_tokens : Datasets)
    (labeled_file : LabeledDatasets) (json_metadata : DocMeta) : res LabeledDatasets :=
  let doc := read_doc unlabeled_tokens json_metadata in
  let file :=
    match fs (NxmlPath bucket_path (doc_id doc)) with
    | Some (NxmlDocument file) => file
    | _ => NxmlNotFound
    end in
  labeling ← label_document doc file;
  match labeling with
  | Skipped _ => Ok labeled_file
  | Written entry =>
      let effective_page_count :=
        Nat.min MAX_PAGE_COUNT (length (meta_pages json_metadata)) in
      '(text, numeric, labels, lab_doc_json_pages) ←
        copy_pages unlabeled_tokens
          (lab_token_text_features labeled_file,
           lab_token_numeric_features labeled_file,
           lab_token_labels labeled_file)
          (zip (take effective_page_count (meta_pages json_metadata)) (lab_labels entry));
      let doc_index := length (lab_doc_metadata labeled_file) in
      if (length (doc_metadata unlabeled_tokens) <? doc_index + 1)%nat
      then Raise ValueError
      else
        Ok {| lab_doc_metadata :=
                lab_doc_metadata labeled_file
                ++ [{| lab_meta :=
                         {| meta_doc_id := lab_doc_id entry;
                            meta_doc_sha := lab_doc_sha entry;
                            meta_pages := lab_doc_json_pages |};
                       meta_gold_title := lab_gold_title entry;
                       meta_gold_authors := lab_gold_authors entry |}];
              lab_token_text_features := text;
              lab_token_numeric_features := numeric;
              lab_token_labels := labels |}
  end.

(** The datasets [labeled_tokens_file] fills from the unlabeled file. *)
Definition labeled_datasets (fs : FS) (bucket_path : str) (unlabeled_tokens : Datasets)
    : res LabeledDatasets :=
  fold_res (label_entry fs bucket_path unlabeled_tokens)
           (doc_metadata unlabeled_tokens) labeled_created.

End Labeled.

(** The token datasets of the labeled file. *)
Definition token_datasets (labeled_file : LabeledDatasets) : Datasets :=
  {| doc_metadata := map lab_meta (lab_doc_metadata labeled_file);
     token_text_features := lab_token_text_features labeled_file;
     token_numeric_features := lab_token_numeric_features labeled_file |}.

(** An entry of the labeled file as the later stages read it: the pages and
    the labels through [first_token_index] and [token_count]. *)
Definition read_entry (labeled_file : LabeledDatasets) (json_metadata : LabDocMeta)
    : LabeledDoc :=
  {| lab_doc_id := meta_doc_id (lab_meta json_metadata);
     lab_doc_sha := meta_doc_sha (lab_meta json_metadata);
     lab_gold_title := meta_gold_title json_metadata;
     lab_gold_authors := meta_gold_authors json_metadata;
     lab_pages :=
       map (read_page (token_datasets labeled_file)) (meta_pages (lab_meta json_metadata));
     lab_labels :=
       map (fun json_page =>
              slice (lab_token_labels labeled_file) (first_token_index json_page)
                    (first_token_index json_page + token_count json_page))
           (meta_pages (lab_meta json_metadata)) |}.

End TokenArrays.

Module TokenArraysFacts.
Import Labeler Builders TokenArrays.

Lemma resize_assign_append {A : Type} (fill : A) (values rows : list A) (count : nat) :
  length values = count ->
  assign (length rows) values (resize fill (length rows + count) rows)
  = rows ++ values.
Proof.
  intros <-. unfold assign, resize.
  rewrite (take_ge rows) by lia.
  rewrite take_app_length.
  rewrite drop_app_ge by lia.
  rewrite drop_ge by (rewrite length_replicate; lia).
  now rewrite app_nil_r.
Qed.

Lemma write_page_appends text numeric json_page :
  length text = length numeric ->
  write_page (text, numeric) json_page
  = ((text ++ map text_row (page_tokens json_page),
      numeric ++ map numeric_row (page_tokens json_page)),
     {| dimensions := (page_width json_page, page_height json_page);
        first_token_index := length text;
        token_count := length (page_tokens json_page) |}).
Proof.
  intros Hlen. unfold write_page.
  rewrite resize_assign_append by apply length_map.
  rewrite Hlen.
  rewrite resize_assign_append by apply length_map.
  reflexivity.
Qed.

Lemma token_of_rows_inverse json_token :
  token_of_rows (text_row json_token) (numeric_row json_token) = sanitize_token json_token.
Proof. reflexivity. Qed.

Lemma zip_rows json_tokens :
  zip_with token_of_rows (map text_row json_tokens) (map numeric_row json_tokens)
  = map sanitize_token json_tokens.
Proof.
  induction json_tokens as [|token rest IH]; [reflexivity|].
  cbn [map zip_with]. now rewrite token_of_rows_inverse, IH.
Qed.

Lemma slice_middle {A : Type} (before middle after : list A) n :
  n = length middle ->
  slice (before ++ middle ++ after) (length before) (length before + n) = middle.
Proof.
  intros ->. unfold slice. rewrite app_assoc, take_app_length'
    by (rewrite length_app; reflexivity).
  now rewrite drop_app_length.
Qed.

Lemma length_slice {A : Type} (l : list A) first count :
  (first + count <= length l)%nat -> length (slice l first (first + count)) = count.
Proof. intros Hle. unfold slice. rewrite length_drop, length_take. lia. Qed.

(** The pages lie one after the other from row [start] to row [stop]. *)
Fixpoint consecutive (start : nat) (pages : list PageMeta) (stop : nat) : Prop :=
  match pages with
  | [] => start = stop
  | json_page :: rest =>
      first_token_index json_page = start /\
      consecutive (start + token_count json_page) rest stop
  end.

Lemma consecutive_app start pages rest stop :
  consecutive start (pages ++ rest) stop <->
  consecutive start pages (start + sum_list (map token_count pages)) /\
  consecutive (start + sum_list (map token_count pages)) rest stop.
Proof.
  revert start. induction pages as [|page pages IH]; intros start; simpl.
  - rewrite Nat.add_0_r. tauto.
  - rewrite IH, Nat.add_assoc. tauto.
Qed.

Lemma consecutive_stop start pages stop :
  consecutive start pages stop -> (start + sum_list (map token_count pages))%nat = stop.
Proof.
  revert start. induction pages as [|page pages IH]; intros start; simpl.
  - lia.
  - intros [_ Hrest]. apply IH in Hrest. lia.
Qed.

Lemma consecutive_in_range start pages stop json_page :
  consecutive start pages stop -> json_page ∈ pages ->
  (first_token_index json_page + token_count json_page <= stop)%nat.
Proof.
  revert start. induction pages as [|page pages IH]; intros start Hc Hin.
  - inversion Hin.
  - destruct Hc as [Hfirst Hrest]. apply elem_of_cons in Hin as [->|Hin].
    + apply consecutive_stop in Hrest. lia.
    + eapply IH; eassumption.
Qed.

(** The tokens of some pages of the dump, page after page. *)
Definition rows_of (json_pages : list Page) : list Token :=
  concat (map page_tokens json_pages).

(** A page as [unlabeled_doc] keeps it. *)
Definition kept_page (json_page : Page) : Page :=
  {| page_width := page_width json_page;
     page_height := page_height json_page;
     page_tokens := map sanitize_token (page_tokens json_page) |}.

(** A file whose datasets go on, after [text] and [numeric], with the rows
    of [json_tokens]. *)
Definition holds (file : Datasets) (text : list TextRow) (numeric : list NumericRow)
    (json_tokens : list Token) : Prop :=
  exists more_text more_numeric,
    token_text_features file = text ++ map text_row json_tokens ++ more_text /\
    token_numeric_features file = numeric ++ map numeric_row json_tokens ++ more_numeric.

Lemma holds_read file text numeric json_tokens :
  length text = length numeric ->
  holds file text numeric json_tokens ->
  read_tokens file (length text) (length text + length json_tokens)
  = map sanitize_token json_tokens.
Proof.
  intros Hlen (more_text & more_numeric & Htext & Hnumeric).
  unfold read_tokens. rewrite Htext, Hnumeric.
  rewrite slice_middle by now rewrite length_map.
  rewrite Hlen, slice_middle by now rewrite length_map.
  apply zip_rows.
Qed.

Lemma holds_head file text numeric json_tokens rest :
  holds file text numeric (json_tokens ++ rest) ->
  holds file text numeric json_tokens.
Proof.
  intros (more_text & more_numeric & Htext & Hnumeric).
  exists (map text_row rest ++ more_text), (map numeric_row rest ++ more_numeric).
  rewrite Htext, Hnumeric, !map_app, <- !app_assoc. split; reflexivity.
Qed.

Lemma holds_tail file text numeric json_tokens rest :
  holds file text numeric (json_tokens ++ rest) ->
  holds file (text ++ map text_row json_tokens) (numeric ++ map numeric_row json_tokens) rest.
Proof.
  intros (more_text & more_numeric & Htext & Hnumeric).
  exists more_text, more_numeric.
  rewrite Htext, Hnumeric, !map_app, <- !app_assoc. split; reflexivity.
Qed.

Lemma write_pages_spec json_pages : forall text numeric,
  length text = length numeric ->
  exists metas,
    write_pages (text, numeric) json_pages
    = ((text ++ map text_row (rows_of json_pages),
        numeric ++ map numeric_row (rows_of json_pages)),
       metas) /\
    consecutive (length text) metas (length text + length (rows_of json_pages)) /\
    forall file,
      holds file text numeric (rows_of json_pages) ->
      map (read_page file) metas = map kept_page json_pages.
Proof.
  induction json_pages as [|page rest IH]; intros text numeric Hlen.
  - exists []. simpl. rewrite !app_nil_r. split; [reflexivity|].
    split; [lia|reflexivity].
  - cbn [write_pages]. rewrite write_page_appends by exact Hlen.
    destruct (IH (text ++ map text_row (page_tokens page))
                 (numeric ++ map numeric_row (page_tokens page)))
      as (metas & Hw & Hcons & Hread).
    { rewrite !length_app, !length_map. lia. }
    rewrite Hw. eexists. split.
    { unfold rows_of. cbn [map concat]. rewrite !map_app, <- !app_assoc. reflexivity. }
    split.
    + cbn [consecutive first_token_index token_count]. split; [reflexivity|].
      rewrite length_app, length_map in Hcons. unfold rows_of. cbn [map concat].
      rewrite length_app, Nat.add_assoc. exact Hcons.
    + intros file Hholds. unfold rows_of in Hholds. cbn [map concat] in Hholds.
      cbn [map]. f_equal.
      * unfold read_page, kept_page.
        cbn [dimensions first_token_index token_count fst snd].
        f_equal. apply (holds_read file text numeric); [exact Hlen|].
        eapply holds_head, Hholds.
      * apply Hread. apply holds_tail, Hholds.
Qed.

(** A file that goes on after the rows of another. *)
Definition extends (file' file : Datasets) : Prop :=
  exists more_text more_numeric,
    token_text_features file' = token_text_features file ++ more_text /\
    token_numeric_features file' = token_numeric_features file ++ more_numeric.

Lemma extends_refl file : extends file file.
Proof. exists [], []. now rewrite !app_nil_r. Qed.

Lemma extends_trans file1 file2 file3 :
  extends file1 file2 -> extends file2 file3 -> extends file1 file3.
Proof.
  intros (t1 & n1 & Ht1 & Hn1) (t2 & n2 & Ht2 & Hn2).
  exists (t2 ++ t1), (n2 ++ n1). rewrite Ht1, Hn1, Ht2, Hn2, <- !app_assoc.
  split; reflexivity.
Qed.

Lemma write_doc_spec file json_doc :
  length (token_text_features file) = length (token_numeric_features file) ->
  match unlabeled_doc json_doc with
  | Raise e => write_doc file json_doc = Raise e
  | Ok doc =>
      if (MAX_DOCS_PER_BUCKET <? length (doc_metadata file) + 1)%nat
      then write_doc file json_doc = Raise ValueError
      else exists file' json_metadata,
        write_doc file json_doc = Ok file' /\
        doc_metadata file' = doc_metadata file ++ [json_metadata] /\
        extends file' file /\
        length (token_text_features file') = length (token_numeric_features file') /\
        consecutive (length (token_text_features file)) (meta_pages json_metadata)
                    (length (token_text_features file')) /\
        forall file'', extends file'' file' -> read_doc file'' json_metadata = doc
  end.
Proof.
  intros Hlen. unfold unlabeled_doc, write_doc.
  destruct (head _) as [doc_sha|]; [|reflexivity]. cbn [or_raise mbind res_bind].
  destruct (is_sha1 doc_sha); [|reflexivity]. cbn [py_assert mbind res_bind].
  set (json_pages := take _ (json_pages json_doc)).
  destruct (write_pages_spec json_pages _ _ Hlen) as (metas & Hw & Hcons & Hread).
  rewrite Hw.
  destruct (_ <? _)%nat; [reflexivity|].
  eexists _, _. split; [reflexivity|]. cbn [doc_metadata token_text_features
    token_numeric_features meta_pages]. split; [reflexivity|]. split; [|split; [|split]].
  - eexists _, _. split; reflexivity.
  - rewrite !length_app, !length_map. lia.
  - rewrite length_app, length_map. exact Hcons.
  - intros file'' (more_text & more_numeric & Htext & Hnumeric).
    cbn [token_text_features token_numeric_features] in Htext, Hnumeric.
    assert (Hholds : holds file'' (token_text_features file)
                       (token_numeric_features file) (rows_of json_pages)).
    { exists more_text, more_numeric. rewrite Htext, Hnumeric, <- !app_assoc.
      split; reflexivity. }
    specialize (Hread _ Hholds).
    unfold read_doc. cbn [meta_doc_id meta_doc_sha meta_pages].
    f_equal. exact Hread.
Qed.

Lemma write_docs_from json_docs : forall file,
  length (token_text_features file) = length (token_numeric_features file) ->
  match fold_res write_doc json_docs file with
  | Ok file' =>
      exists metas docs,
        doc_metadata file' = doc_metadata file ++ metas /\
        for_each unlabeled_doc json_docs = Ok docs /\
        (length (doc_metadata file) <= MAX_DOCS_PER_BUCKET ->
         length (doc_metadata file') <= MAX_DOCS_PER_BUCKET)%nat /\
        extends file' file /\
        length (token_text_features file') = length (token_numeric_features file') /\
        consecutive (length (token_text_features file)) (concat (map meta_pages metas))
                    (length (token_text_features file')) /\
        forall file'', extends file'' file' -> map (read_doc file'') metas = docs
  | Raise e =>
      forall docs, for_each unlabeled_doc json_docs = Ok docs ->
        (MAX_DOCS_PER_BUCKET < length (doc_metadata file) + length docs)%nat
  end.
Proof.
  induction json_docs as [|json_doc rest IH]; intros file Hlen.
  - cbn [fold_res for_each]. exists [], []. rewrite app_nil_r.
    split; [reflexivity|]. split; [reflexivity|]. split; [auto|].
    split; [apply extends_refl|]. split; [exact Hlen|]. split; reflexivity.
  - cbn [fold_res for_each]. pose proof (write_doc_spec file json_doc Hlen) as Hdoc.
    destruct (unlabeled_doc json_doc) as [doc|e].
    + destruct (MAX_DOCS_PER_BUCKET <? length (doc_metadata file) + 1)%nat eqn:Hmax.
      * rewrite Hdoc. cbn [mbind res_bind].
        apply Nat.ltb_lt in Hmax. intros docs Hdocs.
        destruct (for_each unlabeled_doc rest); [|discriminate].
        injection Hdocs as <-. simpl. lia.
      * destruct Hdoc as (file1 & json_metadata & -> & Hmeta & Hext & Hlen1 & Hcons & Hdesc).
        cbn [mbind res_bind]. specialize (IH file1 Hlen1).
        apply Nat.ltb_ge in Hmax.
        destruct (fold_res write_doc rest file1) as [file'|e].
        -- destruct IH as (metas & docs & Hmetas & -> & Hbound & Hext' & Hlen' & Hcons'
                           & Hall).
           exists (json_metadata :: metas), (doc :: docs).
           split; [rewrite Hmetas, Hmeta, <- app_assoc; reflexivity|].
           split; [reflexivity|].
           split. { intros _. apply Hbound. rewrite Hmeta, length_app. simpl. lia. }
           split; [eapply extends_trans; eassumption|]. split; [exact Hlen'|].
           split.
           { cbn [map concat]. apply consecutive_app.
             rewrite (consecutive_stop _ _ _ Hcons). split; assumption. }
           intros file'' Hext''. cbn [map]. f_equal; [|apply Hall, Hext''].
           apply Hdesc. eapply extends_trans; eassumption.
        -- intros docs Hdocs. cbn [mbind res_bind] in Hdocs.
           destruct (for_each unlabeled_doc rest) as [docs'|]; [|discriminate].
           injection Hdocs as <-. specialize (IH docs' eq_refl).
           rewrite Hmeta, length_app in IH. simpl in *. lia.
    + rewrite Hdoc. cbn [mbind res_bind]. discriminate.
Qed.

(** A file of token datasets whose pages lie one after the other and fill
    the datasets. *)
Definition well_formed (file : Datasets) : Prop :=
  length (token_text_features file) = length (token_numeric_features file) /\
  consecutive 0 (concat (map meta_pages (doc_metadata file)))
              (length (token_text_features file)).

(** X21: the flat datasets of the unlabeled artifact hold the documents of
    the structural model.  When the writing loop ends, the entries of
    [doc_metadata], read page by page through [first_token_index] and
    [token_count], are exactly the documents of [unlabeled_body]; there are
    at most [MAX_DOCS_PER_BUCKET] of them; and the file is well formed: the
    text and the numeric dataset have as many rows, and the pages lie one
    after the other from row 0 to the last row, so that no row belongs to two
    pages or to none.  When the writing loop raises, so does
    [unlabeled_body]. *)
Theorem unlabeled_datasets_hold_the_documents (fs : FS) (bucket_path : str) :
  match unlabeled_datasets fs bucket_path with
  | Ok file =>
      unlabeled_body fs bucket_path = Ok (map (read_doc file) (doc_metadata file)) /\
      (length (doc_metadata file) <= MAX_DOCS_PER_BUCKET)%nat /\
      well_formed file
  | Raise _ => exists e, unlabeled_body fs bucket_path = Raise e
  end.
Proof.
  unfold unlabeled_datasets, unlabeled_body.
  set (json_docs := match fs (RawTokensPath bucket_path) with
                    | Some (RawTokens docs) => docs
                    | _ => []
                    end).
  pose proof (write_docs_from json_docs created eq_refl) as Hw.
  destruct (fold_res write_doc json_docs created) as [file|e].
  - destruct Hw as (metas & docs & Hmetas & -> & Hbound & _ & Hlen & Hcons & Hall).
    cbn [doc_metadata created app] in Hmetas. subst metas.
    specialize (Hall file (extends_refl file)).
    specialize (Hbound ltac:(simpl; lia)).
    cbn [mbind res_bind].
    assert (Hcount : length docs = length (doc_metadata file))
      by (rewrite <- Hall; apply length_map).
    destruct (Nat.ltb_spec MAX_DOCS_PER_BUCKET (length docs)); [lia|].
    split; [now rewrite Hall|]. split; [exact Hbound|]. split; [exact Hlen|exact Hcons].
  - cbn [doc_metadata created length Nat.add] in Hw.
    destruct (for_each unlabeled_doc json_docs) as [docs|e'].
    + specialize (Hw docs eq_refl). cbn [mbind res_bind].
      destruct (Nat.ltb_spec MAX_DOCS_PER_BUCKET (length docs)); [|lia].
      eexists; reflexivity.
    + eexists; reflexivity.
Qed.

(** *** The labeled artifact *)

Lemma resize_within_Ok {A : Type} maxshape (fill : A) n rows :
  (n <= maxshape)%nat -> resize_within maxshape fill n rows = Ok (resize fill n rows).
Proof.
  intros Hle. unfold resize_within.
  destruct (Nat.ltb_spec maxshape n); [lia|reflexivity].
Qed.

Lemma assign_rows_Ok {A : Type} first count (values rows : list A) :
  length values = count -> assign_rows first count values rows = Ok (assign first values rows).
Proof. intros <-. unfold assign_rows. now rewrite Nat.eqb_refl. Qed.

(** The rows of a page of the unlabeled file. *)
Definition text_rows (unlab : Datasets) (json_page : PageMeta) : list TextRow :=
  slice (token_text_features unlab) (first_token_index json_page)
        (first_token_index json_page + token_count json_page).

Definition numeric_rows (unlab : Datasets) (json_page : PageMeta) : list NumericRow :=
  slice (token_numeric_features unlab) (first_token_index json_page)
        (first_token_index json_page + token_count json_page).

(** The page lies within the datasets. *)
Definition in_range (unlab : Datasets) (json_page : PageMeta) : Prop :=
  (first_token_index json_page + token_count json_page
   <= length (token_text_features unlab))%nat.

Lemma copy_page_spec unlab text numeric labels json_page page_labels :
  length (token_text_features unlab) = length (token_numeric_features unlab) ->
  in_range unlab json_page ->
  length text = length numeric -> length labels = length text ->
  (length text + token_count json_page <= length (token_text_features unlab))%nat ->
  length page_labels = token_count json_page ->
  copy_page unlab (text, numeric, labels) json_page page_labels
  = Ok ((text ++ text_rows unlab json_page,
         numeric ++ numeric_rows unlab json_page,
         labels ++ page_labels),
        {| dimensions := dimensions json_page;
           first_token_index := length text;
           token_count := token_count json_page |}).
Proof.
  intros Hunlab Hrange Hlen Hlabels Hroom Hpage. unfold copy_page, in_range in *.
  assert (Ht : length (text_rows unlab json_page) = token_count json_page)
    by (apply length_slice; lia).
  assert (Hn : length (numeric_rows unlab json_page) = token_count json_page)
    by (apply length_slice; lia).
  fold (text_rows unlab json_page). fold (numeric_rows unlab json_page).
  rewrite (resize_within_Ok _ ([], [])) by lia. cbn [mbind res_bind].
  rewrite (assign_rows_Ok _ _ (text_rows unlab json_page)) by exact Ht.
  cbn [mbind res_bind].
  rewrite (resize_within_Ok _ (0, 0, 0, 0, 0, 0)) by lia. cbn [mbind res_bind].
  rewrite (assign_rows_Ok _ _ (numeric_rows unlab json_page)) by exact Hn.
  cbn [mbind res_bind].
  rewrite !resize_assign_append by assumption.
  replace (length (text ++ _) =? length (numeric ++ _))%nat with true
    by (symmetry; apply Nat.eqb_eq; rewrite !length_app; lia).
  cbn [py_assert mbind res_bind].
  rewrite (resize_within_Ok _ 0%nat) by lia. cbn [mbind res_bind].
  rewrite (assign_rows_Ok _ _ page_labels) by exact Hpage. cbn [mbind res_bind].
  rewrite resize_assign_append by assumption.
  replace (length (labels ++ _) =? length (text ++ _))%nat with true
    by (symmetry; apply Nat.eqb_eq; rewrite !length_app; lia).
  reflexivity.
Qed.

(** The labeled datasets go on, after [text], [numeric] and [labels], with
    the rows of the pages [pages] of the unlabeled file and the labels
    [labels_of]. *)
Definition lab_holds (unlab : Datasets) (lab : LabeledDatasets)
    (text : list TextRow) (numeric : list NumericRow) (labels : list nat)
    (pages : list PageMeta) (labels_of : list (list nat)) : Prop :=
  exists more_text more_numeric more_labels,
    lab_token_text_features lab
    = text ++ concat (map (text_rows unlab) pages) ++ more_text /\
    lab_token_numeric_features lab
    = numeric ++ concat (map (numeric_rows unlab) pages) ++ more_numeric /\
    lab_token_labels lab = labels ++ concat labels_of ++ more_labels.

Lemma read_tokens_rows unlab json_page :
  read_tokens unlab (first_token_index json_page)
              (first_token_index json_page + token_count json_page)
  = zip_with token_of_rows (text_rows unlab json_page) (numeric_rows unlab json_page).
Proof. reflexivity. Qed.

Lemma copy_pages_spec unlab :
  length (token_text_features unlab) = length (token_numeric_features unlab) ->
  forall pages labels_of text numeric labels,
  Forall (in_range unlab) pages ->
  Forall2 (fun json_page page_labels => length page_labels = token_count json_page)
          pages labels_of ->
  length text = length numeric -> length labels = length text ->
  (length text + sum_list (map token_count pages)
   <= length (token_text_features unlab))%nat ->
  exists metas,
    copy_pages unlab (text, numeric, labels) (zip pages labels_of)
    = Ok ((text ++ concat (map (text_rows unlab) pages),
           numeric ++ concat (map (numeric_rows unlab) pages),
           labels ++ concat labels_of),
          metas) /\
    length (concat (map (text_rows unlab) pages)) = sum_list (map token_count pages) /\
    length (concat (map (numeric_rows unlab) pages)) = sum_list (map token_count pages) /\
    length (concat labels_of) = sum_list (map token_count pages) /\
    consecutive (length text) metas (length text + sum_list (map token_count pages)) /\
    forall lab,
      lab_holds unlab lab text numeric labels pages labels_of ->
      map (read_page (token_datasets lab)) metas = map (read_page unlab) pages /\
      map (fun json_page =>
             slice (lab_token_labels lab) (first_token_index json_page)
                   (first_token_index json_page + token_count json_page))
          metas
      = labels_of.
Proof.
  intros Hunlab pages labels_of text numeric labels Hrange Hall.
  revert text numeric labels Hrange.
  induction Hall as [|json_page page_labels pages labels_of Hpage Hall IH];
    intros text numeric labels Hrange Hlen Hlabels Hroom.
  - exists []. cbn [zip zip_with copy_pages map concat sum_list consecutive length].
    rewrite !app_nil_r, Nat.add_0_r. repeat split; reflexivity.
  - assert (Hsum : sum_list (map token_count (json_page :: pages))
                   = (token_count json_page + sum_list (map token_count pages))%nat)
      by reflexivity.
    rewrite Hsum in *. clear Hsum.
    cbn [zip zip_with copy_pages map].
    apply Forall_cons in Hrange as [Hin Hrange].
    rewrite (copy_page_spec unlab text numeric labels json_page page_labels)
      by (try assumption; lia).
    cbn [mbind res_bind].
    assert (Ht : length (text_rows unlab json_page) = token_count json_page)
      by (apply length_slice; exact Hin).
    assert (Hn : length (numeric_rows unlab json_page) = token_count json_page)
      by (apply length_slice; unfold in_range in Hin; lia).
    destruct (IH (text ++ text_rows unlab json_page)
                 (numeric ++ numeric_rows unlab json_page)
                 (labels ++ page_labels) Hrange)
      as (metas & Hcopy & Htl & Hnl & Hll & Hcons & Hread).
    { rewrite !length_app. lia. }
    { rewrite !length_app. lia. }
    { rewrite length_app. lia. }
    change (zip_with pair pages labels_of) with (zip pages labels_of).
    rewrite Hcopy. cbn [mbind res_bind]. eexists. split.
    { cbn [concat]. rewrite <- !app_assoc. reflexivity. }
    cbn [concat]. rewrite !length_app.
    split; [lia|]. split; [lia|]. split; [lia|]. split.
    + cbn [consecutive first_token_index token_count]. split; [reflexivity|].
      rewrite length_app, Ht, <- Nat.add_assoc in Hcons. exact Hcons.
    + intros lab (more_text & more_numeric & more_labels & Htext & Hnumeric & Hlab).
      cbn [map concat] in Htext, Hnumeric, Hlab.
      destruct (Hread lab) as [Hpages Hlabs].
      { exists more_text, more_numeric, more_labels.
        rewrite Htext, Hnumeric, Hlab, <- !app_assoc. repeat split; reflexivity. }
      cbn [map]. split; f_equal; try assumption.
      * unfold read_page. cbn [dimensions first_token_index token_count].
        f_equal. rewrite read_tokens_rows. unfold read_tokens.
        cbn [token_datasets token_text_features token_numeric_features].
        rewrite Htext, Hnumeric, <- !app_assoc.
        rewrite slice_middle by (symmetry; exact Ht).
        rewrite Hlen, slice_middle by (symmetry; exact Hn). reflexivity.
      * cbn [first_token_index token_count]. rewrite Hlab, <- !app_assoc.
        rewrite <- Hlabels. apply slice_middle. symmetry. exact Hpage.
Qed.

(** A labeled file that goes on after the rows of another. *)
Definition lab_extends (lab' lab : LabeledDatasets) : Prop :=
  exists more_text more_numeric more_labels,
    lab_token_text_features lab' = lab_token_text_features lab ++ more_text /\
    lab_token_numeric_features lab' = lab_token_numeric_features lab ++ more_numeric /\
    lab_token_labels lab' = lab_token_labels lab ++ more_labels.

Lemma lab_extends_refl lab : lab_extends lab lab.
Proof. exists [], [], []. now rewrite !app_nil_r. Qed.

Lemma lab_extends_trans lab1 lab2 lab3 :
  lab_extends lab1 lab2 -> lab_extends lab2 lab3 -> lab_extends lab1 lab3.
Proof.
  intros (t1 & n1 & l1 & Ht1 & Hn1 & Hl1) (t2 & n2 & l2 & Ht2 & Hn2 & Hl2).
  exists (t2 ++ t1), (n2 ++ n1), (l2 ++ l1).
  rewrite Ht1, Hn1, Hl1, Ht2, Hn2, Hl2, <- !app_assoc. repeat split; reflexivity.
Qed.

(** The three token datasets of a labeled file have as many rows. *)
Definition aligned (lab : LabeledDatasets) : Prop :=
  length (lab_token_text_features lab) = length (lab_token_numeric_features lab) /\
  length (lab_token_labels lab) = length (lab_token_text_features lab).

Lemma sum_list_take (l : list nat) n : (sum_list (take n l) <= sum_list l)%nat.
Proof.
  revert n. induction l as [|x l IH]; intros [|n]; simpl; try lia.
  specialize (IH n). lia.
Qed.

Section LabeledFacts.
Context `{Externals}.
Variable fs : FS.
Variable bucket_path : str.
Variable unlab : Datasets.
Hypothesis Hunlab :
  length (token_text_features unlab) = length (token_numeric_features unlab).

(** What [labeled_body] does with a document. *)
Definition label_doc (doc : Doc) : res Labeling :=
  let file :=
    match fs (NxmlPath bucket_path (doc_id doc)) with
    | Some (NxmlDocument file) => file
    | _ => NxmlNotFound
    end in
  label_document doc file.

Lemma read_page_token_count json_page :
  in_range unlab json_page ->
  Labeler.token_count (read_page unlab json_page) = token_count json_page.
Proof.
  intros Hin. unfold Labeler.token_count, read_page, read_tokens. cbn [page_tokens].
  unfold in_range in Hin.
  rewrite length_zip_with, !length_slice by lia. lia.
Qed.

Lemma label_entry_spec lab json_metadata :
  Forall (in_range unlab) (meta_pages json_metadata) ->
  aligned lab ->
  (length (lab_token_text_features lab)
   + sum_list (map token_count (meta_pages json_metadata))
   <= length (token_text_features unlab))%nat ->
  (length (lab_doc_metadata lab) + 1 <= length (doc_metadata unlab))%nat ->
  match label_doc (read_doc unlab json_metadata) with
  | Raise e => label_entry fs bucket_path unlab lab json_metadata = Raise e
  | Ok (Skipped _) => label_entry fs bucket_path unlab lab json_metadata = Ok lab
  | Ok (Written entry) =>
      exists lab' lab_metadata,
        label_entry fs bucket_path unlab lab json_metadata = Ok lab' /\
        lab_doc_metadata lab' = lab_doc_metadata lab ++ [lab_metadata] /\
        lab_extends lab' lab /\
        aligned lab' /\
        (length (lab_token_text_features lab')
         <= length (lab_token_text_features lab)
            + sum_list (map token_count (meta_pages json_metadata)))%nat /\
        consecutive (length (lab_token_text_features lab))
                    (meta_pages (lab_meta lab_metadata))
                    (length (lab_token_text_features lab')) /\
        forall lab'', lab_extends lab'' lab' -> read_entry lab'' lab_metadata = entry
  end.
Proof.
  intros Hrange [Hlen Hlabels] Hroom Hdocs. unfold label_entry, label_doc.
  destruct (label_document _ _) as [[why|entry]|e] eqn:Hlabel; cbn [mbind res_bind];
    [reflexivity| |reflexivity].
  destruct (LabelFacts.label_document_written_parts _ _ _ Hlabel)
    as (Hid & Hsha & Hpages & title_match & best & n & Hlabs & _).
  cbn [read_doc doc_id doc_sha doc_pages] in Hid, Hsha, Hpages.
  rewrite LabelFacts.take_min_length.
  set (pages := take MAX_PAGE_COUNT (meta_pages json_metadata)) in *.
  assert (Hpages' : lab_pages entry = map (read_page unlab) pages)
    by (rewrite Hpages; unfold pages; now rewrite <- fmap_take).
  assert (Hrange' : Forall (in_range unlab) pages)
    by (apply Forall_take, Hrange).
  assert (Hsum : (sum_list (map token_count pages)
                  <= sum_list (map token_count (meta_pages json_metadata)))%nat).
  { unfold pages. change (map token_count (take ?n ?l)) with (token_count <$> take n l).
    rewrite fmap_take. apply sum_list_take. }
  assert (Hall : Forall2 (fun json_page page_labels =>
                            length page_labels = token_count json_page)
                         pages (lab_labels entry)).
  { rewrite Hlabs, Hpages'.
    generalize (page_labels title_match best)
               (LabelFacts.page_labels_length title_match best).
    clear -Hrange' Hunlab.
    induction Hrange' as [|page pages Hin _ IH]; intros f Hf.
    - constructor.
    - cbn [map imap]. constructor.
      + rewrite Hf. apply read_page_token_count, Hin.
      + apply IH. intros i p. apply Hf. }
  destruct (copy_pages_spec unlab Hunlab pages (lab_labels entry)
              (lab_token_text_features lab) (lab_token_numeric_features lab)
              (lab_token_labels lab) Hrange' Hall Hlen Hlabels)
    as (metas & -> & Htl & Hnl & Hll & Hcons & Hread); [lia|].
  cbn [mbind res_bind].
  destruct (Nat.ltb_spec (length (doc_metadata unlab)) (length (lab_doc_metadata lab) + 1));
    [lia|].
  eexists _, _. split; [reflexivity|].
  cbn [lab_doc_metadata lab_token_text_features lab_token_numeric_features
       lab_token_labels lab_meta meta_pages].
  split; [reflexivity|]. split; [|split; [|split; [|split]]].
  - eexists _, _, _. repeat split; reflexivity.
  - split; cbn [lab_token_text_features lab_token_numeric_features lab_token_labels];
      rewrite !length_app; lia.
  - rewrite length_app. lia.
  - rewrite length_app, Htl. exact Hcons.
  - intros lab'' (more_text & more_numeric & more_labels & Htext & Hnumeric & Hlab).
    cbn [lab_token_text_features lab_token_numeric_features lab_token_labels]
      in Htext, Hnumeric, Hlab.
    destruct (Hread lab'') as [Hp Hl].
    { exists more_text, more_numeric, more_labels.
      rewrite Htext, Hnumeric, Hlab, <- !app_assoc. repeat split; reflexivity. }
    unfold read_entry. cbn [lab_meta meta_doc_id meta_doc_sha meta_pages
      meta_gold_title meta_gold_authors].
    rewrite Hp, Hl, <- Hpages'. destruct entry; reflexivity.
Qed.

Lemma label_entries_from : forall metas lab start,
  consecutive start (concat (map meta_pages metas)) (length (token_text_features unlab)) ->
  aligned lab ->
  (length (lab_token_text_features lab) <= start)%nat ->
  (length (lab_doc_metadata lab) + length metas <= length (doc_metadata unlab))%nat ->
  match fold_res (label_entry fs bucket_path unlab) metas lab with
  | Ok lab' =>
      exists new labelings,
        lab_doc_metadata lab' = lab_doc_metadata lab ++ new /\
        for_each label_doc (map (read_doc unlab) metas) = Ok labelings /\
        (length new <= length metas)%nat /\
        lab_extends lab' lab /\
        aligned lab' /\
        (length (lab_token_text_features lab') <= length (token_text_features unlab))%nat /\
        consecutive (length (lab_token_text_features lab))
                    (concat (map (fun m => meta_pages (lab_meta m)) new))
                    (length (lab_token_text_features lab')) /\
        forall lab'', lab_extends lab'' lab' ->
          map (read_entry lab'') new
          = omap (M := list) (fun labeling =>
                    match labeling with
                    | Written entry => Some entry
                    | Skipped _ => None
                    end) labelings
  | Raise e => for_each label_doc (map (read_doc unlab) metas) = Raise e
  end.
Proof.
  induction metas as [|json_metadata metas IH]; intros lab start Hcons Haligned Hstart Hdocs.
  - cbn [fold_res map for_each]. exists [], []. rewrite app_nil_r.
    cbn [map concat consecutive] in *.
    repeat split; try reflexivity; try apply Haligned; try lia.
    apply lab_extends_refl.
  - cbn [map concat] in Hcons. apply consecutive_app in Hcons as [Hhere Hrest].
    assert (Hstop := consecutive_stop _ _ _ Hrest).
    assert (Hrange : Forall (in_range unlab) (meta_pages json_metadata)).
    { apply Forall_forall. intros json_page Hin. unfold in_range.
      pose proof (consecutive_in_range _ _ _ _ Hhere Hin). lia. }
    cbn [length] in Hdocs.
    pose proof (label_entry_spec lab json_metadata Hrange Haligned
                  ltac:(lia) ltac:(lia)) as Hentry.
    cbn [fold_res map for_each].
    destruct (label_doc (read_doc unlab json_metadata)) as [[why|entry]|e].
    + rewrite Hentry. cbn [mbind res_bind].
      specialize (IH lab _ Hrest Haligned ltac:(lia) ltac:(lia)).
      destruct (fold_res _ metas lab) as [lab'|e].
      * destruct IH as (new & labelings & Hnew & -> & Hcount & Hext & Hal & Hle & Hc & Hread).
        cbn [mbind res_bind]. exists new, (Skipped why :: labelings).
        split; [exact Hnew|]. split; [reflexivity|]. split; [simpl; lia|].
        split; [exact Hext|]. split; [exact Hal|]. split; [exact Hle|].
        split; [exact Hc|exact Hread].
      * rewrite IH. reflexivity.
    + destruct Hentry as (lab1 & lab_metadata & -> & Hmeta & Hext1 & Hal1 & Hle1 & Hc1
                         & Hread1).
      cbn [mbind res_bind].
      specialize (IH lab1 _ Hrest Hal1 ltac:(lia)
                     ltac:(rewrite Hmeta, length_app; simpl; lia)).
      destruct (fold_res _ metas lab1) as [lab'|e].
      * destruct IH as (new & labelings & Hnew & -> & Hcount & Hext & Hal & Hle & Hc & Hread).
        cbn [mbind res_bind]. exists (lab_metadata :: new), (Written entry :: labelings).
        split; [rewrite Hnew, Hmeta, <- app_assoc; reflexivity|].
        split; [reflexivity|]. split; [simpl; lia|].
        split; [eapply lab_extends_trans; eassumption|]. split; [exact Hal|].
        split; [exact Hle|]. split.
        { cbn [map concat]. apply consecutive_app.
          rewrite (consecutive_stop _ _ _ Hc1). split; assumption. }
        intros lab'' Hext''. cbn [map]. unfold omap. cbn [list_omap].
        f_equal; [|apply Hread, Hext''].
        apply Hread1. eapply lab_extends_trans; eassumption.
      * rewrite IH. reflexivity.
    + rewrite Hentry. reflexivity.
Qed.

End LabeledFacts.

Lemma slice_split {A : Type} (l : list A) a b c :
  (a <= b <= c)%nat -> (c <= length l)%nat ->
  slice l a c = slice l a b ++ slice l b c.
Proof.
  intros Hab Hc. unfold slice.
  rewrite <- (take_drop b (take c l)) at 1.
  rewrite take_take, Nat.min_l by lia.
  rewrite drop_app_le by (rewrite length_take; lia). reflexivity.
Qed.

(** The rows of consecutive pages, taken in one run, are the rows of the
    pages, page after page. *)
Lemma read_tokens_consecutive file pages : forall start stop,
  length (token_text_features file) = length (token_numeric_features file) ->
  consecutive start pages stop ->
  (stop <= length (token_text_features file))%nat ->
  read_tokens file start stop = concat (map page_tokens (map (read_page file) pages)).
Proof.
  induction pages as [|json_page pages IH]; intros start stop Hlen Hcons Hstop.
  - cbn in Hcons. subst stop. unfold read_tokens, slice.
    cbn [map concat]. rewrite drop_ge by (rewrite length_take; lia). reflexivity.
  - destruct Hcons as [Hfirst Hrest]. cbn [map concat page_tokens read_page].
    rewrite <- (IH _ _ Hlen Hrest Hstop).
    pose proof (consecutive_stop _ _ _ Hrest) as Hsum.
    rewrite Hfirst. unfold read_tokens.
    rewrite (slice_split (token_text_features file) start
                         (start + token_count json_page) stop) by lia.
    rewrite (slice_split (token_numeric_features file) start
                         (start + token_count json_page) stop) by lia.
    apply zip_with_app. rewrite !length_slice by lia. reflexivity.
Qed.

Lemma read_doc_tokens_consecutive file json_metadata start stop :
  length (token_text_features file) = length (token_numeric_features file) ->
  consecutive start (meta_pages json_metadata) stop ->
  (stop <= length (token_text_features file))%nat ->
  read_doc_tokens file json_metadata
  = match meta_pages json_metadata with
    | [] => Raise IndexError
    | _ => Ok (concat (map page_tokens (doc_pages (read_doc file json_metadata))))
    end.
Proof.
  intros Hlen Hcons Hstop. unfold read_doc_tokens. cbn [read_doc doc_pages].
  rewrite <- (read_tokens_consecutive file _ start stop Hlen Hcons Hstop).
  pose proof (consecutive_stop _ _ _ Hcons) as Hsum.
  destruct (meta_pages json_metadata) as [|first_page rest] eqn:Hpages; [reflexivity|].
  cbn [head or_raise mbind res_bind]. destruct Hcons as [-> _].
  rewrite Hsum. reflexivity.
Qed.

Lemma consecutive_docs (metas : list DocMeta) : forall start stop json_metadata,
  consecutive start (concat (map meta_pages metas)) stop ->
  json_metadata ∈ metas ->
  exists start' stop',
    consecutive start' (meta_pages json_metadata) stop' /\ (stop' <= stop)%nat.
Proof.
  induction metas as [|m metas IH]; intros start stop json_metadata Hcons Hin.
  - inversion Hin.
  - cbn [map concat] in Hcons. apply consecutive_app in Hcons as [Hhere Hrest].
    apply elem_of_cons in Hin as [->|Hin].
    + eexists _, _. split; [exact Hhere|]. apply consecutive_stop in Hrest. lia.
    + eapply IH; eassumption.
Qed.

(** X22: The flat datasets of the labeled artifact hold the entries of the
    structural model.  On an unlabeled file whose pages lie one after the
    other, the copying loop raises exactly when [labeled_body] raises on
    the documents read from that file, with the same exception; the
    [maxshape] of the datasets is never exceeded.  When it ends, the
    entries of [doc_metadata], read page by page, are exactly the entries of
    [labeled_body]; the text, numeric and label datasets have as many rows;
    the pages copied lie one after the other although documents were
    skipped, so that all rows of the file, as the feature stage hashes them,
    are the tokens of the pages of the entries in order; and the rows of an
    entry taken in one run from its first page, as the feature stage takes
    them, are the tokens of its pages in order. *)
Theorem labeled_datasets_hold_the_entries `{Externals} (fs : FS) (bucket_path : str)
    (unlab : Datasets) :
  well_formed unlab ->
  match labeled_datasets fs bucket_path unlab with
  | Ok lab =>
      labeled_body fs bucket_path (map (read_doc unlab) (doc_metadata unlab))
      = Ok (map (read_entry lab) (lab_doc_metadata lab)) /\
      (length (lab_doc_metadata lab) <= length (doc_metadata unlab))%nat /\
      length (lab_token_text_features lab) = length (lab_token_numeric_features lab) /\
      length (lab_token_labels lab) = length (lab_token_text_features lab) /\
      (length (lab_token_text_features lab) <= length (token_text_features unlab))%nat /\
      consecutive 0 (concat (map (fun m => meta_pages (lab_meta m)) (lab_doc_metadata lab)))
                  (length (lab_token_text_features lab)) /\
      read_tokens (token_datasets lab) 0 (length (lab_token_text_features lab))
      = concat (map page_tokens
                  (concat (map lab_pages (map (read_entry lab) (lab_doc_metadata lab))))) /\
      forall json_metadata, json_metadata ∈ lab_doc_metadata lab ->
        read_doc_tokens (token_datasets lab) (lab_meta json_metadata)
        = match lab_pages (read_entry lab json_metadata) with
          | [] => Raise IndexError
          | pages => Ok (concat (map page_tokens pages))
          end
  | Raise e =>
      labeled_body fs bucket_path (map (read_doc unlab) (doc_metadata unlab)) = Raise e
  end.
Proof.
  intros [Hunlab Hcons]. unfold labeled_datasets, labeled_body.
  pose proof (label_entries_from fs bucket_path unlab Hunlab (doc_metadata unlab)
                labeled_created 0 Hcons ltac:(split; reflexivity)
                ltac:(simpl; lia) ltac:(simpl; lia)) as Hloop.
  fold (label_doc fs bucket_path).
  destruct (fold_res _ (doc_metadata unlab) labeled_created) as [lab|e].
  - destruct Hloop as (new & labelings & Hnew & -> & Hcount & _ & [Hlen Hlabels] & Hle
                       & Hc & Hread).
    cbn [labeled_created lab_doc_metadata app lab_token_text_features length] in Hnew, Hc.
    subst new. cbn [mbind res_bind].
    rewrite <- (Hread lab (lab_extends_refl lab)).
    split; [reflexivity|]. split; [exact Hcount|]. split; [exact Hlen|].
    split; [exact Hlabels|]. split; [exact Hle|]. split; [exact Hc|].
    split.
    { rewrite (read_tokens_consecutive (token_datasets lab) _ 0 _ Hlen Hc) by reflexivity.
      f_equal. f_equal. rewrite map_map. clear.
      induction (lab_doc_metadata lab) as [|m metas IH]; [reflexivity|].
      cbn [map concat]. rewrite map_app, IH. reflexivity. }
    intros json_metadata Hin.
    destruct (consecutive_docs (map lab_meta (lab_doc_metadata lab)) 0
                (length (lab_token_text_features lab)) (lab_meta json_metadata))
      as (start' & stop' & Hdoc & Hstop).
    { now rewrite map_map. }
    { apply (list_elem_of_fmap_2 lab_meta), Hin. }
    rewrite (read_doc_tokens_consecutive (token_datasets lab) _ start' stop' Hlen Hdoc Hstop).
    cbn [read_entry lab_pages read_doc doc_pages].
    destruct (meta_pages (lab_meta json_metadata)); reflexivity.
  - rewrite Hloop. reflexivity.
Qed.

End TokenArraysFacts.

(** ** The documents of a bucket *)

Module Documents.
Import Labeler Builders TokenArrays.

(** A [Page] of [documents_for_bucket]. *)
Record Page : Type := {
  page_number : nat;
  width : Q;
  height : Q;
  tokens : list str;
  token_hashes : list Z;
  font_hashes : list Z;
  numeric_features : list NumericRow;
  scaled_numeric_features : list (list Q);
  labels : list nat
}.

(** A [Document] of [documents_for_bucket]. *)
Record Document : Type := {
  doc_id : str;
  doc_sha : str;
  gold_title : str;
  gold_authors : list (str * str);
  pages : list Page
}.

Section WithExternals.
Context `{Externals}.

(** [documents_for_bucket] on the datasets of the featurized file: those of
    the labeled file, to which it links, and the two feature datasets. *)
Definition documents_for_bucket (labeled_file : LabeledDatasets) (featurized : Featurized)
    : list Document :=
  map (fun doc_metadata =>
         let pages :=
           imap (fun page_number json_page =>
                   let first_token_index := first_token_index json_page in
                   let token_count := token_count json_page in
                   let last_token_index_plus_one := (first_token_index + token_count)%nat in
                   {| page_number := page_number;
                      width := fst (dimensions json_page);
                      height := snd (dimensions json_page);
                      tokens :=
                        map fst (slice (lab_token_text_features labeled_file)
                                       first_token_index last_token_index_plus_one);
                      token_hashes :=
                        map fst (slice (token_hashed_text_features featurized)
                                       first_token_index last_token_index_plus_one);
                      font_hashes :=
                        map snd (slice (token_hashed_text_features featurized)
                                       first_token_index last_token_index_plus_one);
                      numeric_features :=
                        slice (lab_token_numeric_features labeled_file)
                              first_token_index last_token_index_plus_one;
                      scaled_numeric_features :=
                        slice (token_scaled_numeric_features featurized)
                              first_token_index last_token_index_plus_one;
                      labels :=
                        slice (lab_token_labels labeled_file)
                              first_token_index last_token_index_plus_one |})
                (meta_pages (lab_meta doc_metadata)) in
         {| doc_id := meta_doc_id (lab_meta doc_metadata);
            doc_sha := meta_doc_sha (lab_meta doc_metadata);
            gold_title := trim_punctuation (meta_gold_title doc_metadata);
            gold_authors := meta_gold_authors doc_metadata;
            pages := pages |})
      (lab_doc_metadata labeled_file).

End WithExternals.
End Documents.

Module DocumentsFacts.
Import Labeler Builders TokenArrays TokenArraysFacts.

Lemma for_each_length {A B : Type} (f : A -> res B) (l : list A) (ys : list B) :
  for_each f l = Ok ys -> length ys = length l.
Proof.
  intros Hys. apply LabelFacts.for_each_Forall2 in Hys.
  symmetry. eapply Forall2_length, Hys.
Qed.

Lemma concat_rows_length {B : Type} (f : nat * Page -> res (list B))
    (pages : list Page) :
  (forall x y, f x = Ok y -> length y = length (page_tokens (snd x))) ->
  forall (number : nat -> nat) per_page,
  for_each f (imap (fun page_number page => (number page_number, page)) pages)
  = Ok per_page ->
  length (concat per_page) = length (concat (map page_tokens pages)).
Proof.
  intros Hf. induction pages as [|page pages IH]; intros number per_page Hall.
  - injection Hall as <-. reflexivity.
  - cbn [imap for_each] in Hall.
    apply bind_Ok in Hall as (rows & Hrows & Hall).
    apply bind_Ok in Hall as (rest & Hrest & [= <-]).
    cbn [map concat]. rewrite !length_app. f_equal.
    + apply Hf in Hrows. exact Hrows.
    + apply (IH (fun n => number (S n))). exact Hrest.
Qed.

Section WithExternals.
Context `{Externals}.

Lemma document_rows_length token_stats vision_output (doc : Doc) rows :
  Featurizer.document_rows token_stats vision_output doc = Ok rows ->
  length rows = length (concat (map page_tokens (doc_pages doc))).
Proof.
  unfold Featurizer.document_rows. intros Hrows.
  apply bind_Ok in Hrows as (? & _ & Hrows).
  apply bind_Ok in Hrows as (fs & _ & Hrows).
  apply bind_Ok in Hrows as (sw & _ & Hrows).
  apply bind_Ok in Hrows as (per_page & Hpages & [= <-]).
  refine (concat_rows_length _ (doc_pages doc) _ (fun n => n) _ Hpages).
  intros [page_number page] y Hy. cbn [snd].
  apply bind_Ok in Hy as (? & _ & Hy).
  apply bind_Ok in Hy as (? & _ & Hy).
  apply for_each_length in Hy. exact Hy.
Qed.

Lemma scaled_features_length token_stats vision_output (docs : list Doc) rows :
  Featurizer.token_scaled_numeric_features token_stats vision_output docs = Ok rows ->
  length rows = length (concat (map page_tokens (concat (map doc_pages docs)))).
Proof.
  unfold Featurizer.token_scaled_numeric_features. intros Hrows.
  apply bind_Ok in Hrows as (per_doc & Hdocs & [= <-]).
  rewrite length_map. revert per_doc Hdocs.
  induction docs as [|doc docs IH]; intros per_doc Hdocs.
  - injection Hdocs as <-. reflexivity.
  - cbn [for_each] in Hdocs.
    apply bind_Ok in Hdocs as (rows & Hrows & Hdocs).
    apply bind_Ok in Hdocs as (rest & Hrest & [= <-]).
    cbn [map concat]. rewrite map_app, concat_app, !length_app.
    f_equal; [eapply document_rows_length, Hrows|apply IH, Hrest].
Qed.

(** All rows of a labeled file whose pages lie one after the other. *)
Lemma labeled_rows (lab : LabeledDatasets) :
  length (lab_token_text_features lab) = length (lab_token_numeric_features lab) ->
  consecutive 0 (concat (map (fun m => meta_pages (lab_meta m)) (lab_doc_metadata lab)))
              (length (lab_token_text_features lab)) ->
  length (concat (map page_tokens
            (concat (map doc_pages
               (map labeled_doc (map (read_entry lab) (lab_doc_metadata lab)))))))
  = length (lab_token_text_features lab).
Proof.
  intros Hlen Hcons.
  pose proof (read_tokens_consecutive (token_datasets lab) _ 0 _ Hlen Hcons
                ltac:(reflexivity)) as Hrows.
  assert (Hall : length (read_tokens (token_datasets lab) 0
                           (length (lab_token_text_features lab)))
                 = length (lab_token_text_features lab)).
  { unfold read_tokens. rewrite length_zip_with.
    cbn [token_datasets token_text_features token_numeric_features].
    unfold slice. rewrite !drop_0, !length_take. lia. }
  rewrite <- Hall, Hrows. f_equal. f_equal. clear.
  induction (lab_doc_metadata lab) as [|m metas IH]; [reflexivity|].
  cbn [map concat]. rewrite !map_app, IH. reflexivity.
Qed.

(** X30: the documents of a bucket are aligned.  For a labeled file whose
    datasets have as many rows and whose pages lie one after the other, and
    for the features computed from its entries, the two feature datasets
    have one row for each row of the file, and [documents_for_bucket] gives
    one document for each entry, in order, with its id, sha and authors and
    its title trimmed once more; each page of a document carries its number
    and exactly [token_count] tokens, token hashes, font hashes, numeric
    rows, scaled rows and labels. *)
Theorem documents_of_bucket_are_aligned token_stats embeddings p model_settings
    vision_output (lab : LabeledDatasets) (features : Featurized) :
  length (lab_token_text_features lab) = length (lab_token_numeric_features lab) ->
  length (lab_token_labels lab) = length (lab_token_text_features lab) ->
  consecutive 0 (concat (map (fun m => meta_pages (lab_meta m)) (lab_doc_metadata lab)))
              (length (lab_token_text_features lab)) ->
  featurized_body token_stats embeddings p model_settings vision_output
                  (map (read_entry lab) (lab_doc_metadata lab)) = Ok features ->
  length (token_hashed_text_features features) = length (lab_token_text_features lab) /\
  length (token_scaled_numeric_features features) = length (lab_token_text_features lab) /\
  Forall2
    (fun json_metadata doc =>
       Documents.doc_id doc = meta_doc_id (lab_meta json_metadata) /\
       Documents.doc_sha doc = meta_doc_sha (lab_meta json_metadata) /\
       Documents.gold_title doc = trim_punctuation (meta_gold_title json_metadata) /\
       Documents.gold_authors doc = meta_gold_authors json_metadata /\
       length (Documents.pages doc) = length (meta_pages (lab_meta json_metadata)) /\
       forall page_number json_page page,
         meta_pages (lab_meta json_metadata) !! page_number = Some json_page ->
         Documents.pages doc !! page_number = Some page ->
         Documents.page_number page = page_number /\
         Documents.tokens page
         = map tok_text (page_tokens (read_page (token_datasets lab) json_page)) /\
         length (Documents.tokens page) = token_count json_page /\
         length (Documents.token_hashes page) = token_count json_page /\
         length (Documents.font_hashes page) = token_count json_page /\
         length (Documents.numeric_features page) = token_count json_page /\
         length (Documents.scaled_numeric_features page) = token_count json_page /\
         length (Documents.labels page) = token_count json_page)
    (lab_doc_metadata lab) (Documents.documents_for_bucket lab features).
Proof.
  intros Hlen Hlabels Hcons Hbody.
  pose proof (labeled_rows lab Hlen Hcons) as Hrows.
  unfold featurized_body in Hbody.
  apply bind_Ok in Hbody as (text_features & Htext & Hbody).
  apply bind_Ok in Hbody as (scaled & Hscaled & [= <-]).
  apply for_each_length in Htext. apply scaled_features_length in Hscaled.
  cbn [token_hashed_text_features token_scaled_numeric_features].
  rewrite Hrows in Htext, Hscaled.
  split; [exact Htext|]. split; [exact Hscaled|].
  unfold Documents.documents_for_bucket. apply Forall2_fmap_r, Forall_Forall2_diag.
  apply Forall_forall. intros json_metadata Hin.
  cbn [Documents.doc_id Documents.doc_sha Documents.gold_title Documents.gold_authors
       Documents.pages].
  repeat (split; [reflexivity|]). split; [apply length_imap|].
  intros page_number json_page page Hmeta Hpage.
  cbn [Documents.pages] in Hpage. rewrite list_lookup_imap, Hmeta in Hpage. injection Hpage as <-.
  cbn [Documents.page_number Documents.tokens Documents.token_hashes Documents.font_hashes
       Documents.numeric_features Documents.scaled_numeric_features Documents.labels].
  assert (Hrange : (first_token_index json_page + token_count json_page
                    <= length (lab_token_text_features lab))%nat).
  { destruct (consecutive_docs (map lab_meta (lab_doc_metadata lab)) 0
                (length (lab_token_text_features lab)) (lab_meta json_metadata))
      as (start' & stop' & Hdoc & Hstop).
    - now rewrite map_map.
    - apply (list_elem_of_fmap_2 lab_meta), Hin.
    - pose proof (consecutive_in_range _ _ _ json_page Hdoc
                    ltac:(eapply list_elem_of_lookup_2, Hmeta)). lia. }
  split; [reflexivity|]. split.
  { unfold read_page, read_tokens. cbn [page_tokens token_datasets token_text_features
      token_numeric_features].
    set (text := slice (lab_token_text_features lab) _ _).
    set (numeric := slice (lab_token_numeric_features lab) _ _).
    assert (Hsame : length text = length numeric)
      by (unfold text, numeric; rewrite !length_slice by lia; reflexivity).
    clearbody text numeric. clear -Hsame. revert numeric Hsame.
    induction text as [|row text IH]; intros [|n numeric] Hsame; try discriminate;
      [reflexivity|].
    cbn [map zip_with]. f_equal; [|apply IH; injection Hsame as ->; reflexivity].
    destruct n as [[[[[? ?] ?] ?] ?] ?]. reflexivity. }
  rewrite !length_map.
  rewrite (length_slice (lab_token_text_features lab)) by lia.
  rewrite (length_slice text_features) by lia.
  rewrite (length_slice (lab_token_numeric_features lab)) by lia.
  rewrite (length_slice scaled) by lia.
  rewrite (length_slice (lab_token_labels lab)) by lia.
  repeat split; reflexivity.
Qed.

End WithExternals.
End DocumentsFacts.

(** ** The buckets of the corpus and the HTML dump *)

Module Corpus.

(** A hexadecimal digit, in lower case. *)
Definition hex_digit (d : nat) : N :=
  if (d <? 10)%nat then (48 + N.of_nat d)%N else (87 + N.of_nat d)%N.

(** The hexadecimal digits of a number; [fuel] bounds their count. *)
Fixpoint hex_digits (fuel : nat) (x : nat) : str :=
  match fuel with
  | O => []
  | S fuel =>
      if (x <? 16)%nat then [hex_digit x]
      else hex_digits fuel (x / 16) ++ [hex_digit (x mod 16)]
  end.

(** ["%02x" % x] *)
Definition format_02x (x : nat) : str :=
  let digits := hex_digits (S x) x in
  replicate (2 - length digits) 48%N ++ digits.

(** [range(first, one_past)] *)
Definition range (first one_past : nat) : list nat := seq first (one_past - first).

(** The buckets [documents] reads. *)
Definition buckets (test : bool) : list str :=
  let buckets := if test then range 240 256 else range 0 240 in
  map format_02x buckets.

End Corpus.

Module Dump.





End Dump.

Module CorpusFacts.
Import Corpus.

(** The digits 0-9 and the letters a-f. *)
Definition lower_hex : list N :=
  [48; 49; 50; 51; 52; 53; 54; 55; 56; 57; 97; 98; 99; 100; 101; 102]%N.

Lemma two_hex_digits_are_buckets :
  forallb (fun a => forallb (fun b =>
     bool_decide ([a; b] ∈ buckets false ++ buckets true)) lower_hex) lower_hex = true.
Proof. vm_compute. reflexivity. Qed.

Lemma buckets_are_two_hex_digits :
  forallb (fun name => bool_decide (length name = 2%nat)
                       && forallb (fun c => bool_decide (c ∈ lower_hex)) name)
          (buckets false ++ buckets true) = true.
Proof. vm_compute. reflexivity. Qed.

(** X28: The buckets of the training set and of the test set: 240 and 16
    names, no name twice or in both sets, and together exactly the 256
    names of two lower-case hexadecimal digits, the test set being the names
    that start with [f]. *)
Theorem train_and_test_buckets_partition :
  NoDup (buckets false ++ buckets true) /\
  length (buckets false) = 240%nat /\
  length (buckets true) = 16%nat /\
  (forall name,
     name ∈ buckets false ++ buckets true <->
     length name = 2%nat /\ Forall (fun c => c ∈ lower_hex) name) /\
  (forall name, name ∈ buckets true <->
     exists c, c ∈ lower_hex /\ name = [102%N; c]).
Proof.
  split.
  { assert (Hnd : bool_decide (NoDup (buckets false ++ buckets true)) = true)
      by (vm_compute; reflexivity).
    apply bool_decide_eq_true in Hnd. exact Hnd. }
  split; [reflexivity|]. split; [reflexivity|]. split.
  - intros name. split.
    + intros Hin. pose proof buckets_are_two_hex_digits as Hall.
      rewrite forallb_forall in Hall. apply list_elem_of_In, Hall in Hin.
      apply andb_prop in Hin as [Hlen Hhex].
      split; [exact (proj1 (bool_decide_eq_true _) Hlen)|].
      apply Forall_forall. intros c Hc. rewrite forallb_forall in Hhex.
      apply list_elem_of_In, Hhex in Hc. exact (proj1 (bool_decide_eq_true _) Hc).
    + intros [Hlen Hhex]. destruct name as [|a [|b [|c name]]]; try discriminate.
      apply Forall_cons in Hhex as [Ha Hhex]. apply Forall_cons in Hhex as [Hb _].
      pose proof two_hex_digits_are_buckets as Hall.
      rewrite forallb_forall in Hall. apply list_elem_of_In, Hall in Ha.
      rewrite forallb_forall in Ha. apply list_elem_of_In, Ha in Hb.
      exact (proj1 (bool_decide_eq_true _) Hb).
  - intros name. split.
    + intros Hin.
      assert (Hall : forallb (fun name =>
                        match name with
                        | [f; c] => bool_decide (f = 102%N) && bool_decide (c ∈ lower_hex)
                        | _ => false
                        end) (buckets true) = true) by (vm_compute; reflexivity).
      rewrite forallb_forall in Hall. apply list_elem_of_In, Hall in Hin.
      destruct name as [|f [|c [|x name]]]; try discriminate.
      apply andb_prop in Hin as [Hf Hc].
      exists c. split; [exact (proj1 (bool_decide_eq_true _) Hc)|].
      now rewrite (proj1 (bool_decide_eq_true _) Hf).
    + intros (c & Hc & ->).
      assert (Hall : forallb (fun c => bool_decide ([102%N; c] ∈ buckets true)) lower_hex
                     = true) by (vm_compute; reflexivity).
      rewrite forallb_forall in Hall. apply list_elem_of_In, Hall in Hc.
      exact (proj1 (bool_decide_eq_true _) Hc).
Qed.

End CorpusFacts.

Module DumpFacts.
Import Dump.








End DumpFacts.

(** * The worker of [db_worker.py] *)

(** ** The to-do list in the database *)

Module DBTodoList.
Local Open Scope Z_scope.

(** The type [processing_status]. *)
Inductive processing_status : Type :=
| Scheduled
| Processing
| Done
| Failed.

#[global] Instance processing_status_eq_dec : EqDecision processing_status.
Proof. solve_decision. Defined.

(** A row of the table [tasks] without its key, for a type [Json] of the
    documents of the column [result]; timestamps count microseconds. *)
Record Task (Json : Type) : Type := {
  status : processing_status;
  statusChanged : Z;
  attempts : Z;
  result : option Json
}.
Arguments status {Json} _.
Arguments statusChanged {Json} _.
Arguments attempts {Json} _.
Arguments result {Json} _.

(** The table [tasks], by its primary key (modelVersion, paperId). *)
Abbreviation Tasks Json := (gmap (Z * str) (Task Json)).

Section Tasks.
Context {Json : Type}.

(** [interval '5 minutes'] *)
Definition five_minutes : Z := 5 * 60 * 1000000.

(** The function [effective_status_fn] at the time [now]. *)
Definition effective_status_fn (status : processing_status) (statusChanged : Z)
    (attempts : Z) (now : Z) : processing_status :=
  if bool_decide (status = Scheduled) && (5 <=? attempts) then Failed
  else if bool_decide (status = Processing) && (statusChanged + five_minutes <? now)
          && (5 <=? attempts) then Failed
  else if bool_decide (status = Processing) && (statusChanged + five_minutes <? now)
  then Scheduled
  else status.

(** The column [effectiveStatus] of the view [tasks_with_status]. *)
Definition effectiveStatus (now : Z) (task : Task Json) : processing_status :=
  effective_status_fn (status task) (statusChanged task) (attempts task) now.

(** The [WHERE] clause of the selection of [get_batch_to_process]. *)
Definition selectable (now : Z) (model_version : Z) (key : Z * str) (task : Task Json)
    : bool :=
  (bool_decide (status task = Scheduled) || bool_decide (status task = Processing))
  && bool_decide (effectiveStatus now task = Scheduled)
  && (fst key =? model_version).

(** The [UPDATE] of [get_batch_to_process] on a row, with the trigger
    [update_status_changed]. *)
Definition claim (now : Z) (task : Task Json) : Task Json :=
  {| status := Processing;
     statusChanged := now;
     attempts := attempts task + 1;
     result := result task |}.

(** The statement of [get_batch_to_process] in a transaction that starts at
    [now]: [scan] lists the keys in the order in which the database visits
    the rows, without the rows that other transactions hold locked; the
    first [max_batch_size] rows that the [WHERE] clause accepts are updated,
    and their paper ids returned. *)
Fixpoint get_batch_to_process (now : Z) (model_version : Z) (max_batch_size : nat)
    (scan : list (Z * str)) (tasks : Tasks Json) : list str * Tasks Json :=
  match scan with
  | [] => ([], tasks)
  | key :: rest =>
      match max_batch_size with
      | O => ([], tasks)
      | S limit =>
          match tasks !! key with
          | Some task =>
              if selectable now model_version key task then
                let '(paper_ids, tasks) :=
                  get_batch_to_process now model_version limit rest
                    (<[key := claim now task]> tasks) in
                (snd key :: paper_ids, tasks)
              else get_batch_to_process now model_version max_batch_size rest tasks
          | None => get_batch_to_process now model_version max_batch_size rest tasks
          end
      end
  end.

(** [INSERT ... VALUES (model_version, pid, new_status, 1, result) ON CONFLICT
    ... DO UPDATE SET status = EXCLUDED.status, result = EXCLUDED.result]; a
    new row takes the default of [statusChanged], and the trigger fires on
    the update of [status]. *)
Definition upsert (now : Z) (model_version : Z) (new_status : processing_status)
    (tasks : Tasks Json) (item : str * Json) : Tasks Json :=
  let key := (model_version, fst item) in
  match tasks !! key with
  | None =>
      <[key := {| status := new_status; statusChanged := now; attempts := 1;
                  result := Some (snd item) |}]> tasks
  | Some task =>
      <[key := {| status := new_status; statusChanged := now;
                  attempts := attempts task; result := Some (snd item) |}]> tasks
  end.

(** [post_results(model_version, paper_id_to_result)], on the items of the
    dictionary. *)
Definition post_results (now : Z) (model_version : Z)
    (paper_id_to_result : list (str * Json)) (tasks : Tasks Json) : Tasks Json :=
  fold_left (upsert now model_version Done) paper_id_to_result tasks.

(** [post_errors(model_version, paper_id_to_error)] *)
Definition post_errors (now : Z) (model_version : Z)
    (paper_id_to_error : list (str * Json)) (tasks : Tasks Json) : Tasks Json :=
  fold_left (upsert now model_version Scheduled) paper_id_to_error tasks.

(** A call of a worker on the to-do list. *)
Inductive Call : Type :=
| GetBatch (now : Z) (model_version : Z) (max_batch_size : nat) (scan : list (Z * str))
| PostResults (now : Z) (model_version : Z) (paper_id_to_result : list (str * Json))
| PostErrors (now : Z) (model_version : Z) (paper_id_to_error : list (str * Json)).

(** The calls of any number of workers, in the order in which their
    transactions commit: the batches handed out, with their model version,
    and the table at the end. *)
Fixpoint run (calls : list Call) (tasks : Tasks Json)
    : list (Z * list str) * Tasks Json :=
  match calls with
  | [] => ([], tasks)
  | GetBatch now model_version max_batch_size scan :: rest =>
      let '(paper_ids, tasks) :=
        get_batch_to_process now model_version max_batch_size scan tasks in
      let '(batches, tasks) := run rest tasks in
      ((model_version, paper_ids) :: batches, tasks)
  | PostResults now model_version paper_id_to_result :: rest =>
      run rest (post_results now model_version paper_id_to_result tasks)
  | PostErrors now model_version paper_id_to_error :: rest =>
      run rest (post_errors now model_version paper_id_to_error tasks)
  end.

End Tasks.

End DBTodoList.

Module TodoListFacts.
Import DBTodoList.
Local Open Scope Z_scope.

Section Facts.
Context {Json : Type}.
Implicit Types (tasks : Tasks Json) (task : Task Json) (key : Z * str).

Lemma selectable_attempts now model_version key task :
  selectable now model_version key task = true ->
  attempts task < 5 /\ fst key = model_version /\
  (status task = Scheduled \/
   (status task = Processing /\ statusChanged task + five_minutes < now)).
Proof.
  unfold selectable, effectiveStatus, effective_status_fn.
  destruct task as [st changed n r]. cbn.
  destruct st; cbn;
    destruct (Z.leb_spec 5 n); destruct (Z.ltb_spec (changed + five_minutes) now);
    cbn; try discriminate;
    destruct (Z.eqb_spec (fst key) model_version); cbn; try discriminate;
    intros _; repeat split; auto; lia.
Qed.

Lemma claimed_not_selectable now now' model_version key task :
  now' <= now + five_minutes ->
  selectable now' model_version key (claim now task) = false.
Proof.
  intros Hnow. unfold selectable, effectiveStatus, effective_status_fn. cbn.
  destruct (Z.ltb_spec (now + five_minutes) now'); [lia|]. cbn.
  reflexivity.
Qed.

(** A row that the [WHERE] clause rejects is left as it is. *)
Lemma get_batch_keeps now model_version scan : forall max_batch_size tasks key task,
  tasks !! key = Some task ->
  selectable now model_version key task = false ->
  snd (get_batch_to_process now model_version max_batch_size scan tasks) !! key
  = Some task.
Proof.
  induction scan as [|k rest IH]; intros limit tasks key task Hrow Hno; [exact Hrow|].
  cbn [get_batch_to_process]. destruct limit as [|limit]; [exact Hrow|].
  destruct (tasks !! k) as [t|] eqn:Hk; [|apply IH; assumption].
  destruct (selectable now model_version k t) eqn:Hsel; [|apply IH; assumption].
  specialize (IH limit (<[k := claim now t]> tasks) key task).
  destruct (get_batch_to_process now model_version limit rest _) as [ids tasks'].
  cbn [snd] in *. apply IH; [|exact Hno].
  rewrite lookup_insert_ne; [exact Hrow|].
  intros ->. rewrite Hk in Hrow. injection Hrow as ->. congruence.
Qed.

(** A paper that is handed out had a row that the [WHERE] clause accepts. *)
Lemma get_batch_selected now model_version scan : forall max_batch_size tasks paper_id,
  paper_id ∈ fst (get_batch_to_process now model_version max_batch_size scan tasks) ->
  exists task,
    tasks !! (model_version, paper_id) = Some task /\
    selectable now model_version (model_version, paper_id) task = true.
Proof.
  induction scan as [|k rest IH]; intros limit tasks paper_id Hin; [inversion Hin|].
  cbn [get_batch_to_process] in Hin. destruct limit as [|limit]; [inversion Hin|].
  destruct (tasks !! k) as [t|] eqn:Hk; [|apply (IH _ _ _ Hin)].
  destruct (selectable now model_version k t) eqn:Hsel; [|apply (IH _ _ _ Hin)].
  specialize (IH limit (<[k := claim now t]> tasks) paper_id).
  destruct (get_batch_to_process now model_version limit rest _) as [ids tasks'].
  cbn [fst] in *.
  pose proof (selectable_attempts _ _ _ _ Hsel) as (_ & Hmv & _).
  apply elem_of_cons in Hin as [->|Hin].
  - exists t. destruct k as [mv p]. cbn in *. subst mv. split; assumption.
  - destruct (IH Hin) as (task & Hrow & Htask).
    destruct (decide (k = (model_version, paper_id))) as [->|Hne].
    + rewrite lookup_insert_eq in Hrow. injection Hrow as <-.
      rewrite (claimed_not_selectable now now) in Htask by (unfold five_minutes; lia).
      discriminate.
    + rewrite lookup_insert_ne in Hrow by exact Hne. exists task. split; assumption.
Qed.

(** A paper that is handed out is left in processing, since [now], with one
    more attempt. *)
Lemma get_batch_claimed now model_version scan : forall max_batch_size tasks paper_id,
  paper_id ∈ fst (get_batch_to_process now model_version max_batch_size scan tasks) ->
  exists task,
    tasks !! (model_version, paper_id) = Some task /\
    snd (get_batch_to_process now model_version max_batch_size scan tasks)
      !! (model_version, paper_id) = Some (claim now task).
Proof.
  induction scan as [|k rest IH]; intros limit tasks paper_id Hin; [inversion Hin|].
  cbn [get_batch_to_process] in *. destruct limit as [|limit]; [inversion Hin|].
  destruct (tasks !! k) as [t|] eqn:Hk; [|apply (IH _ _ _ Hin)].
  destruct (selectable now model_version k t) eqn:Hsel; [|apply (IH _ _ _ Hin)].
  pose proof (get_batch_keeps now model_version rest limit
                (<[k := claim now t]> tasks)) as Hkeep.
  pose proof (get_batch_selected now model_version rest limit
                (<[k := claim now t]> tasks) paper_id) as Hsel'.
  specialize (IH limit (<[k := claim now t]> tasks) paper_id).
  destruct (get_batch_to_process now model_version limit rest _) as [ids tasks'].
  cbn [fst snd] in *.
  pose proof (selectable_attempts _ _ _ _ Hsel) as (_ & Hmv & _).
  destruct (decide (k = (model_version, paper_id))) as [->|Hne].
  - exists t. split; [exact Hk|]. apply Hkeep; [apply lookup_insert_eq|].
    apply claimed_not_selectable. unfold five_minutes. lia.
  - apply elem_of_cons in Hin as [->|Hin].
    + destruct k as [mv p]. cbn in *. congruence.
    + destruct (IH Hin) as (task & Hrow & Hafter).
      rewrite lookup_insert_ne in Hrow by exact Hne. exists task. split; assumption.
Qed.

Lemma get_batch_NoDup now model_version scan : forall max_batch_size tasks,
  NoDup (fst (get_batch_to_process now model_version max_batch_size scan tasks)) /\
  (length (fst (get_batch_to_process now model_version max_batch_size scan tasks))
   <= max_batch_size)%nat.
Proof.
  induction scan as [|k rest IH]; intros limit tasks; [split; [constructor|simpl; lia]|].
  cbn [get_batch_to_process]. destruct limit as [|limit]; [split; [constructor|simpl; lia]|].
  destruct (tasks !! k) as [t|] eqn:Hk; [|apply IH].
  destruct (selectable now model_version k t) eqn:Hsel; [|apply IH].
  pose proof (get_batch_selected now model_version rest limit
                (<[k := claim now t]> tasks) (snd k)) as Hagain.
  specialize (IH limit (<[k := claim now t]> tasks)).
  destruct (get_batch_to_process now model_version limit rest _) as [ids tasks'].
  cbn [fst] in *. destruct IH as [Hnd Hlen]. split; [|simpl; lia].
  constructor; [|exact Hnd]. intros Hin.
  destruct (Hagain Hin) as (task & Hrow & Htask).
  pose proof (selectable_attempts _ _ _ _ Hsel) as (_ & Hmv & _).
  destruct k as [mv p]. cbn in *. subst mv.
  rewrite lookup_insert_eq in Hrow. injection Hrow as <-.
  rewrite (claimed_not_selectable now now) in Htask by (unfold five_minutes; lia).
  discriminate.
Qed.

(** How often a paper occurs in the batches of a model version. *)
Definition handed_out (model_version : Z) (paper_id : str)
    (batches : list (Z * list str)) : nat :=
  sum_list (map (fun batch =>
                   if decide (fst batch = model_version)
                   then length (List.filter (fun p => bool_decide (p = paper_id)) (snd batch))
                   else 0%nat)
                batches).

(** How often a row can still be handed out: a row counts its attempts, and
    a paper without a row can only get one with one attempt. *)
Definition budget (tasks : Tasks Json) (key : Z * str) : nat :=
  match tasks !! key with
  | Some task => Z.to_nat (5 - attempts task)
  | None => 4
  end.

Lemma budget_insert_ne tasks k key task :
  k <> key -> budget (<[k := task]> tasks) key = budget tasks key.
Proof. intros Hne. unfold budget. now rewrite lookup_insert_ne. Qed.

Lemma get_batch_budget now model_version scan : forall max_batch_size tasks key,
  fst key = model_version ->
  (length (List.filter (fun p => bool_decide (p = snd key))
             (fst (get_batch_to_process now model_version max_batch_size scan tasks)))
   + budget (snd (get_batch_to_process now model_version max_batch_size scan tasks)) key
   <= budget tasks key)%nat.
Proof.
  induction scan as [|k rest IH]; intros limit tasks key Hmv; [simpl; lia|].
  cbn [get_batch_to_process]. destruct limit as [|limit]; [simpl; lia|].
  destruct (tasks !! k) as [t|] eqn:Hk; [|apply IH, Hmv].
  destruct (selectable now model_version k t) eqn:Hsel; [|apply IH, Hmv].
  specialize (IH limit (<[k := claim now t]> tasks) key Hmv).
  destruct (get_batch_to_process now model_version limit rest _) as [ids tasks'].
  cbn [fst snd] in *.
  pose proof (selectable_attempts _ _ _ _ Hsel) as (Hattempts & Hmv' & _).
  cbn [List.filter]. destruct (decide (k = key)) as [->|Hne].
  - rewrite bool_decide_eq_true_2 by reflexivity. cbn [length].
    unfold budget in IH at 2. rewrite lookup_insert_eq in IH. cbn [claim attempts] in IH.
    unfold budget at 2. rewrite Hk. lia.
  - rewrite budget_insert_ne in IH by exact Hne.
    rewrite bool_decide_eq_false_2; [exact IH|].
    intros Heq. apply Hne. destruct k, key. cbn in *. congruence.
Qed.

Lemma get_batch_other_version now model_version scan : forall max_batch_size tasks key,
  fst key <> model_version ->
  snd (get_batch_to_process now model_version max_batch_size scan tasks) !! key
  = tasks !! key.
Proof.
  induction scan as [|k rest IH]; intros limit tasks key Hmv; [reflexivity|].
  cbn [get_batch_to_process]. destruct limit as [|limit]; [reflexivity|].
  destruct (tasks !! k) as [t|] eqn:Hk; [|apply IH, Hmv].
  destruct (selectable now model_version k t) eqn:Hsel; [|apply IH, Hmv].
  specialize (IH limit (<[k := claim now t]> tasks) key Hmv).
  destruct (get_batch_to_process now model_version limit rest _) as [ids tasks'].
  cbn [snd] in *. rewrite IH.
  pose proof (selectable_attempts _ _ _ _ Hsel) as (_ & Hmv' & _).
  apply lookup_insert_ne. intros ->. contradiction.
Qed.

Lemma upsert_budget now model_version new_status tasks item key :
  budget (upsert now model_version new_status tasks item) key = budget tasks key.
Proof.
  unfold upsert. destruct (decide ((model_version, fst item) = key)) as [<-|Hne].
  - unfold budget. destruct (tasks !! (model_version, fst item)) as [task|] eqn:Hrow;
      rewrite lookup_insert_eq; reflexivity.
  - destruct (tasks !! (model_version, fst item)); apply budget_insert_ne, Hne.
Qed.

Lemma post_budget now model_version new_status items : forall tasks key,
  budget (fold_left (upsert now model_version new_status) items tasks) key
  = budget tasks key.
Proof.
  induction items as [|item items IH]; intros tasks key; [reflexivity|].
  cbn [fold_left]. rewrite IH. apply upsert_budget.
Qed.

Lemma handed_out_cons model_version paper_id batch batches :
  handed_out model_version paper_id (batch :: batches)
  = ((if decide (fst batch = model_version)
      then length (List.filter (fun p => bool_decide (p = paper_id)) (snd batch))
      else 0) + handed_out model_version paper_id batches)%nat.
Proof. reflexivity. Qed.

Lemma run_budget (calls : list (@Call Json)) : forall tasks model_version paper_id,
  (handed_out model_version paper_id (fst (run calls tasks))
   + budget (snd (run calls tasks)) (model_version, paper_id)
   <= budget tasks (model_version, paper_id))%nat.
Proof.
  induction calls as [|[now mv limit scan|now mv items|now mv items] calls IH];
    intros tasks model_version paper_id; cbn [run]; [simpl; lia| | |].
  - pose proof (get_batch_budget now mv scan limit tasks (model_version, paper_id)) as Hb.
    pose proof (get_batch_other_version now mv scan limit tasks (model_version, paper_id))
      as Ho.
    destruct (get_batch_to_process now mv limit scan tasks) as [ids tasks1].
    specialize (IH tasks1 model_version paper_id).
    destruct (run calls tasks1) as [batches tasks2].
    cbn [fst snd] in *. rewrite handed_out_cons. cbn [fst snd].
    destruct (decide (mv = model_version)) as [->|Hne].
    + specialize (Hb eq_refl). lia.
    + assert (budget tasks1 (model_version, paper_id)
              = budget tasks (model_version, paper_id)) as <-.
      { unfold budget. rewrite Ho; [reflexivity|]. cbn. congruence. }
      lia.
  - specialize (IH (post_results now mv items tasks) model_version paper_id).
    unfold post_results in IH at 3. rewrite post_budget in IH. exact IH.
  - specialize (IH (post_errors now mv items tasks) model_version paper_id).
    unfold post_errors in IH at 3. rewrite post_budget in IH. exact IH.
Qed.

Lemma get_batch_attempts now model_version scan : forall max_batch_size tasks key task,
  fst key = model_version ->
  tasks !! key = Some task ->
  exists task',
    snd (get_batch_to_process now model_version max_batch_size scan tasks) !! key
    = Some task' /\
    attempts task'
    = attempts task
      + Z.of_nat (length (List.filter (fun p => bool_decide (p = snd key))
           (fst (get_batch_to_process now model_version max_batch_size scan tasks)))).
Proof.
  induction scan as [|k rest IH]; intros limit tasks key task Hmv Hrow.
  { exists task. split; [exact Hrow|simpl; lia]. }
  cbn [get_batch_to_process]. destruct limit as [|limit].
  { exists task. split; [exact Hrow|simpl; lia]. }
  destruct (tasks !! k) as [t|] eqn:Hk; [|apply IH; assumption].
  destruct (selectable now model_version k t) eqn:Hsel; [|apply IH; assumption].
  specialize (IH limit (<[k := claim now t]> tasks) key).
  destruct (get_batch_to_process now model_version limit rest _) as [ids tasks'].
  cbn [fst snd] in *.
  pose proof (selectable_attempts _ _ _ _ Hsel) as (_ & Hmv' & _).
  cbn [List.filter]. destruct (decide (k = key)) as [->|Hne].
  - rewrite bool_decide_eq_true_2 by reflexivity. cbn [length].
    destruct (IH (claim now t) Hmv (lookup_insert_eq _ _ _)) as (task' & Hafter & Hcount).
    exists task'. split; [exact Hafter|]. rewrite Hcount. cbn [claim attempts].
    rewrite Hk in Hrow. injection Hrow as ->. lia.
  - rewrite bool_decide_eq_false_2.
    + apply IH; [exact Hmv|]. now rewrite lookup_insert_ne.
    + intros Heq. apply Hne. destruct k, key. cbn in *. congruence.
Qed.

Lemma upsert_attempts now model_version new_status tasks item key task :
  tasks !! key = Some task ->
  exists task',
    upsert now model_version new_status tasks item !! key = Some task' /\
    attempts task' = attempts task.
Proof.
  intros Hrow. unfold upsert.
  destruct (decide ((model_version, fst item) = key)) as [<-|Hne].
  - rewrite Hrow, lookup_insert_eq. eexists. split; reflexivity.
  - exists task. split; [|reflexivity].
    destruct (tasks !! (model_version, fst item)); now rewrite lookup_insert_ne.
Qed.

Lemma post_attempts now model_version new_status items : forall tasks key task,
  tasks !! key = Some task ->
  exists task',
    fold_left (upsert now model_version new_status) items tasks !! key = Some task' /\
    attempts task' = attempts task.
Proof.
  induction items as [|item items IH]; intros tasks key task Hrow; [eauto|].
  cbn [fold_left].
  destruct (upsert_attempts now model_version new_status tasks item key task Hrow)
    as (task1 & Hrow1 & <-).
  apply IH, Hrow1.
Qed.

Lemma run_attempts (calls : list (@Call Json)) : forall tasks model_version paper_id task,
  tasks !! (model_version, paper_id) = Some task ->
  exists task',
    snd (run calls tasks) !! (model_version, paper_id) = Some task' /\
    attempts task'
    = attempts task
      + Z.of_nat (handed_out model_version paper_id (fst (run calls tasks))).
Proof.
  induction calls as [|[now mv limit scan|now mv items|now mv items] calls IH];
    intros tasks model_version paper_id task Hrow; cbn [run].
  - exists task. split; [exact Hrow|]. change (attempts task = attempts task + 0). lia.
  - pose proof (get_batch_attempts now mv scan limit tasks (model_version, paper_id) task)
      as Hb.
    pose proof (get_batch_other_version now mv scan limit tasks (model_version, paper_id))
      as Ho.
    destruct (get_batch_to_process now mv limit scan tasks) as [ids tasks1].
    specialize (IH tasks1 model_version paper_id).
    destruct (run calls tasks1) as [batches tasks2].
    cbn [fst snd] in *. rewrite handed_out_cons. cbn [fst snd].
    destruct (decide (mv = model_version)) as [->|Hne].
    + destruct (Hb eq_refl Hrow) as (task1 & Hrow1 & Hcount).
      destruct (IH task1 Hrow1) as (task' & Hrow' & Hcount').
      exists task'. split; [exact Hrow'|]. lia.
    + rewrite <- Ho in Hrow by (cbn; congruence).
      destruct (IH task Hrow) as (task' & Hrow' & Hcount').
      exists task'. split; [exact Hrow'|]. lia.
  - destruct (post_attempts now mv Done items tasks _ task Hrow) as (task1 & Hrow1 & <-).
    apply IH, Hrow1.
  - destruct (post_attempts now mv Scheduled items tasks _ task Hrow) as (task1 & Hrow1 & <-).
    apply IH, Hrow1.
Qed.

(** The row of a paper that was handed out at [now] and for which no error
    was posted since: in processing since [now], or done. *)
Definition leased (now : Z) (task : Task Json) : Prop :=
  (status task = Processing /\ statusChanged task = now) \/ status task = Done.

(** A call that cannot end the lease of a paper handed out at [now]: a batch
    for the model version is asked for within five minutes, and no error is
    posted for the paper and the model version. *)
Definition keeps_lease (now : Z) (model_version : Z) (paper_id : str) (call : @Call Json)
    : Prop :=
  match call with
  | GetBatch now' mv _ _ => mv = model_version -> now' <= now + five_minutes
  | PostResults _ _ _ => True
  | PostErrors _ mv paper_id_to_error =>
      mv = model_version -> paper_id ∉ map fst paper_id_to_error
  end.

Lemma leased_not_selectable now now' model_version key task :
  leased now task -> now' <= now + five_minutes ->
  selectable now' model_version key task = false.
Proof.
  intros [[Hstatus Hchanged]|Hstatus] Hnow;
    unfold selectable, effectiveStatus, effective_status_fn;
    destruct task as [st changed n r]; cbn in *; subst; cbn; [|reflexivity].
  destruct (Z.ltb_spec (now + five_minutes) now'); [lia|]. reflexivity.
Qed.

Lemma not_in_batch (paper_id : str) (paper_ids : list str) :
  paper_id ∉ paper_ids ->
  length (List.filter (fun p => bool_decide (p = paper_id)) paper_ids) = 0%nat.
Proof.
  induction paper_ids as [|p rest IH]; intros Hnot; [reflexivity|].
  cbn [List.filter]. rewrite bool_decide_eq_false_2.
  - apply IH. intros Hin. apply Hnot. now right.
  - intros ->. apply Hnot. left.
Qed.

Lemma post_other now model_version new_status items : forall tasks key,
  (fst key = model_version -> snd key ∉ map fst items) ->
  fold_left (upsert now model_version new_status) items tasks !! key = tasks !! key.
Proof.
  induction items as [|item items IH]; intros tasks key Hother; [reflexivity|].
  cbn [fold_left]. rewrite IH.
  - unfold upsert.
    assert (Hne : (model_version, fst item) <> key).
    { intros <-. apply (Hother eq_refl). left. }
    destruct (tasks !! (model_version, fst item)); now rewrite lookup_insert_ne.
  - intros Hmv Hin. apply (Hother Hmv). now right.
Qed.

Lemma post_results_leased now now' model_version items : forall tasks key task,
  tasks !! key = Some task -> leased now task ->
  exists task',
    fold_left (upsert now' model_version Done) items tasks !! key = Some task' /\
    leased now task'.
Proof.
  induction items as [|item items IH]; intros tasks key task Hrow Hleased; [eauto|].
  cbn [fold_left]. unfold upsert at 2.
  destruct (decide ((model_version, fst item) = key)) as [<-|Hne].
  - rewrite Hrow. eapply IH; [apply lookup_insert_eq|]. right. reflexivity.
  - eapply IH; [|exact Hleased].
    destruct (tasks !! (model_version, fst item)); now rewrite lookup_insert_ne.
Qed.

Lemma run_leased now model_version paper_id (calls : list (@Call Json)) :
  forall tasks task,
    Forall (keeps_lease now model_version paper_id) calls ->
    tasks !! (model_version, paper_id) = Some task -> leased now task ->
    handed_out model_version paper_id (fst (run calls tasks)) = 0%nat.
Proof.
  induction calls as [|[now' mv limit scan'|now' mv items|now' mv items] calls IH];
    intros tasks task Hcalls Hrow Hleased; cbn [run]; [reflexivity| | |];
    apply Forall_cons in Hcalls as [Hcall Hcalls]; cbn [keeps_lease] in Hcall.
  - pose proof (get_batch_keeps now' mv scan' limit tasks (model_version, paper_id) task Hrow)
      as Hkeep.
    pose proof (get_batch_selected now' mv scan' limit tasks paper_id) as Hsel.
    pose proof (get_batch_other_version now' mv scan' limit tasks (model_version, paper_id))
      as Hother.
    destruct (get_batch_to_process now' mv limit scan' tasks) as [ids tasks1].
    specialize (IH tasks1 task Hcalls).
    destruct (run calls tasks1) as [batches tasks2].
    cbn [fst snd] in *. rewrite handed_out_cons. cbn [fst snd].
    destruct (decide (mv = model_version)) as [->|Hne].
    + assert (Hno : selectable now' model_version (model_version, paper_id) task = false)
        by (apply (leased_not_selectable now); auto).
      rewrite not_in_batch, IH; auto.
      intros Hin. destruct (Hsel Hin) as (task' & Hrow' & Hyes). congruence.
    + rewrite IH; auto. rewrite Hother; [exact Hrow|]. cbn. congruence.
  - destruct (post_results_leased now now' mv items tasks _ task Hrow Hleased)
      as (task' & Hrow' & Hleased').
    apply (IH _ task' Hcalls Hrow' Hleased').
  - apply (IH _ task Hcalls); [|exact Hleased].
    unfold post_errors. rewrite post_other; [exact Hrow|]. cbn. intros <-. auto.
Qed.

(** X23: A batch holds at most [max_batch_size] papers, each once; and a
    paper that is handed out is leased: whatever the workers call afterwards,
    no call of [get_batch_to_process] whose transaction starts within five
    minutes hands the paper out again for the model version - whatever rows
    the calls visit, however large their batches, whatever results are posted
    and whatever errors for other papers - as long as no error is posted for
    the paper and the model version: posting an error schedules it again at
    once. *)
Theorem handed_out_paper_is_leased (now model_version : Z) (max_batch_size : nat)
    (scan : list (Z * str)) (tasks : Tasks Json) (paper_id : str)
    (calls : list (@Call Json)) :
  paper_id ∈ fst (get_batch_to_process now model_version max_batch_size scan tasks) ->
  Forall (keeps_lease now model_version paper_id) calls ->
  NoDup (fst (get_batch_to_process now model_version max_batch_size scan tasks)) /\
  (length (fst (get_batch_to_process now model_version max_batch_size scan tasks))
   <= max_batch_size)%nat /\
  handed_out model_version paper_id
    (fst (run calls (snd (get_batch_to_process now model_version max_batch_size scan
                                               tasks)))) = 0%nat.
Proof.
  intros Hin Hcalls.
  destruct (get_batch_NoDup now model_version scan max_batch_size tasks) as [Hnd Hlen].
  split; [exact Hnd|]. split; [exact Hlen|].
  destruct (get_batch_claimed _ _ _ _ _ _ Hin) as (task & _ & Hafter).
  apply (run_leased now model_version paper_id calls _ (claim now task) Hcalls Hafter).
  left. split; reflexivity.
Qed.

(** X24: The retry budget: whatever the workers call, in whatever order and
    at whatever times, a paper whose row counts [n] attempts at the start is
    handed out for its model version at most [5 - n] times, and a paper
    without a row at most four times; its row counts one more attempt each
    time it is handed out, and no call takes an attempt back: posting an
    error schedules the paper again within the same budget. *)
Theorem paper_is_handed_out_at_most_five_times (calls : list (@Call Json))
    (tasks : Tasks Json) (model_version : Z) (paper_id : str) :
  match tasks !! (model_version, paper_id) with
  | Some task =>
      (handed_out model_version paper_id (fst (run calls tasks))
       <= Z.to_nat (5 - attempts task))%nat /\
      exists task',
        snd (run calls tasks) !! (model_version, paper_id) = Some task' /\
        attempts task'
        = attempts task
          + Z.of_nat (handed_out model_version paper_id (fst (run calls tasks)))
  | None => (handed_out model_version paper_id (fst (run calls tasks)) <= 4)%nat
  end.
Proof.
  pose proof (run_budget calls tasks model_version paper_id) as Hbudget.
  pose proof (run_attempts calls tasks model_version paper_id) as Hattempts.
  unfold budget at 2 in Hbudget.
  destruct (tasks !! (model_version, paper_id)) as [task|].
  - split; [lia|]. apply Hattempts. reflexivity.
  - lia.
Qed.

End Facts.

(** A table with two scheduled papers. *)
Definition example_tasks : Tasks unit :=
  {[ (1, ascii_str "paper") :=
       {| status := Scheduled; statusChanged := 0; attempts := 0; result := None |};
     (1, ascii_str "other") :=
       {| status := Scheduled; statusChanged := 0; attempts := 0; result := None |} ]}.

(** What the workers call after the first batch: a second worker takes the
    rest of the queue, fails on its paper and posts the error; a batch is
    asked for again; the first worker posts its result, and a last batch is
    asked for, five minutes after the first. *)
Definition example_calls : list (@Call unit) :=
  [ GetBatch 2000 1 100 [(1, ascii_str "other"); (1, ascii_str "paper")];
    PostErrors 3000 1 [(ascii_str "other", tt)];
    GetBatch 4000 1 100 [(1, ascii_str "paper"); (1, ascii_str "other")];
    PostResults 5000 1 [(ascii_str "paper", tt)];
    GetBatch (1000 + five_minutes) 1 100 [(1, ascii_str "paper"); (1, ascii_str "other")] ].

(** X23, witness: the paper is handed out at the time 1000, alone in a batch
    of one, and not again within five minutes, while the other paper, for
    which an error is posted, is handed out twice in that time. *)
Lemma handed_out_paper_is_leased_witness :
  fst (get_batch_to_process 1000 1 1 [(1, ascii_str "paper"); (1, ascii_str "other")]
                            example_tasks) = [ascii_str "paper"] /\
  handed_out 1 (ascii_str "paper")
    (fst (run example_calls
            (snd (get_batch_to_process 1000 1 1
                    [(1, ascii_str "paper"); (1, ascii_str "other")] example_tasks))))
  = 0%nat /\
  handed_out 1 (ascii_str "other")
    (fst (run example_calls
            (snd (get_batch_to_process 1000 1 1
                    [(1, ascii_str "paper"); (1, ascii_str "other")] example_tasks))))
  = 2%nat.
Proof.
  assert (Hbatch : fst (get_batch_to_process 1000 1 1
                          [(1, ascii_str "paper"); (1, ascii_str "other")] example_tasks)
                   = [ascii_str "paper"])
    by (vm_compute; reflexivity).
  assert (Hin : ascii_str "paper"
                  ∈ fst (get_batch_to_process 1000 1 1
                           [(1, ascii_str "paper"); (1, ascii_str "other")] example_tasks))
    by (rewrite Hbatch; left).
  assert (Hcalls : Forall (keeps_lease 1000 1 (ascii_str "paper")) example_calls).
  { repeat constructor; cbn; intros _; try (unfold five_minutes; lia).
    intros Hother. apply list_elem_of_singleton in Hother. discriminate Hother. }
  split; [exact Hbatch|]. split.
  - apply (handed_out_paper_is_leased 1000 1 1
             [(1, ascii_str "paper"); (1, ascii_str "other")] example_tasks
             (ascii_str "paper") example_calls Hin Hcalls).
  - vm_compute. reflexivity.
Defined.

End TodoListFacts.

(** ** The helpers and the loops of the worker *)

Module Worker.
Local Open Scope Z_scope.

(** The content of a binary file or stream. *)
Abbreviation bytes := (list Byte.byte).

Section SendAll.
(** A source with its [read(n)]: the bytes read, and the source after. *)
Variable Source : Type.
Variable read : Source -> Z -> bytes * Source.

(** The loop of [_send_all] with [dest] as the bytes written so far; [fuel]
    bounds the number of iterations. *)
Fixpoint send_loop (fuel : nat) (source : Source) (dest : bytes) (nbytes : option Z)
    (nsent : Z) : option (Source * bytes) :=
  match fuel with
  | O => None
  | S fuel =>
      if match nbytes with None => true | Some nbytes => nsent <? nbytes end then
        let tosend := 64 * 1024 in
        let tosend :=
          match nbytes with
          | Some nbytes => Z.min tosend (nbytes - nsent)
          | None => tosend
          end in
        let '(buf, source) := read source tosend in
        match buf with
        | [] => Some (source, dest)
        | _ => send_loop fuel source (dest ++ buf) nbytes (nsent + Z.of_nat (length buf))
        end
      else Some (source, dest)
  end.

(** [_send_all(source, dest, nbytes)] *)
Definition _send_all (fuel : nat) (source : Source) (dest : bytes) (nbytes : option Z)
    : option (Source * bytes) :=
  send_loop fuel source dest nbytes 0.

End SendAll.

(** [_sanitize_for_json(s)] *)
Definition _sanitize_for_json (s : option str) : option str :=
  match s with
  | Some s => Some (map (fun c => if (c =? 0)%N then 65533%N else c) s)
  | None => None
  end.

(** *** Fetching the tokens of a paper *)

(** What a request to the dataprep server gives: a response with its status
    and with what the successive reads of its content give ([None] when the
    read raises; past the end of the list the content has ended), or an
    exception. *)
Inductive Response : Type :=
| Answer (status : nat) (content : list (option bytes))
| NoAnswer.

(** The loop that writes the content of a response to the file: the file
    after, and whether the content was read to its end. *)
Fixpoint write_content (content : list (option bytes)) (json_file : bytes) : bytes * bool :=
  match content with
  | [] => (json_file, true)
  | None :: _ => (json_file, false)
  | Some [] :: _ => (json_file, true)
  | Some chunk :: rest => write_content rest (json_file ++ chunk)
  end.

(** The loop of [write_json_tokens_to_file] against a server that gives
    [server k] to the request number [k]: the file after, and the number of
    requests made. *)
Fixpoint fetch_loop (fuel : nat) (server : nat -> Response) (attempts_left : Z)
    (requests : nat) (json_file : bytes) : option (bytes * nat) :=
  match fuel with
  | O => None
  | S fuel =>
      let attempts_left := attempts_left - 1 in
      let again json_file :=
        if 0 <? attempts_left
        then fetch_loop fuel server attempts_left (S requests) json_file
        else Some (json_file, S requests) in
      match server requests with
      | Answer status content =>
          if (status =? 200)%nat then
            let '(json_file, complete) := write_content content json_file in
            if complete then Some (json_file, S requests) else again json_file
          else again json_file
      | NoAnswer => again json_file
      end
  end.

Definition write_json_tokens_to_file (fuel : nat) (server : nat -> Response)
    (json_file : bytes) : option (bytes * nat) :=
  let attempts_left := 5 in
  fetch_loop fuel server attempts_left 0 json_file.

(** *** The errors of a batch *)

(** The value of ["error"] in a line of the token file. *)
Record Error : Type := {
  message : option str;
  stackTrace : option str;
  docName : str
}.

Definition dot_pdf : str := ascii_str ".pdf".

(** [s.endswith(suffix)] *)
Definition endswith (s suffix : str) : bool :=
  bool_decide (drop (length s - length suffix) s = suffix).

(** The loop that picks the errors out of the lines of the token file; a
    line without ["error"] is [None]. *)
Definition pick_error (paper_id_to_error : gmap str Error) (line : option Error)
    : gmap str Error :=
  match line with
  | None => paper_id_to_error
  | Some error =>
      let error :=
        {| message := _sanitize_for_json (message error);
           stackTrace := _sanitize_for_json (stackTrace error);
           docName := docName error |} in
      let paper_id := docName error in
      let paper_id :=
        if endswith paper_id dot_pdf then take (length paper_id - 4) paper_id
        else paper_id in
      <[paper_id := error]> paper_id_to_error
  end.

Definition errors_of_lines (lines : list (option Error)) : gmap str Error :=
  fold_left pick_error lines ∅.

End Worker.

Module WorkerFacts.
Import Worker.
Local Open Scope Z_scope.

(** *** [_send_all] *)

Section SendAllFacts.
Variable Source : Type.
Variable read : Source -> Z -> bytes * Source.
(** What is left to read from a source. *)
Variable remaining : Source -> bytes.
(** A read takes bytes from the front, not more than asked for, *)
Hypothesis read_prefix : forall source n,
  remaining source = fst (read source n) ++ remaining (snd (read source n)) /\
  Z.of_nat (length (fst (read source n))) <= Z.max 0 n.
(** and gives no bytes only at the end. *)
Hypothesis read_progress : forall source n,
  0 < n -> fst (read source n) = [] -> remaining source = [].

(** What is still to be copied when [nsent] bytes have been. *)
Definition to_send (nbytes : option Z) (nsent : Z) (left_to_read : bytes) : bytes :=
  match nbytes with
  | None => left_to_read
  | Some nbytes => take (Z.to_nat (nbytes - nsent)) left_to_read
  end.

Lemma send_loop_spec (nbytes : option Z) : forall fuel source dest nsent,
  (length (remaining source) < fuel)%nat ->
  exists source',
    send_loop Source read fuel source dest nbytes nsent
    = Some (source', dest ++ to_send nbytes nsent (remaining source)) /\
    remaining source'
    = drop (length (to_send nbytes nsent (remaining source))) (remaining source).
Proof.
  induction fuel as [|fuel IH]; intros source dest nsent Hfuel; [lia|].
  cbn [send_loop].
  set (tosend := match nbytes with
                 | Some nbytes => Z.min (64 * 1024) (nbytes - nsent)
                 | None => 64 * 1024
                 end).
  destruct (match nbytes with None => true | Some nbytes => nsent <? nbytes end) eqn:Hgo.
  - assert (Hpos : 0 < tosend).
    { unfold tosend. destruct nbytes as [n|]; [apply Z.ltb_lt in Hgo|]; lia. }
    destruct (read_prefix source tosend) as [Hsplit Hlen].
    pose proof (read_progress source tosend Hpos) as Hprogress.
    destruct (read source tosend) as [buf source1]. cbn [fst snd] in *.
    destruct buf as [|b buf].
    + rewrite (Hprogress eq_refl). exists source1.
      rewrite Hprogress in Hsplit by reflexivity. cbn [app] in Hsplit.
      unfold to_send. destruct nbytes; rewrite ?take_nil, app_nil_r; split; auto.
    + specialize (IH source1 (dest ++ b :: buf) (nsent + Z.of_nat (length (b :: buf)))).
      destruct IH as (source' & -> & Hrest).
      { rewrite Hsplit, length_app in Hfuel. cbn [length] in *. lia. }
      exists source'. rewrite Hsplit, Hrest. unfold to_send. destruct nbytes as [n|].
      * unfold tosend in Hlen.
        replace (Z.to_nat (n - nsent))
          with (length (b :: buf) + Z.to_nat (n - (nsent + Z.of_nat (length (b :: buf)))))%nat
          by lia.
        rewrite take_app_add, <- app_assoc. split; [reflexivity|].
        rewrite length_app, drop_app_add. reflexivity.
      * rewrite <- app_assoc. split; [reflexivity|].
        rewrite !drop_all. reflexivity.
  - destruct nbytes as [n|]; [|discriminate]. apply Z.ltb_ge in Hgo.
    exists source. unfold to_send. replace (Z.to_nat (n - nsent)) with 0%nat by lia.
    cbn. rewrite app_nil_r. split; reflexivity.
Qed.

End SendAllFacts.

(** X26: [_send_all] copies what the source holds, up to [nbytes] bytes
    when [nbytes] is given, to the end of the destination, in order and
    without loss, however short the reads are; the source is left at the
    first byte that was not copied, and a negative [nbytes] copies nothing.
    The loop ends within one iteration more than the source holds bytes. *)
Theorem send_all_copies_a_prefix (Source : Type) (read : Source -> Z -> bytes * Source)
    (remaining : Source -> bytes) (fuel : nat) (source : Source) (dest : bytes)
    (nbytes : option Z) :
  (forall source n,
     remaining source = fst (read source n) ++ remaining (snd (read source n)) /\
     Z.of_nat (length (fst (read source n))) <= Z.max 0 n) ->
  (forall source n, 0 < n -> fst (read source n) = [] -> remaining source = []) ->
  (length (remaining source) < fuel)%nat ->
  exists source',
    _send_all Source read fuel source dest nbytes
    = Some (source',
            dest ++ match nbytes with
                    | None => remaining source
                    | Some nbytes => take (Z.to_nat nbytes) (remaining source)
                    end) /\
    remaining source'
    = match nbytes with
      | None => []
      | Some nbytes => drop (Z.to_nat nbytes) (remaining source)
      end.
Proof.
  intros Hprefix Hprogress Hfuel. unfold _send_all.
  destruct (send_loop_spec Source read remaining Hprefix Hprogress nbytes fuel source
              dest 0 Hfuel) as (source' & Hsent & Hleft).
  exists source'. unfold to_send in *. destruct nbytes as [n|].
  - rewrite Z.sub_0_r in *. split; [exact Hsent|]. rewrite Hleft.
    rewrite length_take. destruct (Nat.le_gt_cases (Z.to_nat n) (length (remaining source))).
    + now rewrite Nat.min_l by lia.
    + rewrite Nat.min_r by lia. now rewrite drop_all, drop_ge by lia.
  - split; [exact Hsent|]. now rewrite Hleft, drop_all.
Qed.

(** A source that gives at most three bytes to a read. *)
Definition short_read (source : bytes) (n : Z) : bytes * bytes :=
  (take (Z.to_nat (Z.min n 3)) source, drop (Z.to_nat (Z.min n 3)) source).

(** X26, witness: four of five bytes from a source with short reads. *)
Lemma send_all_copies_a_prefix_witness :
  exists source',
    _send_all bytes short_read 6 [Byte.x61; Byte.x62; Byte.x63; Byte.x64; Byte.x65]
              [Byte.x7a] (Some 4)
    = Some (source', [Byte.x7a; Byte.x61; Byte.x62; Byte.x63; Byte.x64]) /\
    source' = [Byte.x65].
Proof.
  apply (send_all_copies_a_prefix bytes short_read (fun source => source) 6
           [Byte.x61; Byte.x62; Byte.x63; Byte.x64; Byte.x65] [Byte.x7a] (Some 4)).
  - intros source n. unfold short_read. cbn [fst snd]. split.
    + symmetry. apply take_drop.
    + rewrite length_take. lia.
  - intros source n Hn. unfold short_read. cbn [fst].
    destruct (Z.to_nat (Z.min n 3)) eqn:Hk; [lia|].
    destruct source; [reflexivity|discriminate].
  - simpl. lia.
Defined.

(** *** Fetching the tokens of a paper *)

(** What a response adds to the file, and whether it ends the loop. *)
Definition written (response : Response) : bytes :=
  match response with
  | Answer status content =>
      if (status =? 200)%nat then fst (write_content content []) else []
  | NoAnswer => []
  end.

Definition completes (response : Response) : bool :=
  match response with
  | Answer status content => (status =? 200)%nat && snd (write_content content [])
  | NoAnswer => false
  end.

Lemma write_content_app content : forall json_file,
  write_content content json_file
  = (json_file ++ fst (write_content content []), snd (write_content content [])).
Proof.
  induction content as [|[[|b chunk]|] rest IH]; intros json_file; cbn [write_content].
  - now rewrite app_nil_r.
  - now rewrite app_nil_r.
  - rewrite IH, (IH ([] ++ b :: chunk)). cbn [fst snd]. now rewrite <- app_assoc.
  - now rewrite app_nil_r.
Qed.

Lemma fetch_step fuel server attempts_left requests json_file :
  fetch_loop (S fuel) server attempts_left requests json_file
  = if completes (server requests) || negb (0 <? attempts_left - 1)
    then Some (json_file ++ written (server requests), S requests)
    else fetch_loop fuel server (attempts_left - 1) (S requests)
           (json_file ++ written (server requests)).
Proof.
  cbn [fetch_loop]. unfold completes, written.
  destruct (server requests) as [status content|].
  - destruct (status =? 200)%nat; cbn [andb orb].
    + rewrite write_content_app. cbn [fst snd].
      destruct (snd (write_content content [])); cbn [orb]; [reflexivity|].
      destruct (0 <? attempts_left - 1); reflexivity.
    + rewrite app_nil_r. destruct (0 <? attempts_left - 1); reflexivity.
  - cbn [orb]. rewrite app_nil_r. destruct (0 <? attempts_left - 1); reflexivity.
Qed.

Lemma fetch_loop_spec server : forall fuel attempts requests json_file,
  (1 <= attempts <= fuel)%nat ->
  exists n,
    fetch_loop fuel server (Z.of_nat attempts) requests json_file
    = Some (json_file ++ concat (map (fun k => written (server k)) (seq requests (S n))),
            (requests + S n)%nat) /\
    (n < attempts)%nat /\
    (forall k, (k < n)%nat -> completes (server (requests + k)%nat) = false) /\
    ((S n < attempts)%nat -> completes (server (requests + n)%nat) = true).
Proof.
  induction fuel as [|fuel IH]; intros attempts requests json_file Hle; [lia|].
  rewrite fetch_step.
  destruct (completes (server requests)) eqn:Hdone; cbn [orb].
  - exists 0%nat. cbn [seq map concat]. rewrite app_nil_r, Nat.add_0_r, Nat.add_1_r.
    split; [reflexivity|]. split; [lia|]. split; [intros k Hk; lia|]. intros _. exact Hdone.
  - destruct (Z.ltb_spec 0 (Z.of_nat attempts - 1)); cbn [negb].
    + destruct (IH (attempts - 1)%nat (S requests) (json_file ++ written (server requests)))
        as (n & Hrun & Hn & Hbefore & Hlast); [lia|].
      replace (Z.of_nat attempts - 1) with (Z.of_nat (attempts - 1)) by lia.
      exists (S n). rewrite Hrun. split.
      { cbn [seq map concat]. rewrite <- app_assoc. f_equal. f_equal. lia. }
      split; [lia|]. split.
      * intros [|k] Hk; [now rewrite Nat.add_0_r|].
        rewrite <- Nat.add_succ_comm. apply Hbefore. lia.
      * intros Hmore. rewrite <- Nat.add_succ_comm. apply Hlast. lia.
    + exists 0%nat. cbn [seq map concat]. rewrite app_nil_r, Nat.add_1_r.
      split; [reflexivity|]. split; [lia|]. split; [intros k Hk; lia|]. lia.
Qed.

(** X25: Fetching the tokens of a paper makes at least one and at most
    five requests, and always ends.  It stops at the first response with
    status 200 whose content is read to its end, and otherwise after the
    fifth request.  The file keeps what it held; every response with status
    200 adds what was read of its content before the request ended or failed,
    so a failed read leaves a partial copy before the next attempt; other
    responses and exceptions add nothing. *)
Theorem fetch_makes_at_most_five_requests (fuel : nat) (server : nat -> Response)
    (json_file : bytes) :
  (5 <= fuel)%nat ->
  exists requests,
    write_json_tokens_to_file fuel server json_file
    = Some (json_file ++ concat (map (fun k => written (server k)) (seq 0 requests)),
            requests) /\
    (1 <= requests <= 5)%nat /\
    (forall k, (S k < requests)%nat -> completes (server k) = false) /\
    ((requests < 5)%nat -> completes (server (requests - 1)%nat) = true).
Proof.
  intros Hfuel. unfold write_json_tokens_to_file.
  destruct (fetch_loop_spec server fuel 5 0 json_file) as (n & Hrun & Hn & Hbefore & Hlast);
    [lia|].
  exists (S n). split; [exact Hrun|]. split; [lia|]. split.
  - intros k Hk. apply (Hbefore k). lia.
  - intros Hmore. replace (S n - 1)%nat with n by lia. apply Hlast. lia.
Qed.

(** A server that is unavailable twice and then answers. *)
Definition example_server (request : nat) : Response :=
  if (request =? 2)%nat then Answer 200 [Some [Byte.x7b; Byte.x7d]] else Answer 503 [].

(** X25, witness: the third request succeeds. *)
Lemma fetch_makes_at_most_five_requests_witness :
  exists requests,
    write_json_tokens_to_file 5 example_server []
    = Some ([] ++ concat (map (fun k => written (example_server k)) (seq 0 requests)),
            requests) /\
    (1 <= requests <= 5)%nat /\
    (forall k, (S k < requests)%nat -> completes (example_server k) = false) /\
    ((requests < 5)%nat -> completes (example_server (requests - 1)%nat) = true).
Proof. apply (fetch_makes_at_most_five_requests 5 example_server []). lia. Defined.

(** *** The errors of a batch *)

(** The paper id of an error: its document name without one [.pdf]. *)
Definition paper_id_of (error : Error) : str :=
  if endswith (docName error) dot_pdf
  then take (length (docName error) - 4) (docName error)
  else docName error.

Definition sanitized (error : Error) : Error :=
  {| message := _sanitize_for_json (message error);
     stackTrace := _sanitize_for_json (stackTrace error);
     docName := docName error |}.

(** The last error of a paper among some lines. *)
Definition last_error (paper_id : str) (lines : list (option Error)) : option Error :=
  last (List.filter (fun error => bool_decide (paper_id_of error = paper_id))
                    (omap id lines)).

Lemma errors_fold paper_id lines : forall paper_id_to_error,
  fold_left pick_error lines paper_id_to_error !! paper_id
  = match last_error paper_id lines with
    | Some error => Some (sanitized error)
    | None => paper_id_to_error !! paper_id
    end.
Proof.
  unfold last_error.
  induction lines as [|[error|] lines IH]; intros acc; cbn [fold_left]; [reflexivity| |].
  - rewrite IH. unfold omap. cbn [list_omap id]. fold (omap id lines). cbn [List.filter].
    change (pick_error acc (Some error)) with (<[paper_id_of error := sanitized error]> acc).
    destruct (last (List.filter _ (omap id lines))) as [later|] eqn:Hlater.
    + destruct (bool_decide (paper_id_of error = paper_id)); [|now rewrite Hlater].
      rewrite last_cons, Hlater. reflexivity.
    + destruct (bool_decide_reflect (paper_id_of error = paper_id)) as [Heq|Hne].
      * rewrite last_cons, Hlater, Heq, lookup_insert_eq. reflexivity.
      * rewrite Hlater, lookup_insert_ne by exact Hne. reflexivity.
  - rewrite IH. reflexivity.
Qed.

Lemma sanitize_for_json_no_nul (s : option str) (text : str) :
  _sanitize_for_json s = Some text -> 0%N ∉ text.
Proof.
  destruct s as [s|]; [|discriminate]. intros [= <-].
  induction s as [|c s IH]; cbn [map]; [apply not_elem_of_nil|].
  apply not_elem_of_cons. split; [|exact IH].
  destruct (N.eqb_spec c 0); [discriminate|congruence].
Qed.

(** X27: The errors that are posted for a batch: a paper has an entry
    exactly when a line of the token file carries an error for it, the paper
    of an error being its document name without one final [.pdf]; the entry
    is the last such error of the file, with every NUL character of its
    message and of its stack trace replaced, so that neither holds a NUL; a
    missing message or stack trace stays missing. *)
Theorem posted_errors_are_last_and_sanitized (lines : list (option Error))
    (paper_id : str) :
  errors_of_lines lines !! paper_id = sanitized <$> last_error paper_id lines /\
  (forall error text,
     errors_of_lines lines !! paper_id = Some error ->
     (message error = Some text \/ stackTrace error = Some text) -> 0%N ∉ text) /\
  (forall error,
     errors_of_lines lines !! paper_id = Some error ->
     exists line,
       Some line ∈ lines /\ docName error = docName line /\
       (docName line = paper_id \/ docName line = paper_id ++ dot_pdf) /\
       (message error = None <-> message line = None) /\
       (stackTrace error = None <-> stackTrace line = None)).
Proof.
  assert (Hlookup : errors_of_lines lines !! paper_id
                    = sanitized <$> last_error paper_id lines).
  { unfold errors_of_lines. rewrite errors_fold, lookup_empty.
    destruct (last_error paper_id lines); reflexivity. }
  split; [exact Hlookup|]. rewrite Hlookup. split.
  - intros error text Herror Htext.
    destruct (last_error paper_id lines) as [line|]; [|discriminate].
    injection Herror as <-. cbn [sanitized message stackTrace] in Htext.
    destruct Htext as [Htext|Htext]; eapply sanitize_for_json_no_nul, Htext.
  - intros error Herror. unfold last_error in Herror.
    destruct (last _) as [line|] eqn:Hlast; [|discriminate].
    injection Herror as <-. exists line.
    apply last_Some_elem_of in Hlast.
    apply list_elem_of_In, filter_In in Hlast as [Hin Hid].
    apply list_elem_of_In, list_elem_of_omap in Hin as (l & Hl & Hsome).
    cbn [id] in Hsome. subst l. apply bool_decide_eq_true_1 in Hid.
    split; [exact Hl|]. split; [reflexivity|]. split; [|split].
    + unfold paper_id_of, endswith in Hid.
      destruct (bool_decide_reflect
                  (drop (length (docName line) - length dot_pdf) (docName line) = dot_pdf))
        as [Hpdf|_]; [|left; exact Hid].
      right. rewrite <- Hid.
      transitivity (take (length (docName line) - 4) (docName line)
                    ++ drop (length (docName line) - 4) (docName line));
        [symmetry; apply take_drop|].
      f_equal. exact Hpdf.
    + cbn [sanitized message]. destruct (message line); cbn; split; congruence.
    + cbn [sanitized stackTrace]. destruct (stackTrace line); cbn; split; congruence.
Qed.

End WorkerFacts.

(** ** A concrete instance: ASCII text and exact matching

    The libraries are instantiated with functions on ASCII text that can be
    run: lower-casing of the letters A to Z, the identity for the
    compatibility normalization, the ASCII character classes, and a matcher
    that finds the first exact occurrence of the needle at cost 0 and
    otherwise reports the whole haystack at the cost of the needle's length. *)

Module Examples.
Import Labeler Builders.

Definition ascii_upper_char (c : N) : bool := ((65 <=? c) && (c <=? 90))%N.
Definition ascii_lower_char (c : N) : bool := ((97 <=? c) && (c <=? 122))%N.
Definition ascii_digit_char (c : N) : bool := ((48 <=? c) && (c <=? 57))%N.

Definition ascii_lower (text : str) : str :=
  map (fun c => if ascii_upper_char c then (c + 32)%N else c) text.

Fixpoint is_prefix (needle haystack : str) : bool :=
  match needle, haystack with
  | [], _ => true
  | _ :: _, [] => false
  | a :: needle', b :: haystack' => (a =? b)%N && is_prefix needle' haystack'
  end.

Fixpoint find_exact (needle haystack : str) (position : nat) : option nat :=
  match haystack with
  | [] => if is_prefix needle [] then Some position else None
  | _ :: rest =>
      if is_prefix needle haystack then Some position
      else find_exact needle rest (S position)
  end.

Definition exact_match (needle haystack : str) : MatchResult :=
  match find_exact needle haystack 0 with
  | Some position =>
      {| start_pos := position; end_pos := position + length needle; cost := 0 |}
  | None =>
      {| start_pos := 0; end_pos := length haystack; cost := length needle |}
  end.

Definition flag (b : bool) : Q := if b then 1 else 0.

Definition fraction (p : N -> bool) (text : str) : Q :=
  match text with
  | [] => 0
  | _ => inject_Z (Z.of_nat (length (List.filter p text)))
         / inject_Z (Z.of_nat (length text))
  end.

Definition ascii_capitalization_features (text : str) : list Q :=
  [ flag (ascii_upper_char (nth 0 text 0%N));
    flag (ascii_upper_char (nth 1 text 0%N));
    fraction ascii_upper_char text;
    flag (ascii_lower_char (nth 0 text 0%N));
    flag (ascii_lower_char (nth 1 text 0%N));
    fraction ascii_lower_char text;
    fraction ascii_digit_char text ].

Definition polynomial_hash (text : str) : Z :=
  (fold_left (fun h c => (h * 31 + Z.of_N c) mod 2 ^ 32) text 7 - 2 ^ 31)%Z.

Definition ascii_externals : Externals := {|
  str_lower := ascii_lower;
  unicodedata_normalize_NFKC := fun text => text;
  mmh3_hash := polynomial_hash;
  np_std := fun _ => 1;
  standard_normal := fun seed k => inject_Z ((seed + Z.of_nat k) mod 5 - 2) / 2;
  re_word := fun c =>
    ascii_upper_char c || ascii_lower_char c || ascii_digit_char c || (c =? 95)%N;
  re_digit := ascii_digit_char;
  re_space := fun c => ((c =? 32) || ((9 <=? c) && (c <=? 13)))%N;
  py_hash := fun l => fold_left (fun h x => (h * 1000003 + x) mod 2 ^ 61)%Z l 0%Z;
  os_path_basename := fun path => List.last (split_slash [] path) [];
  stringmatch_match := exact_match;
  capitalization_features := ascii_capitalization_features;
  h5_uint32_of_negative := fun x => (x mod 2 ^ 32)%Z
|}.

#[local] Existing Instance ascii_externals.

(** The one-page document of the specification's end-to-end example. *)
Definition token (text : string) (left' : Q) : Token :=
  {| tok_text := ascii_str text; tok_font := ascii_str "Times";
     tok_left := left'; tok_right := left' + 10;
     tok_top := 10; tok_bottom := 20;
     tok_font_size := 8; tok_font_space_width := 2 |}.

Definition example_page : Page :=
  {| page_width := 100; page_height := 100;
     page_tokens := [token "Deep" 0; token "Learning" 10; token "for" 20;
                     token "NLP" 30; token "John" 40; token "Smith" 50] |}.

Definition example_doc : Doc :=
  {| doc_id := ascii_str "0123456789abcdef0123456789abcdef01234567/paper.pdf";
     doc_sha := ascii_str "0123456789abcdef0123456789abcdef01234567";
     doc_pages := [example_page] |}.

Definition example_nxml : NxmlFile :=
  NxmlParsed {| article_titles := [ascii_str "Deep Learning for NLP"];
                author_nodes := [(ascii_str "John", ascii_str "Smith")] |}.

Definition signed_page : Page :=
  {| page_width := 100; page_height := 100;
     page_tokens := [token "John" 0; token "Smith" 10; token "and" 20; token "more" 30] |}.

Definition short_title_doc : Doc :=
  {| doc_id := ascii_str "0123456789abcdef0123456789abcdef01234567/short.pdf";
     doc_sha := ascii_str "0123456789abcdef0123456789abcdef01234567";
     doc_pages :=
       [{| page_width := 100; page_height := 100;
           page_tokens := [token "Abcd" 0; token "John" 10; token "Smith" 20] |}] |}.

Definition short_title_nxml : NxmlFile :=
  NxmlParsed {| article_titles := [ascii_str "Abcd"];
                author_nodes := [(ascii_str "John", ascii_str "Smith")] |}.

Definition example_stats : TokenStatistics.StatsFile :=
  {| TokenStatistics.texts :=
       [(ascii_str "The", 5%nat); (ascii_str "the", 3%nat);
        (ascii_str "cat", 2%nat); (ascii_str "rare", 1%nat)];
     TokenStatistics.font_sizes := [(8, 200); (5, 2)];
     TokenStatistics.space_widths := [(2, 150); (3, 50)] |}.

Ltac prove_unit_values :=
  repeat constructor; try (vm_compute; intros Hcmp; discriminate Hcmp).

Definition wide_doc : Doc :=
  {| doc_id := ascii_str "0123456789abcdef0123456789abcdef01234567/wide.pdf";
     doc_sha := ascii_str "0123456789abcdef0123456789abcdef01234567";
     doc_pages :=
       [{| page_width := 100; page_height := 100;
           page_tokens := [token "Deep" 200] |}] |}.

Definition example_glove : list (str * list Q) :=
  [(ascii_str "the", [1 # 10; 2 # 10]); (ascii_str "Cat", [3 # 10; 4 # 10])].

Definition process_1 : Process :=
  {| np_random_seed := 1; np_random_drawn := 0; python_hash_seed := 11 |}.
Definition process_2 : Process :=
  {| np_random_seed := 2; np_random_drawn := 7; python_hash_seed := 22 |}.

Definition example_embeddings : CombinedEmbeddings.t :=
  {| CombinedEmbeddings.tokenstats := example_stats;
     CombinedEmbeddings.glove := example_glove;
     CombinedEmbeddings.min_token_freq := 2 |}.

Definition example_bucket : str := ascii_str "00".

Definition example_settings : ModelSettings :=
  {| max_page_number := 3; font_hash_size := 1024;
     minimum_token_frequency := 2; glove_vectors := ascii_str "glove/vectors.gz" |}.

(** A bucket with the dump and the reference file of the example document
    and, when [vision] is given, the output of the layout detector. *)
Definition example_fs (vision : option (list VisionOutput.Line)) : FS :=
  fun path =>
    if decide (path = RawTokensPath example_bucket)
    then Some (RawTokens [{| docId := ascii_str
                               "pmc/0123456789abcdef0123456789abcdef01234567/paper.pdf";
                             json_pages := [example_page] |}])
    else if decide (path = NxmlPath example_bucket (doc_id example_doc))
    then Some (NxmlDocument example_nxml)
    else if decide (path = VisionOutputPath example_bucket)
    then VisionOutputJson <$> vision
    else None.

Definition example_featurized_tokens_file (fs : FS) : res File * FS :=
  featurized_tokens_file example_stats example_embeddings process_1
    7 example_bucket example_settings fs.

(** A function on the offsets below [n] is non-decreasing when a run over all
    pairs finds it so. *)
Lemma bounded_monotone (f : nat -> nat) (n : nat) :
  forallb (fun o2 => forallb (fun o1 => (f o1 <=? f o2)%nat) (seq 0 (S o2))) (seq 0 n) = true ->
  forall o1 o2, (o1 <= o2)%nat -> (o2 < n)%nat -> (f o1 <= f o2)%nat.
Proof.
  intros Hall o1 o2 Hle Hlt.
  rewrite forallb_forall in Hall. specialize (Hall o2).
  rewrite forallb_forall in Hall.
  apply Nat.leb_le, Hall; apply in_seq; lia.
Qed.

(** C1, witness: on a page that reads [john smith and more], the query
    [John Smith] is found once at cost 0 within the budget 1, the scan exits
    early at offset 10, and every later offset is over the budget. *)
Lemma find_string_in_page_within_budget_witness :
  (exists matches,
     find_string_in_page 0 signed_page (ascii_str "John Smith") = Ok matches /\
     Forall (fun m => (fm_cost m <= budget (normalize (ascii_str "John Smith")))%nat) matches) /\
  snd (scan 0 signed_page (normalize (ascii_str "John Smith")) 20 0) = EarlyExit 10 /\
  forall o', (10 <= o')%nat -> (o' < length (text signed_page))%nat ->
    (budget (normalize (ascii_str "John Smith"))
     < cost_at signed_page (normalize (ascii_str "John Smith")) o')%nat.
Proof.
  destruct (MatchingFacts.find_string_in_page_within_budget
              0 signed_page (ascii_str "John Smith")) as (_ & Hyield & _ & Hmono).
  split; [|split].
  - eexists. split; [vm_compute; reflexivity|]. apply Hyield. vm_compute. reflexivity.
  - vm_compute. reflexivity.
  - assert (Hcost : forall o1 o2, (o1 <= o2)%nat -> (o2 < length (text signed_page))%nat ->
              (cost_at signed_page (normalize (ascii_str "John Smith")) o1
               <= cost_at signed_page (normalize (ascii_str "John Smith")) o2)%nat).
    { apply bounded_monotone. vm_compute. reflexivity. }
    apply (Hmono Hcost 20%nat).
    vm_compute. reflexivity.
Defined.

(** C2, witness: the end-to-end example of the specification.  The entry is
    written with tokens 0 to 3 labeled title and tokens 4 and 5 labeled
    author, and the theorem gives the gates, the scans, the title and the
    authors. *)
Lemma labeled_entry_written_iff_witness :
  (exists entry, label_document example_doc example_nxml = Ok (Written entry) /\
                 lab_labels entry = [[1; 1; 1; 1; 2; 2]]%nat) /\
  exists nxml gold_title gold_authors,
    example_nxml = NxmlParsed nxml /\
    gold_metadata nxml = inr (gold_title, gold_authors) /\
    LabelingFacts.scans_return example_doc gold_title gold_authors /\
    LabelingFacts.title_found example_doc gold_title /\
    LabelingFacts.authors_share_page example_doc gold_authors.
Proof.
  assert (Hwritten : exists entry, label_document example_doc example_nxml = Ok (Written entry) /\
                       lab_labels entry = [[1; 1; 1; 1; 2; 2]]%nat).
  { eexists. split; [vm_compute; reflexivity|reflexivity]. }
  split; [exact Hwritten|].
  destruct Hwritten as (entry & Hentry & _).
  exact (proj1 (proj1 (LabelingFacts.labeled_entry_written_iff example_doc example_nxml))
               (ex_intro _ entry Hentry)).
Defined.

(** C2, counterexample: the gold title [Abcd] of 4 characters is found on the
    page at cost 0 and the one gold author is found on the same page, all
    scans return, and the document is skipped for its short title: no entry
    is written. *)
Lemma title_and_authors_found_but_not_written :
  label_document short_title_doc short_title_nxml = Ok (Skipped TitleTooShort) /\
  trim_punctuation (join [space] (tokenize (ascii_str "Abcd"))) = ascii_str "Abcd" /\
  gold_authors_of [(ascii_str "John", ascii_str "Smith")]
    = [(ascii_str "John", ascii_str "Smith")] /\
  LabelingFacts.scans_return short_title_doc (ascii_str "Abcd")
    [(ascii_str "John", ascii_str "Smith")] /\
  LabelingFacts.title_found short_title_doc (ascii_str "Abcd") /\
  LabelingFacts.authors_share_page short_title_doc [(ascii_str "John", ascii_str "Smith")].
Proof.
  split; [vm_compute; reflexivity|]. split; [vm_compute; reflexivity|].
  split; [vm_compute; reflexivity|]. split; [|split].
  - intros n page Hn. destruct n as [|n]; [|vm_compute in Hn; discriminate].
    vm_compute in Hn. injection Hn as <-.
    split; [eexists; vm_compute; reflexivity|].
    repeat constructor. eexists. vm_compute. reflexivity.
  - exists 0%nat. eexists. eexists. eexists.
    split; [reflexivity|]. split; [vm_compute; reflexivity|]. left.
  - exists 0%nat. intros author Hauthor. apply list_elem_of_singleton in Hauthor. subst.
    eexists. exists (ascii_str "John Smith"). eexists. eexists.
    split; [reflexivity|]. split; [vm_compute; left|].
    split; [vm_compute; reflexivity|]. left.
Qed.

(** The example document against the example statistics: every stored
    value is in range. *)
Lemma stored_features_in_range_witness :
  exists rows,
    Featurizer.token_scaled_numeric_features example_stats ∅ [example_doc] = Ok rows /\
    Forall (fun row => length row = 17%nat /\
                       Forall FeaturizerFacts.in_stored_range row) rows.
Proof.
  apply FeaturizerFacts.stored_features_in_range.
  - split; [prove_unit_values|reflexivity].
  - split; [prove_unit_values|reflexivity].
  - constructor; [|constructor]. split; [discriminate|].
    constructor; [|constructor].
    repeat (constructor; [
      split; [split; right; split; split; vm_compute; intros Hcmp; discriminate Hcmp
             |split; [reflexivity|prove_unit_values]]|]).
    constructor.
Defined.

(** C3: the code at the failing input.  A token whose left edge is at 200
    on a page of width 100 is stored with the value 200/100 - 1/2 = 3/2 in
    column 0, outside the range from -0.5 to +0.5 that the claim states and
    that the comments of the code announce: the division by the width is
    never clamped. *)
Lemma token_beyond_page_width_out_of_range :
  exists rows row x,
    Featurizer.token_scaled_numeric_features example_stats ∅ [wide_doc] = Ok rows /\
    rows !! 0%nat = Some row /\ row !! 0%nat = Some x /\
    x == 3 # 2 /\ ~ FeaturizerFacts.in_stored_range x.
Proof.
  eexists _, _, _. split; [vm_compute; reflexivity|].
  split; [reflexivity|]. split; [reflexivity|].
  split; [reflexivity|]. intros [_ Hle]. vm_compute in Hle. apply Hle. reflexivity.
Qed.

(** C6, witness: a token that is not in the example table, in two processes. *)
Lemma get_vector_or_random_deterministic_witness :
  exists g, GloveVectors.load example_glove = Ok g /\
  exists v,
    GloveVectors.get_vector_or_random g (ascii_str "Dog") process_1 = (Ok v, process_1) /\
    GloveVectors.get_vector_or_random g (ascii_str "Dog") process_2 = (Ok v, process_2) /\
    length v = (GloveVectors.get_dimensions g + 1)%nat /\
    (head v = Some (1 # 2) <->
       is_Some (GloveVectors.word2index g !! normalize (ascii_str "Dog"))) /\
    (head v = Some (- (1 # 2)) <->
       GloveVectors.word2index g !! normalize (ascii_str "Dog") = None).
Proof.
  destruct (GloveVectors.load example_glove) as [g|e] eqn:E; [|vm_compute in E; discriminate E].
  exists g. split; [reflexivity|].
  exact (EmbeddingFacts.get_vector_or_random_deterministic example_glove g E
           (ascii_str "Dog") process_1 process_2).
Defined.

(** C7, witness: the example embeddings load; [THE] and [the] get one index,
    and [rare], below the minimum frequency, gets the OOV index. *)
Lemma index_for_token_never_zero_witness :
  (exists st, CombinedEmbeddings._ensure_loaded example_embeddings process_1 = Ok st) /\
  CombinedEmbeddings.index_for_token example_embeddings process_1 (ascii_str "THE")
  = CombinedEmbeddings.index_for_token example_embeddings process_1 (ascii_str "the") /\
  CombinedEmbeddings.index_for_token example_embeddings process_1 (ascii_str "rare")
  = Ok CombinedEmbeddings.OOV_INDEX.
Proof.
  destruct (CombinedEmbeddings._ensure_loaded example_embeddings process_1)
    as [st|e] eqn:E; [|vm_compute in E; discriminate E].
  split; [eexists; reflexivity|].
  destruct (proj2 (EmbeddingFacts.index_for_token_never_zero example_embeddings process_1)
              st E) as (_ & Hcase & Hoov).
  split.
  - apply Hcase. reflexivity.
  - apply Hoov. vm_compute. intros Hin.
    repeat (apply elem_of_cons in Hin; destruct Hin as [Hin|Hin]; [discriminate Hin|]).
    inversion Hin.
Defined.

(** C9, witness: a vision output without the example document. *)
Lemma missing_vision_data_zero_overlap_witness :
  VisionOutput.boxes_for_sha_and_page ∅ (doc_sha example_doc) 0 = [] /\
  forall token : Token,
    Featurizer.overlap_flags token
      (VisionOutput.boxes_for_sha_and_page ∅ (doc_sha example_doc) 0) = (0, 0) /\
    fst (Featurizer.overlap_flags token
           (VisionOutput.boxes_for_sha_and_page ∅ (doc_sha example_doc) 0)) - (1 # 2)
      == - (1 # 2) /\
    snd (Featurizer.overlap_flags token
           (VisionOutput.boxes_for_sha_and_page ∅ (doc_sha example_doc) 0)) - (1 # 2)
      == - (1 # 2).
Proof.
  apply FeaturizerFacts.missing_vision_data_zero_overlap.
  left. apply lookup_empty.
Defined.

(** C9, counterexample: with an empty vision output file the featurizing
    build of the example bucket returns the artifact; without the file it
    raises [FileNotFoundError] and builds nothing. *)
Lemma missing_vision_file_is_fatal :
  (exists labeled features,
     fst (example_featurized_tokens_file (example_fs (Some [])))
     = Ok (FeaturizedTokens labeled features)) /\
  fst (example_featurized_tokens_file (example_fs None)) = Raise FileNotFoundError.
Proof.
  split.
  - eexists _, _; vm_compute; reflexivity.
  - vm_compute; reflexivity.
Qed.

(** *** The further properties on the concrete instance *)

Lemma exact_match_ordered (needle haystack : str) :
  (start_pos (exact_match needle haystack) <= end_pos (exact_match needle haystack))%nat.
Proof.
  unfold exact_match. destruct (find_exact needle haystack 0); simpl; lia.
Qed.

(** The entry of the labeled artifact for the example document. *)
Definition example_entry : LabeledDoc :=
  {| lab_doc_id := doc_id example_doc;
     lab_doc_sha := doc_sha example_doc;
     lab_gold_title := ascii_str "Deep Learning for NLP";
     lab_gold_authors := [(ascii_str "John", ascii_str "Smith")];
     lab_pages := [example_page];
     lab_labels := [[1; 1; 1; 1; 2; 2]]%nat |}.

(** X4, witness: the example table. *)
Lemma glove_lookup_last_line_wins_witness :
  exists g, GloveVectors.load example_glove = Ok g /\
    VectorTableFacts.get_vocab_size g = length example_glove /\
    Forall (fun line => length (snd line) = GloveVectors.get_dimensions g) example_glove.
Proof.
  destruct (GloveVectors.load example_glove) as [g|e] eqn:E; [|vm_compute in E; discriminate E].
  exists g. split; [reflexivity|].
  destruct (VectorTableFacts.glove_lookup_last_line_wins example_glove g E) as (H1 & H2 & _).
  split; [exact H1|exact H2].
Defined.

(** X5, witness: the example embeddings. *)
Lemma ensure_loaded_builds_matrix_witness :
  exists st, CombinedEmbeddings._ensure_loaded example_embeddings process_1 = Ok st /\
    CombinedEmbeddings.token2index st !! CombinedEmbeddings.OOV
    = Some CombinedEmbeddings.OOV_INDEX /\
    length (CombinedEmbeddings.matrix st)
    = (length (CombinedEmbeddings.vocabulary example_embeddings) + 2)%nat.
Proof.
  destruct (GloveVectors.load (CombinedEmbeddings.glove example_embeddings)) as [g|e] eqn:E;
    [|vm_compute in E; discriminate E].
  assert (Hoov : CombinedEmbeddings.OOV ∉ CombinedEmbeddings.vocabulary example_embeddings).
  { vm_compute. intros Hin.
    repeat (apply elem_of_cons in Hin; destruct Hin as [Hin|Hin]; [discriminate Hin|]).
    inversion Hin. }
  destruct (MatrixFacts.ensure_loaded_builds_matrix example_embeddings process_1 g E Hoov)
    as (st & H1 & H2 & _ & _ & H5 & _).
  exists st. split; [exact H1|]. split; [exact H2|exact H5].
Defined.

(** X7, witness: a unit box inside a box of side 2. *)
Lemma overlap_is_a_fraction_witness :
  Featurizer.compute_iofirst (0, 0, 1, 1) (0, 0, 2, 2) == 1.
Proof.
  apply (proj1 (proj2 (OverlapFacts.overlap_is_a_fraction (token "Deep" 0) []))).
  repeat split; vm_compute; intros Hcmp; discriminate Hcmp.
Defined.

(** X9, witness: the reference metadata of the example document. *)
Lemma gold_metadata_gates_witness :
  exists gold_title gold_authors,
    gold_metadata {| article_titles := [ascii_str "Deep Learning for NLP"];
                     author_nodes := [(ascii_str "John", ascii_str "Smith")] |}
    = inr (gold_title, gold_authors) /\
    (4 < length gold_title)%nat /\ gold_authors <> [].
Proof.
  eexists _, _.
  assert (E : gold_metadata {| article_titles := [ascii_str "Deep Learning for NLP"];
                               author_nodes := [(ascii_str "John", ascii_str "Smith")] |}
              = inr (ascii_str "Deep Learning for NLP", [(ascii_str "John", ascii_str "Smith")]))
    by (vm_compute; reflexivity).
  split; [exact E|].
  destruct (proj2 (GoldFacts.gold_metadata_gates _) _ _ E) as (_ & Hlen & Hne & _).
  split; [exact Hlen|exact Hne].
Defined.

(** X11, witness: the query [John Smith] on the signed page. *)
Lemma yielded_matches_cover_tokens_witness :
  exists matches,
    find_string_in_page 0 signed_page (ascii_str "John Smith") = Ok matches /\
    Forall (fun m =>
              page_number m = 0%nat /\
              (first_token_index m < one_past_last_token_index m
               <= token_count signed_page)%nat /\
              matched_string m
              = join [space] (slice (tokens signed_page) (first_token_index m)
                                    (one_past_last_token_index m)))
           matches.
Proof.
  destruct (find_string_in_page 0 signed_page (ascii_str "John Smith")) as [matches|e] eqn:E;
    [|vm_compute in E; discriminate E].
  exists matches. split; [reflexivity|].
  exact (PageTextFacts.yielded_matches_cover_tokens 0 signed_page (ascii_str "John Smith")
           exact_match_ordered matches E).
Defined.

(** X13, witness: the entry written for the example document. *)
Lemma written_entry_shape_witness :
  exists entry, label_document example_doc example_nxml = Ok (Written entry) /\
    lab_pages entry = take MAX_PAGE_COUNT (doc_pages example_doc) /\
    length (lab_labels entry) = length (lab_pages entry).
Proof.
  destruct (label_document example_doc example_nxml) as [[why|entry]|e] eqn:E;
    [vm_compute in E; discriminate E| |vm_compute in E; discriminate E].
  exists entry. split; [reflexivity|].
  destruct (LabelFacts.written_entry_shape example_doc example_nxml entry E)
    as (_ & _ & H3 & H4 & _).
  split; [exact H3|exact H4].
Defined.

(** X18, witness: the hashed features of a token of the example page. *)
Lemma hashed_text_features_avoid_mask_witness :
  exists t f,
    hashed_text_features example_embeddings process_1 example_settings (token "Deep" 0)
    = Ok (t, f) /\
    (2 <= t < 2 ^ 31)%Z /\ (1 <= f <= 1024)%Z.
Proof.
  destruct (CombinedEmbeddings.index_for_token example_embeddings process_1
              (tok_text (token "Deep" 0))) as [index|e] eqn:E;
    [|vm_compute in E; discriminate E].
  assert (Hsmall : (Z.of_nat index + 1 < 2 ^ 31)%Z)
    by (vm_compute in E; injection E as <-; reflexivity).
  assert (Hsize : (0 <= font_hash_size example_settings < 2 ^ 31)%Z)
    by (split; [discriminate|reflexivity]).
  destruct (UnlabeledFacts.hashed_text_features_avoid_mask
              example_embeddings process_1 example_settings (token "Deep" 0) index
              E Hsmall Hsize) as (t & f & Hrun & _ & Ht & Hf & _).
  exists t, f. split; [exact Hrun|]. split; [exact Ht|exact Hf].
Defined.

Lemma example_unlabeled_body :
  unlabeled_body (example_fs (Some [])) example_bucket = Ok [example_doc].
Proof. vm_compute. reflexivity. Qed.

Lemma example_labeled_body :
  labeled_body (example_fs (Some [])) example_bucket [example_doc] = Ok [example_entry].
Proof. vm_compute. reflexivity. Qed.

(** A system on which every [close] raises, and one on which the rename of
    the labeled artifact of the example bucket raises. *)
Definition failing_close : BuilderSteps.System :=
  {| BuilderSteps.close_error := fun _ => Some (OtherError "OSError");
     BuilderSteps.rename_error := fun _ => None |}.

Definition failing_rename : BuilderSteps.System :=
  {| BuilderSteps.close_error := fun _ => None;
     BuilderSteps.rename_error := fun temp =>
       if decide (temp = TempPath (LabeledTokensPath example_bucket) 7)
       then Some (OtherError "OSError") else None |}.

(** C8, witness: the labeled build of the example bucket when the rename of
    the labeled artifact raises: the run passes through five states, none
    with a partial file at a final path; the unlabeled artifact is
    finalized, the labeled path holds no file, and the complete temporary
    file of the labeled artifact is left behind. *)
Lemma builders_leave_no_partial_artifact_witness :
  exists steps,
    BuilderSteps.labeled_tokens_file_steps unlabeled_body labeled_body failing_rename
      7 example_bucket (example_fs (Some []))
    = (Raise (OtherError "OSError"), steps) /\
    length steps = 5%nat /\
    BuilderStepFacts.never_partial 7
      [UnlabeledTokensPath example_bucket; LabeledTokensPath example_bucket]
      (example_fs (Some [])) steps /\
    BuilderSteps.end_state (example_fs (Some [])) steps (UnlabeledTokensPath example_bucket)
    = Some (UnlabeledTokens [example_doc]) /\
    BuilderSteps.end_state (example_fs (Some [])) steps (LabeledTokensPath example_bucket)
    = None /\
    BuilderSteps.end_state (example_fs (Some [])) steps
      (TempPath (LabeledTokensPath example_bucket) 7)
    = Some (LabeledTokens [example_entry]).
Proof.
  assert (HU : BuilderFacts.settled 7 (example_fs (Some []))
                 (UnlabeledTokensPath example_bucket)).
  { split; [vm_compute; reflexivity|]. unfold absent_or_complete.
    replace (example_fs (Some []) (UnlabeledTokensPath example_bucket)) with (@None File)
      by (vm_compute; reflexivity). exact I. }
  assert (HL : BuilderFacts.settled 7 (example_fs (Some []))
                 (LabeledTokensPath example_bucket)).
  { split; [vm_compute; reflexivity|]. unfold absent_or_complete.
    replace (example_fs (Some []) (LabeledTokensPath example_bucket)) with (@None File)
      by (vm_compute; reflexivity). exact I. }
  assert (HF : BuilderFacts.settled 7 (example_fs (Some []))
                 (FeaturizedTokensPath example_bucket (featurizing_key example_settings))).
  { split; [vm_compute; reflexivity|]. unfold absent_or_complete.
    replace (example_fs (Some [])
               (FeaturizedTokensPath example_bucket (featurizing_key example_settings)))
      with (@None File) by (vm_compute; reflexivity). exact I. }
  pose proof (BuilderStepFacts.builders_leave_no_partial_artifact
                unlabeled_body labeled_body
                (featurized_body example_stats example_embeddings process_1 example_settings)
                failing_rename 7 example_bucket example_settings (example_fs (Some []))
                HU HL HF) as (_ & Hlabeled & _).
  destruct (BuilderSteps.labeled_tokens_file_steps unlabeled_body labeled_body
              failing_rename 7 example_bucket (example_fs (Some []))) as [r steps] eqn:E.
  destruct (Hlabeled r steps eq_refl) as [Hsafe Hend].
  assert (Hlength : length steps = 5%nat).
  { change steps with (snd (r, steps)). rewrite <- E. vm_compute. reflexivity. }
  assert (Hunlabeled :
            BuilderSteps.end_state (example_fs (Some [])) steps
              (UnlabeledTokensPath example_bucket)
            = Some (UnlabeledTokens [example_doc])).
  { change steps with (snd (r, steps)). rewrite <- E. vm_compute. reflexivity. }
  set (run := BuilderSteps.unlabeled_tokens_file_steps unlabeled_body failing_rename
                7 example_bucket (example_fs (Some []))) in *.
  assert (Hrun : run = (Ok (UnlabeledTokens [example_doc]), snd run)).
  { rewrite (surjective_pairing run) at 1.
    assert (Hfst : fst run = Ok (UnlabeledTokens [example_doc])) by (vm_compute; reflexivity).
    rewrite Hfst. reflexivity. }
  specialize (Hend ltac:(vm_compute; reflexivity) _ _ Hrun).
  assert (Htry : BuilderSteps.labeled_try labeled_body
                   (BuilderSteps.end_state (example_fs (Some [])) (snd run))
                   example_bucket (UnlabeledTokens [example_doc])
                 = Ok (LabeledTokens [example_entry]))
    by (vm_compute; reflexivity).
  unfold BuilderStepFacts.ending in Hend. rewrite Htry in Hend.
  cbn [BuilderSteps.close_error BuilderSteps.rename_error failing_rename] in Hend.
  rewrite decide_True in Hend by reflexivity.
  destruct Hend as (-> & Htemp & Hfinal).
  exists steps. split; [reflexivity|]. split; [exact Hlength|]. split; [exact Hsafe|].
  split; [exact Hunlabeled|]. split; [|exact Htemp].
  rewrite Hfinal. vm_compute. reflexivity.
Defined.

(** C8, counterexample: when [close] raises in the unlabeled build of the
    example bucket, the exception is raised and the temporary file is not
    deleted. *)
Lemma close_failure_leaves_temporary_file :
  exists steps,
    BuilderSteps.unlabeled_tokens_file_steps unlabeled_body failing_close
      7 example_bucket (example_fs (Some []))
    = (Raise (OtherError "OSError"), steps) /\
    BuilderSteps.end_state (example_fs (Some [])) steps
      (TempPath (UnlabeledTokensPath example_bucket) 7)
    = Some BeingWritten.
Proof.
  destruct (BuilderSteps.unlabeled_tokens_file_steps unlabeled_body failing_close
              7 example_bucket (example_fs (Some []))) as [r steps] eqn:E.
  assert (Hr : r = Raise (OtherError "OSError")).
  { change r with (fst (r, steps)). rewrite <- E. vm_compute. reflexivity. }
  assert (Htemp : BuilderSteps.end_state (example_fs (Some [])) steps
                    (TempPath (UnlabeledTokensPath example_bucket) 7)
                  = Some BeingWritten).
  { change steps with (snd (r, steps)). rewrite <- E. vm_compute. reflexivity. }
  exists steps. rewrite Hr. split; [reflexivity|exact Htemp].
Qed.

(** X19, witness: warming the example bucket. *)
Lemma warm_bucket_builds_all_artifacts_witness :
  exists features fs',
    example_featurized_tokens_file (example_fs (Some []))
    = (Ok (FeaturizedTokens (LabeledTokensPath example_bucket) features), fs') /\
    fs' (UnlabeledTokensPath example_bucket) = Some (UnlabeledTokens [example_doc]) /\
    fs' (LabeledTokensPath example_bucket) = Some (LabeledTokens [example_entry]) /\
    example_featurized_tokens_file fs'
    = (Ok (FeaturizedTokens (LabeledTokensPath example_bucket) features), fs').
Proof.
  destruct (featurized_body example_stats example_embeddings process_1 example_settings
              (fold_left VisionOutput.add_line [] ∅) [example_entry])
    as [features|e] eqn:E3; [|vm_compute in E3; discriminate E3].
  assert (HU : PipelineFacts.missing 7 (example_fs (Some []))
                 (UnlabeledTokensPath example_bucket))
    by (split; vm_compute; reflexivity).
  assert (HL : PipelineFacts.missing 7 (example_fs (Some []))
                 (LabeledTokensPath example_bucket))
    by (split; vm_compute; reflexivity).
  assert (HF : PipelineFacts.missing 7 (example_fs (Some []))
                 (FeaturizedTokensPath example_bucket (featurizing_key example_settings)))
    by (split; vm_compute; reflexivity).
  assert (HV : example_fs (Some []) (VisionOutputPath example_bucket)
               = Some (VisionOutputJson []))
    by (vm_compute; reflexivity).
  destruct (PipelineFacts.warm_bucket_builds_all_artifacts
              example_stats example_embeddings process_1 7 example_bucket example_settings
              (example_fs (Some [])) [example_doc] [example_entry] [] features
              HU HL HF HV example_unlabeled_body example_labeled_body E3)
    as (fs' & H1 & H2 & H3 & _ & _ & _ & _ & _ & H9).
  exists features, fs'. unfold example_featurized_tokens_file.
  split; [exact H1|]. split; [exact H2|]. split; [exact H3|apply H9].
Defined.

(** X20, witness: the labeled artifact of the example bucket. *)
Lemma labeled_entries_follow_documents_witness :
  exists kept,
    kept `sublist_of` [example_doc] /\
    Forall2 (fun doc entry =>
               lab_doc_id entry = doc_id doc /\
               lab_doc_sha entry = doc_sha doc /\
               lab_pages entry = take MAX_PAGE_COUNT (doc_pages doc) /\
               exists file, label_document doc file = Ok (Written entry))
            kept [example_entry].
Proof.
  exact (PipelineFacts.labeled_entries_follow_documents
           (example_fs (Some [])) example_bucket [example_doc] [example_entry]
           example_labeled_body).
Defined.

(** X22, witness: the labeled datasets of the example bucket. *)
Lemma labeled_datasets_hold_the_entries_witness :
  exists unlab lab,
    TokenArrays.unlabeled_datasets (example_fs (Some [])) example_bucket = Ok unlab /\
    TokenArraysFacts.well_formed unlab /\
    TokenArrays.labeled_datasets (example_fs (Some [])) example_bucket unlab = Ok lab /\
    map (TokenArrays.read_entry lab) (TokenArrays.lab_doc_metadata lab) = [example_entry].
Proof.
  destruct (TokenArrays.unlabeled_datasets (example_fs (Some [])) example_bucket)
    as [unlab|e] eqn:EU; [|vm_compute in EU; discriminate EU].
  assert (Hdocs : map (TokenArrays.read_doc unlab) (TokenArrays.doc_metadata unlab)
                  = [example_doc])
    by (vm_compute in EU; injection EU as <-; vm_compute; reflexivity).
  assert (Hwf : TokenArraysFacts.well_formed unlab)
    by (vm_compute in EU; injection EU as <-; split; [reflexivity|simpl; auto]).
  pose proof (TokenArraysFacts.labeled_datasets_hold_the_entries
                (example_fs (Some [])) example_bucket unlab Hwf) as Hlab.
  rewrite Hdocs, example_labeled_body in Hlab.
  destruct (TokenArrays.labeled_datasets (example_fs (Some [])) example_bucket unlab)
    as [lab|e] eqn:EL; [|discriminate Hlab].
  exists unlab, lab. split; [reflexivity|]. split; [exact Hwf|]. split; [exact EL|].
  destruct Hlab as [Hentries _]. injection Hentries as Hentries. symmetry. exact Hentries.
Defined.

(** X30, witness: the documents of the example bucket. *)
Lemma documents_of_bucket_are_aligned_witness :
  exists lab features,
    map (TokenArrays.read_entry lab) (TokenArrays.lab_doc_metadata lab) = [example_entry] /\
    featurized_body example_stats example_embeddings process_1 example_settings
                    (fold_left VisionOutput.add_line [] ∅) [example_entry]
    = Ok features /\
    length (Documents.documents_for_bucket lab features) = 1%nat /\
    length (token_hashed_text_features features)
    = length (TokenArrays.lab_token_text_features lab).
Proof.
  destruct (TokenArrays.unlabeled_datasets (example_fs (Some [])) example_bucket)
    as [unlab|e] eqn:EU; [|vm_compute in EU; discriminate EU].
  destruct (TokenArrays.labeled_datasets (example_fs (Some [])) example_bucket unlab)
    as [lab|e] eqn:EL;
    [|vm_compute in EU; injection EU as <-; vm_compute in EL; discriminate EL].
  assert (Hlab : map (TokenArrays.read_entry lab) (TokenArrays.lab_doc_metadata lab)
                 = [example_entry] /\
                 length (TokenArrays.lab_token_text_features lab)
                 = length (TokenArrays.lab_token_numeric_features lab) /\
                 length (TokenArrays.lab_token_labels lab)
                 = length (TokenArrays.lab_token_text_features lab) /\
                 TokenArraysFacts.consecutive 0
                   (concat (map (fun m => TokenArrays.meta_pages (TokenArrays.lab_meta m))
                                (TokenArrays.lab_doc_metadata lab)))
                   (length (TokenArrays.lab_token_text_features lab))).
  { vm_compute in EU. injection EU as <-. vm_compute in EL. injection EL as <-.
    split; [vm_compute; reflexivity|]. split; [reflexivity|]. split; [reflexivity|].
    simpl. auto. }
  destruct Hlab as (Hentries & Hlen & Hlabels & Hcons).
  destruct (featurized_body example_stats example_embeddings process_1 example_settings
              (fold_left VisionOutput.add_line [] ∅) [example_entry])
    as [features|e] eqn:E3; [|vm_compute in E3; discriminate E3].
  rewrite <- Hentries in E3.
  destruct (DocumentsFacts.documents_of_bucket_are_aligned
              example_stats example_embeddings process_1 example_settings
              (fold_left VisionOutput.add_line [] ∅) lab features Hlen Hlabels Hcons E3)
    as (Hhashed & _ & Hdocs).
  exists lab, features. split; [exact Hentries|]. split; [reflexivity|].
  split; [|exact Hhashed].
  apply Forall2_length in Hdocs.
  rewrite <- Hdocs, <- (length_map (TokenArrays.read_entry lab)), Hentries.
  reflexivity.
Defined.

End Examples.

(** ** A second instance: matching with substitutions *)

Module SubstitutionExamples.
Import Labeler Builders Examples.

(** In how many places [needle] differs from the start of [haystack]. *)
Fixpoint mismatches (needle haystack : str) : nat :=
  match needle, haystack with
  | [], _ => 0
  | _ :: _, [] => length needle
  | a :: needle', b :: haystack' =>
      (if (a =? b)%N then 0 else 1) + mismatches needle' haystack'
  end.

(** The cheapest place for [needle] in [haystack], the earliest among the
    cheapest: [best] is the place found so far and its cost. *)
Fixpoint cheapest (needle haystack : str) (position : nat) (best : nat * nat) : nat * nat :=
  match haystack with
  | [] => best
  | _ :: rest =>
      if (length haystack <? length needle)%nat then best
      else
        let here := mismatches needle haystack in
        cheapest needle rest (S position)
                 (if (here <? snd best)%nat then (position, here) else best)
  end.

(** A matcher that allows substitutions, each at the cost 1. *)
Definition substitution_match (needle haystack : str) : MatchResult :=
  if (length haystack <? length needle)%nat
  then {| start_pos := 0; end_pos := length haystack; cost := length needle |}
  else
    let '(position, c) := cheapest needle haystack 0 (0%nat, mismatches needle haystack) in
    {| start_pos := position; end_pos := position + length needle; cost := c |}.

Definition substitution_externals : Externals := {|
  str_lower := @str_lower ascii_externals;
  unicodedata_normalize_NFKC := @unicodedata_normalize_NFKC ascii_externals;
  mmh3_hash := @mmh3_hash ascii_externals;
  np_std := @np_std ascii_externals;
  standard_normal := @standard_normal ascii_externals;
  re_word := @re_word ascii_externals;
  re_digit := @re_digit ascii_externals;
  re_space := @re_space ascii_externals;
  py_hash := @py_hash ascii_externals;
  os_path_basename := @os_path_basename ascii_externals;
  stringmatch_match := substitution_match;
  capitalization_features := @capitalization_features ascii_externals;
  h5_uint32_of_negative := @h5_uint32_of_negative ascii_externals
|}.

#[local] Existing Instance substitution_externals.

Definition sized_token (text : string) (font_size : Q) : Token :=
  {| tok_text := ascii_str text; tok_font := ascii_str "Times";
     tok_left := 0; tok_right := 10; tok_top := 10; tok_bottom := 20;
     tok_font_size := font_size; tok_font_space_width := 2 |}.

(** A page with the title misspelt, a page with the title twice, in two
    font sizes, and a page with the title in a still larger font. *)
Definition misspelt_page : Page :=
  {| page_width := 100; page_height := 100;
     page_tokens := [sized_token "Deep" 8; sized_token "Learming" 8; sized_token "for" 8;
                     sized_token "NLP" 8; sized_token "John" 8; sized_token "Smith" 8] |}.

Definition twice_page : Page :=
  {| page_width := 100; page_height := 100;
     page_tokens := [sized_token "Deep" 8; sized_token "Learning" 8; sized_token "for" 8;
                     sized_token "NLP" 8; sized_token "Deep" 12; sized_token "Learning" 12;
                     sized_token "for" 12; sized_token "NLP" 12] |}.

Definition large_page : Page :=
  {| page_width := 100; page_height := 100;
     page_tokens := [sized_token "Deep" 20; sized_token "Learning" 20;
                     sized_token "for" 20; sized_token "NLP" 20] |}.

Definition three_page_doc : Doc :=
  {| doc_id := ascii_str "0123456789abcdef0123456789abcdef01234567/three.pdf";
     doc_sha := ascii_str "0123456789abcdef0123456789abcdef01234567";
     doc_pages := [misspelt_page; twice_page; large_page] |}.

Definition example_title : str := ascii_str "Deep Learning for NLP".
Definition example_authors : list (str * str) := [(ascii_str "John", ascii_str "Smith")].

(** X14, witness: of the four matches of the title on the three pages, the
    loop keeps the second match of page 1: it costs less than the match of
    page 0, it is in a larger font than the first match of page 1, and page 2,
    where the title costs as little and is larger still, comes later. *)
Lemma title_match_is_cheapest_earliest_witness :
  exists t ams,
    fold_res (search_page example_title example_authors)
             (LabelingFacts.numbered_pages three_page_doc)
             (None, map (fun _ => []) example_authors) = Ok (Some t, ams) /\
    (page_number t, first_token_index t, fm_cost t) = (1, 4, 0)%nat /\
    map (fun m => (first_token_index m, fm_cost m, average_font_size m))
        (LabelingFacts.title_on example_title (0%nat, misspelt_page))
    = [(0, 1, 32 # 4)%nat] /\
    map (fun m => (first_token_index m, fm_cost m, average_font_size m))
        (LabelingFacts.title_on example_title (1%nat, twice_page))
    = [(0, 0, 32 # 4)%nat; (4, 0, 48 # 4)%nat] /\
    map (fun m => (first_token_index m, fm_cost m, average_font_size m))
        (LabelingFacts.title_on example_title (2%nat, large_page))
    = [(0, 0, 80 # 4)%nat] /\
    (forall m, m ∈ LabelingFacts.title_on example_title (1%nat, twice_page) ->
       title_match_ltb m t = false) /\
    forall n page' m,
      LabelingFacts.searched_pages three_page_doc !! n = Some page' ->
      m ∈ LabelingFacts.title_on example_title (n, page') ->
      (fm_cost t <= fm_cost m)%nat /\ ((n < 1)%nat -> (fm_cost t < fm_cost m)%nat).
Proof.
  destruct (fold_res (search_page example_title example_authors)
                     (LabelingFacts.numbered_pages three_page_doc)
                     (None, map (fun _ => []) example_authors))
    as [[[t|] ams]|e] eqn:E;
    [|vm_compute in E; discriminate E|vm_compute in E; discriminate E].
  assert (Ht : (page_number t, first_token_index t, fm_cost t) = (1, 4, 0)%nat)
    by (vm_compute in E; injection E as <- _; reflexivity).
  destruct (MatchChoiceFacts.title_match_is_cheapest_earliest
              three_page_doc example_title example_authors t ams E)
    as (page & Hpage & _ & Hfirst & Hcheapest).
  injection Ht as Hnumber Hindex Hcost. rewrite Hnumber in Hpage, Hfirst, Hcheapest.
  injection Hpage as <-.
  exists t, ams. split; [reflexivity|]. split; [congruence|].
  split; [vm_compute; reflexivity|]. split; [vm_compute; reflexivity|].
  split; [vm_compute; reflexivity|]. split; [exact Hfirst|exact Hcheapest].
Defined.

End SubstitutionExamples.
